(* ===== verification/_CoqProject ===== *)
-Q . S2P
Prelude.v
Utf8.v
HashMaps.v
Integers.v
Codec.v
Protocol.v
Session.v
Streams.v
Producing.v
Consuming.v
AmqpCodes.v
AmqpExec.v
AmqpSimple.v
AmqpValue.v
AmqpMessage.v
AmqpLimits.v
Messages.v
Request.v
Response.v
ClientCodec.v
Effects.v
Dispatcher.v
Options.v
Client.v
Heartbeats.v
Connection.v
Refinement.v
OverBytes.v
ClientApi.v
Errors.v
Environment.v
Producer.v
ProducerRuns.v
Consumer.v
ConsumerRuns.v
Receiving.v
SuperStream.v
SuperRuns.v
WireGuarantees.v
ConnectionGuarantees.v
StreamGuarantees.v
RunGuarantees.v
EndToEnd.v
