(* ===== verification/Prelude.v ===== *)
(** * A verification of the RabbitMQ stream client for Rust

    This library models the two crates of the repository, the wire protocol
    (src/protocol/src) and the client built on it (src/src), and proves what each
    part guarantees.  This first file opens with the guide to the whole; what it
    defines itself follows the guide.

    ** The program

    Bytes come from a TCP or TLS connection.  The codec of the connection
    (src/src/client/codec.rs) cuts responses out of a buffer and appends requests
    to another; frames, commands and AMQP 1.0 messages are encoded and decoded by
    the protocol crate.  One task per connection, the dispatcher
    (client/dispatcher.rs), reads the responses: a reply goes to the call that
    waits under its correlation id, anything else to the handler of the
    connection.  [Client] (client/mod.rs) is that connection: it opens, tunes and
    closes it and has a method per command.  Environments (environment.rs,
    stream_creator.rs) choose the node to connect to; producers (producer.rs)
    number messages, batch them and wait for confirmations; consumers
    (consumer.rs) turn chunks into deliveries; super streams (superstream*.rs)
    route over several streams.

    ** The files, and the code they model

    Foundations.
    - Prelude: results with panics, parsers and writers, the relations between
      them ([emits], [parses], [wire], [sized], [sound], [stable], [consumes],
      [panics], [cut_panics]) and the hint databases that prove them by the structure of a
      codec; the classes [RoundTrips], [SizeExact] and [Reads], by which the codec
      of a part is used without looking inside.
    - Utf8, HashMaps, Integers: [String::from_utf8], [HashMap] as the list of its
      entries, machine integers and the interface of the byteorder crate.
    - Effects: [io S E A], the asynchronous method: it returns, fails, panics or
      waits for ever, always with the state it has reached.

    The protocol crate.
    - Codec: protocol/src/codec/, error.rs.  Protocol: protocol.rs, types.rs,
      response/shims.rs.
    - Session, Streams, Producing, Consuming: the commands of
      protocol/src/commands/, one Module per file of the source.
    - AmqpCodes, AmqpSimple, AmqpValue, AmqpMessage: protocol/src/message/.
      AmqpExec is an executable instance of the crates those types use.
      AmqpLimits: long property sections.
    - Messages: publish.rs, deliver.rs and the published messages of types.rs.
    - Request, Response: protocol/src/request/ and response/.

    The client crate.
    - ClientCodec: client/codec.rs with the loop of [Framed] ([drain], [feed]).
    - Dispatcher: client/dispatcher.rs and handler.rs, as operations on a [World]
      and as the step relation [step], in which calls and task interleave at the
      reads and writes of the shared map, and the task ends by closing the map or by a
      panic.
    - Options: client/options.rs, metadata.rs, message.rs, byte_capacity.rs.
    - Client: client/mod.rs, channel.rs and task.rs, over a connection of messages.
      Heartbeats: which heartbeat tasks run while a client is used.
    - Connection: the TCP or TLS connection of client/mod.rs with the codec on it,
      an implementation of the connection over bytes.  Refinement: what two
      connections must share for the client to behave alike on them ([sim]).
      OverBytes: a server behind a socket whose bytes arrive in any pieces
      ([carries]), and that the connection over bytes behaves as the one that
      exchanges messages with it.
    - ClientApi: the interface the rest of the crate uses, and its implementation
      by a pool of clients.
    - Errors: error.rs.  Environment: environment.rs, stream_creator.rs.
      Producer: producer.rs.  Consumer: consumer.rs.  SuperStream: superstream.rs,
      superstream_producer.rs, superstream_consumer.rs.
    - ProducerRuns, ConsumerRuns, SuperRuns: the step relations in which the calls,
      the timer, the handlers and the polls of a producer, a consumer and a super
      stream consumer interleave, and their invariants.
    - Receiving: a consumer on a connection, from its builder on: its handler is
      given a chunk, the application polls its deliveries, and the credit brings the
      next chunk.

    ** What is proved

    - WireGuarantees: requests, all kinds of responses and messages survive the
      wire (C1, C2, C9, C12); chunks do not matter (C11); both unless a chunk ends
      inside a string, where the decoder may panic (C37); lengths are exact (C23); the
      decoding of a message is characterised (C24), that of a response ends (C25).
      Where the code does otherwise, exactly how: C36 (small negative integers),
      C37 (a cut string), C38 (a truncated message).
    - ConnectionGuarantees: in every interleaving answers match their calls (C13);
      when the dispatcher task ends by closing its map every registered call is
      answered or told, for good, and when it panics those without an answer wait for
      ever (C14), as does a call that inserts after the map was cleared (C39); the
      opening, the calls, the end of a connection (C15, C16, C27, C28), and two waits
      that never end (C40, [consumer_update_unanswered]); one heartbeat task at most,
      and none after a close (C17).
    - StreamGuarantees: sends refine their batches down to the requests on the
      connection (C18); confirmations (C19, and C26 for unknown ids), deliveries
      (C20, [filtered_offsets_shift]), the choice of the node (C29, C30),
      subscriptions (C31), numbering (C32), the accumulator under interleaving (C33),
      closing (C34) and routing (C35).
    - RunGuarantees: whole runs, in every interleaving: each message of a producer
      waits or is called back once (C7), also under [send_with_confirm] (C10); the
      application of a consumer polls the messages of the chunks in order, each once
      (C8), that of a super stream an interleaving of its partitions, until it is
      closed or all of them have ended (C21).
    - EndToEnd: the client over bytes behaves as the client over messages (C3), also
      when writes fail, the connection ends inside a frame or the decoder panics; a
      server reads what an application sent (C4), an application polls what a server
      wrote (C5), and both together: from the builder of a producer to the polls of a
      consumer (C6); TLS is what the options ask for (C22).

    The abstract specifications are [batches] (what a run of sends publishes),
    [numbered] (what a chunk delivers), [cut_from] (what a server makes of the log of
    a stream), [heartbeats_ok] (which heartbeat tasks may run), [settled_by] (what a confirmation does),
    [accounted] and [in_order] (what a run of a producer and of a consumer owes),
    [sim] (behaving alike on two connections), [config_of] (what TLS is to check),
    [sections_of] and [message_of] (what bytes are a message, and which),
    [cuts_string] (where the decoder may panic), [carries] (what arrives on a socket),
    [settles_on] (what heartbeat and frame size are settled), [system_ok] (the
    invariant of the dispatcher), [authenticated] and [opened] (the dialogue that
    opens a connection).

    ** Interfaces

    Code outside the repository is a class, with the documented laws that are
    used: [ByteOrder] (byteorder), [AmqpExt] (chrono, uuid, ordered-float),
    [DashMap] (dashmap), [Mpsc] (tokio's channels), [Transport] (the connection:
    what sending a request makes the receiving half yield; no law at all),
    [Platform] (tokio's sockets, rustls and the file system; no law), [Random]
    (rand), [Murmur] (murmur3).  [Serves] says of a platform that a server is behind
    its sockets: a write that succeeds gives it the bytes that are written, what arrives
    is bytes of its frames, and a socket that has refused a write goes on refusing.  Each has an instance, [big_endian], [amqp_exec],
    [gmap_dashmap], [queue_mpsc], [scripted], [sockets], [first_choice],
    [length_hash], with which the theorems are run on concrete inputs.  Of
    tokio-util's [Framed] the documented loop is written out in Connection:
    [decode] until it has no more, what remains at the end of the stream is an
    error, [encode] into a buffer that is then written.

    ** Bounds and fuel

    - Recursion on the length of an input ([Value_decode], [AmqpMessage_decode],
      [drain]) has that length as its fuel; it never runs out (C25,
      [AmqpMessage_loop_settles], [Value_fuel_settles], [drain_panics]).
    - [turns] is the number of items a call of a client may wait for: a call whose
      answer comes first needs one (C16), one whose connection ends needs two.
      Running out of turns is the panic [OutOfFuel], which no theorem allows as a
      result.
    - [attempts] bounds the load balancer's loop, which has no bound in the code.
    - Sizes and counters keep their width: [u32] sizes wrap ([add32], [wrap32]),
      [u64] sequences and offsets are modulo 2^64, with or without the overflow
      checks of the build where that matters ([overflow_checks]).

    ** Simplifications

    - A method runs to its next wait without interleaving, but for the places where
      the interleaving matters, which are step relations: the dispatcher's map
      ([step]), the accumulator ([acc_step]), the confirmations and sends of a
      producer ([producer_step]), the deliveries and polls of consumers
      ([consumer_step], [super_step]).
    - The tasks that run a handler per message are listed in the order they are
      spawned; the runs above let them interleave in any order.  That a server sends
      a chunk against a credit, one for the subscription and one for each chunk
      handled, is part of [consumer_step].
    - Time is a number the environment provides; the heartbeat tasks and the timer
      of the producer are their ticks ([heartbeat_tick], [batch_tick]).  The tasks of
      a connection are kept in a list, and a handle is a place in it: dropping the
      handle marks the task aborted, and its ticks do nothing from then on.
    - What a server does is assumed where a theorem needs it, and no more: C5 and C6
      have the server grant the declaration and the subscription and send one chunk
      for each credit ([declares], [subscribes]).
    - The capacity of memory is not bounded, but where the code asks for it.

    ** Not modelled

    The log and the texts of errors; the metrics collector, a trait without a body
    whose one implementation does nothing (what the client tells it is kept in
    [collected]); the roots of the crates, examples, benchmark and integration
    tests, which use the library and add nothing to it. *)
From stdpp Require Export base list numbers strings gmap fin_maps.
From Stdlib Require Export ZArith Lia.
From Stdlib Require Strings.Byte Strings.String.

#[global] Open Scope Z_scope.

(** ** Bytes *)

Abbreviation byte := Byte.byte (only parsing).
Abbreviation bytes := (list Byte.byte) (only parsing).

Definition Z_of_byte (b : byte) : Z := Z.of_N (Byte.to_N b).

Definition byte_of_Z (z : Z) : byte :=
  match Byte.of_N (Z.to_N (z mod 256)) with Some b => b | None => Byte.x00 end.

#[global] Instance byte_eq_dec : EqDecision byte := Byte.byte_eq_dec.
#[global] Instance byte_countable : Countable byte :=
  inj_countable Byte.to_N Byte.of_N Byte.of_to_N.

(** The UTF-8 (here ASCII) bytes of a string literal of the source. *)
Definition str (s : string) : bytes := String.list_byte_of_string s.

(** [len()] of a vector or a slice, as an integer. *)
Definition len {A} (l : list A) : Z := Z.of_nat (length l).

(** ** Results: [Result<A, E>] of the source, with the panics it can run into *)

Inductive panic :=
  | SliceIndex
  | SplitAt
  | UnwrapNone
  | CapacityOverflow
  | ExplicitPanic
  | OutOfFuel.

Inductive result (E A : Type) :=
  | Ok (a : A)
  | Err (e : E)
  | Panic (p : panic).
Arguments Ok {E A} _.
Arguments Err {E A} _.
Arguments Panic {E A} _.

#[global] Instance result_ret E : MRet (result E) := λ A a, Ok a.
#[global] Instance result_bind E : MBind (result E) := λ A B f r,
  match r with Ok a => f a | Err e => Err e | Panic p => Panic p end.

Definition is_ok {E A} (r : result E A) : bool :=
  match r with Ok _ => true | _ => false end.
Definition is_panic {E A} (r : result E A) : bool :=
  match r with Panic _ => true | _ => false end.

(** ** Writers: [fn encode(&self, writer: &mut impl Write) -> Result<(), E>]

    The writer is the growable buffer the client hands to [encode]; what an
    encoder wrote before it failed stays in the buffer. *)

Definition writer (E A : Type) : Type := bytes -> bytes * result E A.

#[global] Instance writer_ret E : MRet (writer E) := λ A a buf, (buf, Ok a).
#[global] Instance writer_bind E : MBind (writer E) := λ A B f w buf,
  match w buf with
  | (buf', Ok a) => f a buf'
  | (buf', Err e) => (buf', Err e)
  | (buf', Panic p) => (buf', Panic p)
  end.

Definition write_all {E} (bs : bytes) : writer E unit := λ buf, (buf ++ bs, Ok tt).
Definition wfail {E A} (e : E) : writer E A := λ buf, (buf, Err e).

(** [for x in self { enc(x)?; }]. *)
Fixpoint write_each {E A} (enc : A -> writer E unit) (l : list A) : writer E unit :=
  match l with
  | [] => mret tt
  | x :: l' => enc x;; write_each enc l'
  end.

(** [?] at a call whose error type is converted with [From]. *)
Definition map_werr {E F A} (f : E -> F) (w : writer E A) : writer F A := λ buf,
  match w buf with
  | (buf', Ok a) => (buf', Ok a)
  | (buf', Err e) => (buf', Err (f e))
  | (buf', Panic p) => (buf', Panic p)
  end.

(** ** Parsers: [fn decode(input: &[u8]) -> Result<(&[u8], A), E>] *)

Definition parser (E A : Type) : Type := bytes -> result E (bytes * A).

#[global] Instance parser_ret E : MRet (parser E) := λ A a input, Ok (input, a).
#[global] Instance parser_bind E : MBind (parser E) := λ A B k p input,
  match p input with
  | Ok (input', a) => k a input'
  | Err e => Err e
  | Panic x => Panic x
  end.

Definition fail {E A} (e : E) : parser E A := λ _, Err e.
Definition abort {E A} (x : panic) : parser E A := λ _, Panic x.

(** [?] on a [Result] that does not consume input. *)
Definition lift {E A} (r : result E A) : parser E A := λ input,
  match r with Ok a => Ok (input, a) | Err e => Err e | Panic x => Panic x end.

Definition unwrap {E A} (o : option A) : parser E A :=
  match o with Some a => mret a | None => abort UnwrapNone end.

(** [?] at a call whose error type is converted with [From]. *)
Definition map_err {E F A} (f : E -> F) (p : parser E A) : parser F A := λ input,
  match p input with Ok x => Ok x | Err e => Err (f e) | Panic x => Panic x end.

(** [let (_, a) = p(input)?] with the old [input] used afterwards. *)
Definition peek {E A} (p : parser E A) : parser E A := λ input,
  match p input with Ok (_, a) => Ok (input, a) | Err e => Err e | Panic x => Panic x end.

(** [let (_, a) = p(&body)?] on bytes other than the input. *)
Definition on {E A} (body : bytes) (p : parser E A) : parser E A := λ input,
  match p body with Ok (_, a) => Ok (input, a) | Err e => Err e | Panic x => Panic x end.

(** ** Loops: [for _ in 0..n], with an early return on [?]

    The number of iterations comes from the wire and can be any 32-bit value,
    so the loop recurses on the binary representation: a failing iteration
    ends it at once. *)

Fixpoint iter_pos {E S} (p : positive) (body : S -> result E S) (s : S) : result E S :=
  match p with
  | xH => body s
  | xO q => s' ← iter_pos q body s; iter_pos q body s'
  | xI q => s' ← body s; s'' ← iter_pos q body s'; iter_pos q body s''
  end.

Definition for_range {E S} (n : Z) (body : S -> result E S) (s : S) : result E S :=
  match n with Zpos p => iter_pos p body s | _ => Ok s end.

(** A loop whose body parses the remaining input and updates an accumulator. *)
Definition loop_n {E S} (n : Z) (body : S -> parser E S) (s : S) : parser E S := λ input,
  for_range n (λ '(i, s), body s i) (input, s).

Fixpoint iter_nat {E S} (n : nat) (body : S -> result E S) (s : S) : result E S :=
  match n with O => Ok s | S n' => s' ← body s; iter_nat n' body s' end.

Fixpoint loop_nat {E S} (n : nat) (body : S -> parser E S) (s : S) : parser E S :=
  match n with O => mret s | S n' => s' ← body s; loop_nat n' body s' end.

(** Every element of a list, as a recursive function. *)
Definition all {A} (P : A -> Prop) : list A -> Prop :=
  fix go l := match l with [] => True | x :: l => P x ∧ go l end.

Lemma all_Forall {A} (P : A -> Prop) l : all P l <-> Forall P l.
Proof. induction l; simpl; [by split|]. rewrite Forall_cons. tauto. Qed.

Lemma Forall_mp {A} (P Q : A -> Prop) l :
  Forall P l -> Forall (λ x, P x -> Q x) l -> Forall Q l.
Proof. induction 1; inversion_clear 1; constructor; auto. Qed.

(** ** Judgements on writers and parsers *)

Definition emits {E} (w : writer E unit) (bs : bytes) : Prop :=
  ∀ buf, w buf = (buf ++ bs, Ok tt).

Definition parses {E A} (p : parser E A) (bs : bytes) (a : A) : Prop :=
  ∀ rest, p (bs ++ rest) = Ok (rest, a).

(** What [w] writes, [p] reads back as [a]. *)
Definition wire {E F A} (w : writer E unit) (p : parser F A) (a : A) : Prop :=
  ∃ bs, emits w bs ∧ parses p bs a.

Definition wrap32 (z : Z) : Z := z mod 2 ^ 32.
#[global] Arguments wrap32 z : simpl never.

(** [w] succeeds and writes [n] bytes, counted modulo 2^32. *)
Definition sized {E} (w : writer E unit) (n : Z) : Prop :=
  ∃ bs, emits w bs ∧ n = wrap32 (len bs).

(** Every value [p] returns satisfies [P]. *)
Definition sound {E A} (p : parser E A) (P : A -> Prop) : Prop :=
  ∀ input rest a, p input = Ok (rest, a) -> P a.

(** [p] leaves a suffix of its input, at least [n] bytes shorter. *)
Definition consumes {E A} (n : nat) (p : parser E A) : Prop :=
  ∀ input rest a, p input = Ok (rest, a) -> ∃ c, input = c ++ rest ∧ (n <= length c)%nat.

(** Whatever the input, [p] panics with a [Q] only. *)
Definition panics {E A} (Q : panic -> Prop) (p : parser E A) : Prop :=
  ∀ input x, p input = Panic x -> Q x.

Class HasIncomplete E := is_incomplete : E -> bool.

(** An answer of [p] other than "incomplete" does not change when more bytes
    arrive: the property a decoder needs to be run on a growing buffer. *)
Definition stable {E A} `{HasIncomplete E} (p : parser E A) : Prop := ∀ input more,
  match p input with
  | Ok (rest, a) => p (input ++ more) = Ok (rest ++ more, a)
  | Err e => is_incomplete e = false -> p (input ++ more) = Err e
  | Panic _ => True
  end.

(** An input cut short, of one [p] reads, makes [p] panic with a [Q] only. *)
Definition cut_panics {E A} (Q : panic -> Prop) (p : parser E A) : Prop :=
  ∀ input more rest a x, p (input ++ more) = Ok (rest, a) -> p input = Panic x -> Q x.

Create Rewrite HintDb wrap32.
Create HintDb sizes.
Create HintDb wire.
Create HintDb sized.
Create HintDb sound.
Create HintDb stable.
Create HintDb consumes.
Create HintDb panics.
Create HintDb cuts.

(** ** Bytes and lengths *)

Lemma Z_of_byte_range b : 0 <= Z_of_byte b < 256.
Proof. unfold Z_of_byte. pose proof (Byte.to_N_bounded b). lia. Qed.

Lemma Z_of_byte_of_Z z : Z_of_byte (byte_of_Z z) = z mod 256.
Proof.
  unfold Z_of_byte, byte_of_Z.
  pose proof (Z.mod_pos_bound z 256 eq_refl) as Hb.
  destruct (Byte.of_N (Z.to_N (z mod 256))) as [b|] eqn:Hof.
  - apply Byte.to_of_N in Hof. rewrite Hof. lia.
  - apply Byte.of_N_None_iff in Hof. lia.
Qed.

Lemma byte_of_Z_of_byte b : byte_of_Z (Z_of_byte b) = b.
Proof.
  unfold byte_of_Z. rewrite Z.mod_small by apply Z_of_byte_range.
  unfold Z_of_byte. rewrite N2Z.id, Byte.of_to_N. reflexivity.
Qed.

Lemma len_nonneg {A} (l : list A) : 0 <= len l.
Proof. unfold len. lia. Qed.

Lemma len_app {A} (l k : list A) : len (l ++ k) = len l + len k.
Proof. unfold len. rewrite length_app. lia. Qed.

Lemma len_cons {A} (x : A) l : len (x :: l) = 1 + len l.
Proof. unfold len. simpl. lia. Qed.

Lemma take_len_app {A} (l k : list A) : take (Z.to_nat (len l)) (l ++ k) = l.
Proof. unfold len. rewrite Nat2Z.id. apply take_app_length. Qed.

Lemma drop_len_app {A} (l k : list A) : drop (Z.to_nat (len l)) (l ++ k) = k.
Proof. unfold len. rewrite Nat2Z.id. apply drop_app_length. Qed.

Lemma wrap32_wrap32 z : wrap32 (wrap32 z) = wrap32 z.
Proof. apply Z.mod_mod. lia. Qed.

Lemma wrap32_small z : 0 <= z < 2 ^ 32 -> wrap32 z = z.
Proof. apply Z.mod_small. Qed.

Lemma wrap32_add_l a b : wrap32 (wrap32 a + b) = wrap32 (a + b).
Proof. unfold wrap32. apply Zplus_mod_idemp_l. Qed.

Lemma wrap32_add_r a b : wrap32 (a + wrap32 b) = wrap32 (a + b).
Proof. unfold wrap32. apply Zplus_mod_idemp_r. Qed.

Hint Rewrite wrap32_wrap32 wrap32_add_l wrap32_add_r : wrap32.

(** Equality modulo 2^32: additions of sizes may wrap anywhere in a sum. *)
Definition eqm32 (a b : Z) : Prop := wrap32 a = wrap32 b.

#[global] Instance eqm32_equivalence : Equivalence eqm32.
Proof. split; red; unfold eqm32; congruence. Qed.

#[global] Instance eqm32_add : Proper (eqm32 ==> eqm32 ==> eqm32) Z.add.
Proof.
  intros a a' Ha b b' Hb. unfold eqm32 in *.
  by rewrite <- wrap32_add_l, <- wrap32_add_r, Ha, Hb, wrap32_add_l, wrap32_add_r.
Qed.

Lemma wrap32_eqm z : eqm32 (wrap32 z) z.
Proof. apply wrap32_wrap32. Qed.

Lemma eqm32_eq a b : a = b -> eqm32 a b.
Proof. by intros ->. Qed.

(** Two sums of sizes agree modulo 2^32. *)
Ltac wrap32_sums :=
  lazymatch goal with |- wrap32 ?a = wrap32 ?b => change (eqm32 a b) end;
  rewrite ?wrap32_eqm; apply eqm32_eq; lia.
Ltac wrap32_solve := autounfold with sizes; try reflexivity; wrap32_sums.

(** Sums known to stay below 2^32, from the inside out. *)
Ltac wrap32_bounded :=
  repeat match goal with
  | |- context [wrap32 ?a] =>
      lazymatch a with
      | context [wrap32 _] => fail
      | _ => rewrite (wrap32_small a) by lia
      end
  end.

(** ** Loops *)

Lemma iter_nat_add {E S} (body : S -> result E S) n m s :
  iter_nat (n + m) body s = iter_nat n body s ≫= iter_nat m body.
Proof.
  revert s. induction n as [|n IH]; intros s; simpl; [done|].
  destruct (body s); simpl; auto.
Qed.

Lemma iter_pos_nat {E S} (body : S -> result E S) p s :
  iter_pos p body s = iter_nat (Pos.to_nat p) body s.
Proof.
  revert s. induction p as [p IH|p IH|]; intros s; cbn [iter_pos].
  - rewrite Pos2Nat.inj_xI.
    replace (2 * Pos.to_nat p)%nat with (Pos.to_nat p + Pos.to_nat p)%nat by lia.
    cbn [iter_nat]. destruct (body s) as [s'|e|x]; [|done..]. cbn.
    rewrite iter_nat_add, IH. destruct (iter_nat _ _ s'); [apply IH|done..].
  - rewrite Pos2Nat.inj_xO.
    replace (2 * Pos.to_nat p)%nat with (Pos.to_nat p + Pos.to_nat p)%nat by lia.
    rewrite iter_nat_add, IH. destruct (iter_nat _ _ s); [apply IH|done..].
  - change (Pos.to_nat 1) with 1%nat. simpl. destruct (body s); done.
Qed.

Lemma for_range_nat {E S} (body : S -> result E S) n s :
  for_range n body s = iter_nat (Z.to_nat n) body s.
Proof. destruct n; simpl; [done|apply iter_pos_nat|done]. Qed.

Lemma loop_n_nat {E S} (body : S -> parser E S) n s input :
  loop_n n body s input = loop_nat (Z.to_nat n) body s input.
Proof.
  unfold loop_n. rewrite for_range_nat. generalize (Z.to_nat n) as k. clear n.
  intros k. revert s input. induction k as [|k IH]; intros s input; [done|].
  simpl. unfold mbind, parser_bind, result_bind.
  destruct (body s input) as [[i' s']|e|x]; [apply IH|done..].
Qed.

(** ** Writers *)

(** Writers that do the same on every buffer. *)
Definition weq {E A} (w1 w2 : writer E A) : Prop := ∀ buf, w1 buf = w2 buf.

#[global] Instance weq_equivalence E A : Equivalence (weq (E:=E) (A:=A)).
Proof. split; red; unfold weq; congruence. Qed.

#[global] Instance weq_bind E A :
  Proper (weq ==> weq ==> weq) (λ (w1 : writer E unit) (w2 : writer E A), w1;; w2).
Proof.
  intros w1 w1' H1 w2 w2' H2 buf. unfold mbind, writer_bind. rewrite H1.
  by destruct (w1' buf) as [buf' [[]|e|x]].
Qed.

Lemma weq_seq {E A} (w1 w1' : writer E unit) (w2 w2' : writer E A) :
  weq w1 w1' -> weq w2 w2' -> weq (w1;; w2) (w1';; w2').
Proof. intros H1 H2. by apply weq_bind. Qed.

Section writers.
Context {E : Type}.
Implicit Types (w : writer E unit).

Lemma emits_ret : emits (E:=E) (mret tt) [].
Proof. intros buf. rewrite app_nil_r. done. Qed.

Lemma emits_write_all bs : emits (E:=E) (write_all bs) bs.
Proof. intros buf. done. Qed.

Lemma emits_seq w1 w2 b1 b2 :
  emits w1 b1 -> emits w2 b2 -> emits (w1;; w2) (b1 ++ b2).
Proof.
  intros H1 H2 buf. unfold mbind, writer_bind. rewrite H1, H2, <- app_assoc. done.
Qed.

Lemma emits_unique w b1 b2 : emits w b1 -> emits w b2 -> b1 = b2.
Proof.
  intros H1 H2. specialize (H1 []). specialize (H2 []).
  rewrite H1 in H2. by inversion H2.
Qed.

Lemma emits_map_werr {F} (f : E -> F) w bs : emits w bs -> emits (map_werr f w) bs.
Proof. intros H buf. unfold map_werr. by rewrite H. Qed.

Lemma emits_weq w1 w2 bs : weq w1 w2 -> emits w1 bs -> emits w2 bs.
Proof. intros H H1 buf. by rewrite <- H. Qed.

Lemma weq_ret_l w : weq (mret tt;; w) w.
Proof. done. Qed.

Lemma weq_ret_r w : weq (w;; mret tt) w.
Proof.
  intros buf. unfold mbind, writer_bind. destruct (w buf) as [buf' [[]|e|x]]; done.
Qed.

Lemma weq_assoc w1 w2 w3 : weq ((w1;; w2);; w3) (w1;; w2;; w3).
Proof.
  intros buf. unfold mbind, writer_bind.
  destruct (w1 buf) as [buf1 [[]|e|x]]; [|done..].
  by destruct (w2 buf1) as [buf2 [[]|e|x]].
Qed.

Lemma write_each_app {A} (enc : A -> writer E unit) l k :
  weq (write_each enc (l ++ k)) (write_each enc l;; write_each enc k).
Proof.
  induction l as [|x l IH]; cbn [write_each app]; [done|].
  etransitivity; [apply weq_seq; [reflexivity|exact IH]|]. symmetry. apply weq_assoc.
Qed.

Lemma write_each_fmap {A B} (enc : A -> writer E unit) (f : B -> A) l :
  write_each enc (f <$> l) = write_each (λ x, enc (f x)) l.
Proof. induction l as [|x l IH]; cbn; [done|]. by f_equal; rewrite IH. Qed.

Lemma sized_ret : sized (E:=E) (mret tt) 0.
Proof. exists []. split; [apply emits_ret|done]. Qed.

Lemma sized_seq w1 w2 n1 n2 :
  sized w1 n1 -> sized w2 n2 -> sized (w1;; w2) (wrap32 (n1 + n2)).
Proof.
  intros (b1 & H1 & ->) (b2 & H2 & ->). exists (b1 ++ b2).
  split; [by apply emits_seq|]. rewrite len_app. by autorewrite with wrap32.
Qed.

Lemma sized_eq w n m : sized w n -> n = m -> sized w m.
Proof. by intros H ->. Qed.

Lemma sized_wrap w n : sized w n -> wrap32 n = n.
Proof. intros (b & _ & ->). apply wrap32_wrap32. Qed.

Lemma sized_write_all bs : sized (E:=E) (write_all bs) (wrap32 (len bs)).
Proof. exists bs. split; [apply emits_write_all|done]. Qed.

Lemma sized_map_werr {F} (f : E -> F) w n : sized w n -> sized (map_werr f w) n.
Proof. intros (b & H & ->). exists b. split; [by apply emits_map_werr|done]. Qed.

Lemma fold_size_acc {A} (size : A -> Z) l acc :
  fold_left (λ acc x, wrap32 (acc + size x)) l (wrap32 acc) =
  wrap32 (acc + fold_left (λ acc x, wrap32 (acc + size x)) l 0).
Proof.
  revert acc. induction l as [|x l IH]; intros acc; cbn [fold_left].
  - f_equal. lia.
  - rewrite wrap32_add_l, IH, (IH (0 + size x)). wrap32_solve.
Qed.

(** [self.iter().fold(0, |acc, v| acc + size(v))] is the size of the loop. *)
Lemma sized_each {A} (enc : A -> writer E unit) (size : A -> Z) l :
  Forall (λ x, sized (enc x) (size x)) l ->
  sized (write_each enc l) (fold_left (λ acc x, wrap32 (acc + size x)) l 0).
Proof.
  induction 1 as [|x l Hx Hl IH]; cbn [fold_left write_each]; [apply sized_ret|].
  rewrite fold_size_acc. by apply sized_seq.
Qed.
End writers.

(** ** Reading back what was written *)

Section wire.
Context {E F : Type}.
Implicit Types (w : writer E unit).

Lemma wire_seq {A B} w1 w2 (p : parser F A) (k : A -> parser F B) a b :
  wire w1 p a -> wire w2 (k a) b -> wire (w1;; w2) (p ≫= k) b.
Proof.
  intros (b1 & Hw1 & Hp1) (b2 & Hw2 & Hp2). exists (b1 ++ b2).
  split; [by apply emits_seq|]. intros rest.
  unfold mbind, parser_bind. rewrite <- app_assoc, Hp1. apply Hp2.
Qed.

Lemma wire_last {A B} w (p : parser F A) (k : A -> parser F B) a b :
  wire w p a -> (∀ input, k a input = Ok (input, b)) -> wire w (p ≫= k) b.
Proof.
  intros (bs & Hw & Hp) Hk. exists bs. split; [done|]. intros rest.
  unfold mbind, parser_bind. rewrite Hp. apply Hk.
Qed.

Lemma wire_ret {A} (a : A) : wire (E:=E) (mret tt) (mret (M:=parser F) a) a.
Proof. exists []. split; [apply emits_ret|done]. Qed.

Lemma wire_ext {A} w (p q : parser F A) a :
  wire w p a -> (∀ input, q input = p input) -> wire w q a.
Proof. intros (bs & Hw & Hp) Hq. exists bs. split; [done|]. intros rest. by rewrite Hq. Qed.

Lemma wire_eq {A} w (p : parser F A) a b : wire w p a -> a = b -> wire w p b.
Proof. by intros H ->. Qed.

Lemma wire_map_err {G A} (f : F -> G) w (p : parser F A) a :
  wire w p a -> wire w (map_err f p) a.
Proof.
  intros (bs & Hw & Hp). exists bs. split; [done|]. intros rest.
  unfold map_err. by rewrite Hp.
Qed.

Lemma wire_map_werr {G A} (f : E -> G) w (p : parser F A) a :
  wire w p a -> wire (map_werr f w) p a.
Proof. intros (bs & Hw & Hp). exists bs. split; [by apply emits_map_werr|done]. Qed.

Lemma wire_peek {A B} w (p : parser F A) (k : A -> parser F B) a b :
  (∃ bs more, emits w (bs ++ more) ∧ parses p bs a) ->
  wire w (k a) b -> wire w (peek p ≫= k) b.
Proof.
  intros (bs & more & He & Hp) (bs' & Hw & Hk).
  rewrite <- (emits_unique _ _ _ He Hw) in *.
  exists (bs ++ more). split; [done|]. intros rest.
  unfold mbind, parser_bind, peek. rewrite <- app_assoc, Hp, app_assoc. apply Hk.
Qed.

(** A decoded value read back from [w]'s own output. *)
Lemma wire_run {A} w (p : parser F A) a rest :
  wire w p a -> p ((w []).1 ++ rest) = Ok (rest, a).
Proof. intros (bs & Hw & Hp). rewrite Hw. apply Hp. Qed.

(** A counted loop mirrors the loop that wrote its input: the accumulator goes
    through the same steps as a fold over the list that was written. *)
Lemma wire_fold {A S} (enc : A -> writer E unit) (body : S -> parser F S) (f : S -> A -> S) l n s :
  Forall (λ x, ∀ s, wire (enc x) (body s) (f s x)) l -> n = len l ->
  wire (write_each enc l) (loop_n n body s) (fold_left f l s).
Proof.
  intros Hl ->. eapply wire_ext; [|intros; apply loop_n_nat].
  unfold len. rewrite Nat2Z.id. revert s.
  induction Hl as [|x l Hx Hl IH]; intros s; simpl; [apply wire_ret|].
  eapply wire_seq; [apply Hx|apply IH].
Qed.

Lemma fold_push {A B} (f : A -> B) l acc :
  fold_left (λ acc x, acc ++ [f x]) l acc = acc ++ (f <$> l).
Proof.
  revert acc. induction l as [|x l IH]; intros acc; simpl; [by rewrite app_nil_r|].
  by rewrite IH, <- app_assoc.
Qed.

(** The loop that collects what it reads, when reading gives [f x] back for [x]. *)
Lemma wire_collect {A B} (enc : A -> writer E unit) (body : list B -> parser F (list B)) f l n :
  Forall (λ x, ∀ acc, wire (enc x) (body acc) (acc ++ [f x])) l -> n = len l ->
  wire (write_each enc l) (loop_n n body []) (f <$> l).
Proof.
  intros Hl Hn. rewrite <- (app_nil_l (f <$> l)), <- fold_push. by apply wire_fold.
Qed.

Lemma wire_loop {A} (enc : A -> writer E unit) (p : parser F A) l n :
  Forall (λ x, wire (enc x) p x) l -> n = len l ->
  wire (write_each enc l) (loop_n n (λ acc, v ← p; mret (acc ++ [v])) []) l.
Proof.
  intros Hl Hn. rewrite <- (list_fmap_id l) at 2. apply wire_collect; [|done].
  eapply Forall_impl; [exact Hl|]. intros x Hx acc. eapply wire_last; [exact Hx|done].
Qed.
End wire.

(** ** What a parser may return *)

Section sound.
Context {E : Type}.

Lemma sound_ret {A} (a : A) (P : A -> Prop) : P a -> sound (mret (M:=parser E) a) P.
Proof. intros Ha input rest b [= <- <-]. done. Qed.

Lemma sound_bind {A B} (p : parser E A) (k : A -> parser E B) (P : A -> Prop) Q :
  sound p P -> (∀ a, P a -> sound (k a) Q) -> sound (p ≫= k) Q.
Proof.
  intros Hp Hk input rest b. unfold mbind, parser_bind.
  destruct (p input) as [[i a]|e|x] eqn:Ep; [|done..].
  intros H. eapply (Hk a); [|exact H]. eapply Hp. exact Ep.
Qed.

Lemma sound_weaken {A} (p : parser E A) (P Q : A -> Prop) :
  sound p P -> (∀ a, P a -> Q a) -> sound p Q.
Proof. intros Hp HPQ input rest a Ha. apply HPQ. by eapply Hp. Qed.

Lemma sound_true {A} (p : parser E A) : sound p (λ _, True).
Proof. done. Qed.

Lemma sound_fail {A} (e : E) (P : A -> Prop) : sound (fail e) P.
Proof. done. Qed.

Lemma sound_abort {A} x (P : A -> Prop) : sound (abort (E:=E) x) P.
Proof. done. Qed.

Lemma sound_unwrap {A} (o : option A) (P : A -> Prop) :
  (∀ a, o = Some a -> P a) -> sound (unwrap (E:=E) o) P.
Proof. intros H input rest a. destruct o; simpl; [|done]. intros [= <- <-]. auto. Qed.

Lemma sound_lift {A} (r : result E A) (P : A -> Prop) :
  (∀ a, r = Ok a -> P a) -> sound (lift r) P.
Proof. intros H input rest a. destruct r; simpl; [|done..]. intros [= <- <-]. auto. Qed.

Lemma sound_unwrap_eq {A} (o : option A) : sound (unwrap (E:=E) o) (λ a, o = Some a).
Proof. by apply sound_unwrap. Qed.

Lemma sound_map_err {F A} (f : E -> F) (p : parser E A) P :
  sound p P -> sound (map_err f p) P.
Proof.
  intros Hp input rest a. unfold map_err.
  destruct (p input) as [[i b]|e|x] eqn:Ep; [|done..]. intros [= <- <-]. by eapply Hp.
Qed.

Lemma sound_peek {A} (p : parser E A) P : sound p P -> sound (peek p) P.
Proof.
  intros Hp input rest a. unfold peek.
  destruct (p input) as [[i b]|e|x] eqn:Ep; [|done..]. intros [= <- <-]. by eapply Hp.
Qed.

Lemma sound_on {A} body (p : parser E A) P : sound p P -> sound (on body p) P.
Proof.
  intros Hp input rest a. unfold on.
  destruct (p body) as [[i b]|e|x] eqn:Ep; [|done..]. intros [= <- <-]. by eapply Hp.
Qed.

Lemma sound_loop {S} n (body : S -> parser E S) s (I : S -> Prop) :
  I s -> (∀ s, I s -> sound (body s) I) -> sound (loop_n n body s) I.
Proof.
  intros Hs Hb input rest a. rewrite loop_n_nat. revert s Hs input.
  induction (Z.to_nat n) as [|k IH]; intros s Hs input; simpl.
  - by intros [= <- <-].
  - unfold mbind, parser_bind. destruct (body s input) as [[i s']|e|x] eqn:Eb; [|done..].
    apply IH. by eapply Hb.
Qed.

(** The loop that collects what it reads. *)
Lemma sound_collect {A} n (p : parser E A) (P : A -> Prop) :
  sound p P -> sound (loop_n n (λ acc, v ← p; mret (acc ++ [v])) []) (Forall P).
Proof.
  intros Hp. apply sound_loop; [constructor|]. intros s Hs.
  eapply sound_bind; [exact Hp|]. intros a Ha. apply sound_ret.
  apply Forall_app. by repeat constructor.
Qed.
End sound.

(** ** Input left by a parser *)

Section consumes.
Context {E : Type}.

Lemma consumes_parses {A} n (p : parser E A) bs a :
  consumes n p -> parses p bs a -> (n <= length bs)%nat.
Proof.
  intros Hc Hp. destruct (Hc _ _ _ (Hp [])) as (c & Heq & Hn).
  rewrite !app_nil_r in Heq. by subst.
Qed.

Lemma consumes_ret {A} (a : A) : consumes 0 (mret (M:=parser E) a).
Proof. intros input rest b [= <- <-]. exists []. auto with lia. Qed.

Lemma consumes_bind {A B} n m (p : parser E A) (k : A -> parser E B) :
  consumes n p -> (∀ a, consumes m (k a)) -> consumes (n + m) (p ≫= k).
Proof.
  intros Hp Hk input rest b. unfold mbind, parser_bind.
  destruct (p input) as [[i a]|e|x] eqn:Ep; [|done..]. intros H.
  destruct (Hp _ _ _ Ep) as (c1 & -> & H1). destruct (Hk _ _ _ _ H) as (c2 & -> & H2).
  exists (c1 ++ c2). rewrite <- app_assoc, length_app. split; [done|lia].
Qed.

Lemma consumes_weaken {A} n m (p : parser E A) :
  consumes n p -> (m <= n)%nat -> consumes m p.
Proof. intros H Hm i r a Hp. destruct (H _ _ _ Hp) as (c & -> & Hc). exists c. split; [done|lia]. Qed.

(** Only the first parser of a sequence is known to read something. *)
Lemma consumes_bind_l {A B} n (p : parser E A) (k : A -> parser E B) :
  consumes n p -> (∀ a, consumes 0 (k a)) -> consumes n (p ≫= k).
Proof. intros. rewrite <- (Nat.add_0_r n). by apply consumes_bind. Qed.

(** Peeking reads nothing: the continuation does. *)
Lemma consumes_bind_r {A B} n (p : parser E A) (k : A -> parser E B) :
  consumes 0 p -> (∀ a, consumes n (k a)) -> consumes n (p ≫= k).
Proof. intros. change n with (0 + n)%nat. by apply consumes_bind. Qed.

Lemma consumes_fail {A} n (e : E) : consumes n (fail (A:=A) e).
Proof. done. Qed.

Lemma consumes_abort {A} n x : consumes n (abort (E:=E) (A:=A) x).
Proof. done. Qed.

Lemma consumes_unwrap {A} (o : option A) : consumes 0 (unwrap (E:=E) o).
Proof. destruct o; [apply consumes_ret|done]. Qed.

Lemma consumes_lift {A} (r : result E A) : consumes 0 (lift r).
Proof. destruct r; [apply consumes_ret|done..]. Qed.

Lemma consumes_map_err {F A} n (f : E -> F) (p : parser E A) :
  consumes n p -> consumes n (map_err f p).
Proof.
  intros Hp input rest a. unfold map_err.
  destruct (p input) as [[i b]|e|x] eqn:Ep; [|done..]. intros [= <- <-]. by eapply Hp.
Qed.

Lemma consumes_peek {A} (p : parser E A) : consumes 0 (peek p).
Proof.
  intros input rest a. unfold peek. destruct (p input) as [[i b]|e|x]; [|done..].
  intros [= <- <-]. exists []. auto with lia.
Qed.

Lemma consumes_on {A} body (p : parser E A) : consumes 0 (on body p).
Proof.
  intros input rest a. unfold on. destruct (p body) as [[i b]|e|x]; [|done..].
  intros [= <- <-]. exists []. auto with lia.
Qed.

Lemma consumes_loop {S} n (body : S -> parser E S) s :
  (∀ s, consumes 0 (body s)) -> consumes 0 (loop_n n body s).
Proof.
  intros Hb input rest a. rewrite loop_n_nat. revert s input rest a.
  induction (Z.to_nat n) as [|k IH]; intros s; simpl.
  - apply consumes_ret.
  - apply consumes_bind_l; [apply Hb|]. intros a i r b. apply IH.
Qed.
End consumes.

(** ** The panics a parser can run into *)

Section panics.
Context {E : Type} (Q : panic -> Prop).

Lemma panics_ret {A} (a : A) : panics Q (mret (M:=parser E) a).
Proof. done. Qed.

Lemma panics_bind {A B} (p : parser E A) (k : A -> parser E B) :
  panics Q p -> (∀ a, panics Q (k a)) -> panics Q (p ≫= k).
Proof.
  intros Hp Hk input x. unfold mbind, parser_bind.
  destruct (p input) as [[i a]|e|y] eqn:Ep; [apply Hk|done|].
  intros [= <-]. by eapply Hp.
Qed.

Lemma panics_fail {A} (e : E) : panics Q (fail (A:=A) e).
Proof. done. Qed.

Lemma panics_abort {A} x : Q x -> panics Q (abort (E:=E) (A:=A) x).
Proof. intros Hx input y [= <-]. done. Qed.

Lemma panics_lift {A} (r : result E A) : is_panic r = false -> panics Q (lift r).
Proof. intros Hr input x. by destruct r. Qed.

Lemma panics_unwrap {A} (o : option A) : Q UnwrapNone -> panics Q (unwrap (E:=E) o).
Proof. intros Hq. destruct o; [done|by apply panics_abort]. Qed.

Lemma panics_map_err {F A} (f : E -> F) (p : parser E A) :
  panics Q p -> panics Q (map_err f p).
Proof.
  intros Hp input x. unfold map_err.
  destruct (p input) as [[i b]|e|y] eqn:Ep; [done..|]. intros [= <-]. by eapply Hp.
Qed.

Lemma panics_peek {A} (p : parser E A) : panics Q p -> panics Q (peek p).
Proof.
  intros Hp input x. unfold peek.
  destruct (p input) as [[i b]|e|y] eqn:Ep; [done..|]. intros [= <-]. by eapply Hp.
Qed.

Lemma panics_on {A} body (p : parser E A) : panics Q p -> panics Q (on body p).
Proof.
  intros Hp input x. unfold on.
  destruct (p body) as [[i b]|e|y] eqn:Ep; [done..|]. intros [= <-]. by eapply Hp.
Qed.

Lemma panics_loop {S} n (body : S -> parser E S) s :
  (∀ s, panics Q (body s)) -> panics Q (loop_n n body s).
Proof.
  intros Hb input x. rewrite loop_n_nat. revert s input x.
  induction (Z.to_nat n) as [|k IH]; intros s; simpl; [apply panics_ret|].
  apply panics_bind; [apply Hb|]. intros a i x. apply IH.
Qed.

Lemma panics_weaken {A} (R : panic -> Prop) (p : parser E A) :
  panics R p -> (∀ x, R x -> Q x) -> panics Q p.
Proof. intros Hp HR input x Hx. apply HR. by eapply Hp. Qed.
End panics.

(** *** Recursion bounded by the input

    Two decoders settle below [k] when they do the same on every input shorter
    than [k], panicking with a [Q] only: what a recursion on fuel needs to be
    independent of its fuel. *)

Section settles.
Context {E : Type} (Q : panic -> Prop).

Definition settles {A} (k : nat) (p q : parser E A) : Prop := ∀ input,
  (length input < k)%nat -> p input = q input ∧ ∀ x, p input = Panic x -> Q x.

Lemma settles_refl {A} k (p : parser E A) : panics Q p -> settles k p p.
Proof. intros Hp input _. split; [done|]. apply Hp. Qed.

Lemma settles_weaken {A} k j (p q : parser E A) : (j <= k)%nat -> settles k p q -> settles j p q.
Proof. intros Hj H input Hi. apply H. lia. Qed.

Lemma settles_bind {A B} k c (p q : parser E A) (f g : A -> parser E B) :
  settles k p q -> consumes c p -> (∀ a, settles (k - c) (f a) (g a)) ->
  settles k (p ≫= f) (q ≫= g).
Proof.
  intros Hp Hc Hk input Hi. unfold mbind, parser_bind.
  destruct (Hp input Hi) as [<- Hx]. destruct (p input) as [[i a]|e|y] eqn:Ep.
  - destruct (Hc _ _ _ Ep) as (b & -> & Hb). rewrite length_app in Hi. apply Hk. lia.
  - done.
  - split; [done|]. intros z [= <-]. by apply Hx.
Qed.

Lemma settles_loop {S} k n (f g : S -> parser E S) s :
  (∀ s, settles k (f s) (g s)) -> (∀ s, consumes 0 (f s)) ->
  settles k (loop_n n f s) (loop_n n g s).
Proof.
  intros Hfg Hc input Hi. rewrite !loop_n_nat. revert s input Hi.
  induction (Z.to_nat n) as [|j IH]; intros s; simpl; [by apply settles_refl, panics_ret|].
  apply (settles_bind k 0); [apply Hfg|apply Hc|]. intros a.
  rewrite Nat.sub_0_r. intros input Hi. by apply IH.
Qed.

Lemma settles_panics {A} (p : parser E A) q :
  (∀ k, settles k p q) -> panics Q p.
Proof. intros H input x. apply (H (S (length input))). lia. Qed.
End settles.

(** ** Parsing a growing buffer *)

Section stable.
Context {E : Type} `{HasIncomplete E}.

Lemma stable_ret {A} (a : A) : stable (mret (M:=parser E) a).
Proof. intros input more. done. Qed.

Lemma stable_bind {A B} (p : parser E A) (k : A -> parser E B) :
  stable p -> (∀ a, stable (k a)) -> stable (p ≫= k).
Proof.
  intros Hp Hk input more. specialize (Hp input more).
  unfold mbind, parser_bind. destruct (p input) as [[i a]|e|x].
  - rewrite Hp. apply Hk.
  - intros He. by rewrite Hp.
  - done.
Qed.

Lemma stable_fail {A} (e : E) : stable (fail (A:=A) e).
Proof. intros input more. done. Qed.

Lemma stable_abort {A} x : stable (abort (A:=A) x).
Proof. intros input more. done. Qed.

Lemma stable_lift {A} (r : result E A) : stable (lift r).
Proof. intros input more. unfold lift. by destruct r. Qed.

Lemma stable_unwrap {A} (o : option A) : stable (unwrap o).
Proof. destruct o; [apply stable_ret|apply stable_abort]. Qed.

Lemma stable_map_err {F A} `{HasIncomplete F} (f : E -> F) (p : parser E A) :
  (∀ e, is_incomplete (f e) = is_incomplete e) -> stable p -> stable (map_err f p).
Proof.
  intros Hf Hp input more. specialize (Hp input more). unfold map_err.
  destruct (p input) as [[i a]|e|x]; [by rewrite Hp| |done].
  rewrite Hf. intros He. by rewrite Hp.
Qed.

Lemma stable_peek {A} (p : parser E A) : stable p -> stable (peek p).
Proof.
  intros Hp input more. specialize (Hp input more). unfold peek.
  destruct (p input) as [[i a]|e|x]; [by rewrite Hp| |done].
  intros He. by rewrite Hp.
Qed.

Lemma stable_on {A} body (p : parser E A) : stable (on body p).
Proof.
  intros input more. unfold on. destruct (p body) as [[i a]|e|x]; done.
Qed.

Lemma stable_loop {S} n (body : S -> parser E S) s :
  (∀ s, stable (body s)) -> stable (loop_n n body s).
Proof.
  intros Hb input more. rewrite !loop_n_nat. revert s input more.
  induction (Z.to_nat n) as [|k IH]; intros s; simpl.
  - apply stable_ret.
  - apply stable_bind; [apply Hb|]. intros a i m. apply IH.
Qed.
End stable.

(** ** Inputs that are cut short *)

Section cuts.
Context {E : Type} `{HasIncomplete E} (Q : panic -> Prop).

Lemma cut_panics_never {A} (p : parser E A) : panics (λ _, False) p -> cut_panics Q p.
Proof. intros Hp input more rest a x _ Hx. destruct (Hp _ _ Hx). Qed.

Lemma cut_panics_ret {A} (a : A) : cut_panics Q (mret (M:=parser E) a).
Proof. done. Qed.

Lemma cut_panics_bind {A B} (p : parser E A) (k : A -> parser E B) :
  stable p -> cut_panics Q p -> (∀ a, cut_panics Q (k a)) -> cut_panics Q (p ≫= k).
Proof.
  intros Hs Hp Hk input more rest b x. specialize (Hs input more). unfold mbind, parser_bind.
  destruct (p input) as [[i a]|e|y] eqn:Ep; [|done|].
  - rewrite Hs. apply Hk.
  - destruct (p (input ++ more)) as [[i a]|e|z] eqn:Ew; [|done..]. intros _ [= <-].
    by eapply Hp.
Qed.

Lemma cut_panics_fail {A} (e : E) : cut_panics Q (fail (A:=A) e).
Proof. done. Qed.

Lemma cut_panics_abort {A} x : cut_panics Q (abort (E:=E) (A:=A) x).
Proof. done. Qed.

Lemma cut_panics_lift {A} (r : result E A) : cut_panics Q (lift r).
Proof. intros input more rest a x. by destruct r. Qed.

Lemma cut_panics_map_err {F A} (f : F -> E) (p : parser F A) :
  cut_panics Q p -> cut_panics Q (map_err f p).
Proof.
  intros Hp input more rest a x. unfold map_err.
  destruct (p (input ++ more)) as [[i b]|e|y] eqn:Ew; [|done..]. intros _.
  destruct (p input) as [[j c]|e|y] eqn:Ep; [done..|]. intros [= <-]. by eapply Hp.
Qed.

Lemma cut_panics_on {A} body (p : parser E A) : cut_panics Q (on body p).
Proof. intros input more rest a x. unfold on. by destruct (p body) as [[i b]|e|y]. Qed.

Lemma cut_panics_loop {S} n (body : S -> parser E S) s :
  (∀ s, stable (body s)) -> (∀ s, cut_panics Q (body s)) -> cut_panics Q (loop_n n body s).
Proof.
  intros Hs Hb input more rest a x. rewrite !loop_n_nat. revert s input more rest a x.
  induction (Z.to_nat n) as [|k IH]; intros s; simpl; [apply cut_panics_ret|].
  apply cut_panics_bind; [apply Hs|apply Hb|]. intros a i m r b y. apply IH.
Qed.
End cuts.

(** ** Automation *)

#[export] Hint Resolve cut_panics_ret cut_panics_fail cut_panics_abort cut_panics_lift
  cut_panics_map_err cut_panics_on : cuts.

#[export] Hint Resolve emits_ret emits_write_all emits_map_werr wire_ret
  wire_map_err wire_map_werr : wire.
#[export] Hint Resolve sized_ret sized_map_werr : sized.
#[export] Hint Resolve sound_unwrap_eq sound_fail sound_abort sound_map_err sound_on sound_peek : sound.
#[export] Hint Resolve stable_ret stable_fail stable_abort stable_unwrap stable_lift stable_peek
  stable_on : stable.
#[export] Hint Resolve consumes_fail consumes_abort consumes_unwrap consumes_lift consumes_peek
  consumes_on consumes_ret consumes_map_err : consumes.

#[export] Hint Extern 1 (_ <= _)%nat => lia : consumes.

#[export] Hint Resolve panics_ret panics_fail panics_lift panics_map_err panics_peek
  panics_on : panics.

Ltac panics_solve :=
  intros; repeat (match goal with
  | |- panics _ (_ ≫= _) => apply panics_bind; [|intros]
  | |- panics _ (loop_n _ _ _) => apply panics_loop; intros
  | |- panics _ (if ?b then _ else _) => destruct b
  | |- panics _ (match ?x with _ => _ end) => destruct x
  | |- panics _ _ => solve [auto with panics]
  | |- panics _ (match ?x with _ => _ end _) => destruct x
  end).

(** A decoder is stable when the decoders it calls are. *)
Ltac stable_solve :=
  intros; repeat (match goal with
  | |- stable (_ ≫= _) => apply stable_bind; [|intros]
  | |- stable (loop_n _ _ _) => apply stable_loop; intros
  | |- stable (if ?b then _ else _) => destruct b
  | |- stable (match ?x with _ => _ end) => destruct x
  | |- stable _ => solve [auto with stable]
  | |- stable (match ?x with _ => _ end _) => destruct x
  end).

(** A decoder never moves backwards when the decoders it calls do not. *)
Ltac consumes_solve :=
  intros; repeat (match goal with
  | |- consumes 0 (_ ≫= _) => apply consumes_bind_l; [|intros]
  | |- consumes 0 (loop_n _ _ _) => apply consumes_loop; intros
  | |- consumes _ (if ?b then _ else _) => destruct b
  | |- consumes _ (match ?x with _ => _ end) => destruct x
  | |- consumes _ _ => solve [eauto with consumes]
  | |- consumes _ (match ?x with _ => _ end _) => destruct x
  end).

(** The values a decoder returns, from what its parts return. *)
Ltac sound_step :=
  match goal with
  | |- sound (_ ≫= _) _ =>
      eapply sound_bind; [solve [eauto with sound] | intros ? ?; cbv beta in *]
  | |- sound (mret _) _ => apply sound_ret
  | |- sound (if ?b then _ else _) _ => destruct b eqn:?
  | |- sound (match ?x with _ => _ end) _ => destruct x eqn:?
  | |- sound _ _ => solve [eauto with sound]
  end.
Ltac sound_solve := intros; repeat sound_step.

(** A struct encoder and its decoder list the same fields in the same order. *)
Ltac wire_solve :=
  repeat (match goal with
  | |- wire (_ ≫= _) (_ ≫= _) _ => eapply wire_seq; [solve [eauto with wire]|]
  | |- wire _ (mret _) _ => apply wire_ret
  | |- wire _ (_ ≫= _) _ => eapply wire_last; [solve [eauto with wire]|intros; reflexivity]
  end).

(** The size of a struct encoder, as a sum taken in another order. *)
Ltac sized_solve :=
  eapply sized_eq;
  [ repeat (match goal with
    | |- sized (_ ≫= _) _ => eapply sized_seq; [solve [eauto with sized]|]
    | |- sized _ _ => solve [eauto with sized]
    end)
  | wrap32_solve ].

(** ** Interfaces

    What a codec promises to the formats that embed it.  The laws are stated for
    a domain: [wire_ok] is what survives the trip over the wire, [fits] what the
    encoder accepts, [ok] the invariant of the decoded type. *)

Class RoundTrips {E F A} (enc : A -> writer E unit) (dec : parser F A) (wire_ok : A -> Prop) :=
  round_trip x : wire_ok x -> wire (enc x) dec x.

Class SizeExact {E A} (enc : A -> writer E unit) (size : A -> Z) (fits : A -> Prop) :=
  size_exact x : fits x -> sized (enc x) (size x).

Class Reads {E A} `{HasIncomplete E} (dec : parser E A) (ok : A -> Prop) := {
  reads_sound : sound dec ok;
  reads_stable : stable dec;
  reads_consumes : consumes 0 dec;
}.

#[global] Hint Mode RoundTrips - - ! ! ! - : typeclass_instances.
#[global] Hint Mode SizeExact - ! ! - - : typeclass_instances.
#[global] Hint Mode Reads - ! - ! - : typeclass_instances.

#[export] Hint Extern 2 (wire (_ _) _ _) => eapply @round_trip; [typeclasses eauto|cbv beta] : wire.
#[export] Hint Extern 2 (sized (_ _) _) => eapply @size_exact; [typeclasses eauto|cbv beta] : sized.
#[export] Hint Extern 2 (sound _ _) => eapply @reads_sound; typeclasses eauto : sound.
#[export] Hint Extern 2 (stable _) => eapply @reads_stable; typeclasses eauto : stable.
#[export] Hint Extern 2 (consumes 0 _) => eapply @reads_consumes; typeclasses eauto : consumes.

Ltac head_of t := match t with ?f _ => head_of f | _ => t end.
Ltac unfold_head t := let h := head_of t in unfold h.

(** A decoder that is a sequence of decoders is safe to cut where they are. *)
Ltac cuts_solve :=
  intros; repeat (match goal with
  | |- cut_panics _ (_ ≫= _) => apply cut_panics_bind; [stable_solve| |intros]
  | |- cut_panics _ (loop_n _ _ _) => apply cut_panics_loop; intros; [stable_solve|]
  | |- cut_panics _ (if ?b then _ else _) => destruct b
  | |- cut_panics _ (match ?x with _ => _ end) => destruct x
  | |- cut_panics _ _ => solve [auto with cuts]
  | |- cut_panics _ (match ?x with _ => _ end _) => destruct x
  | |- cut_panics _ ?p => unfold_head p
  end).

(** A struct whose encoder writes its fields in the order its decoder reads them. *)
Ltac round_trips :=
  let x := fresh "x" in let Hx := fresh "Hx" in
  intros x Hx; destruct x;
  let P := type of Hx in let h := head_of P in try unfold h in Hx;
  lazymatch goal with |- wire ?w ?p _ => unfold_head w; unfold_head p end;
  cbn in *; destruct_and?; wire_solve.

(** A struct whose size is the sum of the sizes of its fields. *)
Ltac sizes :=
  let x := fresh "x" in let Hx := fresh "Hx" in
  intros x Hx; destruct x;
  lazymatch goal with |- sized ?w ?n => unfold_head w; unfold_head n end;
  cbn in *; sized_solve.

(** A struct decoder, from the decoders of its fields. *)
Ltac reads :=
  constructor;
  [ lazymatch goal with |- sound ?p _ => unfold_head p end; sound_solve;
    try lazymatch goal with |- ?P => unfold_head P end; subst; cbn in *; intuition
  | lazymatch goal with |- stable ?p => unfold_head p end; stable_solve
  | lazymatch goal with |- consumes _ ?p => unfold_head p end; consumes_solve ].
