(* ===== verification/Utf8.v ===== *)
(** * UTF-8

    [String::from_utf8] of the Rust standard library, which every string read
    from the wire goes through.  A Rust [String] is modelled by its bytes
    ([as_bytes]); [utf8_valid] is the invariant its type guarantees, the
    well-formed byte sequences of the Unicode standard (table 3-7), with no
    overlong form, no surrogate and nothing above U+10FFFF. *)
From S2P Require Import Prelude.

Definition between (lo hi : Z) (b : byte) : bool :=
  (lo <=? Z_of_byte b) && (Z_of_byte b <=? hi).

Definition continuation : byte -> bool := between 128 191.

Fixpoint utf8_valid (s : bytes) : bool :=
  match s with
  | [] => true
  | b0 :: s1 =>
    if between 0 127 b0 then utf8_valid s1 else
    match s1 with
    | [] => false
    | b1 :: s2 =>
      if between 194 223 b0 then continuation b1 && utf8_valid s2 else
      match s2 with
      | [] => false
      | b2 :: s3 =>
        if between 224 239 b0 then
          let lo := if Z_of_byte b0 =? 224 then 160 else 128 in
          let hi := if Z_of_byte b0 =? 237 then 159 else 191 in
          between lo hi b1 && continuation b2 && utf8_valid s3
        else
        match s3 with
        | [] => false
        | b3 :: s4 =>
          if between 240 244 b0 then
            let lo := if Z_of_byte b0 =? 240 then 144 else 128 in
            let hi := if Z_of_byte b0 =? 244 then 143 else 191 in
            between lo hi b1 && continuation b2 && continuation b3 && utf8_valid s4
          else false
        end
      end
    end
  end.

(** The type invariant of [String]. *)
Definition string_ok (s : bytes) : Prop := utf8_valid s = true.
#[global] Arguments string_ok s : simpl never.

#[global] Instance string_ok_dec s : Decision (string_ok s).
Proof. unfold string_ok. apply _. Defined.

Lemma string_ok_nil : string_ok [].
Proof. reflexivity. Qed.

Lemma ascii_string_ok s : Forall (λ b, Z_of_byte b < 128) s -> string_ok s.
Proof.
  unfold string_ok. induction 1 as [|b s Hb Hs IH]; [done|]. simpl.
  unfold between at 1. pose proof (Z_of_byte_range b).
  rewrite (proj2 (Z.leb_le _ _)), (proj2 (Z.leb_le _ _)) by lia. done.
Qed.

Lemma utf8_valid_app s t : utf8_valid s = true -> utf8_valid (s ++ t) = utf8_valid t.
Proof.
  remember (length s) as n eqn:Hn. revert s Hn.
  induction (lt_wf n) as [n _ IH]. intros s -> Hs.
  destruct s as [|b0 s1]; [done|].
  repeat (simpl in Hs; simpl; match goal with
  | |- (if ?c then _ else _) = _ => destruct c
  | |- match ?s ++ _ with _ => _ end = _ => destruct s; simpl; [done|]
  end); simpl in Hs; try done;
  rewrite ?andb_true_iff in Hs; destruct_and?; subst;
  repeat match goal with H : ?c = true |- context [?c] => rewrite H end; simpl;
  (eapply IH; [|reflexivity|done]); simpl; lia.
Qed.

Lemma string_ok_app s t : string_ok s -> string_ok t -> string_ok (s ++ t).
Proof. unfold string_ok. intros Hs Ht. by rewrite utf8_valid_app. Qed.
