(* ===== verification/HashMaps.v ===== *)
(** * Hash maps

    A [HashMap<K, V>] of the source is modelled by the list of its entries in
    the order its iterator yields them.  The standard library leaves that order
    unspecified, so a theorem about every list with distinct keys is a theorem
    about every map and every iteration order.  Key equality is a parameter
    ([eqb]): for keys that hold floating-point numbers it is not the equality of
    their bits. *)
From S2P Require Import Prelude.

Section maps.
Context {K V : Type} (eqb : K -> K -> bool).

(** [HashMap::get]. *)
Fixpoint hm_get (k : K) (m : list (K * V)) : option V :=
  match m with
  | [] => None
  | (k', v) :: m' => if eqb k k' then Some v else hm_get k m'
  end.

(** [HashMap::insert]: the value of a key already present is replaced. *)
Fixpoint hm_insert (k : K) (v : V) (m : list (K * V)) : list (K * V) :=
  match m with
  | [] => [(k, v)]
  | (k', v') :: m' => if eqb k k' then (k', v) :: m' else (k', v') :: hm_insert k v m'
  end.

Fixpoint distinct_keys (m : list (K * V)) : bool :=
  match m with
  | [] => true
  | (k, _) :: m' => forallb (λ kv, negb (eqb kv.1 k)) m' && distinct_keys m'
  end.

Definition hm_extend (es : list (K * V)) (m : list (K * V)) : list (K * V) :=
  fold_left (λ m kv, hm_insert kv.1 kv.2 m) es m.

Lemma hm_insert_new k v m :
  forallb (λ kv, negb (eqb k kv.1)) m = true -> hm_insert k v m = m ++ [(k, v)].
Proof.
  induction m as [|[k' v'] m IH]; simpl; [done|].
  rewrite andb_true_iff, negb_true_iff. intros [-> Hm]. by rewrite IH.
Qed.

Lemma forallb_app {A} (f : A -> bool) l1 l2 :
  forallb f (l1 ++ l2) = forallb f l1 && forallb f l2.
Proof. induction l1; simpl; [done|]. by rewrite IHl1, andb_assoc. Qed.

(** Inserting the entries of a map one by one into a map that has none of the
    keys appends them. *)
Lemma hm_extend_distinct es m :
  distinct_keys es = true ->
  forallb (λ kv, forallb (λ kv', negb (eqb kv.1 kv'.1)) m) es = true ->
  hm_extend es m = m ++ es.
Proof.
  revert m. induction es as [|[k v] es IH]; intros m; simpl.
  - by rewrite app_nil_r.
  - rewrite !andb_true_iff. intros [Hk Hd] [Hm Hes].
    unfold hm_extend in *. simpl. rewrite hm_insert_new by done.
    rewrite IH; [by rewrite <- app_assoc|done|].
    clear -Hk Hes. induction es as [|[k' v'] es IH]; [done|]. simpl in *.
    rewrite !andb_true_iff in *. destruct Hk as [Hk1 Hk2], Hes as [He1 He2].
    split; [|by apply IH]. rewrite forallb_app, He1. simpl. by rewrite Hk1.
Qed.

Lemma hm_extend_empty es : distinct_keys es = true -> hm_extend es [] = es.
Proof.
  intros Hd. rewrite hm_extend_distinct; [done..|].
  clear. induction es as [|[] es IH]; [done|]. apply IH.
Qed.

Lemma hm_insert_forall (P : K * V -> Prop) k v m :
  (∀ k', eqb k k' = true -> P (k, v) -> P (k', v)) ->
  P (k, v) -> Forall P m -> Forall P (hm_insert k v m).
Proof.
  intros Hk Hv. induction 1 as [|[k' v'] m Hx Hm IH]; simpl; [by repeat constructor|].
  destruct (eqb k k') eqn:Ek; constructor; auto.
Qed.
End maps.

Lemma hm_insert_keys {K V} (P : K -> Prop) (eqb : K -> K -> bool) k (v : V) m :
  P k -> Forall (λ kv, P kv.1) m -> Forall (λ kv, P kv.1) (hm_insert eqb k v m).
Proof.
  intros Hk. induction 1 as [|[k' v'] m Hx Hm IH]; simpl; [by repeat constructor|].
  destruct (eqb k k'); by constructor.
Qed.

(** Insertion keeps keys distinct, where equality of keys is symmetric. *)
Lemma hm_insert_distinct {K V} (P : K -> Prop) (eqb : K -> K -> bool) k (v : V) m :
  (∀ a b, P a -> P b -> eqb a b = eqb b a) -> P k -> Forall (λ kv, P kv.1) m ->
  distinct_keys eqb m = true -> distinct_keys eqb (hm_insert eqb k v m) = true.
Proof.
  intros Hsym HPk. induction 1 as [|[k' v'] m Hx Hm IH]; simpl in *; [done|].
  rewrite andb_true_iff. intros [Hk Hd].
  destruct (eqb k k') eqn:Ek; simpl; rewrite andb_true_iff; split; auto.
  clear -Hk Ek Hsym HPk Hx. induction m as [|[k2 v2] m IH]; simpl in *.
  - by rewrite Ek.
  - rewrite andb_true_iff in Hk. destruct Hk as [Hk1 Hk2].
    destruct (eqb k k2); simpl; rewrite Hk1; auto.
Qed.

(** ** Maps whose key equality is Leibniz equality

    The list of entries denotes a finite map, and insertion is the map's. *)
Section denotation.
Context {K V : Type} `{Countable K}.

Definition key_eqb (a b : K) : bool := bool_decide (a = b).

Lemma hm_insert_to_map k (v : V) m :
  list_to_map (M:=gmap K V) (hm_insert key_eqb k v m) = <[k:=v]> (list_to_map m).
Proof.
  unfold key_eqb. induction m as [|[k' v'] m IH]; simpl; [done|].
  case_bool_decide as Hk; simpl.
  - subst. by rewrite insert_insert_eq.
  - rewrite IH. by apply insert_insert_ne.
Qed.

Lemma hm_get_to_map k (m : list (K * V)) :
  hm_get key_eqb k m = list_to_map (M:=gmap K V) m !! k.
Proof.
  unfold key_eqb. induction m as [|[k' v'] m IH]; simpl; [done|].
  case_bool_decide; simplify_map_eq; auto.
Qed.

Lemma distinct_keys_NoDup (m : list (K * V)) :
  distinct_keys key_eqb m = true <-> NoDup m.*1.
Proof.
  unfold key_eqb. induction m as [|[k v] m IH]; simpl; [split; [constructor|done]|].
  rewrite andb_true_iff, IH, NoDup_cons.
  enough (forallb (λ kv, negb (bool_decide (kv.1 = k))) m = true <-> k ∉ m.*1) by tauto.
  clear IH. induction m as [|[k' v'] m IH]; simpl.
  - split; [intros _ Hin; inversion Hin|done].
  - rewrite andb_true_iff, IH, not_elem_of_cons, negb_true_iff, bool_decide_eq_false.
    intuition congruence.
Qed.

Lemma hm_get_insert k k' (v : V) m :
  hm_get key_eqb k (hm_insert key_eqb k' v m) =
  if decide (k' = k) then Some v else hm_get key_eqb k m.
Proof.
  rewrite !hm_get_to_map, hm_insert_to_map. case_decide as Hk.
  - subst. apply lookup_insert_eq.
  - by apply lookup_insert_ne.
Qed.

(** Collecting the entries of a list whose elements have distinct keys. *)
Lemma hm_get_extend_ne k (es m : list (K * V)) :
  k ∉ es.*1 -> hm_get key_eqb k (hm_extend key_eqb es m) = hm_get key_eqb k m.
Proof.
  unfold hm_extend. revert m. induction es as [|[k' v'] es IH]; intros m Hk; cbn; [done|].
  cbn in Hk. apply not_elem_of_cons in Hk as [Hne Hk].
  rewrite IH, hm_get_insert, decide_False; congruence.
Qed.

Lemma hm_get_collect {A} (key : A -> K) (f : A -> option (K * V)) l a m :
  (∀ a kv, f a = Some kv -> kv.1 = key a) -> NoDup (map key l) -> a ∈ l ->
  hm_get key_eqb (key a) m = None ->
  hm_get key_eqb (key a) (hm_extend key_eqb (omap f l) m) = snd <$> f a.
Proof.
  intros Hf. revert m. induction l as [|b l IH]; intros m Hnd Ha Hm; [by apply elem_of_nil in Ha|].
  cbn in Hnd. apply NoDup_cons in Hnd as [Hb Hnd].
  assert (Hin : ∀ k, k ∈ (omap f l).*1 -> k ∈ map key l).
  { intros k Hk. apply list_elem_of_fmap in Hk as (kv & -> & Hk).
    apply list_elem_of_omap in Hk as (x & Hx & Hkv). apply list_elem_of_fmap.
    exists x. split; [by apply Hf|done]. }
  assert (Ho : omap f (b :: l) = match f b with Some kv => kv :: omap f l | None => omap f l end)
    by reflexivity.
  assert (Hx : ∀ kv es, hm_extend key_eqb (kv :: es) m =
                 hm_extend key_eqb es (hm_insert key_eqb kv.1 kv.2 m)) by reflexivity.
  rewrite Ho. clear Ho. apply elem_of_cons in Ha as [->|Ha].
  - destruct (f b) as [[k v]|] eqn:Eb.
    + pose proof (Hf b _ Eb) as Hk. cbn in Hk. subst k.
      rewrite Hx, hm_get_extend_ne by auto. by rewrite hm_get_insert, decide_True.
    + by rewrite hm_get_extend_ne by auto.
  - assert (Hne : key b <> key a).
    { intros He. apply Hb. rewrite He. apply list_elem_of_fmap. by exists a. }
    destruct (f b) as [[k v]|] eqn:Eb; [|by apply IH].
    pose proof (Hf b _ Eb) as Hk. cbn in Hk. subst k. rewrite Hx.
    apply IH; try done. by rewrite hm_get_insert, decide_False.
Qed.
End denotation.
