(* ===== verification/Integers.v ===== *)
(** * Machine integers and their byte order

    An integer of the source is its value in [Z]; the width of its type is in
    the bounds ([u8_ok], [i32_ok], ...), and a cast ([as]) is written out.
    The byteorder crate, which is not part of the repository, is the class
    [ByteOrder]: big-endian reading and writing as its documentation states
    them, with an executable instance. *)
From S2P Require Import Prelude.

Definition unsigned_ok (w z : Z) : Prop := 0 <= z < 2 ^ w.
Definition signed_ok (w z : Z) : Prop := - 2 ^ (w - 1) <= z < 2 ^ (w - 1).
#[global] Arguments unsigned_ok w z : simpl never.
#[global] Arguments signed_ok w z : simpl never.

Abbreviation u8_ok := (unsigned_ok 8).
Abbreviation u16_ok := (unsigned_ok 16).
Abbreviation u32_ok := (unsigned_ok 32).
Abbreviation u64_ok := (unsigned_ok 64).
Abbreviation i8_ok := (signed_ok 8).
Abbreviation i16_ok := (signed_ok 16).
Abbreviation i32_ok := (signed_ok 32).
Abbreviation i64_ok := (signed_ok 64).

(** [x as uW] and [x as iW]. *)
Definition as_unsigned (w z : Z) : Z := z mod 2 ^ w.
Definition as_signed (w z : Z) : Z :=
  let m := z mod 2 ^ w in if m <? 2 ^ (w - 1) then m else m - 2 ^ w.

(** [x as usize] on a 64-bit target. *)
Definition as_usize (z : Z) : Z := as_unsigned 64 z.
Definition isize_max : Z := 2 ^ 63 - 1.

Lemma as_signed_id w z : 0 < w -> signed_ok w z -> as_signed w z = z.
Proof.
  intros Hw [Hl Hu]. unfold as_signed.
  assert (H2 : 2 ^ w = 2 * 2 ^ (w - 1)) by (rewrite <- Z.pow_succ_r by lia; f_equal; lia).
  destruct (Z.ltb_spec (z mod 2 ^ w) (2 ^ (w - 1))) as [H|H];
    destruct (decide (0 <= z)) as [Hz|Hz].
  - apply Z.mod_small. lia.
  - rewrite <- (Z.mod_add z 1), Z.mod_small in H by lia. lia.
  - rewrite Z.mod_small in H by lia. lia.
  - rewrite <- (Z.mod_add z 1), Z.mod_small by lia. lia.
Qed.

Lemma as_signed_ok w z : 0 < w -> signed_ok w (as_signed w z).
Proof.
  intros Hw. unfold as_signed, signed_ok.
  assert (H2 : 2 ^ w = 2 * 2 ^ (w - 1)) by (rewrite <- Z.pow_succ_r by lia; f_equal; lia).
  pose proof (Z.mod_pos_bound z (2 ^ w) ltac:(lia)).
  destruct (Z.ltb_spec (z mod 2 ^ w) (2 ^ (w - 1))); lia.
Qed.

Lemma as_signed_mod w z : 0 < w -> as_signed w (z mod 2 ^ w) = as_signed w z.
Proof. intros Hw. unfold as_signed. rewrite Z.mod_mod by lia. done. Qed.

Lemma mod_as_signed w z : 0 < w -> as_signed w z mod 2 ^ w = z mod 2 ^ w.
Proof.
  intros Hw. unfold as_signed. destruct (_ <? _).
  - apply Z.mod_mod. lia.
  - rewrite <- (Z.mod_add (z mod 2 ^ w - 2 ^ w) 1) by lia.
    replace (z mod 2 ^ w - 2 ^ w + 1 * 2 ^ w) with (z mod 2 ^ w) by lia.
    apply Z.mod_mod. lia.
Qed.

Lemma as_unsigned_id w z : unsigned_ok w z -> as_unsigned w z = z.
Proof. apply Z.mod_small. Qed.

Lemma as_unsigned_ok w z : 0 <= w -> unsigned_ok w (as_unsigned w z).
Proof. intros Hw. apply Z.mod_pos_bound. lia. Qed.

(** ** The byteorder crate *)

Class ByteOrder := {
  (** [WriteBytesExt::write_{u,i}{8,16,32,64}::<BigEndian>]: [n] bytes. *)
  bo_write : nat -> Z -> bytes;
  (** [BigEndian::read_u{16,32,64}]: the value of the first [n] bytes. *)
  bo_read : nat -> bytes -> Z;
  bo_write_length n z : length (bo_write n z) = n;
  bo_write_cons n z :
    bo_write (S n) z = byte_of_Z (z / 2 ^ (8 * Z.of_nat n)) :: bo_write n z;
  bo_read_write n z rest :
    bo_read n (bo_write n z ++ rest) = z mod 2 ^ (8 * Z.of_nat n);
  bo_read_range n bs : (n <= length bs)%nat -> 0 <= bo_read n bs < 2 ^ (8 * Z.of_nat n);
  bo_read_prefix n bs more :
    (n <= length bs)%nat -> bo_read n (bs ++ more) = bo_read n bs;
}.

Fixpoint be_bytes (n : nat) (z : Z) : bytes :=
  match n with
  | O => []
  | S n' => byte_of_Z (z / 2 ^ (8 * Z.of_nat n')) :: be_bytes n' z
  end.

Fixpoint be_value (n : nat) (bs : bytes) : Z :=
  match n, bs with
  | S n', b :: bs' => Z_of_byte b * 2 ^ (8 * Z.of_nat n') + be_value n' bs'
  | _, _ => 0
  end.

Lemma pow8_succ n : 2 ^ (8 * Z.of_nat (S n)) = 256 * 2 ^ (8 * Z.of_nat n).
Proof.
  replace (8 * Z.of_nat (S n)) with (8 + 8 * Z.of_nat n) by lia.
  rewrite Z.pow_add_r by lia. done.
Qed.

Lemma be_bytes_length n z : length (be_bytes n z) = n.
Proof. induction n; simpl; auto. Qed.

Lemma be_value_bytes n z rest :
  be_value n (be_bytes n z ++ rest) = z mod 2 ^ (8 * Z.of_nat n).
Proof.
  induction n as [|n IH]; [by rewrite Z.mod_1_r|].
  cbn [be_value be_bytes app]. rewrite IH, Z_of_byte_of_Z, pow8_succ.
  rewrite (Z.mul_comm 256), Z.rem_mul_r by lia. lia.
Qed.

Lemma be_value_range n bs :
  (n <= length bs)%nat -> 0 <= be_value n bs < 2 ^ (8 * Z.of_nat n).
Proof.
  revert bs. induction n as [|n IH]; intros bs Hn; [simpl; lia|].
  destruct bs as [|b bs]; simpl in Hn; [lia|].
  cbn [be_value]. rewrite pow8_succ. pose proof (Z_of_byte_range b).
  specialize (IH bs ltac:(lia)). nia.
Qed.

Lemma be_value_prefix n bs more :
  (n <= length bs)%nat -> be_value n (bs ++ more) = be_value n bs.
Proof.
  revert bs. induction n as [|n IH]; intros bs Hn; [done|].
  destruct bs as [|b bs]; simpl in *; [lia|]. by rewrite IH by lia.
Qed.

#[global] Instance big_endian : ByteOrder := {
  bo_write := be_bytes;
  bo_read := be_value;
  bo_write_length := be_bytes_length;
  bo_write_cons n z := eq_refl;
  bo_read_write := be_value_bytes;
  bo_read_range := be_value_range;
  bo_read_prefix := be_value_prefix;
}.

Section byteorder.
Context {BO : ByteOrder}.

Lemma bo_write_0 z : bo_write 0 z = [].
Proof. apply nil_length_inv, bo_write_length. Qed.

Lemma bo_write_1 z : bo_write 1 z = [byte_of_Z z].
Proof. rewrite bo_write_cons, bo_write_0. simpl. by rewrite Z.div_1_r. Qed.

Lemma len_bo_write n z : len (bo_write n z) = Z.of_nat n.
Proof. unfold len. by rewrite bo_write_length. Qed.

(** Every implementation the documentation allows is the executable one. *)
Lemma bo_write_unique n z : bo_write n z = be_bytes n z.
Proof.
  induction n as [|n IH]; [apply bo_write_0|].
  rewrite bo_write_cons, IH. done.
Qed.
End byteorder.
