(* ===== verification/Codec.v ===== *)
(** * The wire codec: errors, primitive encoders and decoders

    protocol/src/error.rs, protocol/src/codec/decoder.rs and
    protocol/src/codec/encoder.rs, but for the published messages, which are in
    Wire.v after the AMQP message they contain.  [decode] of the source is a
    [parser], [encode] a [writer], [encoded_size] an integer modulo 2^32. *)
From S2P Require Import Prelude Utf8 HashMaps Integers.

(** ** Errors *)

Module IncompleteError.
Inductive t := Need (size : Z).
End IncompleteError.

(** The text of an error: which [format!] renders it, and its arguments. *)
Inductive error_text :=
  | InvalidTypeCodeText (code : Z) (target : string)
  | InvalidListText (code : Z)
  | InvalidTimestampText (millis : Z)
  | InvalidSectionText (descriptor : Z + bytes)
  | InvalidHeaderText (descriptor : Z + bytes)
  | InvalidPropertiesText (descriptor : Z + bytes)
  | UuidText (length : Z)
  | CastText.

Module DecodeError.
Inductive t :=
  | Incomplete (e : IncompleteError.t)
  | Utf8Error (invalid : bytes)
  | UnknownResponseCode (code : Z)
  | UnsupportedResponseType (key : Z)
  | MismatchSize (size : Z)
  | MessageParse (msg : error_text)
  | InvalidFormatCode (code : Z)
  | Empty.
End DecodeError.

Module EncodeError.
Inductive t := Io | MaxSizeError (size : Z).
End EncodeError.

#[global] Instance incomplete_incomplete : HasIncomplete IncompleteError.t := λ _, true.
#[global] Instance incomplete_decode : HasIncomplete DecodeError.t := λ e,
  match e with DecodeError.Incomplete _ => true | _ => false end.

Abbreviation decoder := (parser DecodeError.t).
Abbreviation encoder := (writer EncodeError.t unit).

Section codec.
Context {BO : ByteOrder}.

(** ** Readers *)

Definition check_len (input : bytes) (size : Z) : result IncompleteError.t unit :=
  if len input <? size then Err (IncompleteError.Need size) else Ok tt.

Definition reader {A} (size : nat) (conv : Z -> A) : parser IncompleteError.t A := λ input,
  _ ← check_len input (Z.of_nat size);
  Ok (drop size input, conv (bo_read size input)).

Definition read_u8 : parser IncompleteError.t Z := λ input,
  _ ← check_len input 1;
  match input with b :: input' => Ok (input', Z_of_byte b) | [] => Panic SliceIndex end.

Definition read_i8 : parser IncompleteError.t Z := λ input,
  _ ← check_len input 1;
  match input with
  | b :: input' => Ok (input', as_signed 8 (Z_of_byte b))
  | [] => Panic SliceIndex
  end.

Definition read_exact (n : Z) : parser IncompleteError.t bytes := λ input,
  _ ← check_len input n;
  Ok (drop (Z.to_nat n) input, take (Z.to_nat n) input).

Definition read_i16 := reader 2 (as_signed 16).
Definition read_u16 := reader 2 id.
Definition read_u32 := reader 4 id.
Definition read_i32 := reader 4 (as_signed 32).
Definition read_u64 := reader 8 id.
Definition read_i64 := reader 8 (as_signed 64).

(** ** [impl Decoder] for the primitive types *)

Definition i8_decode : decoder Z := map_err DecodeError.Incomplete read_i8.
Definition i32_decode : decoder Z := map_err DecodeError.Incomplete read_i32.
Definition u8_decode : decoder Z := map_err DecodeError.Incomplete read_u8.
Definition u16_decode : decoder Z := map_err DecodeError.Incomplete read_u16.
Definition u32_decode : decoder Z := map_err DecodeError.Incomplete read_u32.
Definition u64_decode : decoder Z := map_err DecodeError.Incomplete read_u64.
Definition i64_decode : decoder Z := map_err DecodeError.Incomplete read_i64.
Definition i16_decode : decoder Z := map_err DecodeError.Incomplete read_i16.

(** [(&input[n..], input[..n].to_vec())]: out of range is a panic. *)
Definition slice_at (n : Z) : decoder bytes := λ input,
  if len input <? n then Panic SliceIndex
  else Ok (drop (Z.to_nat n) input, take (Z.to_nat n) input).

(** [input.split_at(n)]: out of range is a panic. *)
Definition split_at (n : Z) : decoder bytes := λ input,
  if len input <? n then Panic SplitAt
  else Ok (drop (Z.to_nat n) input, take (Z.to_nat n) input).

(** [String::from_utf8(bytes)?]. *)
Definition from_utf8 (bs : bytes) : result DecodeError.t bytes :=
  if utf8_valid bs then Ok bs else Err (DecodeError.Utf8Error bs).

Definition vec_u8_decode : decoder bytes :=
  n ← i32_decode;
  slice_at (as_usize n).

(** [Vec::with_capacity(n)] for an element type that is not zero-sized. *)
Definition with_capacity (n : Z) : decoder unit :=
  if isize_max <? n then abort CapacityOverflow else mret tt.

Definition read_vec {A} (dec : decoder A) : decoder (list A) :=
  n ← i32_decode;
  with_capacity (as_usize n);;
  loop_n (as_usize n) (λ result, value ← dec; mret (result ++ [value])) [].

Definition vec_u32_decode : decoder (list Z) := read_vec u32_decode.
Definition vec_u16_decode : decoder (list Z) := read_vec u16_decode.
Definition vec_u64_decode : decoder (list Z) := read_vec u64_decode.

Definition opt_string_decode : decoder (option bytes) :=
  n ← i16_decode;
  if n =? 0 then mret None else
  bs ← split_at (as_usize n);
  s ← lift (from_utf8 bs);
  mret (Some s).

Definition hashmap_decode : decoder (list (bytes * bytes)) :=
  num_properties ← u32_decode;
  loop_n num_properties (λ map,
    key ← opt_string_decode;
    value ← opt_string_decode;
    match key, value with
    | Some k, Some v => mret (hm_insert key_eqb k v map)
    | _, _ => mret map
    end) [].

Definition vec_string_decode : decoder (list bytes) :=
  num_properties ← u32_decode;
  loop_n num_properties (λ vec,
    value ← opt_string_decode;
    match value with Some v => mret (vec ++ [v]) | None => mret vec end) [].

(** ** [impl Encoder] for the primitive types *)

Definition write_be {E} (n : nat) (z : Z) : writer E unit := write_all (bo_write n z).

Definition i8_encode (z : Z) : encoder := write_be 1 z.
Definition i32_encode (z : Z) : encoder := write_be 4 z.
Definition u8_encode (z : Z) : encoder := write_be 1 z.
Definition u16_encode (z : Z) : encoder := write_be 2 z.
Definition u32_encode (z : Z) : encoder := write_be 4 z.
Definition u64_encode (z : Z) : encoder := write_be 8 z.
Definition i64_encode (z : Z) : encoder := write_be 8 z.

Definition i8_encoded_size (z : Z) : Z := 1.
Definition i32_encoded_size (z : Z) : Z := 4.
Definition u8_encoded_size (z : Z) : Z := 1.
Definition u16_encoded_size (z : Z) : Z := 2.
Definition u32_encoded_size (z : Z) : Z := 4.
Definition u64_encoded_size (z : Z) : Z := 8.
Definition i64_encoded_size (z : Z) : Z := 8.

#[global] Arguments i8_encoded_size z : simpl never.
#[global] Arguments i32_encoded_size z : simpl never.
#[global] Arguments u8_encoded_size z : simpl never.
#[global] Arguments u16_encoded_size z : simpl never.
#[global] Arguments u32_encoded_size z : simpl never.
#[global] Arguments u64_encoded_size z : simpl never.
#[global] Arguments i64_encoded_size z : simpl never.

(** [u32] addition; it wraps in a release build. *)
Definition add32 (a b : Z) : Z := wrap32 (a + b).
#[global] Arguments add32 a b : simpl never.

(** [l.iter().fold(0, |acc, v| acc + v.encoded_size())]. *)
Definition sum_sizes {A} (size : A -> Z) (l : list A) : Z :=
  fold_left (λ acc v, add32 acc (size v)) l 0.

Definition str_encoded_size (s : bytes) : Z := add32 2 (wrap32 (len s)).
Definition str_encode (s : bytes) : encoder :=
  write_be 2 (as_signed 16 (len s));; write_all s.

Definition hashmap_encoded_size (m : list (bytes * bytes)) : Z :=
  add32 4 (fold_left (λ acc kv,
    add32 (add32 acc (str_encoded_size kv.1)) (str_encoded_size kv.2)) m 0).
Definition hashmap_encode (m : list (bytes * bytes)) : encoder :=
  write_be 4 (wrap32 (len m));;
  write_each (λ kv, str_encode kv.1;; str_encode kv.2) m.

Definition opt_string_encoded_size (o : option bytes) : Z :=
  add32 2 (match o with Some s => wrap32 (len s) | None => 0 end).
Definition opt_string_encode (o : option bytes) : encoder :=
  match o with Some s => str_encode s | None => write_be 2 0 end.

Definition vec_string_encoded_size (l : list bytes) : Z :=
  add32 4 (sum_sizes str_encoded_size l).
Definition vec_string_encode (l : list bytes) : encoder :=
  write_be 4 (wrap32 (len l));; write_each str_encode l.

Definition vec_u8_encoded_size (bs : bytes) : Z := add32 4 (wrap32 (len bs)).
Definition vec_u8_encode (bs : bytes) : encoder :=
  write_be 4 (as_signed 32 (len bs));; write_all bs.

Definition vec_u32_encoded_size (l : list Z) : Z := add32 4 (sum_sizes u32_encoded_size l).
Definition vec_u32_encode (l : list Z) : encoder :=
  write_be 4 (as_signed 32 (len l));; write_each u32_encode l.

Definition vec_u16_encoded_size (l : list Z) : Z := add32 4 (sum_sizes u16_encoded_size l).
Definition vec_u16_encode (l : list Z) : encoder :=
  write_be 4 (as_signed 32 (len l));; write_each u16_encode l.

Definition vec_u64_encoded_size (l : list Z) : Z := add32 4 (sum_sizes u64_encoded_size l).
Definition vec_u64_encode (l : list Z) : encoder :=
  write_be 4 (as_signed 32 (len l));; write_each u64_encode l.

(** ** Values the wire can carry *)

(** A string that is read back: not empty (a zero length is read as [None]),
    and short enough for its 16-bit length not to become negative. *)
Definition wire_string (s : bytes) : Prop := string_ok s ∧ s ≠ [] ∧ len s < 2 ^ 15.
Definition wire_opt_string (o : option bytes) : Prop :=
  match o with Some s => wire_string s | None => True end.
Definition wire_vec_string (l : list bytes) : Prop :=
  Forall wire_string l ∧ len l < 2 ^ 32.
Definition wire_hashmap (m : list (bytes * bytes)) : Prop :=
  Forall (λ kv, wire_string kv.1 ∧ wire_string kv.2) m ∧
  distinct_keys key_eqb m = true ∧ len m < 2 ^ 32.
Definition wire_vec {A} (P : A -> Prop) (l : list A) : Prop :=
  Forall P l ∧ len l < 2 ^ 31.

(** The invariants of the types themselves. *)
Definition opt_string_ok (o : option bytes) : Prop :=
  match o with Some s => string_ok s ∧ s ≠ [] | None => True end.
Definition vec_string_ok (l : list bytes) : Prop := Forall (λ s, string_ok s ∧ s ≠ []) l.
Definition hashmap_ok (m : list (bytes * bytes)) : Prop :=
  Forall (λ kv, string_ok kv.1 ∧ string_ok kv.2) m ∧ distinct_keys key_eqb m = true.

#[global] Arguments wire_string s : simpl never.
#[global] Arguments wire_vec_string l : simpl never.
#[global] Arguments wire_hashmap m : simpl never.
#[global] Arguments wire_vec {A} P l : simpl never.

(** ** Laws of the integers *)

Lemma check_len_app n input more :
  0 <= n -> check_len input n = Ok tt -> check_len (input ++ more) n = Ok tt.
Proof.
  unfold check_len. intros Hn. rewrite len_app. pose proof (len_nonneg more).
  destruct (Z.ltb_spec (len input) n); [done|]. intros _.
  destruct (Z.ltb_spec (len input + len more) n); [lia|done].
Qed.

Lemma reader_parses {A} n (conv : Z -> A) z :
  parses (reader n conv) (bo_write n z) (conv (z mod 2 ^ (8 * Z.of_nat n))).
Proof.
  intros rest. unfold reader, check_len. rewrite len_app, len_bo_write.
  pose proof (len_nonneg rest).
  destruct (Z.ltb_spec (Z.of_nat n + len rest) (Z.of_nat n)); [lia|]. cbn.
  rewrite bo_read_write. do 2 f_equal.
  rewrite <- (bo_write_length n z) at 1. apply drop_app_length.
Qed.

Lemma reader_sound {A} n (conv : Z -> A) (P : A -> Prop) :
  (∀ z, 0 <= z < 2 ^ (8 * Z.of_nat n) -> P (conv z)) -> sound (reader n conv) P.
Proof.
  intros HP input rest a. unfold reader, check_len, len.
  destruct (Z.ltb_spec (Z.of_nat (length input)) (Z.of_nat n)); cbn; [done|].
  intros [= <- <-]. apply HP, bo_read_range. lia.
Qed.

Lemma reader_stable {A} n (conv : Z -> A) : stable (reader n conv).
Proof.
  intros input more. unfold reader, check_len, len. rewrite length_app.
  destruct (Z.ltb_spec (Z.of_nat (length input)) (Z.of_nat n)); cbn; [done|].
  destruct (Z.ltb_spec (Z.of_nat (length input + length more)) (Z.of_nat n)); [lia|].
  cbn. rewrite bo_read_prefix by lia. rewrite drop_app_le by lia. done.
Qed.

Lemma reader_consumes {A} n (conv : Z -> A) : consumes n (reader n conv).
Proof.
  intros input rest a. unfold reader, check_len, len.
  destruct (Z.ltb_spec (Z.of_nat (length input)) (Z.of_nat n)); cbn; [done|].
  intros [= <- <-]. exists (take n input). rewrite take_drop, length_take. auto with lia.
Qed.

Lemma write_be_wire {E F A} n z (q : parser F A) (f : IncompleteError.t -> F) conv a :
  q = map_err f (reader n conv) -> conv (z mod 2 ^ (8 * Z.of_nat n)) = a ->
  wire (write_be (E:=E) n z) q a.
Proof.
  intros -> <-. apply wire_map_err. exists (bo_write n z).
  split; [apply emits_write_all|apply reader_parses].
Qed.

Lemma write_be_sized {E} n z k : wrap32 (Z.of_nat n) = k -> sized (write_be (E:=E) n z) k.
Proof. intros <-. eapply sized_eq; [apply sized_write_all|]. by rewrite len_bo_write. Qed.

Lemma read_byte_parses b : parses read_u8 [b] (Z_of_byte b).
Proof.
  intros rest. unfold read_u8, check_len. simpl. rewrite len_cons.
  pose proof (len_nonneg rest). destruct (Z.ltb_spec (1 + len rest) 1); [lia|done].
Qed.

Section wire_integers.
Context {E F : Type} (f : IncompleteError.t -> F).

Lemma read_u8_wire z : u8_ok z -> wire (write_be (E:=E) 1 z) (map_err f read_u8) z.
Proof.
  intros Hz. apply wire_map_err. exists (bo_write 1 z). split; [apply emits_write_all|].
  rewrite bo_write_1. replace z with (Z_of_byte (byte_of_Z z)) at 2.
  - apply read_byte_parses.
  - rewrite Z_of_byte_of_Z. by apply Z.mod_small.
Qed.

(** A byte written as it is ([as u8]) and read as a signed one. *)
Lemma read_i8_wire z : i8_ok z -> wire (write_be (E:=E) 1 z) (map_err f read_i8) z.
Proof.
  intros Hz. apply wire_map_err. exists (bo_write 1 z). split; [apply emits_write_all|].
  rewrite bo_write_1. intros rest. unfold read_i8, check_len. simpl. rewrite len_cons.
  pose proof (len_nonneg rest). destruct (Z.ltb_spec (1 + len rest) 1); [lia|]. cbn.
  rewrite Z_of_byte_of_Z. change 256 with (2 ^ 8).
  by rewrite as_signed_mod, as_signed_id.
Qed.

Lemma read_u16_wire z : u16_ok z -> wire (write_be (E:=E) 2 z) (map_err f read_u16) z.
Proof. intros. eapply write_be_wire; [reflexivity|]. by apply Z.mod_small. Qed.
Lemma read_i16_wire z : i16_ok z -> wire (write_be (E:=E) 2 z) (map_err f read_i16) z.
Proof.
  intros. eapply write_be_wire; [reflexivity|]. change (8 * Z.of_nat 2) with 16.
  by rewrite as_signed_mod, as_signed_id.
Qed.
Lemma read_u32_wire z : u32_ok z -> wire (write_be (E:=E) 4 z) (map_err f read_u32) z.
Proof. intros. eapply write_be_wire; [reflexivity|]. by apply Z.mod_small. Qed.
Lemma read_i32_wire z : i32_ok z -> wire (write_be (E:=E) 4 z) (map_err f read_i32) z.
Proof.
  intros. eapply write_be_wire; [reflexivity|]. change (8 * Z.of_nat 4) with 32.
  by rewrite as_signed_mod, as_signed_id.
Qed.
Lemma read_u64_wire z : u64_ok z -> wire (write_be (E:=E) 8 z) (map_err f read_u64) z.
Proof. intros. eapply write_be_wire; [reflexivity|]. by apply Z.mod_small. Qed.
Lemma read_i64_wire z : i64_ok z -> wire (write_be (E:=E) 8 z) (map_err f read_i64) z.
Proof.
  intros. eapply write_be_wire; [reflexivity|]. change (8 * Z.of_nat 8) with 64.
  by rewrite as_signed_mod, as_signed_id.
Qed.
End wire_integers.

Lemma u8_wire z : u8_ok z -> wire (u8_encode z) u8_decode z.
Proof. apply read_u8_wire. Qed.
Lemma i8_wire z : i8_ok z -> wire (i8_encode z) i8_decode z.
Proof. apply read_i8_wire. Qed.
Lemma u16_wire z : u16_ok z -> wire (u16_encode z) u16_decode z.
Proof. apply read_u16_wire. Qed.
Lemma i16_wire {E} z : i16_ok z -> wire (write_be (E:=E) 2 z) i16_decode z.
Proof. apply read_i16_wire. Qed.
Lemma u32_wire z : u32_ok z -> wire (u32_encode z) u32_decode z.
Proof. apply read_u32_wire. Qed.
Lemma i32_wire z : i32_ok z -> wire (i32_encode z) i32_decode z.
Proof. apply read_i32_wire. Qed.
Lemma u64_wire z : u64_ok z -> wire (u64_encode z) u64_decode z.
Proof. apply read_u64_wire. Qed.
Lemma i64_wire z : i64_ok z -> wire (i64_encode z) i64_decode z.
Proof. apply read_i64_wire. Qed.

Lemma i8_sized z : sized (i8_encode z) (i8_encoded_size z).
Proof. by apply write_be_sized. Qed.
Lemma u8_sized z : sized (u8_encode z) (u8_encoded_size z).
Proof. by apply write_be_sized. Qed.
Lemma u16_sized z : sized (u16_encode z) (u16_encoded_size z).
Proof. by apply write_be_sized. Qed.
Lemma u32_sized z : sized (u32_encode z) (u32_encoded_size z).
Proof. by apply write_be_sized. Qed.
Lemma i32_sized z : sized (i32_encode z) (i32_encoded_size z).
Proof. by apply write_be_sized. Qed.
Lemma u64_sized z : sized (u64_encode z) (u64_encoded_size z).
Proof. by apply write_be_sized. Qed.
Lemma i64_sized z : sized (i64_encode z) (i64_encoded_size z).
Proof. by apply write_be_sized. Qed.

Lemma read_u8_sound : sound read_u8 u8_ok.
Proof.
  intros input rest a. unfold read_u8. destruct (check_len input 1); [|done..].
  destruct input as [|b i]; cbn; [done|]. intros [= <- <-]. apply Z_of_byte_range.
Qed.
Lemma read_i8_sound : sound read_i8 i8_ok.
Proof.
  intros input rest a. unfold read_i8. destruct (check_len input 1); [|done..].
  destruct input as [|b i]; cbn; [done|]. intros [= <- <-]. by apply as_signed_ok.
Qed.
Lemma read_u16_sound : sound read_u16 u16_ok.
Proof. apply reader_sound. done. Qed.
Lemma read_i16_sound : sound read_i16 i16_ok.
Proof. apply reader_sound. intros. by apply as_signed_ok. Qed.
Lemma read_u32_sound : sound read_u32 u32_ok.
Proof. apply reader_sound. done. Qed.
Lemma read_i32_sound : sound read_i32 i32_ok.
Proof. apply reader_sound. intros. by apply as_signed_ok. Qed.
Lemma read_u64_sound : sound read_u64 u64_ok.
Proof. apply reader_sound. done. Qed.
Lemma read_i64_sound : sound read_i64 i64_ok.
Proof. apply reader_sound. intros. by apply as_signed_ok. Qed.
Lemma u8_sound : sound u8_decode u8_ok.
Proof. apply sound_map_err, read_u8_sound. Qed.
Lemma i8_sound : sound i8_decode i8_ok.
Proof. apply sound_map_err, read_i8_sound. Qed.
Lemma u16_sound : sound u16_decode u16_ok.
Proof. apply sound_map_err, read_u16_sound. Qed.
Lemma i16_sound : sound i16_decode i16_ok.
Proof. apply sound_map_err, read_i16_sound. Qed.
Lemma u32_sound : sound u32_decode u32_ok.
Proof. apply sound_map_err, read_u32_sound. Qed.
Lemma i32_sound : sound i32_decode i32_ok.
Proof. apply sound_map_err, read_i32_sound. Qed.
Lemma u64_sound : sound u64_decode u64_ok.
Proof. apply sound_map_err, read_u64_sound. Qed.
Lemma i64_sound : sound i64_decode i64_ok.
Proof. apply sound_map_err, read_i64_sound. Qed.

Lemma read_u8_stable : stable read_u8.
Proof.
  intros input more. unfold read_u8.
  destruct (check_len input 1) as [[]| |] eqn:Hc; [|done..].
  rewrite check_len_app by done. by destruct input.
Qed.
Lemma read_u8_consumes : consumes 1 read_u8.
Proof.
  intros input rest a. unfold read_u8. destruct (check_len input 1); [|done..].
  destruct input as [|b i]; cbn; [done|]. intros [= <- <-]. by exists [b].
Qed.
Lemma read_i8_stable : stable read_i8.
Proof.
  intros input more. unfold read_i8.
  destruct (check_len input 1) as [[]| |] eqn:Hc; [|done..].
  rewrite check_len_app by done. by destruct input.
Qed.
Lemma read_i8_consumes : consumes 1 read_i8.
Proof.
  intros input rest a. unfold read_i8. destruct (check_len input 1); [|done..].
  destruct input as [|b i]; cbn; [done|]. intros [= <- <-]. by exists [b].
Qed.

Lemma incomplete_map_err_stable {A} (p : parser IncompleteError.t A) :
  stable p -> stable (map_err DecodeError.Incomplete p).
Proof. by apply stable_map_err. Qed.
Lemma u8_stable : stable u8_decode.
Proof. apply incomplete_map_err_stable, read_u8_stable. Qed.
Lemma i8_stable : stable i8_decode.
Proof. apply incomplete_map_err_stable, read_i8_stable. Qed.
Lemma u16_stable : stable u16_decode.
Proof. apply incomplete_map_err_stable, reader_stable. Qed.
Lemma i16_stable : stable i16_decode.
Proof. apply incomplete_map_err_stable, reader_stable. Qed.
Lemma u32_stable : stable u32_decode.
Proof. apply incomplete_map_err_stable, reader_stable. Qed.
Lemma i32_stable : stable i32_decode.
Proof. apply incomplete_map_err_stable, reader_stable. Qed.
Lemma u64_stable : stable u64_decode.
Proof. apply incomplete_map_err_stable, reader_stable. Qed.
Lemma i64_stable : stable i64_decode.
Proof. apply incomplete_map_err_stable, reader_stable. Qed.

Lemma reader_consumes_le {A} n m (conv : Z -> A) :
  (n <= m)%nat -> consumes n (reader m conv).
Proof. intros. by eapply consumes_weaken; [apply reader_consumes|]. Qed.
Lemma read_u8_consumes_le n : (n <= 1)%nat -> consumes n read_u8.
Proof. intros. by eapply consumes_weaken; [apply read_u8_consumes|]. Qed.
Lemma read_i8_consumes_le n : (n <= 1)%nat -> consumes n read_i8.
Proof. intros. by eapply consumes_weaken; [apply read_i8_consumes|]. Qed.
Lemma u8_consumes n : (n <= 1)%nat -> consumes n u8_decode.
Proof. intros. apply consumes_map_err. by eapply consumes_weaken; [apply read_u8_consumes|]. Qed.
Lemma i8_consumes n : (n <= 1)%nat -> consumes n i8_decode.
Proof. intros. apply consumes_map_err. by eapply consumes_weaken; [apply read_i8_consumes|]. Qed.
Lemma u16_consumes n : (n <= 2)%nat -> consumes n u16_decode.
Proof. intros. by apply consumes_map_err, reader_consumes_le. Qed.
Lemma read_u16_consumes_le n : (n <= 2)%nat -> consumes n read_u16.
Proof. apply reader_consumes_le. Qed.
Lemma i16_consumes n : (n <= 2)%nat -> consumes n i16_decode.
Proof. intros. by apply consumes_map_err, reader_consumes_le. Qed.
Lemma read_i16_consumes_le n : (n <= 2)%nat -> consumes n read_i16.
Proof. apply reader_consumes_le. Qed.
Lemma u32_consumes n : (n <= 4)%nat -> consumes n u32_decode.
Proof. intros. by apply consumes_map_err, reader_consumes_le. Qed.
Lemma read_u32_consumes_le n : (n <= 4)%nat -> consumes n read_u32.
Proof. apply reader_consumes_le. Qed.
Lemma i32_consumes n : (n <= 4)%nat -> consumes n i32_decode.
Proof. intros. by apply consumes_map_err, reader_consumes_le. Qed.
Lemma read_i32_consumes_le n : (n <= 4)%nat -> consumes n read_i32.
Proof. apply reader_consumes_le. Qed.
Lemma u64_consumes n : (n <= 8)%nat -> consumes n u64_decode.
Proof. intros. by apply consumes_map_err, reader_consumes_le. Qed.
Lemma read_u64_consumes_le n : (n <= 8)%nat -> consumes n read_u64.
Proof. apply reader_consumes_le. Qed.
Lemma i64_consumes n : (n <= 8)%nat -> consumes n i64_decode.
Proof. intros. by apply consumes_map_err, reader_consumes_le. Qed.
Lemma read_i64_consumes_le n : (n <= 8)%nat -> consumes n read_i64.
Proof. apply reader_consumes_le. Qed.
End codec.

#[export] Hint Unfold i8_encoded_size i32_encoded_size u8_encoded_size u16_encoded_size
  u32_encoded_size u64_encoded_size i64_encoded_size add32 : sizes.
#[export] Hint Resolve u8_wire i8_wire u16_wire i16_wire u32_wire i32_wire u64_wire i64_wire
  : wire.
#[export] Hint Resolve u8_sized i8_sized u16_sized u32_sized i32_sized u64_sized i64_sized
  : sized.
#[export] Hint Resolve u8_sound i8_sound u16_sound i16_sound u32_sound i32_sound u64_sound
  i64_sound read_u8_sound read_i8_sound read_u16_sound read_i16_sound read_u32_sound
  read_i32_sound read_u64_sound read_i64_sound : sound.
#[export] Hint Resolve u8_stable i8_stable u16_stable i16_stable u32_stable i32_stable
  u64_stable i64_stable reader_stable read_u8_stable read_i8_stable : stable.
#[export] Hint Resolve u8_consumes i8_consumes u16_consumes i16_consumes u32_consumes
  i32_consumes u64_consumes i64_consumes read_u8_consumes_le read_i8_consumes_le
  read_u16_consumes_le read_i16_consumes_le read_u32_consumes_le read_i32_consumes_le
  read_u64_consumes_le read_i64_consumes_le : consumes.

(** *** Reading an integer never panics *)

Section panics.
Context {BO : ByteOrder} (Q : panic -> Prop).

Lemma check_len_no_panic input n : is_panic (check_len input n) = false.
Proof. unfold check_len. by destruct (_ <? _). Qed.

Lemma reader_panics {A} n (conv : Z -> A) : panics Q (reader n conv).
Proof. intros input x. unfold reader, check_len. by destruct (_ <? _). Qed.

Lemma read_u8_panics : panics Q read_u8.
Proof. intros [|b input] x; [done|]. unfold read_u8, check_len. by destruct (_ <? _). Qed.
Lemma read_i8_panics : panics Q read_i8.
Proof. intros [|b input] x; [done|]. unfold read_i8, check_len. by destruct (_ <? _). Qed.
Lemma read_exact_panics n : panics Q (read_exact n).
Proof. intros input x. unfold read_exact, check_len. by destruct (_ <? _). Qed.
Lemma read_u16_panics : panics Q read_u16.
Proof. apply reader_panics. Qed.
Lemma read_i16_panics : panics Q read_i16.
Proof. apply reader_panics. Qed.
Lemma read_u32_panics : panics Q read_u32.
Proof. apply reader_panics. Qed.
Lemma read_i32_panics : panics Q read_i32.
Proof. apply reader_panics. Qed.
Lemma read_u64_panics : panics Q read_u64.
Proof. apply reader_panics. Qed.
Lemma read_i64_panics : panics Q read_i64.
Proof. apply reader_panics. Qed.
End panics.

(** *** Strings are the only thing that must not be cut *)

Section cuts.
Context {BO : ByteOrder} (Q : panic -> Prop).

Lemma reader_cuts {E A} (f : IncompleteError.t -> E) (p : parser IncompleteError.t A) :
  panics (λ _, False) p -> cut_panics Q (map_err f p).
Proof. intros Hp. apply cut_panics_map_err, cut_panics_never, Hp. Qed.

Lemma i8_cuts : cut_panics Q i8_decode.
Proof. apply reader_cuts, read_i8_panics. Qed.
Lemma i16_cuts : cut_panics Q i16_decode.
Proof. apply reader_cuts, read_i16_panics. Qed.
Lemma i32_cuts : cut_panics Q i32_decode.
Proof. apply reader_cuts, read_i32_panics. Qed.
Lemma u8_cuts : cut_panics Q u8_decode.
Proof. apply reader_cuts, read_u8_panics. Qed.
Lemma u16_cuts : cut_panics Q u16_decode.
Proof. apply reader_cuts, read_u16_panics. Qed.
Lemma u32_cuts : cut_panics Q u32_decode.
Proof. apply reader_cuts, read_u32_panics. Qed.
Lemma u64_cuts : cut_panics Q u64_decode.
Proof. apply reader_cuts, read_u64_panics. Qed.
Lemma i64_cuts : cut_panics Q i64_decode.
Proof. apply reader_cuts, read_i64_panics. Qed.
Lemma with_capacity_stable n : stable (with_capacity n).
Proof. unfold with_capacity. stable_solve. Qed.
Lemma with_capacity_cuts n : cut_panics Q (with_capacity n).
Proof. unfold with_capacity. by destruct (_ <? _). Qed.
Lemma split_at_cuts n : Q SplitAt -> cut_panics Q (split_at n).
Proof. intros HQ input more rest a x _. unfold split_at. destruct (_ <? _); [|done]. by intros [= <-]. Qed.
End cuts.

#[export] Hint Resolve i8_cuts i16_cuts i32_cuts u8_cuts u16_cuts u32_cuts u64_cuts i64_cuts
  with_capacity_cuts : cuts.
#[export] Hint Resolve with_capacity_stable : stable.

#[export] Hint Resolve read_u8_panics read_i8_panics read_exact_panics read_u16_panics
  read_i16_panics read_u32_panics read_i32_panics read_u64_panics read_i64_panics : panics.

(** ** Laws of strings, byte strings and collections *)

Section containers.
Context {BO : ByteOrder}.

Lemma take_drop_split {A} n (input more : list A) :
  (len input <? n) = false -> 0 <= n ->
  (len (input ++ more) <? n) = false ∧
  drop (Z.to_nat n) (input ++ more) = drop (Z.to_nat n) input ++ more ∧
  take (Z.to_nat n) (input ++ more) = take (Z.to_nat n) input.
Proof.
  intros Hn H0. apply Z.ltb_ge in Hn. unfold len in *.
  rewrite length_app, drop_app_le, take_app_le by lia.
  repeat split. apply Z.ltb_ge. lia.
Qed.

Lemma as_usize_nonneg z : 0 <= as_usize z.
Proof. by apply Z.mod_pos_bound. Qed.

Lemma as_usize_small z : 0 <= z < 2 ^ 64 -> as_usize z = z.
Proof. apply Z.mod_small. Qed.

Lemma slice_at_stable n : 0 <= n -> stable (slice_at n).
Proof.
  intros Hn input more. unfold slice_at. destruct (len input <? n) eqn:Hl; [done|].
  destruct (take_drop_split n input more Hl Hn) as (-> & -> & ->). done.
Qed.
Lemma split_at_stable n : 0 <= n -> stable (split_at n).
Proof.
  intros Hn input more. unfold split_at. destruct (len input <? n) eqn:Hl; [done|].
  destruct (take_drop_split n input more Hl Hn) as (-> & -> & ->). done.
Qed.
Lemma read_exact_stable n : 0 <= n -> stable (read_exact n).
Proof.
  intros Hn input more. unfold read_exact, check_len.
  destruct (len input <? n) eqn:Hl; [done|]. cbn.
  destruct (take_drop_split n input more Hl Hn) as (-> & -> & ->). done.
Qed.

Lemma slice_at_consumes n : consumes 0 (slice_at n).
Proof.
  intros input rest a. unfold slice_at. destruct (len input <? n); [done|].
  intros [= <- <-]. exists (take (Z.to_nat n) input). rewrite take_drop. auto with lia.
Qed.
Lemma split_at_consumes n : consumes 0 (split_at n).
Proof.
  intros input rest a. unfold split_at. destruct (len input <? n); [done|].
  intros [= <- <-]. exists (take (Z.to_nat n) input). rewrite take_drop. auto with lia.
Qed.
Lemma read_exact_consumes n : consumes 0 (read_exact n).
Proof.
  intros input rest a. unfold read_exact, check_len. destruct (len input <? n); [done|].
  intros [= <- <-]. exists (take (Z.to_nat n) input). rewrite take_drop. auto with lia.
Qed.

Lemma len_app_ltb {A} (l k : list A) : (len (l ++ k) <? len l) = false.
Proof. rewrite len_app. pose proof (len_nonneg k). apply Z.ltb_ge. lia. Qed.

Lemma slice_at_parses bs : parses (slice_at (len bs)) bs bs.
Proof.
  intros rest. unfold slice_at. by rewrite len_app_ltb, drop_len_app, take_len_app.
Qed.
Lemma split_at_parses bs : parses (split_at (len bs)) bs bs.
Proof.
  intros rest. unfold split_at. by rewrite len_app_ltb, drop_len_app, take_len_app.
Qed.
Lemma read_exact_parses bs : parses (read_exact (len bs)) bs bs.
Proof.
  intros rest. unfold read_exact, check_len.
  by rewrite len_app_ltb, drop_len_app, take_len_app.
Qed.

Lemma wire_string_len s : wire_string s -> 0 < len s < 2 ^ 15.
Proof.
  intros (_ & Hn & Hl). split; [|done]. destruct s as [|b s]; [done|].
  rewrite len_cons. pose proof (len_nonneg s). lia.
Qed.

Lemma write_all_wire {E F} bs (p : parser F bytes) :
  parses p bs bs -> wire (write_all (E:=E) bs) p bs.
Proof. intros. exists bs. split; [apply emits_write_all|done]. Qed.

Lemma str_wire s : wire_string s -> wire (str_encode s) opt_string_decode (Some s).
Proof.
  intros Hs. pose proof (wire_string_len s Hs) as Hl. destruct Hs as (Hu & _ & _).
  unfold str_encode, opt_string_decode.
  rewrite as_signed_id by (unfold signed_ok; lia).
  eapply wire_seq; [apply i16_wire; unfold signed_ok; lia|].
  destruct (Z.eqb_spec (len s) 0) as [|_]; [lia|].
  rewrite as_usize_small by lia.
  eapply wire_last; [apply write_all_wire, split_at_parses|].
  intros input. unfold from_utf8. by rewrite Hu.
Qed.

Lemma opt_string_wire o :
  wire_opt_string o -> wire (opt_string_encode o) opt_string_decode o.
Proof.
  destruct o as [s|]; simpl; [apply str_wire|]. intros _.
  exists (bo_write 2 0). split; [apply emits_write_all|]. intros rest.
  destruct (i16_wire (E:=EncodeError.t) 0) as (bs & He & Hp); [done|].
  rewrite (emits_unique _ _ _ (emits_write_all _) He).
  unfold opt_string_decode, mbind, parser_bind. by rewrite Hp.
Qed.

Lemma len_u32 {A} (l : list A) : len l < 2 ^ 32 -> u32_ok (wrap32 (len l)).
Proof. intros. apply Z.mod_pos_bound. done. Qed.
Lemma len_wrap32 {A} (l : list A) : len l < 2 ^ 32 -> wrap32 (len l) = len l.
Proof. intros. apply wrap32_small. pose proof (len_nonneg l). lia. Qed.

Lemma hashmap_wire m : wire_hashmap m -> wire (hashmap_encode m) hashmap_decode m.
Proof.
  intros (Hm & Hd & Hl). unfold hashmap_encode, hashmap_decode.
  eapply wire_seq; [apply u32_wire, len_u32, Hl|]. rewrite len_wrap32 by done.
  eapply wire_eq; [|exact (hm_extend_empty _ m Hd)]. apply wire_fold; [|done].
  eapply Forall_impl; [exact Hm|]. intros [k v] [Hk Hv] acc.
  eapply wire_seq; [by apply str_wire|]. eapply wire_last; [by apply str_wire|done].
Qed.

Lemma vec_string_wire l :
  wire_vec_string l -> wire (vec_string_encode l) vec_string_decode l.
Proof.
  intros [Hf Hl]. unfold vec_string_encode, vec_string_decode.
  eapply wire_seq; [apply u32_wire, len_u32, Hl|]. rewrite len_wrap32 by done.
  eapply wire_eq; [|apply list_fmap_id]. apply wire_collect; [|done].
  eapply Forall_impl; [exact Hf|]. intros s Hs acc.
  eapply wire_last; [by apply str_wire|done].
Qed.

(** A length written as [i32] and read back as [usize]. *)
Lemma len_i32_wire {A B} (l : list A) (w : encoder) (k : Z -> decoder B) b :
  len l < 2 ^ 31 -> wire w (k (len l)) b ->
  wire (write_be 4 (as_signed 32 (len l));; w) (i32_decode ≫= λ n, k (as_usize n)) b.
Proof.
  intros Hl Hw. pose proof (len_nonneg l).
  rewrite as_signed_id by (unfold signed_ok; lia).
  eapply wire_seq; [apply i32_wire; unfold signed_ok; lia|].
  by rewrite as_usize_small by lia.
Qed.

Lemma vec_u8_wire bs : len bs < 2 ^ 31 -> wire (vec_u8_encode bs) vec_u8_decode bs.
Proof.
  intros. apply (len_i32_wire bs _ slice_at); [done|]. apply write_all_wire, slice_at_parses.
Qed.

Lemma read_vec_wire {A} (P : A -> Prop) (enc : A -> encoder) (dec : decoder A) l :
  (∀ x, P x -> wire (enc x) dec x) -> wire_vec P l ->
  wire (write_be 4 (as_signed 32 (len l));; write_each enc l) (read_vec dec) l.
Proof.
  intros Hd [Hf Hl].
  apply (len_i32_wire l _ (λ n, with_capacity n;; loop_n n _ [])); [done|].
  unfold with_capacity, isize_max. destruct (Z.ltb_spec (2 ^ 63 - 1) (len l)); [lia|].
  eapply wire_ext; [apply wire_loop; [eapply Forall_impl; [exact Hf|exact Hd]|reflexivity]|].
  done.
Qed.

Lemma vec_u32_wire l : wire_vec u32_ok l -> wire (vec_u32_encode l) vec_u32_decode l.
Proof. apply read_vec_wire, u32_wire. Qed.
Lemma vec_u16_wire l : wire_vec u16_ok l -> wire (vec_u16_encode l) vec_u16_decode l.
Proof. apply read_vec_wire, u16_wire. Qed.
Lemma vec_u64_wire l : wire_vec u64_ok l -> wire (vec_u64_encode l) vec_u64_decode l.
Proof. apply read_vec_wire, u64_wire. Qed.

(** *** Sizes *)

Lemma write_be_sized_eq {E} n z : (n < 16)%nat -> sized (write_be (E:=E) n z) (Z.of_nat n).
Proof. intros. apply write_be_sized, wrap32_small. lia. Qed.

Lemma str_sized s : sized (str_encode s) (str_encoded_size s).
Proof. apply sized_seq; [apply (write_be_sized_eq 2); lia|apply sized_write_all]. Qed.

Lemma opt_string_sized o : sized (opt_string_encode o) (opt_string_encoded_size o).
Proof. destruct o; [apply str_sized|]. by apply (write_be_sized 2). Qed.

Lemma sum_sizes_sized {A} (enc : A -> encoder) size l :
  (∀ x, sized (enc x) (size x)) -> sized (write_each enc l) (sum_sizes size l).
Proof. intros H. apply sized_each. by apply Forall_true. Qed.

Lemma counted_sized {E} z (w : writer E unit) n : sized w n -> sized (write_be 4 z;; w) (add32 4 n).
Proof. apply sized_seq. by apply (write_be_sized 4). Qed.

Lemma hashmap_sized m : sized (hashmap_encode m) (hashmap_encoded_size m).
Proof.
  apply counted_sized. eapply sized_eq; [apply sized_each; apply Forall_true|].
  - intros kv. apply sized_seq; apply str_sized.
  - unfold add32. generalize 0 as acc. induction m as [|kv m IH]; intros acc; [done|].
    cbn [fold_left]. rewrite IH. f_equal. wrap32_solve.
Qed.

Lemma vec_string_sized l : sized (vec_string_encode l) (vec_string_encoded_size l).
Proof. apply counted_sized, sum_sizes_sized, str_sized. Qed.
Lemma vec_u8_sized bs : sized (vec_u8_encode bs) (vec_u8_encoded_size bs).
Proof. apply counted_sized, sized_write_all. Qed.
Lemma vec_u32_sized l : sized (vec_u32_encode l) (vec_u32_encoded_size l).
Proof. apply counted_sized, sum_sizes_sized, u32_sized. Qed.
Lemma vec_u16_sized l : sized (vec_u16_encode l) (vec_u16_encoded_size l).
Proof. apply counted_sized, sum_sizes_sized, u16_sized. Qed.
Lemma vec_u64_sized l : sized (vec_u64_encode l) (vec_u64_encoded_size l).
Proof. apply counted_sized, sum_sizes_sized, u64_sized. Qed.

(** *** Soundness *)

Lemma split_at_sound n : 0 < n -> sound (split_at n) (λ bs, bs ≠ []).
Proof.
  intros Hn input rest a. unfold split_at. destruct (Z.ltb_spec (len input) n); [done|].
  intros [= <- <-] Hnil. apply (f_equal length) in Hnil.
  rewrite length_take in Hnil. unfold len in *. simpl in Hnil. lia.
Qed.

Lemma from_utf8_ok bs s : from_utf8 bs = Ok s -> s = bs ∧ string_ok s.
Proof. unfold from_utf8. destruct (utf8_valid bs) eqn:Hu; [|done]. by intros [= <-]. Qed.

Lemma as_usize_pos z : i64_ok z -> z ≠ 0 -> 0 < as_usize z.
Proof.
  unfold as_usize, as_unsigned. intros [Hl Hu] Hz.
  destruct (decide (0 <= z)).
  - rewrite Z.mod_small by lia. lia.
  - rewrite <- (Z.mod_add z 1), Z.mod_small by lia. lia.
Qed.

Lemma opt_string_sound : sound opt_string_decode opt_string_ok.
Proof.
  eapply sound_bind; [apply i16_sound|]. intros n [Hl Hu].
  destruct (Z.eqb_spec n 0); [by apply sound_ret|].
  eapply sound_bind; [apply split_at_sound, as_usize_pos; unfold signed_ok; lia|].
  intros bs Hbs. eapply sound_bind; [apply sound_lift; intros s; apply from_utf8_ok|].
  intros s [-> Hs]. by apply sound_ret.
Qed.

Lemma hashmap_sound : sound hashmap_decode hashmap_ok.
Proof.
  eapply sound_bind; [apply u32_sound|]. intros n _. apply sound_loop; [by split|].
  intros m [Hm Hd]. eapply sound_bind; [apply opt_string_sound|]. intros [k|] Hk.
  - eapply sound_bind; [apply opt_string_sound|]. intros [v|] Hv; apply sound_ret; [|done].
    split.
    + apply hm_insert_forall; [|split; [apply Hk|apply Hv]|done].
      intros k'. unfold key_eqb. intros ->%bool_decide_eq_true. done.
    + apply (hm_insert_distinct (λ _, True)); [|done|by apply Forall_true|done].
      intros a b _ _. unfold key_eqb. apply bool_decide_ext. done.
  - eapply sound_bind; [apply opt_string_sound|]. intros [v|] _; by apply sound_ret.
Qed.

Lemma vec_string_sound : sound vec_string_decode vec_string_ok.
Proof.
  eapply sound_bind; [apply u32_sound|]. intros n _. apply sound_loop; [constructor|].
  intros l Hl. eapply sound_bind; [apply opt_string_sound|].
  intros [s|] Hs; apply sound_ret; [|done]. apply Forall_app.
  split; [done|]. constructor; [exact Hs|constructor].
Qed.

Lemma read_vec_sound {A} (dec : decoder A) P : sound dec P -> sound (read_vec dec) (Forall P).
Proof.
  intros Hd. eapply sound_bind; [apply i32_sound|]. intros n _.
  eapply sound_bind; [apply sound_true|]. intros _ _. by apply sound_collect.
Qed.

Lemma vec_u8_sound : sound vec_u8_decode (λ _, True).
Proof. done. Qed.
Lemma vec_u32_sound : sound vec_u32_decode (Forall u32_ok).
Proof. apply read_vec_sound, u32_sound. Qed.
Lemma vec_u16_sound : sound vec_u16_decode (Forall u16_ok).
Proof. apply read_vec_sound, u16_sound. Qed.
Lemma vec_u64_sound : sound vec_u64_decode (Forall u64_ok).
Proof. apply read_vec_sound, u64_sound. Qed.

(** *** Growing buffers, and input left *)

Lemma opt_string_stable : stable opt_string_decode.
Proof.
  unfold opt_string_decode. stable_solve. apply split_at_stable, as_usize_nonneg.
Qed.
Lemma hashmap_stable : stable hashmap_decode.
Proof. unfold hashmap_decode. pose proof opt_string_stable. stable_solve. Qed.
Lemma vec_string_stable : stable vec_string_decode.
Proof. unfold vec_string_decode. pose proof opt_string_stable. stable_solve. Qed.
Lemma vec_u8_stable : stable vec_u8_decode.
Proof. unfold vec_u8_decode. stable_solve. apply slice_at_stable, as_usize_nonneg. Qed.
Lemma read_vec_stable {A} (dec : decoder A) : stable dec -> stable (read_vec dec).
Proof. intros. unfold read_vec, with_capacity. stable_solve. Qed.
Lemma vec_u32_stable : stable vec_u32_decode.
Proof. apply read_vec_stable, u32_stable. Qed.
Lemma vec_u16_stable : stable vec_u16_decode.
Proof. apply read_vec_stable, u16_stable. Qed.
Lemma vec_u64_stable : stable vec_u64_decode.
Proof. apply read_vec_stable, u64_stable. Qed.

Lemma opt_string_consumes : consumes 0 opt_string_decode.
Proof. unfold opt_string_decode. consumes_solve. apply split_at_consumes. Qed.
Lemma hashmap_consumes : consumes 0 hashmap_decode.
Proof. unfold hashmap_decode. pose proof opt_string_consumes. consumes_solve. Qed.
Lemma vec_string_consumes : consumes 0 vec_string_decode.
Proof. unfold vec_string_decode. pose proof opt_string_consumes. consumes_solve. Qed.
Lemma vec_u8_consumes : consumes 0 vec_u8_decode.
Proof. unfold vec_u8_decode. consumes_solve. apply slice_at_consumes. Qed.
Lemma read_vec_consumes {A} (dec : decoder A) : consumes 0 dec -> consumes 0 (read_vec dec).
Proof. intros. unfold read_vec, with_capacity. consumes_solve. Qed.
End containers.

#[export] Hint Resolve str_wire opt_string_wire hashmap_wire vec_string_wire vec_u8_wire
  vec_u32_wire vec_u16_wire vec_u64_wire : wire.
#[export] Hint Resolve str_sized opt_string_sized hashmap_sized vec_string_sized
  vec_u8_sized vec_u32_sized vec_u16_sized vec_u64_sized sum_sizes_sized : sized.
#[export] Hint Resolve opt_string_sound hashmap_sound vec_string_sound vec_u8_sound vec_u32_sound
  vec_u16_sound vec_u64_sound : sound.
#[export] Hint Resolve opt_string_stable hashmap_stable vec_string_stable vec_u8_stable
  vec_u32_stable vec_u16_stable vec_u64_stable
  read_vec_stable slice_at_stable split_at_stable read_exact_stable as_usize_nonneg : stable.
#[export] Hint Resolve opt_string_consumes hashmap_consumes vec_string_consumes
  vec_u8_consumes read_vec_consumes slice_at_consumes split_at_consumes
  read_exact_consumes : consumes.
