(* ===== verification/Protocol.v ===== *)
(** * Protocol constants, headers and response codes

    protocol/src/protocol.rs, protocol/src/types.rs,
    protocol/src/response/shims.rs, and the interfaces of the codec
    (protocol/src/commands/mod.rs). *)
From S2P Require Import Prelude Utf8 HashMaps Integers Codec.

(** ** protocol.rs *)

Definition COMMAND_DECLARE_PUBLISHER : Z := 1.
Definition COMMAND_PUBLISH : Z := 2.
Definition COMMAND_PUBLISH_CONFIRM : Z := 3.
Definition COMMAND_PUBLISH_ERROR : Z := 4.
Definition COMMAND_QUERY_PUBLISHER_SEQUENCE : Z := 5.
Definition COMMAND_DELETE_PUBLISHER : Z := 6.
Definition COMMAND_SUBSCRIBE : Z := 7.
Definition COMMAND_DELIVER : Z := 8.
Definition COMMAND_CREDIT : Z := 9.
Definition COMMAND_STORE_OFFSET : Z := 10.
Definition COMMAND_QUERY_OFFSET : Z := 11.
Definition COMMAND_UNSUBSCRIBE : Z := 12.
Definition COMMAND_CREATE_STREAM : Z := 13.
Definition COMMAND_DELETE_STREAM : Z := 14.
Definition COMMAND_METADATA : Z := 15.
Definition COMMAND_METADATA_UPDATE : Z := 16.
Definition COMMAND_PEER_PROPERTIES : Z := 17.
Definition COMMAND_SASL_HANDSHAKE : Z := 18.
Definition COMMAND_SASL_AUTHENTICATE : Z := 19.
Definition COMMAND_TUNE : Z := 20.
Definition COMMAND_OPEN : Z := 21.
Definition COMMAND_CLOSE : Z := 22.
Definition COMMAND_HEARTBEAT : Z := 23.
Definition COMMAND_ROUTE : Z := 24.
Definition COMMAND_PARTITIONS : Z := 25.
Definition COMMAND_CONSUMER_UPDATE : Z := 26.
Definition COMMAND_EXCHANGE_COMMAND_VERSIONS : Z := 27.
Definition COMMAND_STREAMS_STATS : Z := 28.
Definition COMMAND_CREATE_SUPER_STREAM : Z := 29.
Definition COMMAND_DELETE_SUPER_STREAM : Z := 30.
Definition COMMAND_CONSUMER_UPDATE_REQUEST : Z := 32794.
Definition RESPONSE_CODE_OK : Z := 1.
Definition RESPONSE_CODE_STREAM_DOES_NOT_EXIST : Z := 2.
Definition RESPONSE_CODE_SUBSCRIPTION_ID_ALREADY_EXISTS : Z := 3.
Definition RESPONSE_CODE_SUBSCRIPTION_ID_DOES_NOT_EXIST : Z := 4.
Definition RESPONSE_CODE_STREAM_ALREADY_EXISTS : Z := 5.
Definition RESPONSE_CODE_STREAM_NOT_AVAILABLE : Z := 6.
Definition RESPONSE_CODE_SASL_MECHANISM_NOT_SUPPORTED : Z := 7.
Definition RESPONSE_CODE_AUTHENTICATION_FAILURE : Z := 8.
Definition RESPONSE_CODE_SASL_ERROR : Z := 9.
Definition RESPONSE_CODE_SASL_CHALLENGE : Z := 10.
Definition RESPONSE_CODE_AUTHENTICATION_FAILURE_LOOPBACK : Z := 11.
Definition RESPONSE_CODE_VIRTUAL_HOST_ACCESS_FAILURE : Z := 12.
Definition RESPONSE_CODE_UNKNOWN_FRAME : Z := 13.
Definition RESPONSE_CODE_FRAME_TOO_LARGE : Z := 14.
Definition RESPONSE_CODE_INTERNAL_ERROR : Z := 15.
Definition RESPONSE_CODE_ACCESS_REFUSED : Z := 16.
Definition RESPONSE_CODE_PRECONDITION_FAILED : Z := 17.
Definition RESPONSE_CODE_PUBLISHER_DOES_NOT_EXIST : Z := 18.
Definition RESPONSE_CODE_OFFSET_NOT_FOUND : Z := 19.
Definition PROTOCOL_VERSION : Z := 1.
Definition PROTOCOL_VERSION_2 : Z := 2.

(** ** Interfaces *)

(** [trait Command]: the key and the version of the header that announces it. *)
Class Command (A : Type) := { command_key : A -> Z; command_version : A -> Z }.

(** ** Header *)

Record Header := Header_new { key : Z; version : Z }.

Inductive ResponseCode : Set :=
  | ResponseCode_Ok
  | ResponseCode_StreamDoesNotExist
  | ResponseCode_SubscriptionIdAlreadyExists
  | ResponseCode_SubscriptionIdDoesNotExist
  | ResponseCode_StreamAlreadyExists
  | ResponseCode_StreamNotAvailable
  | ResponseCode_SaslMechanismNotSupported
  | ResponseCode_AuthenticationFailure
  | ResponseCode_SaslError
  | ResponseCode_SaslChallange
  | ResponseCode_AuthenticationFailureLoopback
  | ResponseCode_VirtualHostAccessFailure
  | ResponseCode_UnknownFrame
  | ResponseCode_FrameTooLarge
  | ResponseCode_InternalError
  | ResponseCode_AccessRefused
  | ResponseCode_PrecoditionFailed
  | ResponseCode_PublisherDoesNotExist
  | ResponseCode_OffsetNotFound.

#[global] Instance response_code_eq_dec : EqDecision ResponseCode.
Proof. solve_decision. Defined.

Definition Header_ok (h : Header) : Prop := u16_ok (key h) ∧ u16_ok (version h).

Section protocol.
Context {BO : ByteOrder}.

Definition extract_response_code (code : Z) : Z := Z.land code 32767.
Definition encode_response_code (code : Z) : Z := Z.lor code 32768.

Definition Header_decode : decoder Header :=
  key ← u16_decode;
  version ← u16_decode;
  mret (Header_new (extract_response_code key) version).

Definition Header_encoded_size (h : Header) : Z := 2 + 2.
Definition Header_encode (h : Header) : encoder :=
  u16_encode (key h);; u16_encode (version h).

(** ** ResponseCode *)

Definition ResponseCode_try_from (value : Z) : result DecodeError.t ResponseCode :=
  if value =? RESPONSE_CODE_OK then Ok ResponseCode_Ok
  else if value =? RESPONSE_CODE_STREAM_DOES_NOT_EXIST then Ok ResponseCode_StreamDoesNotExist
  else if value =? RESPONSE_CODE_SUBSCRIPTION_ID_ALREADY_EXISTS then Ok ResponseCode_SubscriptionIdAlreadyExists
  else if value =? RESPONSE_CODE_SUBSCRIPTION_ID_DOES_NOT_EXIST then Ok ResponseCode_SubscriptionIdDoesNotExist
  else if value =? RESPONSE_CODE_STREAM_ALREADY_EXISTS then Ok ResponseCode_StreamAlreadyExists
  else if value =? RESPONSE_CODE_STREAM_NOT_AVAILABLE then Ok ResponseCode_StreamNotAvailable
  else if value =? RESPONSE_CODE_SASL_MECHANISM_NOT_SUPPORTED then Ok ResponseCode_SaslMechanismNotSupported
  else if value =? RESPONSE_CODE_AUTHENTICATION_FAILURE then Ok ResponseCode_AuthenticationFailure
  else if value =? RESPONSE_CODE_SASL_ERROR then Ok ResponseCode_SaslError
  else if value =? RESPONSE_CODE_SASL_CHALLENGE then Ok ResponseCode_SaslChallange
  else if value =? RESPONSE_CODE_AUTHENTICATION_FAILURE_LOOPBACK then Ok ResponseCode_AuthenticationFailureLoopback
  else if value =? RESPONSE_CODE_VIRTUAL_HOST_ACCESS_FAILURE then Ok ResponseCode_VirtualHostAccessFailure
  else if value =? RESPONSE_CODE_UNKNOWN_FRAME then Ok ResponseCode_UnknownFrame
  else if value =? RESPONSE_CODE_FRAME_TOO_LARGE then Ok ResponseCode_FrameTooLarge
  else if value =? RESPONSE_CODE_INTERNAL_ERROR then Ok ResponseCode_InternalError
  else if value =? RESPONSE_CODE_ACCESS_REFUSED then Ok ResponseCode_AccessRefused
  else if value =? RESPONSE_CODE_PRECONDITION_FAILED then Ok ResponseCode_PrecoditionFailed
  else if value =? RESPONSE_CODE_PUBLISHER_DOES_NOT_EXIST then Ok ResponseCode_PublisherDoesNotExist
  else if value =? RESPONSE_CODE_OFFSET_NOT_FOUND then Ok ResponseCode_OffsetNotFound
  else Err (DecodeError.UnknownResponseCode value).

Definition ResponseCode_to_u16 (code : ResponseCode) : Z :=
  match code with
  | ResponseCode_Ok => RESPONSE_CODE_OK
  | ResponseCode_StreamDoesNotExist => RESPONSE_CODE_STREAM_DOES_NOT_EXIST
  | ResponseCode_SubscriptionIdAlreadyExists => RESPONSE_CODE_SUBSCRIPTION_ID_ALREADY_EXISTS
  | ResponseCode_SubscriptionIdDoesNotExist => RESPONSE_CODE_SUBSCRIPTION_ID_DOES_NOT_EXIST
  | ResponseCode_StreamAlreadyExists => RESPONSE_CODE_STREAM_ALREADY_EXISTS
  | ResponseCode_StreamNotAvailable => RESPONSE_CODE_STREAM_NOT_AVAILABLE
  | ResponseCode_SaslMechanismNotSupported => RESPONSE_CODE_SASL_MECHANISM_NOT_SUPPORTED
  | ResponseCode_AuthenticationFailure => RESPONSE_CODE_AUTHENTICATION_FAILURE
  | ResponseCode_SaslError => RESPONSE_CODE_SASL_ERROR
  | ResponseCode_SaslChallange => RESPONSE_CODE_SASL_CHALLENGE
  | ResponseCode_AuthenticationFailureLoopback => RESPONSE_CODE_AUTHENTICATION_FAILURE_LOOPBACK
  | ResponseCode_VirtualHostAccessFailure => RESPONSE_CODE_VIRTUAL_HOST_ACCESS_FAILURE
  | ResponseCode_UnknownFrame => RESPONSE_CODE_UNKNOWN_FRAME
  | ResponseCode_FrameTooLarge => RESPONSE_CODE_FRAME_TOO_LARGE
  | ResponseCode_InternalError => RESPONSE_CODE_INTERNAL_ERROR
  | ResponseCode_AccessRefused => RESPONSE_CODE_ACCESS_REFUSED
  | ResponseCode_PrecoditionFailed => RESPONSE_CODE_PRECONDITION_FAILED
  | ResponseCode_PublisherDoesNotExist => RESPONSE_CODE_PUBLISHER_DOES_NOT_EXIST
  | ResponseCode_OffsetNotFound => RESPONSE_CODE_OFFSET_NOT_FOUND
  end.

Definition ResponseCode_decode : decoder ResponseCode :=
  code ← u16_decode; lift (ResponseCode_try_from code).

Definition ResponseCode_encoded_size (code : ResponseCode) : Z := 2.
#[global] Arguments ResponseCode_encoded_size code : simpl never.
Definition ResponseCode_encode (code : ResponseCode) : encoder :=
  u16_encode (ResponseCode_to_u16 code).
End protocol.

(** ** PublishingError *)

Module PublishingErrors.
Record PublishingError := PublishingError_new { publishing_id : Z; error_code : ResponseCode }.

Section defs.
Context {BO : ByteOrder}.

Definition PublishingError_decode : decoder PublishingError :=
  publishing_id ← u64_decode;
  code ← ResponseCode_decode;
  mret (PublishingError_new publishing_id code).

Definition PublishingError_encode (e : PublishingError) : encoder :=
  u64_encode (publishing_id e);; ResponseCode_encode (error_code e).
Definition PublishingError_encoded_size (e : PublishingError) : Z := 8 + 2.

Definition vec_PublishingError_decode : decoder (list PublishingError) :=
  num_properties ← u32_decode;
  loop_n num_properties (λ vec, value ← PublishingError_decode; mret (vec ++ [value])) [].

Definition vec_PublishingError_encode (l : list PublishingError) : encoder :=
  i32_encode (as_signed 32 (len l));; write_each PublishingError_encode l.
Definition vec_PublishingError_encoded_size (l : list PublishingError) : Z :=
  add32 4 (sum_sizes PublishingError_encoded_size l).
End defs.
End PublishingErrors.
Export PublishingErrors.

#[export] Hint Unfold ResponseCode_encoded_size Header_encoded_size
  PublishingError_encoded_size : sizes.

(** ** Laws *)

Section laws.
Context {BO : ByteOrder}.

(** A header survives when its key leaves the response bit clear. *)
Definition Header_wire (h : Header) : Prop := 0 <= key h < 2 ^ 15 ∧ u16_ok (version h).

Lemma extract_response_code_mod code : 0 <= code -> extract_response_code code = code mod 2 ^ 15.
Proof. intros. apply (Z.land_ones code 15). lia. Qed.

Lemma extract_response_code_low code : 0 <= code < 2 ^ 15 -> extract_response_code code = code.
Proof. intros. rewrite extract_response_code_mod by lia. by apply Z.mod_small. Qed.

#[global] Instance Header_round_trips : RoundTrips Header_encode Header_decode Header_wire.
Proof.
  intros [k v] [Hk Hv]. unfold Header_encode, Header_decode. cbn [key version] in *.
  eapply wire_seq; [apply u16_wire; unfold unsigned_ok; lia|].
  eapply wire_last; [by apply u16_wire|]. intros. by rewrite extract_response_code_low.
Qed.
#[global] Instance Header_sized : SizeExact Header_encode Header_encoded_size (λ _, True).
Proof. sizes. Qed.
#[global] Instance Header_reads : Reads Header_decode Header_ok.
Proof.
  constructor; [|unfold Header_decode; stable_solve|unfold Header_decode; consumes_solve].
  unfold Header_decode. sound_solve. split; [|done]. cbn.
  unfold unsigned_ok in *. rewrite extract_response_code_mod by lia.
  pose proof (Z.mod_pos_bound a (2 ^ 15)). lia.
Qed.

Lemma ResponseCode_try_from_to code : ResponseCode_try_from (ResponseCode_to_u16 code) = Ok code.
Proof. by destruct code. Qed.

Lemma ResponseCode_to_try_from z code :
  ResponseCode_try_from z = Ok code -> ResponseCode_to_u16 code = z.
Proof.
  unfold ResponseCode_try_from.
  repeat match goal with |- context [?a =? ?b] => destruct (Z.eqb_spec a b); [intros [= <-]; done|] end.
  done.
Qed.

Lemma ResponseCode_u16 code : u16_ok (ResponseCode_to_u16 code).
Proof. by destruct code. Qed.

#[global] Instance ResponseCode_round_trips :
  RoundTrips ResponseCode_encode ResponseCode_decode (λ _, True).
Proof.
  intros code _. eapply wire_last; [apply u16_wire, ResponseCode_u16|].
  intros. unfold lift. by rewrite ResponseCode_try_from_to.
Qed.
#[global] Instance ResponseCode_sized :
  SizeExact ResponseCode_encode ResponseCode_encoded_size (λ _, True).
Proof. intros code _. apply u16_sized. Qed.
#[global] Instance ResponseCode_reads : Reads ResponseCode_decode (λ _, True).
Proof.
  constructor; [done|unfold ResponseCode_decode; stable_solve|].
  unfold ResponseCode_decode. consumes_solve.
Qed.

Definition PublishingError_ok (e : PublishingError) : Prop := u64_ok (publishing_id e).

#[global] Instance PublishingError_round_trips :
  RoundTrips PublishingError_encode PublishingError_decode PublishingError_ok.
Proof. round_trips. Qed.
#[global] Instance PublishingError_sized :
  SizeExact PublishingError_encode PublishingError_encoded_size (λ _, True).
Proof. sizes. Qed.
#[global] Instance PublishingError_reads : Reads PublishingError_decode PublishingError_ok.
Proof. reads. Qed.

(** A length written as [i32] and read as [u32]. *)
Lemma len_u32_wire {A} (l : list A) :
  len l < 2 ^ 32 -> wire (i32_encode (as_signed 32 (len l))) u32_decode (len l).
Proof.
  intros Hl. eapply write_be_wire; [reflexivity|]. change (8 * Z.of_nat 4) with 32.
  rewrite mod_as_signed by lia. apply Z.mod_small. pose proof (len_nonneg l). lia.
Qed.

(** A length written as [u32] and read by [read_vec]. *)
Lemma len_u32_i32 {A} (l : list A) :
  len l < 2 ^ 31 -> wrap32 (len l) = as_signed 32 (len l).
Proof.
  intros Hl. pose proof (len_nonneg l).
  rewrite wrap32_small, as_signed_id by (unfold signed_ok; lia). done.
Qed.

Definition vec_PublishingError_wire (l : list PublishingError) : Prop :=
  Forall PublishingError_ok l ∧ len l < 2 ^ 32.

#[global] Instance vec_PublishingError_round_trips :
  RoundTrips vec_PublishingError_encode vec_PublishingError_decode vec_PublishingError_wire.
Proof.
  intros l [Hf Hl]. eapply wire_seq; [by apply len_u32_wire|].
  apply wire_loop; [|done]. eapply Forall_impl; [exact Hf|]. apply round_trip.
Qed.
#[global] Instance vec_PublishingError_sized :
  SizeExact vec_PublishingError_encode vec_PublishingError_encoded_size (λ _, True).
Proof. intros l _. apply counted_sized, sum_sizes_sized. auto with sized. Qed.
#[global] Instance vec_PublishingError_reads :
  Reads vec_PublishingError_decode (Forall PublishingError_ok).
Proof.
  constructor; unfold vec_PublishingError_decode; [|stable_solve|consumes_solve].
  eapply sound_bind; [apply sound_true|]. intros n _. apply sound_collect, reads_sound.
Qed.

(** Vectors read by [read_vec]. *)
Lemma read_vec_reads {A} (dec : decoder A) ok : Reads dec ok -> Reads (read_vec dec) (Forall ok).
Proof.
  intros [Hs Ht Hc].
  constructor; [by apply read_vec_sound|by apply read_vec_stable|by apply read_vec_consumes].
Qed.
End laws.
