(* ===== verification/Session.v ===== *)
(** * Commands that set up and end a connection

    protocol/src/commands/: open.rs, close.rs, peer_properties.rs,
    sasl_handshake.rs, sasl_authenticate.rs, tune.rs, heart_beat.rs,
    exchange_command_versions.rs, generic.rs.  One Module per file of the source,
    one Record per struct; its constructor is the struct's [new]. *)
From S2P Require Import Prelude Utf8 HashMaps Integers Codec Protocol.

(** ** protocol/src/commands/open.rs *)

Module open.
Record OpenCommand := OpenCommand_new {
  correlation_id : Z;
  virtual_host : bytes;
}.

#[global] Instance OpenCommand_command : Command OpenCommand :=
  {| command_key _ := COMMAND_OPEN; command_version _ := PROTOCOL_VERSION |}.

Section OpenCommand_codec.
Context {BO : ByteOrder}.

Definition OpenCommand_encode (x : OpenCommand) : encoder :=
  u32_encode (correlation_id x);; str_encode (virtual_host x).
Definition OpenCommand_encoded_size (x : OpenCommand) : Z :=
  add32 (u32_encoded_size (correlation_id x)) (str_encoded_size (virtual_host x)).

Definition OpenCommand_decode : decoder OpenCommand :=
  correlation_id ← u32_decode;
  virtual_host ← opt_string_decode;
  virtual_host ← unwrap virtual_host;
  mret (OpenCommand_new correlation_id virtual_host).

Definition OpenCommand_ok (x : OpenCommand) : Prop :=
  u32_ok (correlation_id x) ∧ string_ok (virtual_host x).
Definition OpenCommand_wire (x : OpenCommand) : Prop :=
  u32_ok (correlation_id x) ∧ wire_string (virtual_host x).

#[global] Instance OpenCommand_round_trips :
  RoundTrips OpenCommand_encode OpenCommand_decode OpenCommand_wire.
Proof. round_trips. Qed.
#[global] Instance OpenCommand_sized :
  SizeExact OpenCommand_encode OpenCommand_encoded_size (λ _, True).
Proof. sizes. Qed.
#[global] Instance OpenCommand_reads : Reads OpenCommand_decode OpenCommand_ok.
Proof. reads. Qed.
End OpenCommand_codec.

Record OpenResponse := OpenResponse_new {
  r_correlation_id : Z;
  r_code : ResponseCode;
  r_connection_properties : list (bytes * bytes);
}.

Section OpenResponse_codec.
Context {BO : ByteOrder}.

Definition OpenResponse_decode : decoder OpenResponse :=
  correlation_id ← u32_decode;
  response_code ← ResponseCode_decode;
  connection_properties ← (if bool_decide (response_code = ResponseCode_Ok)
                           then hashmap_decode else mret []);
  mret (OpenResponse_new correlation_id response_code connection_properties).

(** The server's side, as the tests of the crate write it. *)
Definition OpenResponse_encode (x : OpenResponse) : encoder :=
  u32_encode (r_correlation_id x);; ResponseCode_encode (r_code x);;
  hashmap_encode (r_connection_properties x).

Definition OpenResponse_is_ok (x : OpenResponse) : bool := bool_decide (r_code x = ResponseCode_Ok).

Definition OpenResponse_ok (x : OpenResponse) : Prop :=
  u32_ok (r_correlation_id x) ∧ hashmap_ok (r_connection_properties x).
(** The properties are read from a successful reply only. *)
Definition OpenResponse_wire (x : OpenResponse) : Prop :=
  u32_ok (r_correlation_id x) ∧ r_code x = ResponseCode_Ok ∧
  wire_hashmap (r_connection_properties x).

#[global] Instance OpenResponse_round_trips :
  RoundTrips OpenResponse_encode OpenResponse_decode OpenResponse_wire.
Proof.
  intros [cid code props] (Hc & Hk & Hp). cbn in *. subst code.
  unfold OpenResponse_encode, OpenResponse_decode. cbn [r_correlation_id r_code r_connection_properties].
  eapply wire_seq; [by apply u32_wire|]. cbv beta.
  eapply wire_seq; [by apply round_trip|]. cbv beta.
  eapply wire_last; [by apply hashmap_wire|done].
Qed.
#[global] Instance OpenResponse_reads : Reads OpenResponse_decode OpenResponse_ok.
Proof.
  constructor; unfold OpenResponse_decode; [|stable_solve|consumes_solve].
  sound_step. sound_step. eapply (sound_bind _ _ hashmap_ok).
  - destruct (bool_decide _); [apply hashmap_sound|]. apply sound_ret. by split.
  - intros ps Hps. by apply sound_ret.
Qed.
End OpenResponse_codec.
End open.


(** ** protocol/src/commands/close.rs *)

Module close.
Record CloseRequest := CloseRequest_new {
  correlation_id : Z;
  closing_code : ResponseCode;
  closing_reason : bytes;
}.

#[global] Instance CloseRequest_command : Command CloseRequest :=
  {| command_key _ := COMMAND_CLOSE; command_version _ := PROTOCOL_VERSION |}.

Section CloseRequest_codec.
Context {BO : ByteOrder}.

Definition CloseRequest_encode (x : CloseRequest) : encoder :=
  u32_encode (correlation_id x);; ResponseCode_encode (closing_code x);; str_encode
  (closing_reason x).
Definition CloseRequest_encoded_size (x : CloseRequest) : Z :=
  add32 (add32 (u32_encoded_size (correlation_id x)) (ResponseCode_encoded_size
  (closing_code x))) (str_encoded_size (closing_reason x)).

Definition CloseRequest_decode : decoder CloseRequest :=
  correlation_id ← u32_decode;
  closing_code ← ResponseCode_decode;
  closing_reason ← opt_string_decode;
  closing_reason ← unwrap closing_reason;
  mret (CloseRequest_new correlation_id closing_code closing_reason).

Definition CloseRequest_ok (x : CloseRequest) : Prop :=
  u32_ok (correlation_id x) ∧ string_ok (closing_reason x).
Definition CloseRequest_wire (x : CloseRequest) : Prop :=
  u32_ok (correlation_id x) ∧ wire_string (closing_reason x).

#[global] Instance CloseRequest_round_trips :
  RoundTrips CloseRequest_encode CloseRequest_decode CloseRequest_wire.
Proof. round_trips. Qed.
#[global] Instance CloseRequest_sized :
  SizeExact CloseRequest_encode CloseRequest_encoded_size (λ _, True).
Proof. sizes. Qed.
#[global] Instance CloseRequest_reads : Reads CloseRequest_decode CloseRequest_ok.
Proof. reads. Qed.
End CloseRequest_codec.

Record CloseResponse := CloseResponse_new {
  r_correlation_id : Z;
  r_response_code : ResponseCode;
}.

Section CloseResponse_codec.
Context {BO : ByteOrder}.

Definition CloseResponse_encode (x : CloseResponse) : encoder :=
  u32_encode (r_correlation_id x);; ResponseCode_encode (r_response_code x).
Definition CloseResponse_encoded_size (x : CloseResponse) : Z :=
  add32 (u32_encoded_size (r_correlation_id x)) (ResponseCode_encoded_size
  (r_response_code x)).

Definition CloseResponse_decode : decoder CloseResponse :=
  correlation_id ← u32_decode;
  response_code ← ResponseCode_decode;
  mret (CloseResponse_new correlation_id response_code).

Definition CloseResponse_is_ok (x : CloseResponse) : bool := bool_decide (r_response_code x = ResponseCode_Ok).

Definition CloseResponse_ok (x : CloseResponse) : Prop :=
  u32_ok (r_correlation_id x).

#[global] Instance CloseResponse_round_trips :
  RoundTrips CloseResponse_encode CloseResponse_decode CloseResponse_ok.
Proof. round_trips. Qed.
#[global] Instance CloseResponse_sized :
  SizeExact CloseResponse_encode CloseResponse_encoded_size (λ _, True).
Proof. sizes. Qed.
#[global] Instance CloseResponse_reads : Reads CloseResponse_decode CloseResponse_ok.
Proof. reads. Qed.
End CloseResponse_codec.
End close.


(** ** protocol/src/commands/peer_properties.rs *)

Module peer_properties.
Record PeerPropertiesCommand := PeerPropertiesCommand_new {
  correlation_id : Z;
  client_properties : list (bytes * bytes);
}.

#[global] Instance PeerPropertiesCommand_command : Command PeerPropertiesCommand :=
  {| command_key _ := COMMAND_PEER_PROPERTIES; command_version _ := PROTOCOL_VERSION |}.

Section PeerPropertiesCommand_codec.
Context {BO : ByteOrder}.

Definition PeerPropertiesCommand_encode (x : PeerPropertiesCommand) : encoder :=
  u32_encode (correlation_id x);; hashmap_encode (client_properties x).
Definition PeerPropertiesCommand_encoded_size (x : PeerPropertiesCommand) : Z :=
  add32 (u32_encoded_size (correlation_id x)) (hashmap_encoded_size (client_properties
  x)).

Definition PeerPropertiesCommand_decode : decoder PeerPropertiesCommand :=
  correlation_id ← u32_decode;
  client_properties ← hashmap_decode;
  mret (PeerPropertiesCommand_new correlation_id client_properties).

Definition PeerPropertiesCommand_ok (x : PeerPropertiesCommand) : Prop :=
  u32_ok (correlation_id x) ∧ hashmap_ok (client_properties x).
Definition PeerPropertiesCommand_wire (x : PeerPropertiesCommand) : Prop :=
  u32_ok (correlation_id x) ∧ wire_hashmap (client_properties x).

#[global] Instance PeerPropertiesCommand_round_trips :
  RoundTrips PeerPropertiesCommand_encode PeerPropertiesCommand_decode PeerPropertiesCommand_wire.
Proof. round_trips. Qed.
#[global] Instance PeerPropertiesCommand_sized :
  SizeExact PeerPropertiesCommand_encode PeerPropertiesCommand_encoded_size (λ _, True).
Proof. sizes. Qed.
#[global] Instance PeerPropertiesCommand_reads : Reads PeerPropertiesCommand_decode PeerPropertiesCommand_ok.
Proof. reads. Qed.
End PeerPropertiesCommand_codec.

Record PeerPropertiesResponse := PeerPropertiesResponse_new {
  r_correlation_id : Z;
  r_code : ResponseCode;
  r_server_properties : list (bytes * bytes);
}.

Section PeerPropertiesResponse_codec.
Context {BO : ByteOrder}.

Definition PeerPropertiesResponse_decode : decoder PeerPropertiesResponse :=
  correlation_id ← u32_decode;
  code ← ResponseCode_decode;
  server_properties ← hashmap_decode;
  mret (PeerPropertiesResponse_new correlation_id code server_properties).

(** As the tests of the crate write it. *)
Definition PeerPropertiesResponse_encode (x : PeerPropertiesResponse) : encoder :=
  u32_encode (r_correlation_id x);; ResponseCode_encode (r_code x);;
  hashmap_encode (r_server_properties x).

Definition PeerPropertiesResponse_ok (x : PeerPropertiesResponse) : Prop :=
  u32_ok (r_correlation_id x) ∧ hashmap_ok (r_server_properties x).
Definition PeerPropertiesResponse_wire (x : PeerPropertiesResponse) : Prop :=
  u32_ok (r_correlation_id x) ∧ wire_hashmap (r_server_properties x).

#[global] Instance PeerPropertiesResponse_round_trips :
  RoundTrips PeerPropertiesResponse_encode PeerPropertiesResponse_decode PeerPropertiesResponse_wire.
Proof. round_trips. Qed.
#[global] Instance PeerPropertiesResponse_reads : Reads PeerPropertiesResponse_decode PeerPropertiesResponse_ok.
Proof. reads. Qed.
End PeerPropertiesResponse_codec.
End peer_properties.


(** ** protocol/src/commands/sasl_handshake.rs *)

Module sasl_handshake.
Record SaslHandshakeCommand := SaslHandshakeCommand_new {
  correlation_id : Z;
}.

#[global] Instance SaslHandshakeCommand_command : Command SaslHandshakeCommand :=
  {| command_key _ := COMMAND_SASL_HANDSHAKE; command_version _ := PROTOCOL_VERSION |}.

Section SaslHandshakeCommand_codec.
Context {BO : ByteOrder}.

Definition SaslHandshakeCommand_encode (x : SaslHandshakeCommand) : encoder :=
  u32_encode (correlation_id x).
Definition SaslHandshakeCommand_encoded_size (x : SaslHandshakeCommand) : Z :=
  u32_encoded_size (correlation_id x).

Definition SaslHandshakeCommand_decode : decoder SaslHandshakeCommand :=
  correlation_id ← u32_decode;
  mret (SaslHandshakeCommand_new correlation_id).

Definition SaslHandshakeCommand_ok (x : SaslHandshakeCommand) : Prop :=
  u32_ok (correlation_id x).

#[global] Instance SaslHandshakeCommand_round_trips :
  RoundTrips SaslHandshakeCommand_encode SaslHandshakeCommand_decode SaslHandshakeCommand_ok.
Proof. round_trips. Qed.
#[global] Instance SaslHandshakeCommand_sized :
  SizeExact SaslHandshakeCommand_encode SaslHandshakeCommand_encoded_size (λ _, True).
Proof. sizes. Qed.
#[global] Instance SaslHandshakeCommand_reads : Reads SaslHandshakeCommand_decode SaslHandshakeCommand_ok.
Proof. reads. Qed.
End SaslHandshakeCommand_codec.

Record SaslHandshakeResponse := SaslHandshakeResponse_new {
  r_correlation_id : Z;
  r_code : ResponseCode;
  r_mechanisms : list bytes;
}.

Section SaslHandshakeResponse_codec.
Context {BO : ByteOrder}.

Definition SaslHandshakeResponse_decode : decoder SaslHandshakeResponse :=
  correlation_id ← u32_decode;
  code ← ResponseCode_decode;
  mechanisms ← vec_string_decode;
  mret (SaslHandshakeResponse_new correlation_id code mechanisms).

(** As the tests of the crate write it. *)
Definition SaslHandshakeResponse_encode (x : SaslHandshakeResponse) : encoder :=
  u32_encode (r_correlation_id x);; ResponseCode_encode (r_code x);;
  vec_string_encode (r_mechanisms x).

Definition SaslHandshakeResponse_ok (x : SaslHandshakeResponse) : Prop :=
  u32_ok (r_correlation_id x) ∧ vec_string_ok (r_mechanisms x).
Definition SaslHandshakeResponse_wire (x : SaslHandshakeResponse) : Prop :=
  u32_ok (r_correlation_id x) ∧ wire_vec_string (r_mechanisms x).

#[global] Instance SaslHandshakeResponse_round_trips :
  RoundTrips SaslHandshakeResponse_encode SaslHandshakeResponse_decode SaslHandshakeResponse_wire.
Proof. round_trips. Qed.
#[global] Instance SaslHandshakeResponse_reads : Reads SaslHandshakeResponse_decode SaslHandshakeResponse_ok.
Proof. reads. Qed.
End SaslHandshakeResponse_codec.
End sasl_handshake.


(** ** protocol/src/commands/sasl_authenticate.rs *)

Module sasl_authenticate.
Record SaslAuthenticateCommand := SaslAuthenticateCommand_new {
  correlation_id : Z;
  mechanism : bytes;
  sasl_data : bytes;
}.

#[global] Instance SaslAuthenticateCommand_command : Command SaslAuthenticateCommand :=
  {| command_key _ := COMMAND_SASL_AUTHENTICATE; command_version _ := PROTOCOL_VERSION |}.

Section SaslAuthenticateCommand_codec.
Context {BO : ByteOrder}.

Definition SaslAuthenticateCommand_encode (x : SaslAuthenticateCommand) : encoder :=
  u32_encode (correlation_id x);; str_encode (mechanism x);; vec_u8_encode (sasl_data x).
Definition SaslAuthenticateCommand_encoded_size (x : SaslAuthenticateCommand) : Z :=
  add32 (add32 (u32_encoded_size (correlation_id x)) (str_encoded_size (mechanism x)))
  (vec_u8_encoded_size (sasl_data x)).

Definition SaslAuthenticateCommand_decode : decoder SaslAuthenticateCommand :=
  correlation_id ← u32_decode;
  mechanism ← opt_string_decode;
  sasl_data ← vec_u8_decode;
  mechanism ← unwrap mechanism;
  mret (SaslAuthenticateCommand_new correlation_id mechanism sasl_data).

Definition SaslAuthenticateCommand_ok (x : SaslAuthenticateCommand) : Prop :=
  u32_ok (correlation_id x) ∧ string_ok (mechanism x).
Definition SaslAuthenticateCommand_wire (x : SaslAuthenticateCommand) : Prop :=
  u32_ok (correlation_id x) ∧ wire_string (mechanism x) ∧ len (sasl_data x) < 2 ^ 31.

#[global] Instance SaslAuthenticateCommand_round_trips :
  RoundTrips SaslAuthenticateCommand_encode SaslAuthenticateCommand_decode SaslAuthenticateCommand_wire.
Proof. round_trips. Qed.
#[global] Instance SaslAuthenticateCommand_sized :
  SizeExact SaslAuthenticateCommand_encode SaslAuthenticateCommand_encoded_size (λ _, True).
Proof. sizes. Qed.
#[global] Instance SaslAuthenticateCommand_reads : Reads SaslAuthenticateCommand_decode SaslAuthenticateCommand_ok.
Proof. reads. Qed.
End SaslAuthenticateCommand_codec.
End sasl_authenticate.


(** ** protocol/src/commands/tune.rs *)

Module tune.
Record TunesCommand := TunesCommand_new {
  max_frame_size : Z;
  heartbeat : Z;
}.

#[global] Instance TunesCommand_command : Command TunesCommand :=
  {| command_key _ := COMMAND_TUNE; command_version _ := PROTOCOL_VERSION |}.

Section TunesCommand_codec.
Context {BO : ByteOrder}.

Definition TunesCommand_encode (x : TunesCommand) : encoder :=
  u32_encode (max_frame_size x);; u32_encode (heartbeat x).
Definition TunesCommand_encoded_size (x : TunesCommand) : Z :=
  add32 (u32_encoded_size (heartbeat x)) (u32_encoded_size (max_frame_size x)).

Definition TunesCommand_decode : decoder TunesCommand :=
  max_frame_size ← u32_decode;
  heartbeat ← u32_decode;
  mret (TunesCommand_new max_frame_size heartbeat).

Definition TunesCommand_ok (x : TunesCommand) : Prop :=
  u32_ok (max_frame_size x) ∧ u32_ok (heartbeat x).

#[global] Instance TunesCommand_round_trips :
  RoundTrips TunesCommand_encode TunesCommand_decode TunesCommand_ok.
Proof. round_trips. Qed.
#[global] Instance TunesCommand_sized :
  SizeExact TunesCommand_encode TunesCommand_encoded_size (λ _, True).
Proof. sizes. Qed.
#[global] Instance TunesCommand_reads : Reads TunesCommand_decode TunesCommand_ok.
Proof. reads. Qed.
End TunesCommand_codec.
End tune.


(** ** protocol/src/commands/heart_beat.rs *)

Module heart_beat.
Record HeartBeatCommand := HeartBeatCommand_new {}.

#[global] Instance HeartBeatCommand_command : Command HeartBeatCommand :=
  {| command_key _ := COMMAND_HEARTBEAT; command_version _ := PROTOCOL_VERSION |}.

Section HeartBeatCommand_codec.
Context {BO : ByteOrder}.

Definition HeartBeatCommand_encode (x : HeartBeatCommand) : encoder :=
  mret tt.
Definition HeartBeatCommand_encoded_size (x : HeartBeatCommand) : Z :=
  0.

Definition HeartBeatCommand_decode : decoder HeartBeatCommand :=
  mret (HeartBeatCommand_new).

Definition HeartBeatCommand_ok (x : HeartBeatCommand) : Prop :=
  True.

#[global] Instance HeartBeatCommand_round_trips :
  RoundTrips HeartBeatCommand_encode HeartBeatCommand_decode HeartBeatCommand_ok.
Proof. round_trips. Qed.
#[global] Instance HeartBeatCommand_sized :
  SizeExact HeartBeatCommand_encode HeartBeatCommand_encoded_size (λ _, True).
Proof. sizes. Qed.
#[global] Instance HeartBeatCommand_reads : Reads HeartBeatCommand_decode HeartBeatCommand_ok.
Proof. reads. Qed.
End HeartBeatCommand_codec.

Record HeartbeatResponse := HeartbeatResponse_new {}.

Section HeartbeatResponse_codec.
Context {BO : ByteOrder}.

Definition HeartbeatResponse_encode (x : HeartbeatResponse) : encoder :=
  mret tt.
Definition HeartbeatResponse_encoded_size (x : HeartbeatResponse) : Z :=
  0.

Definition HeartbeatResponse_decode : decoder HeartbeatResponse :=
  mret (HeartbeatResponse_new).

Definition HeartbeatResponse_ok (x : HeartbeatResponse) : Prop :=
  True.

#[global] Instance HeartbeatResponse_round_trips :
  RoundTrips HeartbeatResponse_encode HeartbeatResponse_decode HeartbeatResponse_ok.
Proof. round_trips. Qed.
#[global] Instance HeartbeatResponse_sized :
  SizeExact HeartbeatResponse_encode HeartbeatResponse_encoded_size (λ _, True).
Proof. sizes. Qed.
#[global] Instance HeartbeatResponse_reads : Reads HeartbeatResponse_decode HeartbeatResponse_ok.
Proof. reads. Qed.
End HeartbeatResponse_codec.
End heart_beat.


(** ** protocol/src/commands/exchange_command_versions.rs *)

Module exchange_command_versions.
Record ExchangeCommandVersion := ExchangeCommandVersion_new {
  ecv_key : Z;
  ecv_min_version : Z;
  ecv_max_version : Z;
}.

Section ExchangeCommandVersion_codec.
Context {BO : ByteOrder}.

Definition ExchangeCommandVersion_encode (x : ExchangeCommandVersion) : encoder :=
  u16_encode (ecv_key x);; u16_encode (ecv_min_version x);; u16_encode (ecv_max_version
  x).
Definition ExchangeCommandVersion_encoded_size (x : ExchangeCommandVersion) : Z :=
  add32 (add32 (u16_encoded_size (ecv_key x)) (u16_encoded_size (ecv_min_version x)))
  (u16_encoded_size (ecv_max_version x)).

Definition ExchangeCommandVersion_decode : decoder ExchangeCommandVersion :=
  ecv_key ← u16_decode;
  ecv_min_version ← u16_decode;
  ecv_max_version ← u16_decode;
  mret (ExchangeCommandVersion_new ecv_key ecv_min_version ecv_max_version).

Definition ExchangeCommandVersion_ok (x : ExchangeCommandVersion) : Prop :=
  u16_ok (ecv_key x) ∧ u16_ok (ecv_min_version x) ∧ u16_ok (ecv_max_version x).

#[global] Instance ExchangeCommandVersion_round_trips :
  RoundTrips ExchangeCommandVersion_encode ExchangeCommandVersion_decode ExchangeCommandVersion_ok.
Proof. round_trips. Qed.
#[global] Instance ExchangeCommandVersion_sized :
  SizeExact ExchangeCommandVersion_encode ExchangeCommandVersion_encoded_size (λ _, True).
Proof. sizes. Qed.
#[global] Instance ExchangeCommandVersion_reads : Reads ExchangeCommandVersion_decode ExchangeCommandVersion_ok.
Proof. reads. Qed.
End ExchangeCommandVersion_codec.

Section vec_ExchangeCommandVersion.
Context {BO : ByteOrder}.

Definition vec_ExchangeCommandVersion_encode (l : list ExchangeCommandVersion) : encoder :=
  u32_encode (wrap32 (len l));; write_each ExchangeCommandVersion_encode l.
Definition vec_ExchangeCommandVersion_encoded_size (l : list ExchangeCommandVersion) : Z :=
  add32 4 (sum_sizes ExchangeCommandVersion_encoded_size l).

Definition vec_ExchangeCommandVersion_decode : decoder (list ExchangeCommandVersion) :=
  read_vec ExchangeCommandVersion_decode.

#[global] Instance vec_ExchangeCommandVersion_round_trips :
  RoundTrips vec_ExchangeCommandVersion_encode vec_ExchangeCommandVersion_decode
    (wire_vec ExchangeCommandVersion_ok).
Proof.
  intros l Hl. unfold vec_ExchangeCommandVersion_encode.
  rewrite (len_u32_i32 l) by apply Hl. by apply (read_vec_wire _ _ _ l round_trip).
Qed.
#[global] Instance vec_ExchangeCommandVersion_sized :
  SizeExact vec_ExchangeCommandVersion_encode vec_ExchangeCommandVersion_encoded_size
    (λ _, True).
Proof. intros l _. apply counted_sized, sum_sizes_sized. auto with sized. Qed.
#[global] Instance vec_ExchangeCommandVersion_reads :
  Reads vec_ExchangeCommandVersion_decode (Forall ExchangeCommandVersion_ok).
Proof. apply read_vec_reads, _. Qed.
End vec_ExchangeCommandVersion.

Record ExchangeCommandVersionsRequest := ExchangeCommandVersionsRequest_new {
  correlation_id : Z;
  commands : list ExchangeCommandVersion;
}.

#[global] Instance ExchangeCommandVersionsRequest_command : Command ExchangeCommandVersionsRequest :=
  {| command_key _ := COMMAND_EXCHANGE_COMMAND_VERSIONS; command_version _ := PROTOCOL_VERSION |}.

Section ExchangeCommandVersionsRequest_codec.
Context {BO : ByteOrder}.

Definition ExchangeCommandVersionsRequest_encode (x : ExchangeCommandVersionsRequest) :
  encoder :=
  u32_encode (correlation_id x);; vec_ExchangeCommandVersion_encode (commands x).
Definition ExchangeCommandVersionsRequest_encoded_size (x :
  ExchangeCommandVersionsRequest) : Z :=
  add32 (u32_encoded_size (correlation_id x)) (vec_ExchangeCommandVersion_encoded_size
  (commands x)).

Definition ExchangeCommandVersionsRequest_decode : decoder ExchangeCommandVersionsRequest :=
  correlation_id ← u32_decode;
  commands ← vec_ExchangeCommandVersion_decode;
  mret (ExchangeCommandVersionsRequest_new correlation_id commands).

Definition ExchangeCommandVersionsRequest_ok (x : ExchangeCommandVersionsRequest) : Prop :=
  u32_ok (correlation_id x) ∧ Forall ExchangeCommandVersion_ok (commands x).
Definition ExchangeCommandVersionsRequest_wire (x : ExchangeCommandVersionsRequest) : Prop :=
  u32_ok (correlation_id x) ∧ wire_vec ExchangeCommandVersion_ok (commands x).

#[global] Instance ExchangeCommandVersionsRequest_round_trips :
  RoundTrips ExchangeCommandVersionsRequest_encode ExchangeCommandVersionsRequest_decode ExchangeCommandVersionsRequest_wire.
Proof. round_trips. Qed.
#[global] Instance ExchangeCommandVersionsRequest_sized :
  SizeExact ExchangeCommandVersionsRequest_encode ExchangeCommandVersionsRequest_encoded_size (λ _, True).
Proof. sizes. Qed.
#[global] Instance ExchangeCommandVersionsRequest_reads : Reads ExchangeCommandVersionsRequest_decode ExchangeCommandVersionsRequest_ok.
Proof. reads. Qed.
End ExchangeCommandVersionsRequest_codec.

Record ExchangeCommandVersionsResponse := ExchangeCommandVersionsResponse_new {
  r_correlation_id : Z;
  r_response_code : ResponseCode;
  r_commands : list ExchangeCommandVersion;
}.

Section ExchangeCommandVersionsResponse_codec.
Context {BO : ByteOrder}.

Definition ExchangeCommandVersionsResponse_encode (x : ExchangeCommandVersionsResponse)
  : encoder :=
  u32_encode (r_correlation_id x);; ResponseCode_encode (r_response_code x);;
  vec_ExchangeCommandVersion_encode (r_commands x).
Definition ExchangeCommandVersionsResponse_encoded_size (x :
  ExchangeCommandVersionsResponse) : Z :=
  add32 (add32 (u32_encoded_size (r_correlation_id x)) (ResponseCode_encoded_size
  (r_response_code x))) (vec_ExchangeCommandVersion_encoded_size (r_commands x)).

Definition ExchangeCommandVersionsResponse_decode : decoder ExchangeCommandVersionsResponse :=
  correlation_id ← u32_decode;
  response_code ← ResponseCode_decode;
  commands ← vec_ExchangeCommandVersion_decode;
  mret (ExchangeCommandVersionsResponse_new correlation_id response_code commands).

Definition ExchangeCommandVersionsResponse_is_ok (x : ExchangeCommandVersionsResponse) : bool := bool_decide (r_response_code x = ResponseCode_Ok).

Definition ExchangeCommandVersionsResponse_ok (x : ExchangeCommandVersionsResponse) : Prop :=
  u32_ok (r_correlation_id x) ∧ Forall ExchangeCommandVersion_ok (r_commands x).
Definition ExchangeCommandVersionsResponse_wire (x : ExchangeCommandVersionsResponse) : Prop :=
  u32_ok (r_correlation_id x) ∧ wire_vec ExchangeCommandVersion_ok (r_commands x).

#[global] Instance ExchangeCommandVersionsResponse_round_trips :
  RoundTrips ExchangeCommandVersionsResponse_encode ExchangeCommandVersionsResponse_decode ExchangeCommandVersionsResponse_wire.
Proof. round_trips. Qed.
#[global] Instance ExchangeCommandVersionsResponse_sized :
  SizeExact ExchangeCommandVersionsResponse_encode ExchangeCommandVersionsResponse_encoded_size (λ _, True).
Proof. sizes. Qed.
#[global] Instance ExchangeCommandVersionsResponse_reads : Reads ExchangeCommandVersionsResponse_decode ExchangeCommandVersionsResponse_ok.
Proof. reads. Qed.
End ExchangeCommandVersionsResponse_codec.

(** [key_version]: the first entry for the key decides; [(1, 1)] when there is none. *)
Fixpoint find_version (key_command : Z) (commands : list ExchangeCommandVersion) : Z * Z :=
  match commands with
  | [] => (1, 1)
  | i :: commands' =>
      if ecv_key i =? key_command then (ecv_min_version i, ecv_max_version i)
      else find_version key_command commands'
  end.

Definition key_version (x : ExchangeCommandVersionsResponse) (key_command : Z) : Z * Z :=
  find_version key_command (r_commands x).
End exchange_command_versions.


(** ** protocol/src/commands/generic.rs *)

Module generic.
Record GenericResponse := GenericResponse_new {
  correlation_id : Z;
  code : ResponseCode;
}.

Section GenericResponse_codec.
Context {BO : ByteOrder}.

Definition GenericResponse_encode (x : GenericResponse) : encoder :=
  u32_encode (correlation_id x);; ResponseCode_encode (code x).
Definition GenericResponse_encoded_size (x : GenericResponse) : Z :=
  add32 (u32_encoded_size (correlation_id x)) (ResponseCode_encoded_size (code x)).

Definition GenericResponse_decode : decoder GenericResponse :=
  correlation_id ← u32_decode;
  code ← ResponseCode_decode;
  mret (GenericResponse_new correlation_id code).

Definition GenericResponse_is_ok (x : GenericResponse) : bool := bool_decide (code x = ResponseCode_Ok).

Definition GenericResponse_ok (x : GenericResponse) : Prop :=
  u32_ok (correlation_id x).

#[global] Instance GenericResponse_round_trips :
  RoundTrips GenericResponse_encode GenericResponse_decode GenericResponse_ok.
Proof. round_trips. Qed.
#[global] Instance GenericResponse_sized :
  SizeExact GenericResponse_encode GenericResponse_encoded_size (λ _, True).
Proof. sizes. Qed.
#[global] Instance GenericResponse_reads : Reads GenericResponse_decode GenericResponse_ok.
Proof. reads. Qed.
End GenericResponse_codec.
End generic.
