(* ===== verification/Streams.v ===== *)
(** * Commands that manage streams and super streams

    protocol/src/commands/: create_stream.rs, delete.rs, create_super_stream.rs,
    delete_super_stream.rs, metadata.rs, metadata_update.rs,
    superstream_partitions.rs, superstream_route.rs. *)
From S2P Require Import Prelude Utf8 HashMaps Integers Codec Protocol.

(** ** protocol/src/commands/create_stream.rs *)

Module create_stream.
Record CreateStreamCommand := CreateStreamCommand_new {
  correlation_id : Z;
  stream_name : bytes;
  args : list (bytes * bytes);
}.

#[global] Instance CreateStreamCommand_command : Command CreateStreamCommand :=
  {| command_key _ := COMMAND_CREATE_STREAM; command_version _ := PROTOCOL_VERSION |}.

Section CreateStreamCommand_codec.
Context {BO : ByteOrder}.

Definition CreateStreamCommand_encode (x : CreateStreamCommand) : encoder :=
  u32_encode (correlation_id x);; str_encode (stream_name x);; hashmap_encode (args x).
Definition CreateStreamCommand_encoded_size (x : CreateStreamCommand) : Z :=
  add32 (add32 (u32_encoded_size (correlation_id x)) (str_encoded_size (stream_name x)))
  (hashmap_encoded_size (args x)).

Definition CreateStreamCommand_decode : decoder CreateStreamCommand :=
  correlation_id ← u32_decode;
  stream_name ← opt_string_decode;
  args ← hashmap_decode;
  stream_name ← unwrap stream_name;
  mret (CreateStreamCommand_new correlation_id stream_name args).

Definition CreateStreamCommand_ok (x : CreateStreamCommand) : Prop :=
  u32_ok (correlation_id x) ∧ string_ok (stream_name x) ∧ hashmap_ok (args x).
Definition CreateStreamCommand_wire (x : CreateStreamCommand) : Prop :=
  u32_ok (correlation_id x) ∧ wire_string (stream_name x) ∧ wire_hashmap (args x).

#[global] Instance CreateStreamCommand_round_trips :
  RoundTrips CreateStreamCommand_encode CreateStreamCommand_decode CreateStreamCommand_wire.
Proof. round_trips. Qed.
#[global] Instance CreateStreamCommand_sized :
  SizeExact CreateStreamCommand_encode CreateStreamCommand_encoded_size (λ _, True).
Proof. sizes. Qed.
#[global] Instance CreateStreamCommand_reads : Reads CreateStreamCommand_decode CreateStreamCommand_ok.
Proof. reads. Qed.
End CreateStreamCommand_codec.
End create_stream.


(** ** protocol/src/commands/delete.rs *)

Module delete.
Record Delete := Delete_new {
  correlation_id : Z;
  stream : bytes;
}.

#[global] Instance Delete_command : Command Delete :=
  {| command_key _ := COMMAND_DELETE_STREAM; command_version _ := PROTOCOL_VERSION |}.

Section Delete_codec.
Context {BO : ByteOrder}.

Definition Delete_encode (x : Delete) : encoder :=
  u32_encode (correlation_id x);; str_encode (stream x).
Definition Delete_encoded_size (x : Delete) : Z :=
  add32 (u32_encoded_size (correlation_id x)) (str_encoded_size (stream x)).

Definition Delete_decode : decoder Delete :=
  correlation_id ← u32_decode;
  stream ← opt_string_decode;
  stream ← unwrap stream;
  mret (Delete_new correlation_id stream).

Definition Delete_ok (x : Delete) : Prop :=
  u32_ok (correlation_id x) ∧ string_ok (stream x).
Definition Delete_wire (x : Delete) : Prop :=
  u32_ok (correlation_id x) ∧ wire_string (stream x).

#[global] Instance Delete_round_trips :
  RoundTrips Delete_encode Delete_decode Delete_wire.
Proof. round_trips. Qed.
#[global] Instance Delete_sized :
  SizeExact Delete_encode Delete_encoded_size (λ _, True).
Proof. sizes. Qed.
#[global] Instance Delete_reads : Reads Delete_decode Delete_ok.
Proof. reads. Qed.
End Delete_codec.
End delete.


(** ** protocol/src/commands/create_super_stream.rs *)

Module create_super_stream.
Record CreateSuperStreamCommand := CreateSuperStreamCommand_new {
  correlation_id : Z;
  super_stream_name : bytes;
  partitions : list bytes;
  binding_keys : list bytes;
  args : list (bytes * bytes);
}.

#[global] Instance CreateSuperStreamCommand_command : Command CreateSuperStreamCommand :=
  {| command_key _ := COMMAND_CREATE_SUPER_STREAM; command_version _ := PROTOCOL_VERSION |}.

Section CreateSuperStreamCommand_codec.
Context {BO : ByteOrder}.

Definition CreateSuperStreamCommand_encode (x : CreateSuperStreamCommand) : encoder :=
  u32_encode (correlation_id x);; str_encode (super_stream_name x);; vec_string_encode
  (partitions x);; vec_string_encode (binding_keys x);; hashmap_encode (args x).
Definition CreateSuperStreamCommand_encoded_size (x : CreateSuperStreamCommand) : Z :=
  add32 (add32 (add32 (add32 (u32_encoded_size (correlation_id x)) (str_encoded_size
  (super_stream_name x))) (vec_string_encoded_size (partitions x)))
  (vec_string_encoded_size (binding_keys x))) (hashmap_encoded_size (args x)).

Definition CreateSuperStreamCommand_decode : decoder CreateSuperStreamCommand :=
  correlation_id ← u32_decode;
  super_stream_name ← opt_string_decode;
  partitions ← vec_string_decode;
  binding_keys ← vec_string_decode;
  args ← hashmap_decode;
  super_stream_name ← unwrap super_stream_name;
  mret (CreateSuperStreamCommand_new correlation_id super_stream_name partitions binding_keys args).

Definition CreateSuperStreamCommand_ok (x : CreateSuperStreamCommand) : Prop :=
  u32_ok (correlation_id x) ∧ string_ok (super_stream_name x) ∧ vec_string_ok
  (partitions x) ∧ vec_string_ok (binding_keys x) ∧ hashmap_ok (args x).
Definition CreateSuperStreamCommand_wire (x : CreateSuperStreamCommand) : Prop :=
  u32_ok (correlation_id x) ∧ wire_string (super_stream_name x) ∧ wire_vec_string
  (partitions x) ∧ wire_vec_string (binding_keys x) ∧ wire_hashmap (args x).

#[global] Instance CreateSuperStreamCommand_round_trips :
  RoundTrips CreateSuperStreamCommand_encode CreateSuperStreamCommand_decode CreateSuperStreamCommand_wire.
Proof. round_trips. Qed.
#[global] Instance CreateSuperStreamCommand_sized :
  SizeExact CreateSuperStreamCommand_encode CreateSuperStreamCommand_encoded_size (λ _, True).
Proof. sizes. Qed.
#[global] Instance CreateSuperStreamCommand_reads : Reads CreateSuperStreamCommand_decode CreateSuperStreamCommand_ok.
Proof. reads. Qed.
End CreateSuperStreamCommand_codec.
End create_super_stream.


(** ** protocol/src/commands/delete_super_stream.rs *)

Module delete_super_stream.
Record DeleteSuperStreamCommand := DeleteSuperStreamCommand_new {
  correlation_id : Z;
  super_stream_name : bytes;
}.

#[global] Instance DeleteSuperStreamCommand_command : Command DeleteSuperStreamCommand :=
  {| command_key _ := COMMAND_DELETE_SUPER_STREAM; command_version _ := PROTOCOL_VERSION |}.

Section DeleteSuperStreamCommand_codec.
Context {BO : ByteOrder}.

Definition DeleteSuperStreamCommand_encode (x : DeleteSuperStreamCommand) : encoder :=
  u32_encode (correlation_id x);; str_encode (super_stream_name x).
Definition DeleteSuperStreamCommand_encoded_size (x : DeleteSuperStreamCommand) : Z :=
  add32 (u32_encoded_size (correlation_id x)) (str_encoded_size (super_stream_name x)).

Definition DeleteSuperStreamCommand_decode : decoder DeleteSuperStreamCommand :=
  correlation_id ← u32_decode;
  super_stream_name ← opt_string_decode;
  super_stream_name ← unwrap super_stream_name;
  mret (DeleteSuperStreamCommand_new correlation_id super_stream_name).

Definition DeleteSuperStreamCommand_ok (x : DeleteSuperStreamCommand) : Prop :=
  u32_ok (correlation_id x) ∧ string_ok (super_stream_name x).
Definition DeleteSuperStreamCommand_wire (x : DeleteSuperStreamCommand) : Prop :=
  u32_ok (correlation_id x) ∧ wire_string (super_stream_name x).

#[global] Instance DeleteSuperStreamCommand_round_trips :
  RoundTrips DeleteSuperStreamCommand_encode DeleteSuperStreamCommand_decode DeleteSuperStreamCommand_wire.
Proof. round_trips. Qed.
#[global] Instance DeleteSuperStreamCommand_sized :
  SizeExact DeleteSuperStreamCommand_encode DeleteSuperStreamCommand_encoded_size (λ _, True).
Proof. sizes. Qed.
#[global] Instance DeleteSuperStreamCommand_reads : Reads DeleteSuperStreamCommand_decode DeleteSuperStreamCommand_ok.
Proof. reads. Qed.
End DeleteSuperStreamCommand_codec.
End delete_super_stream.


(** ** protocol/src/commands/metadata.rs *)

Module metadata.
Record MetadataCommand := MetadataCommand_new {
  correlation_id : Z;
  streams : list bytes;
}.

#[global] Instance MetadataCommand_command : Command MetadataCommand :=
  {| command_key _ := COMMAND_METADATA; command_version _ := PROTOCOL_VERSION |}.

Section MetadataCommand_codec.
Context {BO : ByteOrder}.

Definition MetadataCommand_encode (x : MetadataCommand) : encoder :=
  u32_encode (correlation_id x);; vec_string_encode (streams x).
Definition MetadataCommand_encoded_size (x : MetadataCommand) : Z :=
  add32 (u32_encoded_size (correlation_id x)) (vec_string_encoded_size (streams x)).

Definition MetadataCommand_decode : decoder MetadataCommand :=
  correlation_id ← u32_decode;
  streams ← vec_string_decode;
  mret (MetadataCommand_new correlation_id streams).

Definition MetadataCommand_ok (x : MetadataCommand) : Prop :=
  u32_ok (correlation_id x) ∧ vec_string_ok (streams x).
Definition MetadataCommand_wire (x : MetadataCommand) : Prop :=
  u32_ok (correlation_id x) ∧ wire_vec_string (streams x).

#[global] Instance MetadataCommand_round_trips :
  RoundTrips MetadataCommand_encode MetadataCommand_decode MetadataCommand_wire.
Proof. round_trips. Qed.
#[global] Instance MetadataCommand_sized :
  SizeExact MetadataCommand_encode MetadataCommand_encoded_size (λ _, True).
Proof. sizes. Qed.
#[global] Instance MetadataCommand_reads : Reads MetadataCommand_decode MetadataCommand_ok.
Proof. reads. Qed.
End MetadataCommand_codec.

Record Broker := Broker_new {
  reference : Z;
  host : bytes;
  port : Z;
}.

Section Broker_codec.
Context {BO : ByteOrder}.

Definition Broker_encode (x : Broker) : encoder :=
  u16_encode (reference x);; str_encode (host x);; u32_encode (port x).
Definition Broker_encoded_size (x : Broker) : Z :=
  add32 (add32 (u16_encoded_size (reference x)) (u32_encoded_size (port x)))
  (str_encoded_size (host x)).

Definition Broker_decode : decoder Broker :=
  reference ← u16_decode;
  host ← opt_string_decode;
  port ← u32_decode;
  host ← unwrap host;
  mret (Broker_new reference host port).

Definition Broker_ok (x : Broker) : Prop :=
  u16_ok (reference x) ∧ string_ok (host x) ∧ u32_ok (port x).
Definition Broker_wire (x : Broker) : Prop :=
  u16_ok (reference x) ∧ wire_string (host x) ∧ u32_ok (port x).

#[global] Instance Broker_round_trips :
  RoundTrips Broker_encode Broker_decode Broker_wire.
Proof. round_trips. Qed.
#[global] Instance Broker_sized :
  SizeExact Broker_encode Broker_encoded_size (λ _, True).
Proof. sizes. Qed.
#[global] Instance Broker_reads : Reads Broker_decode Broker_ok.
Proof. reads. Qed.
End Broker_codec.

Record StreamMetadata := StreamMetadata_new {
  stream_name : bytes;
  code : ResponseCode;
  leader_reference : Z;
  replicas_references : list Z;
}.

Section StreamMetadata_codec.
Context {BO : ByteOrder}.

Definition StreamMetadata_encode (x : StreamMetadata) : encoder :=
  str_encode (stream_name x);; ResponseCode_encode (code x);; u16_encode
  (leader_reference x);; vec_u16_encode (replicas_references x).
Definition StreamMetadata_encoded_size (x : StreamMetadata) : Z :=
  add32 (add32 (add32 (str_encoded_size (stream_name x)) (ResponseCode_encoded_size
  (code x))) (u16_encoded_size (leader_reference x))) (vec_u16_encoded_size
  (replicas_references x)).

Definition StreamMetadata_decode : decoder StreamMetadata :=
  stream_name ← opt_string_decode;
  code ← ResponseCode_decode;
  leader_reference ← u16_decode;
  replicas_references ← vec_u16_decode;
  stream_name ← unwrap stream_name;
  mret (StreamMetadata_new stream_name code leader_reference replicas_references).

Definition StreamMetadata_ok (x : StreamMetadata) : Prop :=
  string_ok (stream_name x) ∧ u16_ok (leader_reference x) ∧ Forall u16_ok
  (replicas_references x).
Definition StreamMetadata_wire (x : StreamMetadata) : Prop :=
  wire_string (stream_name x) ∧ u16_ok (leader_reference x) ∧ wire_vec u16_ok
  (replicas_references x).

#[global] Instance StreamMetadata_round_trips :
  RoundTrips StreamMetadata_encode StreamMetadata_decode StreamMetadata_wire.
Proof. round_trips. Qed.
#[global] Instance StreamMetadata_sized :
  SizeExact StreamMetadata_encode StreamMetadata_encoded_size (λ _, True).
Proof. sizes. Qed.
#[global] Instance StreamMetadata_reads : Reads StreamMetadata_decode StreamMetadata_ok.
Proof. reads. Qed.
End StreamMetadata_codec.

Section vec_Broker_codec.
Context {BO : ByteOrder}.

Definition vec_Broker_encode (l : list Broker) : encoder :=
  i32_encode (as_signed 32 (len l));; write_each Broker_encode l.
Definition vec_Broker_encoded_size (l : list Broker) : Z := add32 4 (sum_sizes Broker_encoded_size l).

#[global] Instance vec_Broker_round_trips :
  RoundTrips vec_Broker_encode (read_vec Broker_decode) (wire_vec Broker_wire).
Proof. intros l Hl. by apply (read_vec_wire _ _ _ l round_trip). Qed.
#[global] Instance vec_Broker_sized : SizeExact vec_Broker_encode vec_Broker_encoded_size (λ _, True).
Proof. intros l _. apply counted_sized, sum_sizes_sized. auto with sized. Qed.
#[global] Instance vec_Broker_reads : Reads (read_vec Broker_decode) (Forall Broker_ok).
Proof. apply read_vec_reads, _. Qed.
End vec_Broker_codec.

Section vec_StreamMetadata_codec.
Context {BO : ByteOrder}.

Definition vec_StreamMetadata_encode (l : list StreamMetadata) : encoder :=
  i32_encode (as_signed 32 (len l));; write_each StreamMetadata_encode l.
Definition vec_StreamMetadata_encoded_size (l : list StreamMetadata) : Z := add32 4 (sum_sizes StreamMetadata_encoded_size l).

#[global] Instance vec_StreamMetadata_round_trips :
  RoundTrips vec_StreamMetadata_encode (read_vec StreamMetadata_decode) (wire_vec StreamMetadata_wire).
Proof. intros l Hl. by apply (read_vec_wire _ _ _ l round_trip). Qed.
#[global] Instance vec_StreamMetadata_sized : SizeExact vec_StreamMetadata_encode vec_StreamMetadata_encoded_size (λ _, True).
Proof. intros l _. apply counted_sized, sum_sizes_sized. auto with sized. Qed.
#[global] Instance vec_StreamMetadata_reads : Reads (read_vec StreamMetadata_decode) (Forall StreamMetadata_ok).
Proof. apply read_vec_reads, _. Qed.
End vec_StreamMetadata_codec.

Record MetadataResponse := MetadataResponse_new {
  r_correlation_id : Z;
  r_brokers : list Broker;
  r_stream_metadata : list StreamMetadata;
}.

Section MetadataResponse_codec.
Context {BO : ByteOrder}.

Definition MetadataResponse_encode (x : MetadataResponse) : encoder :=
  u32_encode (r_correlation_id x);; vec_Broker_encode (r_brokers x);;
  vec_StreamMetadata_encode (r_stream_metadata x).
Definition MetadataResponse_encoded_size (x : MetadataResponse) : Z :=
  0.

Definition MetadataResponse_decode : decoder MetadataResponse :=
  correlation_id ← u32_decode;
  brokers ← read_vec Broker_decode;
  stream_metadata ← read_vec StreamMetadata_decode;
  mret (MetadataResponse_new correlation_id brokers stream_metadata).

Definition MetadataResponse_ok (x : MetadataResponse) : Prop :=
  u32_ok (r_correlation_id x) ∧ Forall Broker_ok (r_brokers x) ∧ Forall
  StreamMetadata_ok (r_stream_metadata x).
Definition MetadataResponse_wire (x : MetadataResponse) : Prop :=
  u32_ok (r_correlation_id x) ∧ wire_vec Broker_wire (r_brokers x) ∧ wire_vec
  StreamMetadata_wire (r_stream_metadata x).

#[global] Instance MetadataResponse_round_trips :
  RoundTrips MetadataResponse_encode MetadataResponse_decode MetadataResponse_wire.
Proof. round_trips. Qed.
#[global] Instance MetadataResponse_reads : Reads MetadataResponse_decode MetadataResponse_ok.
Proof. reads. Qed.
End MetadataResponse_codec.
End metadata.


(** ** protocol/src/commands/metadata_update.rs *)

Module metadata_update.
Record MetadataUpdateCommand := MetadataUpdateCommand_new {
  code : ResponseCode;
  stream : bytes;
}.

#[global] Instance MetadataUpdateCommand_command : Command MetadataUpdateCommand :=
  {| command_key _ := COMMAND_METADATA_UPDATE; command_version _ := PROTOCOL_VERSION |}.

Section MetadataUpdateCommand_codec.
Context {BO : ByteOrder}.

Definition MetadataUpdateCommand_encode (x : MetadataUpdateCommand) : encoder :=
  ResponseCode_encode (code x);; str_encode (stream x).
Definition MetadataUpdateCommand_encoded_size (x : MetadataUpdateCommand) : Z :=
  0.

Definition MetadataUpdateCommand_decode : decoder MetadataUpdateCommand :=
  code ← ResponseCode_decode;
  stream ← opt_string_decode;
  stream ← unwrap stream;
  mret (MetadataUpdateCommand_new code stream).

Definition MetadataUpdateCommand_ok (x : MetadataUpdateCommand) : Prop :=
  string_ok (stream x).
Definition MetadataUpdateCommand_wire (x : MetadataUpdateCommand) : Prop :=
  wire_string (stream x).

#[global] Instance MetadataUpdateCommand_round_trips :
  RoundTrips MetadataUpdateCommand_encode MetadataUpdateCommand_decode MetadataUpdateCommand_wire.
Proof. round_trips. Qed.
#[global] Instance MetadataUpdateCommand_reads : Reads MetadataUpdateCommand_decode MetadataUpdateCommand_ok.
Proof. reads. Qed.
End MetadataUpdateCommand_codec.
End metadata_update.


(** ** protocol/src/commands/superstream_partitions.rs *)

Module superstream_partitions.
Record SuperStreamPartitionsRequest := SuperStreamPartitionsRequest_new {
  correlation_id : Z;
  super_stream : bytes;
}.

#[global] Instance SuperStreamPartitionsRequest_command : Command SuperStreamPartitionsRequest :=
  {| command_key _ := COMMAND_PARTITIONS; command_version _ := PROTOCOL_VERSION |}.

Section SuperStreamPartitionsRequest_codec.
Context {BO : ByteOrder}.

Definition SuperStreamPartitionsRequest_encode (x : SuperStreamPartitionsRequest) :
  encoder :=
  u32_encode (correlation_id x);; str_encode (super_stream x).
Definition SuperStreamPartitionsRequest_encoded_size (x : SuperStreamPartitionsRequest)
  : Z :=
  add32 (u32_encoded_size (correlation_id x)) (str_encoded_size (super_stream x)).

Definition SuperStreamPartitionsRequest_decode : decoder SuperStreamPartitionsRequest :=
  correlation_id ← u32_decode;
  super_stream ← opt_string_decode;
  super_stream ← unwrap super_stream;
  mret (SuperStreamPartitionsRequest_new correlation_id super_stream).

Definition SuperStreamPartitionsRequest_ok (x : SuperStreamPartitionsRequest) : Prop :=
  u32_ok (correlation_id x) ∧ string_ok (super_stream x).
Definition SuperStreamPartitionsRequest_wire (x : SuperStreamPartitionsRequest) : Prop :=
  u32_ok (correlation_id x) ∧ wire_string (super_stream x).

#[global] Instance SuperStreamPartitionsRequest_round_trips :
  RoundTrips SuperStreamPartitionsRequest_encode SuperStreamPartitionsRequest_decode SuperStreamPartitionsRequest_wire.
Proof. round_trips. Qed.
#[global] Instance SuperStreamPartitionsRequest_sized :
  SizeExact SuperStreamPartitionsRequest_encode SuperStreamPartitionsRequest_encoded_size (λ _, True).
Proof. sizes. Qed.
#[global] Instance SuperStreamPartitionsRequest_reads : Reads SuperStreamPartitionsRequest_decode SuperStreamPartitionsRequest_ok.
Proof. reads. Qed.
End SuperStreamPartitionsRequest_codec.

Record SuperStreamPartitionsResponse := SuperStreamPartitionsResponse_new {
  r_correlation_id : Z;
  r_response_code : ResponseCode;
  r_streams : list bytes;
}.

Section SuperStreamPartitionsResponse_codec.
Context {BO : ByteOrder}.

Definition SuperStreamPartitionsResponse_encode (x : SuperStreamPartitionsResponse) :
  encoder :=
  u32_encode (r_correlation_id x);; ResponseCode_encode (r_response_code x);;
  vec_string_encode (r_streams x).
Definition SuperStreamPartitionsResponse_encoded_size (x :
  SuperStreamPartitionsResponse) : Z :=
  add32 (add32 (u32_encoded_size (r_correlation_id x)) (ResponseCode_encoded_size
  (r_response_code x))) (vec_string_encoded_size (r_streams x)).

Definition SuperStreamPartitionsResponse_decode : decoder SuperStreamPartitionsResponse :=
  correlation_id ← u32_decode;
  response_code ← ResponseCode_decode;
  streams ← vec_string_decode;
  mret (SuperStreamPartitionsResponse_new correlation_id response_code streams).

Definition SuperStreamPartitionsResponse_is_ok (x : SuperStreamPartitionsResponse) : bool := bool_decide (r_response_code x = ResponseCode_Ok).

Definition SuperStreamPartitionsResponse_ok (x : SuperStreamPartitionsResponse) : Prop :=
  u32_ok (r_correlation_id x) ∧ vec_string_ok (r_streams x).
Definition SuperStreamPartitionsResponse_wire (x : SuperStreamPartitionsResponse) : Prop :=
  u32_ok (r_correlation_id x) ∧ wire_vec_string (r_streams x).

#[global] Instance SuperStreamPartitionsResponse_round_trips :
  RoundTrips SuperStreamPartitionsResponse_encode SuperStreamPartitionsResponse_decode SuperStreamPartitionsResponse_wire.
Proof. round_trips. Qed.
#[global] Instance SuperStreamPartitionsResponse_sized :
  SizeExact SuperStreamPartitionsResponse_encode SuperStreamPartitionsResponse_encoded_size (λ _, True).
Proof. sizes. Qed.
#[global] Instance SuperStreamPartitionsResponse_reads : Reads SuperStreamPartitionsResponse_decode SuperStreamPartitionsResponse_ok.
Proof. reads. Qed.
End SuperStreamPartitionsResponse_codec.
End superstream_partitions.


(** ** protocol/src/commands/superstream_route.rs *)

Module superstream_route.
Record SuperStreamRouteRequest := SuperStreamRouteRequest_new {
  correlation_id : Z;
  routing_key : bytes;
  super_stream : bytes;
}.

#[global] Instance SuperStreamRouteRequest_command : Command SuperStreamRouteRequest :=
  {| command_key _ := COMMAND_ROUTE; command_version _ := PROTOCOL_VERSION |}.

Section SuperStreamRouteRequest_codec.
Context {BO : ByteOrder}.

Definition SuperStreamRouteRequest_encode (x : SuperStreamRouteRequest) : encoder :=
  u32_encode (correlation_id x);; str_encode (routing_key x);; str_encode (super_stream
  x).
Definition SuperStreamRouteRequest_encoded_size (x : SuperStreamRouteRequest) : Z :=
  add32 (add32 (u32_encoded_size (correlation_id x)) (str_encoded_size (routing_key x)))
  (str_encoded_size (super_stream x)).

Definition SuperStreamRouteRequest_decode : decoder SuperStreamRouteRequest :=
  correlation_id ← u32_decode;
  routing_key ← opt_string_decode;
  super_stream ← opt_string_decode;
  routing_key ← unwrap routing_key;
  super_stream ← unwrap super_stream;
  mret (SuperStreamRouteRequest_new correlation_id routing_key super_stream).

Definition SuperStreamRouteRequest_ok (x : SuperStreamRouteRequest) : Prop :=
  u32_ok (correlation_id x) ∧ string_ok (routing_key x) ∧ string_ok (super_stream x).
Definition SuperStreamRouteRequest_wire (x : SuperStreamRouteRequest) : Prop :=
  u32_ok (correlation_id x) ∧ wire_string (routing_key x) ∧ wire_string (super_stream x).

#[global] Instance SuperStreamRouteRequest_round_trips :
  RoundTrips SuperStreamRouteRequest_encode SuperStreamRouteRequest_decode SuperStreamRouteRequest_wire.
Proof. round_trips. Qed.
#[global] Instance SuperStreamRouteRequest_sized :
  SizeExact SuperStreamRouteRequest_encode SuperStreamRouteRequest_encoded_size (λ _, True).
Proof. sizes. Qed.
#[global] Instance SuperStreamRouteRequest_reads : Reads SuperStreamRouteRequest_decode SuperStreamRouteRequest_ok.
Proof. reads. Qed.
End SuperStreamRouteRequest_codec.

Record SuperStreamRouteResponse := SuperStreamRouteResponse_new {
  r_correlation_id : Z;
  r_response_code : ResponseCode;
  r_streams : list bytes;
}.

Section SuperStreamRouteResponse_codec.
Context {BO : ByteOrder}.

Definition SuperStreamRouteResponse_encode (x : SuperStreamRouteResponse) : encoder :=
  u32_encode (r_correlation_id x);; ResponseCode_encode (r_response_code x);;
  vec_string_encode (r_streams x).
Definition SuperStreamRouteResponse_encoded_size (x : SuperStreamRouteResponse) : Z :=
  add32 (add32 (u32_encoded_size (r_correlation_id x)) (vec_string_encoded_size
  (r_streams x))) (ResponseCode_encoded_size (r_response_code x)).

Definition SuperStreamRouteResponse_decode : decoder SuperStreamRouteResponse :=
  correlation_id ← u32_decode;
  response_code ← ResponseCode_decode;
  streams ← vec_string_decode;
  mret (SuperStreamRouteResponse_new correlation_id response_code streams).

Definition SuperStreamRouteResponse_is_ok (x : SuperStreamRouteResponse) : bool := bool_decide (r_response_code x = ResponseCode_Ok).

Definition SuperStreamRouteResponse_ok (x : SuperStreamRouteResponse) : Prop :=
  u32_ok (r_correlation_id x) ∧ vec_string_ok (r_streams x).
Definition SuperStreamRouteResponse_wire (x : SuperStreamRouteResponse) : Prop :=
  u32_ok (r_correlation_id x) ∧ wire_vec_string (r_streams x).

#[global] Instance SuperStreamRouteResponse_round_trips :
  RoundTrips SuperStreamRouteResponse_encode SuperStreamRouteResponse_decode SuperStreamRouteResponse_wire.
Proof. round_trips. Qed.
#[global] Instance SuperStreamRouteResponse_sized :
  SizeExact SuperStreamRouteResponse_encode SuperStreamRouteResponse_encoded_size (λ _, True).
Proof. sizes. Qed.
#[global] Instance SuperStreamRouteResponse_reads : Reads SuperStreamRouteResponse_decode SuperStreamRouteResponse_ok.
Proof. reads. Qed.
End SuperStreamRouteResponse_codec.
End superstream_route.
