(* ===== verification/Producing.v ===== *)
(** * Commands of producers

    protocol/src/commands/: declare_publisher.rs, delete_publisher.rs,
    publish_confirm.rs, publish_error.rs, query_publisher_sequence.rs.  The
    publish command is in Messages.v, after the AMQP messages it carries. *)
From S2P Require Import Prelude Utf8 HashMaps Integers Codec Protocol.

(** ** protocol/src/commands/declare_publisher.rs *)

Module declare_publisher.
Record DeclarePublisherCommand := DeclarePublisherCommand_new {
  correlation_id : Z;
  publisher_id : Z;
  publisher_reference : option bytes;
  stream_name : bytes;
}.

#[global] Instance DeclarePublisherCommand_command : Command DeclarePublisherCommand :=
  {| command_key _ := COMMAND_DECLARE_PUBLISHER; command_version _ := PROTOCOL_VERSION |}.

Section DeclarePublisherCommand_codec.
Context {BO : ByteOrder}.

Definition DeclarePublisherCommand_encode (x : DeclarePublisherCommand) : encoder :=
  u32_encode (correlation_id x);; u8_encode (publisher_id x);; opt_string_encode
  (publisher_reference x);; str_encode (stream_name x).
Definition DeclarePublisherCommand_encoded_size (x : DeclarePublisherCommand) : Z :=
  add32 (add32 (add32 (u32_encoded_size (correlation_id x)) (u8_encoded_size
  (publisher_id x))) (opt_string_encoded_size (publisher_reference x)))
  (str_encoded_size (stream_name x)).

Definition DeclarePublisherCommand_decode : decoder DeclarePublisherCommand :=
  correlation_id ← u32_decode;
  publisher_id ← u8_decode;
  publisher_reference ← opt_string_decode;
  stream_name ← opt_string_decode;
  stream_name ← unwrap stream_name;
  mret (DeclarePublisherCommand_new correlation_id publisher_id publisher_reference stream_name).

Definition DeclarePublisherCommand_ok (x : DeclarePublisherCommand) : Prop :=
  u32_ok (correlation_id x) ∧ u8_ok (publisher_id x) ∧ opt_string_ok
  (publisher_reference x) ∧ string_ok (stream_name x).
Definition DeclarePublisherCommand_wire (x : DeclarePublisherCommand) : Prop :=
  u32_ok (correlation_id x) ∧ u8_ok (publisher_id x) ∧ wire_opt_string
  (publisher_reference x) ∧ wire_string (stream_name x).

#[global] Instance DeclarePublisherCommand_round_trips :
  RoundTrips DeclarePublisherCommand_encode DeclarePublisherCommand_decode DeclarePublisherCommand_wire.
Proof. round_trips. Qed.
#[global] Instance DeclarePublisherCommand_sized :
  SizeExact DeclarePublisherCommand_encode DeclarePublisherCommand_encoded_size (λ _, True).
Proof. sizes. Qed.
#[global] Instance DeclarePublisherCommand_reads : Reads DeclarePublisherCommand_decode DeclarePublisherCommand_ok.
Proof. reads. Qed.
End DeclarePublisherCommand_codec.
End declare_publisher.


(** ** protocol/src/commands/delete_publisher.rs *)

Module delete_publisher.
Record DeletePublisherCommand := DeletePublisherCommand_new {
  correlation_id : Z;
  publisher_id : Z;
}.

#[global] Instance DeletePublisherCommand_command : Command DeletePublisherCommand :=
  {| command_key _ := COMMAND_DELETE_PUBLISHER; command_version _ := PROTOCOL_VERSION |}.

Section DeletePublisherCommand_codec.
Context {BO : ByteOrder}.

Definition DeletePublisherCommand_encode (x : DeletePublisherCommand) : encoder :=
  u32_encode (correlation_id x);; u8_encode (publisher_id x).
Definition DeletePublisherCommand_encoded_size (x : DeletePublisherCommand) : Z :=
  add32 (u32_encoded_size (correlation_id x)) (u8_encoded_size (publisher_id x)).

Definition DeletePublisherCommand_decode : decoder DeletePublisherCommand :=
  correlation_id ← u32_decode;
  publisher_id ← u8_decode;
  mret (DeletePublisherCommand_new correlation_id publisher_id).

Definition DeletePublisherCommand_ok (x : DeletePublisherCommand) : Prop :=
  u32_ok (correlation_id x) ∧ u8_ok (publisher_id x).

#[global] Instance DeletePublisherCommand_round_trips :
  RoundTrips DeletePublisherCommand_encode DeletePublisherCommand_decode DeletePublisherCommand_ok.
Proof. round_trips. Qed.
#[global] Instance DeletePublisherCommand_sized :
  SizeExact DeletePublisherCommand_encode DeletePublisherCommand_encoded_size (λ _, True).
Proof. sizes. Qed.
#[global] Instance DeletePublisherCommand_reads : Reads DeletePublisherCommand_decode DeletePublisherCommand_ok.
Proof. reads. Qed.
End DeletePublisherCommand_codec.
End delete_publisher.


(** ** protocol/src/commands/publish_confirm.rs *)

Module publish_confirm.
Record PublishConfirm := PublishConfirm_new {
  publisher_id : Z;
  publishing_ids : list Z;
}.

#[global] Instance PublishConfirm_command : Command PublishConfirm :=
  {| command_key _ := COMMAND_PUBLISH_CONFIRM; command_version _ := PROTOCOL_VERSION |}.

Section PublishConfirm_codec.
Context {BO : ByteOrder}.

Definition PublishConfirm_encode (x : PublishConfirm) : encoder :=
  u8_encode (publisher_id x);; vec_u64_encode (publishing_ids x).
Definition PublishConfirm_encoded_size (x : PublishConfirm) : Z :=
  add32 (u8_encoded_size (publisher_id x)) (vec_u64_encoded_size (publishing_ids x)).

Definition PublishConfirm_decode : decoder PublishConfirm :=
  publisher_id ← u8_decode;
  publishing_ids ← vec_u64_decode;
  mret (PublishConfirm_new publisher_id publishing_ids).

Definition PublishConfirm_ok (x : PublishConfirm) : Prop :=
  u8_ok (publisher_id x) ∧ Forall u64_ok (publishing_ids x).
Definition PublishConfirm_wire (x : PublishConfirm) : Prop :=
  u8_ok (publisher_id x) ∧ wire_vec u64_ok (publishing_ids x).

#[global] Instance PublishConfirm_round_trips :
  RoundTrips PublishConfirm_encode PublishConfirm_decode PublishConfirm_wire.
Proof. round_trips. Qed.
#[global] Instance PublishConfirm_sized :
  SizeExact PublishConfirm_encode PublishConfirm_encoded_size (λ _, True).
Proof. sizes. Qed.
#[global] Instance PublishConfirm_reads : Reads PublishConfirm_decode PublishConfirm_ok.
Proof. reads. Qed.
End PublishConfirm_codec.
End publish_confirm.


(** ** protocol/src/commands/publish_error.rs *)

Module publish_error.
Record PublishErrorResponse := PublishErrorResponse_new {
  publisher_id : Z;
  publishing_errors : list PublishingError;
}.

#[global] Instance PublishErrorResponse_command : Command PublishErrorResponse :=
  {| command_key _ := COMMAND_PUBLISH_ERROR; command_version _ := PROTOCOL_VERSION |}.

Section PublishErrorResponse_codec.
Context {BO : ByteOrder}.

Definition PublishErrorResponse_encode (x : PublishErrorResponse) : encoder :=
  u8_encode (publisher_id x);; vec_PublishingError_encode (publishing_errors x).
Definition PublishErrorResponse_encoded_size (x : PublishErrorResponse) : Z :=
  add32 (add32 (u8_encoded_size (publisher_id x)) (vec_PublishingError_encoded_size
  (publishing_errors x))) (u8_encoded_size (publisher_id x)).

Definition PublishErrorResponse_decode : decoder PublishErrorResponse :=
  publisher_id ← u8_decode;
  publishing_errors ← vec_PublishingError_decode;
  mret (PublishErrorResponse_new publisher_id publishing_errors).

Definition PublishErrorResponse_ok (x : PublishErrorResponse) : Prop :=
  u8_ok (publisher_id x) ∧ Forall PublishingError_ok (publishing_errors x).
Definition PublishErrorResponse_wire (x : PublishErrorResponse) : Prop :=
  u8_ok (publisher_id x) ∧ vec_PublishingError_wire (publishing_errors x).

#[global] Instance PublishErrorResponse_round_trips :
  RoundTrips PublishErrorResponse_encode PublishErrorResponse_decode PublishErrorResponse_wire.
Proof. round_trips. Qed.
#[global] Instance PublishErrorResponse_reads : Reads PublishErrorResponse_decode PublishErrorResponse_ok.
Proof. reads. Qed.

(** The publisher id is counted twice: the size is one more than what is written. *)
Lemma PublishErrorResponse_oversized x : ∃ n,
  sized (PublishErrorResponse_encode x) n ∧ PublishErrorResponse_encoded_size x = add32 n 1.
Proof.
  eexists. split; [apply sized_seq; eauto with sized|].
  unfold PublishErrorResponse_encoded_size. wrap32_solve.
Qed.
End PublishErrorResponse_codec.
End publish_error.


(** ** protocol/src/commands/query_publisher_sequence.rs *)

Module query_publisher_sequence.
Record QueryPublisherRequest := QueryPublisherRequest_new {
  correlation_id : Z;
  publisher_reference : bytes;
  stream : bytes;
}.

#[global] Instance QueryPublisherRequest_command : Command QueryPublisherRequest :=
  {| command_key _ := COMMAND_QUERY_PUBLISHER_SEQUENCE; command_version _ := PROTOCOL_VERSION |}.

Section QueryPublisherRequest_codec.
Context {BO : ByteOrder}.

Definition QueryPublisherRequest_encode (x : QueryPublisherRequest) : encoder :=
  let size := len (publisher_reference x) in
  if 256 <=? size then wfail (EncodeError.MaxSizeError size) else
  u32_encode (correlation_id x);; str_encode (publisher_reference x);; str_encode
  (stream x).
Definition QueryPublisherRequest_encoded_size (x : QueryPublisherRequest) : Z :=
  add32 (add32 (u32_encoded_size (correlation_id x)) (str_encoded_size (stream x)))
  (str_encoded_size (publisher_reference x)).

Definition QueryPublisherRequest_decode : decoder QueryPublisherRequest :=
  correlation_id ← u32_decode;
  opt_publisher_reference ← opt_string_decode;
  match opt_publisher_reference with
  | Some publisher_reference =>
      if len publisher_reference <=? 255 then
        opt_stream ← opt_string_decode;
        stream ← unwrap opt_stream;
        mret (QueryPublisherRequest_new correlation_id publisher_reference stream)
      else fail (DecodeError.MismatchSize (len publisher_reference))
  | None => fail DecodeError.Empty
  end.

Definition QueryPublisherRequest_ok (x : QueryPublisherRequest) : Prop :=
  u32_ok (correlation_id x) ∧ string_ok (publisher_reference x) ∧ string_ok (stream x).
Definition QueryPublisherRequest_wire (x : QueryPublisherRequest) : Prop :=
  u32_ok (correlation_id x) ∧ wire_string (publisher_reference x) ∧ wire_string (stream
  x) ∧ len (publisher_reference x) < 256.


#[global] Instance QueryPublisherRequest_round_trips :
  RoundTrips QueryPublisherRequest_encode QueryPublisherRequest_decode QueryPublisherRequest_wire.
Proof.
  intros [c r s] Hx. unfold QueryPublisherRequest_wire in Hx. cbn in Hx. destruct_and?.
  unfold QueryPublisherRequest_encode, QueryPublisherRequest_decode. cbn.
  destruct (Z.leb_spec 256 (len r)); [lia|].
  eapply wire_seq; [by apply u32_wire|]. eapply wire_seq; [by apply str_wire|].
  cbn. destruct (Z.leb_spec (len r) 255); [|lia]. eapply wire_last; [by apply str_wire|done].
Qed.
#[global] Instance QueryPublisherRequest_sized :
  SizeExact QueryPublisherRequest_encode QueryPublisherRequest_encoded_size (λ x, len (publisher_reference x) < 256).
Proof.
  intros [c r s] Hx. unfold QueryPublisherRequest_encode, QueryPublisherRequest_encoded_size. cbn in *.
  destruct (Z.leb_spec 256 (len r)); [lia|]. sized_solve.
Qed.
#[global] Instance QueryPublisherRequest_reads : Reads QueryPublisherRequest_decode QueryPublisherRequest_ok.
Proof.
  constructor; unfold QueryPublisherRequest_decode; [|stable_solve|consumes_solve].
  sound_solve. cbn in *. subst. cbn in *. unfold QueryPublisherRequest_ok. cbn. intuition.
Qed.

(** A reference of 256 bytes or more is refused before anything is written. *)
Lemma QueryPublisherRequest_too_long x buf :
  256 <= len (publisher_reference x) ->
  QueryPublisherRequest_encode x buf = (buf, Err (EncodeError.MaxSizeError (len (publisher_reference x)))).
Proof. intros Hx. unfold QueryPublisherRequest_encode. destruct (Z.leb_spec 256 (len (publisher_reference x))); [done|lia]. Qed.
End QueryPublisherRequest_codec.

Record QueryPublisherResponse := QueryPublisherResponse_new {
  r_correlation_id : Z;
  r_response_code : ResponseCode;
  r_sequence : Z;
}.

Section QueryPublisherResponse_codec.
Context {BO : ByteOrder}.

Definition QueryPublisherResponse_encode (x : QueryPublisherResponse) : encoder :=
  u32_encode (r_correlation_id x);; ResponseCode_encode (r_response_code x);; u64_encode
  (r_sequence x).
Definition QueryPublisherResponse_encoded_size (x : QueryPublisherResponse) : Z :=
  add32 (add32 (u64_encoded_size (r_sequence x)) (u32_encoded_size (r_correlation_id
  x))) (ResponseCode_encoded_size (r_response_code x)).

Definition QueryPublisherResponse_decode : decoder QueryPublisherResponse :=
  correlation_id ← u32_decode;
  response_code ← ResponseCode_decode;
  sequence ← u64_decode;
  mret (QueryPublisherResponse_new correlation_id response_code sequence).

Definition QueryPublisherResponse_ok (x : QueryPublisherResponse) : Prop :=
  u32_ok (r_correlation_id x) ∧ u64_ok (r_sequence x).

#[global] Instance QueryPublisherResponse_round_trips :
  RoundTrips QueryPublisherResponse_encode QueryPublisherResponse_decode QueryPublisherResponse_ok.
Proof. round_trips. Qed.
#[global] Instance QueryPublisherResponse_sized :
  SizeExact QueryPublisherResponse_encode QueryPublisherResponse_encoded_size (λ _, True).
Proof. sizes. Qed.
#[global] Instance QueryPublisherResponse_reads : Reads QueryPublisherResponse_decode QueryPublisherResponse_ok.
Proof. reads. Qed.
End QueryPublisherResponse_codec.
End query_publisher_sequence.
