(* ===== verification/Consuming.v ===== *)
(** * Commands of consumers

    protocol/src/commands/: subscribe.rs, unsubscribe.rs, credit.rs,
    store_offset.rs, query_offset.rs, consumer_update.rs,
    consumer_update_request.rs.  The deliver command is in Messages.v, after the
    AMQP messages it carries. *)
From S2P Require Import Prelude Utf8 HashMaps Integers Codec Protocol.

(** ** protocol/src/commands/subscribe.rs *)

Module subscribe.
Inductive OffsetSpecification :=
  | First
  | Last
  | Next
  | Offset (offset : Z)
  | Timestamp (timestamp : Z).

Section OffsetSpecification_codec.
Context {BO : ByteOrder}.

Definition OffsetSpecification_get_type (x : OffsetSpecification) : Z :=
  match x with First => 1 | Last => 2 | Next => 3 | Offset _ => 4 | Timestamp _ => 5 end.

Definition OffsetSpecification_encode (x : OffsetSpecification) : encoder :=
  u16_encode (OffsetSpecification_get_type x);;
  match x with
  | Offset offset => u64_encode offset
  | Timestamp timestamp => i64_encode timestamp
  | _ => mret tt
  end.
Definition OffsetSpecification_encoded_size (x : OffsetSpecification) : Z :=
  add32 (u16_encoded_size (OffsetSpecification_get_type x))
    (match x with
     | Offset offset => u64_encoded_size offset
     | Timestamp timestamp => i64_encoded_size timestamp
     | _ => 0
     end).

Definition OffsetSpecification_decode : decoder OffsetSpecification :=
  offset_type ← u16_decode;
  if offset_type =? 1 then mret First
  else if offset_type =? 2 then mret Last
  else if offset_type =? 3 then mret Next
  else if offset_type =? 4 then offset ← u64_decode; mret (Offset offset)
  else if offset_type =? 5 then timestamp ← i64_decode; mret (Timestamp timestamp)
  else abort ExplicitPanic.

Definition OffsetSpecification_ok (x : OffsetSpecification) : Prop :=
  match x with Offset o => u64_ok o | Timestamp t => i64_ok t | _ => True end.

#[global] Instance OffsetSpecification_round_trips :
  RoundTrips OffsetSpecification_encode OffsetSpecification_decode OffsetSpecification_ok.
Proof.
  intros [| | |o|t] Hx; (eapply wire_seq; [by apply u16_wire|]); cbn;
    first [apply wire_ret | eapply wire_last; [by auto with wire|done]].
Qed.
#[global] Instance OffsetSpecification_sized :
  SizeExact OffsetSpecification_encode OffsetSpecification_encoded_size (λ _, True).
Proof. intros x _. apply sized_seq; [apply u16_sized|]. destruct x; auto with sized. Qed.
#[global] Instance OffsetSpecification_reads :
  Reads OffsetSpecification_decode OffsetSpecification_ok.
Proof.
  constructor; unfold OffsetSpecification_decode; [sound_solve; done|stable_solve|].
  consumes_solve.
Qed.
End OffsetSpecification_codec.

Record SubscribeCommand := SubscribeCommand_new {
  correlation_id : Z;
  subscription_id : Z;
  stream_name : bytes;
  offset_specification : OffsetSpecification;
  credit : Z;
  properties : list (bytes * bytes);
}.

#[global] Instance SubscribeCommand_command : Command SubscribeCommand :=
  {| command_key _ := COMMAND_SUBSCRIBE; command_version _ := PROTOCOL_VERSION |}.

Section SubscribeCommand_codec.
Context {BO : ByteOrder}.

Definition SubscribeCommand_encode (x : SubscribeCommand) : encoder :=
  u32_encode (correlation_id x);; u8_encode (subscription_id x);; str_encode
  (stream_name x);; OffsetSpecification_encode (offset_specification x);; u16_encode
  (credit x);; hashmap_encode (properties x).
Definition SubscribeCommand_encoded_size (x : SubscribeCommand) : Z :=
  add32 (add32 (add32 (add32 (add32 (u32_encoded_size (correlation_id x))
  (u8_encoded_size (subscription_id x))) (str_encoded_size (stream_name x)))
  (OffsetSpecification_encoded_size (offset_specification x))) (u16_encoded_size
  (credit x))) (hashmap_encoded_size (properties x)).

Definition SubscribeCommand_decode : decoder SubscribeCommand :=
  correlation_id ← u32_decode;
  subscription_id ← u8_decode;
  stream_name ← opt_string_decode;
  offset_specification ← OffsetSpecification_decode;
  credit ← u16_decode;
  properties ← hashmap_decode;
  stream_name ← unwrap stream_name;
  mret (SubscribeCommand_new correlation_id subscription_id stream_name offset_specification credit properties).

Definition SubscribeCommand_ok (x : SubscribeCommand) : Prop :=
  u32_ok (correlation_id x) ∧ u8_ok (subscription_id x) ∧ string_ok (stream_name x) ∧
  OffsetSpecification_ok (offset_specification x) ∧ u16_ok (credit x) ∧ hashmap_ok
  (properties x).
Definition SubscribeCommand_wire (x : SubscribeCommand) : Prop :=
  u32_ok (correlation_id x) ∧ u8_ok (subscription_id x) ∧ wire_string (stream_name x) ∧
  OffsetSpecification_ok (offset_specification x) ∧ u16_ok (credit x) ∧ wire_hashmap
  (properties x).

#[global] Instance SubscribeCommand_round_trips :
  RoundTrips SubscribeCommand_encode SubscribeCommand_decode SubscribeCommand_wire.
Proof. round_trips. Qed.
#[global] Instance SubscribeCommand_sized :
  SizeExact SubscribeCommand_encode SubscribeCommand_encoded_size (λ _, True).
Proof. sizes. Qed.
#[global] Instance SubscribeCommand_reads : Reads SubscribeCommand_decode SubscribeCommand_ok.
Proof. reads. Qed.
End SubscribeCommand_codec.
End subscribe.


(** ** protocol/src/commands/unsubscribe.rs *)

Module unsubscribe.
Record UnSubscribeCommand := UnSubscribeCommand_new {
  correlation_id : Z;
  subscription_id : Z;
}.

#[global] Instance UnSubscribeCommand_command : Command UnSubscribeCommand :=
  {| command_key _ := COMMAND_UNSUBSCRIBE; command_version _ := PROTOCOL_VERSION |}.

Section UnSubscribeCommand_codec.
Context {BO : ByteOrder}.

Definition UnSubscribeCommand_encode (x : UnSubscribeCommand) : encoder :=
  u32_encode (correlation_id x);; u8_encode (subscription_id x).
Definition UnSubscribeCommand_encoded_size (x : UnSubscribeCommand) : Z :=
  add32 (u32_encoded_size (correlation_id x)) (u8_encoded_size (subscription_id x)).

Definition UnSubscribeCommand_decode : decoder UnSubscribeCommand :=
  correlation_id ← u32_decode;
  subscription_id ← u8_decode;
  mret (UnSubscribeCommand_new correlation_id subscription_id).

Definition UnSubscribeCommand_ok (x : UnSubscribeCommand) : Prop :=
  u32_ok (correlation_id x) ∧ u8_ok (subscription_id x).

#[global] Instance UnSubscribeCommand_round_trips :
  RoundTrips UnSubscribeCommand_encode UnSubscribeCommand_decode UnSubscribeCommand_ok.
Proof. round_trips. Qed.
#[global] Instance UnSubscribeCommand_sized :
  SizeExact UnSubscribeCommand_encode UnSubscribeCommand_encoded_size (λ _, True).
Proof. sizes. Qed.
#[global] Instance UnSubscribeCommand_reads : Reads UnSubscribeCommand_decode UnSubscribeCommand_ok.
Proof. reads. Qed.
End UnSubscribeCommand_codec.
End unsubscribe.


(** ** protocol/src/commands/credit.rs *)

Module credit.
Record CreditCommand := CreditCommand_new {
  subscription_id : Z;
  credit : Z;
}.

#[global] Instance CreditCommand_command : Command CreditCommand :=
  {| command_key _ := COMMAND_CREDIT; command_version _ := PROTOCOL_VERSION |}.

Section CreditCommand_codec.
Context {BO : ByteOrder}.

Definition CreditCommand_encode (x : CreditCommand) : encoder :=
  u8_encode (subscription_id x);; u16_encode (credit x).
Definition CreditCommand_encoded_size (x : CreditCommand) : Z :=
  add32 (u8_encoded_size (subscription_id x)) (u16_encoded_size (credit x)).

Definition CreditCommand_decode : decoder CreditCommand :=
  subscription_id ← u8_decode;
  credit ← u16_decode;
  mret (CreditCommand_new subscription_id credit).

Definition CreditCommand_ok (x : CreditCommand) : Prop :=
  u8_ok (subscription_id x) ∧ u16_ok (credit x).

#[global] Instance CreditCommand_round_trips :
  RoundTrips CreditCommand_encode CreditCommand_decode CreditCommand_ok.
Proof. round_trips. Qed.
#[global] Instance CreditCommand_sized :
  SizeExact CreditCommand_encode CreditCommand_encoded_size (λ _, True).
Proof. sizes. Qed.
#[global] Instance CreditCommand_reads : Reads CreditCommand_decode CreditCommand_ok.
Proof. reads. Qed.
End CreditCommand_codec.

Record CreditResponse := CreditResponse_new {
  r_code : ResponseCode;
  r_subscription_id : Z;
}.

Section CreditResponse_codec.
Context {BO : ByteOrder}.

Definition CreditResponse_encode (x : CreditResponse) : encoder :=
  ResponseCode_encode (r_code x);; u8_encode (r_subscription_id x).
Definition CreditResponse_encoded_size (x : CreditResponse) : Z :=
  0.

Definition CreditResponse_decode : decoder CreditResponse :=
  code ← ResponseCode_decode;
  subscription_id ← u8_decode;
  mret (CreditResponse_new code subscription_id).

Definition CreditResponse_ok (x : CreditResponse) : Prop :=
  u8_ok (r_subscription_id x).

#[global] Instance CreditResponse_round_trips :
  RoundTrips CreditResponse_encode CreditResponse_decode CreditResponse_ok.
Proof. round_trips. Qed.
#[global] Instance CreditResponse_reads : Reads CreditResponse_decode CreditResponse_ok.
Proof. reads. Qed.
End CreditResponse_codec.
End credit.


(** ** protocol/src/commands/store_offset.rs *)

Module store_offset.
Record StoreOffset := StoreOffset_new {
  reference : bytes;
  stream : bytes;
  offset : Z;
}.

#[global] Instance StoreOffset_command : Command StoreOffset :=
  {| command_key _ := COMMAND_STORE_OFFSET; command_version _ := PROTOCOL_VERSION |}.

Section StoreOffset_codec.
Context {BO : ByteOrder}.

Definition StoreOffset_encode (x : StoreOffset) : encoder :=
  let size := len (reference x) in
  if 256 <=? size then wfail (EncodeError.MaxSizeError size) else
  str_encode (reference x);; str_encode (stream x);; u64_encode (offset x).
Definition StoreOffset_encoded_size (x : StoreOffset) : Z :=
  add32 (add32 (str_encoded_size (reference x)) (str_encoded_size (stream x)))
  (u64_encoded_size (offset x)).

Definition StoreOffset_decode : decoder StoreOffset :=
  opt_reference ← opt_string_decode;
  opt_stream ← opt_string_decode;
  match opt_reference, opt_stream with
  | Some reference, Some stream =>
      if len reference <=? 255 then
        offset ← u64_decode;
        mret (StoreOffset_new reference stream offset)
      else fail (DecodeError.MismatchSize (len reference))
  | _, _ => fail DecodeError.Empty
  end.

Definition StoreOffset_ok (x : StoreOffset) : Prop :=
  string_ok (reference x) ∧ string_ok (stream x) ∧ u64_ok (offset x).
Definition StoreOffset_wire (x : StoreOffset) : Prop :=
  wire_string (reference x) ∧ wire_string (stream x) ∧ u64_ok (offset x) ∧ len
  (reference x) < 256.


#[global] Instance StoreOffset_round_trips :
  RoundTrips StoreOffset_encode StoreOffset_decode StoreOffset_wire.
Proof.
  intros [r s o] Hx. unfold StoreOffset_wire in Hx. cbn in Hx. destruct_and?.
  unfold StoreOffset_encode, StoreOffset_decode. cbn.
  destruct (Z.leb_spec 256 (len r)); [lia|].
  eapply wire_seq; [by apply str_wire|]. eapply wire_seq; [by apply str_wire|]. cbn.
  destruct (Z.leb_spec (len r) 255); [|lia]. eapply wire_last; [by apply u64_wire|done].
Qed.
#[global] Instance StoreOffset_sized :
  SizeExact StoreOffset_encode StoreOffset_encoded_size (λ x, len (reference x) < 256).
Proof.
  intros [r s o] Hx. unfold StoreOffset_encode, StoreOffset_encoded_size. cbn in *.
  destruct (Z.leb_spec 256 (len r)); [lia|]. sized_solve.
Qed.
#[global] Instance StoreOffset_reads : Reads StoreOffset_decode StoreOffset_ok.
Proof.
  constructor; unfold StoreOffset_decode; [|stable_solve|consumes_solve].
  sound_step. sound_step. destruct a as [r|], a0 as [s|]; sound_solve.
  unfold StoreOffset_ok. cbn in *. intuition.
Qed.

(** A reference of 256 bytes or more is refused before anything is written. *)
Lemma StoreOffset_too_long x buf :
  256 <= len (reference x) ->
  StoreOffset_encode x buf = (buf, Err (EncodeError.MaxSizeError (len (reference x)))).
Proof. intros Hx. unfold StoreOffset_encode. destruct (Z.leb_spec 256 (len (reference x))); [done|lia]. Qed.
End StoreOffset_codec.
End store_offset.


(** ** protocol/src/commands/query_offset.rs *)

Module query_offset.
Record QueryOffsetRequest := QueryOffsetRequest_new {
  correlation_id : Z;
  reference : bytes;
  stream : bytes;
}.

#[global] Instance QueryOffsetRequest_command : Command QueryOffsetRequest :=
  {| command_key _ := COMMAND_QUERY_OFFSET; command_version _ := PROTOCOL_VERSION |}.

Section QueryOffsetRequest_codec.
Context {BO : ByteOrder}.

Definition QueryOffsetRequest_encode (x : QueryOffsetRequest) : encoder :=
  let size := len (reference x) in
  if 256 <=? size then wfail (EncodeError.MaxSizeError size) else
  u32_encode (correlation_id x);; str_encode (reference x);; str_encode (stream x).
Definition QueryOffsetRequest_encoded_size (x : QueryOffsetRequest) : Z :=
  add32 (add32 (u32_encoded_size (correlation_id x)) (str_encoded_size (stream x)))
  (str_encoded_size (reference x)).

Definition QueryOffsetRequest_decode : decoder QueryOffsetRequest :=
  correlation_id ← u32_decode;
  opt_reference ← opt_string_decode;
  match opt_reference with
  | Some reference =>
      if len reference <=? 255 then
        opt_stream ← opt_string_decode;
        stream ← unwrap opt_stream;
        mret (QueryOffsetRequest_new correlation_id reference stream)
      else fail (DecodeError.MismatchSize (len reference))
  | None => fail DecodeError.Empty
  end.

Definition QueryOffsetRequest_ok (x : QueryOffsetRequest) : Prop :=
  u32_ok (correlation_id x) ∧ string_ok (reference x) ∧ string_ok (stream x).
Definition QueryOffsetRequest_wire (x : QueryOffsetRequest) : Prop :=
  u32_ok (correlation_id x) ∧ wire_string (reference x) ∧ wire_string (stream x) ∧ len
  (reference x) < 256.


#[global] Instance QueryOffsetRequest_round_trips :
  RoundTrips QueryOffsetRequest_encode QueryOffsetRequest_decode QueryOffsetRequest_wire.
Proof.
  intros [c r s] Hx. unfold QueryOffsetRequest_wire in Hx. cbn in Hx. destruct_and?.
  unfold QueryOffsetRequest_encode, QueryOffsetRequest_decode. cbn.
  destruct (Z.leb_spec 256 (len r)); [lia|].
  eapply wire_seq; [by apply u32_wire|]. eapply wire_seq; [by apply str_wire|].
  cbn. destruct (Z.leb_spec (len r) 255); [|lia]. eapply wire_last; [by apply str_wire|done].
Qed.
#[global] Instance QueryOffsetRequest_sized :
  SizeExact QueryOffsetRequest_encode QueryOffsetRequest_encoded_size (λ x, len (reference x) < 256).
Proof.
  intros [c r s] Hx. unfold QueryOffsetRequest_encode, QueryOffsetRequest_encoded_size. cbn in *.
  destruct (Z.leb_spec 256 (len r)); [lia|]. sized_solve.
Qed.
#[global] Instance QueryOffsetRequest_reads : Reads QueryOffsetRequest_decode QueryOffsetRequest_ok.
Proof.
  constructor; unfold QueryOffsetRequest_decode; [|stable_solve|consumes_solve].
  sound_solve. cbn in *. subst. cbn in *. unfold QueryOffsetRequest_ok. cbn. intuition.
Qed.

(** A reference of 256 bytes or more is refused before anything is written. *)
Lemma QueryOffsetRequest_too_long x buf :
  256 <= len (reference x) ->
  QueryOffsetRequest_encode x buf = (buf, Err (EncodeError.MaxSizeError (len (reference x)))).
Proof. intros Hx. unfold QueryOffsetRequest_encode. destruct (Z.leb_spec 256 (len (reference x))); [done|lia]. Qed.
End QueryOffsetRequest_codec.

Record QueryOffsetResponse := QueryOffsetResponse_new {
  r_correlation_id : Z;
  r_response_code : ResponseCode;
  r_offset : Z;
}.

Section QueryOffsetResponse_codec.
Context {BO : ByteOrder}.

Definition QueryOffsetResponse_encode (x : QueryOffsetResponse) : encoder :=
  u32_encode (r_correlation_id x);; ResponseCode_encode (r_response_code x);; u64_encode
  (r_offset x).
Definition QueryOffsetResponse_encoded_size (x : QueryOffsetResponse) : Z :=
  add32 (add32 (u64_encoded_size (r_offset x)) (u32_encoded_size (r_correlation_id x)))
  (ResponseCode_encoded_size (r_response_code x)).

Definition QueryOffsetResponse_decode : decoder QueryOffsetResponse :=
  correlation_id ← u32_decode;
  response_code ← ResponseCode_decode;
  offset ← u64_decode;
  mret (QueryOffsetResponse_new correlation_id response_code offset).

Definition QueryOffsetResponse_is_ok (x : QueryOffsetResponse) : bool := bool_decide (r_response_code x = ResponseCode_Ok).

Definition QueryOffsetResponse_ok (x : QueryOffsetResponse) : Prop :=
  u32_ok (r_correlation_id x) ∧ u64_ok (r_offset x).

#[global] Instance QueryOffsetResponse_round_trips :
  RoundTrips QueryOffsetResponse_encode QueryOffsetResponse_decode QueryOffsetResponse_ok.
Proof. round_trips. Qed.
#[global] Instance QueryOffsetResponse_sized :
  SizeExact QueryOffsetResponse_encode QueryOffsetResponse_encoded_size (λ _, True).
Proof. sizes. Qed.
#[global] Instance QueryOffsetResponse_reads : Reads QueryOffsetResponse_decode QueryOffsetResponse_ok.
Proof. reads. Qed.
End QueryOffsetResponse_codec.
End query_offset.


(** ** protocol/src/commands/consumer_update.rs *)

Module consumer_update.
Record ConsumerUpdateCommand := ConsumerUpdateCommand_new {
  correlation_id : Z;
  subscription_id : Z;
  active : Z;
}.

#[global] Instance ConsumerUpdateCommand_command : Command ConsumerUpdateCommand :=
  {| command_key _ := COMMAND_CONSUMER_UPDATE; command_version _ := PROTOCOL_VERSION |}.

Section ConsumerUpdateCommand_codec.
Context {BO : ByteOrder}.

Definition ConsumerUpdateCommand_encode (x : ConsumerUpdateCommand) : encoder :=
  u32_encode (correlation_id x);; u8_encode (subscription_id x);; u8_encode (active x).
Definition ConsumerUpdateCommand_encoded_size (x : ConsumerUpdateCommand) : Z :=
  add32 (add32 (u32_encoded_size (correlation_id x)) (u8_encoded_size (subscription_id
  x))) (u8_encoded_size (active x)).

Definition ConsumerUpdateCommand_decode : decoder ConsumerUpdateCommand :=
  correlation_id ← u32_decode;
  subscription_id ← u8_decode;
  active ← u8_decode;
  mret (ConsumerUpdateCommand_new correlation_id subscription_id active).

Definition ConsumerUpdateCommand_ok (x : ConsumerUpdateCommand) : Prop :=
  u32_ok (correlation_id x) ∧ u8_ok (subscription_id x) ∧ u8_ok (active x).

#[global] Instance ConsumerUpdateCommand_round_trips :
  RoundTrips ConsumerUpdateCommand_encode ConsumerUpdateCommand_decode ConsumerUpdateCommand_ok.
Proof. round_trips. Qed.
#[global] Instance ConsumerUpdateCommand_sized :
  SizeExact ConsumerUpdateCommand_encode ConsumerUpdateCommand_encoded_size (λ _, True).
Proof. sizes. Qed.
#[global] Instance ConsumerUpdateCommand_reads : Reads ConsumerUpdateCommand_decode ConsumerUpdateCommand_ok.
Proof. reads. Qed.
End ConsumerUpdateCommand_codec.
End consumer_update.


(** ** protocol/src/commands/consumer_update_request.rs *)

Module consumer_update_request.
Import subscribe(OffsetSpecification, OffsetSpecification_ok, OffsetSpecification_encode,
  OffsetSpecification_encoded_size, OffsetSpecification_decode).

Record ConsumerUpdateRequestCommand := ConsumerUpdateRequestCommand_new {
  correlation_id : Z;
  response_code : Z;
  offset_specification : OffsetSpecification;
}.

#[global] Instance ConsumerUpdateRequestCommand_command : Command ConsumerUpdateRequestCommand :=
  {| command_key _ := COMMAND_CONSUMER_UPDATE_REQUEST; command_version _ := PROTOCOL_VERSION |}.

Section ConsumerUpdateRequestCommand_codec.
Context {BO : ByteOrder}.

Definition ConsumerUpdateRequestCommand_encode (x : ConsumerUpdateRequestCommand) :
  encoder :=
  u32_encode (correlation_id x);; u16_encode (response_code x);;
  OffsetSpecification_encode (offset_specification x).
Definition ConsumerUpdateRequestCommand_encoded_size (x : ConsumerUpdateRequestCommand)
  : Z :=
  add32 (add32 (u32_encoded_size (correlation_id x)) (u16_encoded_size (response_code
  x))) (OffsetSpecification_encoded_size (offset_specification x)).

Definition ConsumerUpdateRequestCommand_decode : decoder ConsumerUpdateRequestCommand :=
  correlation_id ← u32_decode;
  response_code ← u16_decode;
  offset_specification ← OffsetSpecification_decode;
  mret (ConsumerUpdateRequestCommand_new correlation_id response_code offset_specification).

Definition ConsumerUpdateRequestCommand_ok (x : ConsumerUpdateRequestCommand) : Prop :=
  u32_ok (correlation_id x) ∧ u16_ok (response_code x) ∧ OffsetSpecification_ok
  (offset_specification x).

#[global] Instance ConsumerUpdateRequestCommand_round_trips :
  RoundTrips ConsumerUpdateRequestCommand_encode ConsumerUpdateRequestCommand_decode ConsumerUpdateRequestCommand_ok.
Proof. round_trips. Qed.
#[global] Instance ConsumerUpdateRequestCommand_sized :
  SizeExact ConsumerUpdateRequestCommand_encode ConsumerUpdateRequestCommand_encoded_size (λ _, True).
Proof. sizes. Qed.
#[global] Instance ConsumerUpdateRequestCommand_reads : Reads ConsumerUpdateRequestCommand_decode ConsumerUpdateRequestCommand_ok.
Proof. reads. Qed.
End ConsumerUpdateRequestCommand_codec.
End consumer_update_request.
