(* ===== verification/AmqpCodes.v ===== *)
(** * AMQP 1.0: type codes and simple types

    protocol/src/message/amqp/: error.rs, codec/mod.rs, codec/constants.rs,
    types/symbol.rs, types/descriptor.rs, types/primitives/simple.rs.

    The crates chrono (timestamps), uuid and ordered-float are the class
    [AmqpExt].  A [f32] or [f64] is its bit pattern. *)
From S2P Require Import Prelude Utf8 HashMaps Integers Codec.

(** ** The crates the types come from *)

Class AmqpExt := {
  (** chrono: [Utc.timestamp_millis_opt(millis).single()], [timestamp_millis()]. *)
  DateTime : Type;
  timestamp_millis_opt : Z -> option DateTime;
  timestamp_millis : DateTime -> Z;
  datetime_eqb : DateTime -> DateTime -> bool;
  timestamp_millis_of millis t :
    timestamp_millis_opt millis = Some t -> timestamp_millis t = millis;
  datetime_eqb_eq a b : datetime_eqb a b = true <-> a = b;
  (** uuid: [Uuid::from_slice], which takes 16 bytes, and [as_bytes]. *)
  Uuid : Type;
  uuid_from_slice : bytes -> option Uuid;
  uuid_as_bytes : Uuid -> bytes;
  uuid_eqb : Uuid -> Uuid -> bool;
  uuid_as_bytes_len u : len (uuid_as_bytes u) = 16;
  uuid_from_as_bytes u : uuid_from_slice (uuid_as_bytes u) = Some u;
  uuid_from_slice_len bs : len bs = 16 <-> is_Some (uuid_from_slice bs);
  uuid_eqb_eq a b : uuid_eqb a b = true <-> a = b;
  (** ordered-float: [==] of [OrderedFloat<f32>] and [OrderedFloat<f64>]. *)
  f32_eqb : Z -> Z -> bool;
  f64_eqb : Z -> Z -> bool;
  f32_eqb_refl a : f32_eqb a a = true;
  f32_eqb_sym a b : f32_eqb a b = f32_eqb b a;
  f64_eqb_refl a : f64_eqb a a = true;
  f64_eqb_sym a b : f64_eqb a b = f64_eqb b a;
}.

(** ** codec/constants.rs: TypeCode *)

Inductive TypeCode : Set :=
  | TC_Described
  | TC_Null
  | TC_Boolean
  | TC_BooleanTrue
  | TC_BooleanFalse
  | TC_UInt0
  | TC_ULong0
  | TC_UByte
  | TC_UShort
  | TC_UInt
  | TC_ULong
  | TC_Byte
  | TC_Short
  | TC_Int
  | TC_Long
  | TC_UIntSmall
  | TC_ULongSmall
  | TC_IntSmall
  | TC_LongSmall
  | TC_Float
  | TC_Double
  | TC_Char
  | TC_Timestamp
  | TC_Uuid
  | TC_Binary8
  | TC_Binary32
  | TC_String8
  | TC_String32
  | TC_Symbol8
  | TC_Symbol32
  | TC_List0
  | TC_List8
  | TC_List32
  | TC_Map8
  | TC_Map32
  | TC_Array8
  | TC_Array32.

#[global] Instance type_code_eq_dec : EqDecision TypeCode.
Proof. solve_decision. Defined.

(** [#[repr(u8)]], [IntoPrimitive] and [TryFromPrimitive]. *)
Definition TypeCode_to_u8 (code : TypeCode) : Z :=
  match code with
  | TC_Described => 0
  | TC_Null => 64
  | TC_Boolean => 86
  | TC_BooleanTrue => 65
  | TC_BooleanFalse => 66
  | TC_UInt0 => 67
  | TC_ULong0 => 68
  | TC_UByte => 80
  | TC_UShort => 96
  | TC_UInt => 112
  | TC_ULong => 128
  | TC_Byte => 81
  | TC_Short => 97
  | TC_Int => 113
  | TC_Long => 129
  | TC_UIntSmall => 82
  | TC_ULongSmall => 83
  | TC_IntSmall => 84
  | TC_LongSmall => 85
  | TC_Float => 114
  | TC_Double => 130
  | TC_Char => 115
  | TC_Timestamp => 131
  | TC_Uuid => 152
  | TC_Binary8 => 160
  | TC_Binary32 => 176
  | TC_String8 => 161
  | TC_String32 => 177
  | TC_Symbol8 => 163
  | TC_Symbol32 => 179
  | TC_List0 => 69
  | TC_List8 => 192
  | TC_List32 => 208
  | TC_Map8 => 193
  | TC_Map32 => 209
  | TC_Array8 => 224
  | TC_Array32 => 240
  end.

Definition TypeCode_try_from (code : Z) : option TypeCode :=
  if code =? 0 then Some TC_Described
  else if code =? 64 then Some TC_Null
  else if code =? 86 then Some TC_Boolean
  else if code =? 65 then Some TC_BooleanTrue
  else if code =? 66 then Some TC_BooleanFalse
  else if code =? 67 then Some TC_UInt0
  else if code =? 68 then Some TC_ULong0
  else if code =? 80 then Some TC_UByte
  else if code =? 96 then Some TC_UShort
  else if code =? 112 then Some TC_UInt
  else if code =? 128 then Some TC_ULong
  else if code =? 81 then Some TC_Byte
  else if code =? 97 then Some TC_Short
  else if code =? 113 then Some TC_Int
  else if code =? 129 then Some TC_Long
  else if code =? 82 then Some TC_UIntSmall
  else if code =? 83 then Some TC_ULongSmall
  else if code =? 84 then Some TC_IntSmall
  else if code =? 85 then Some TC_LongSmall
  else if code =? 114 then Some TC_Float
  else if code =? 130 then Some TC_Double
  else if code =? 115 then Some TC_Char
  else if code =? 131 then Some TC_Timestamp
  else if code =? 152 then Some TC_Uuid
  else if code =? 160 then Some TC_Binary8
  else if code =? 176 then Some TC_Binary32
  else if code =? 161 then Some TC_String8
  else if code =? 177 then Some TC_String32
  else if code =? 163 then Some TC_Symbol8
  else if code =? 179 then Some TC_Symbol32
  else if code =? 69 then Some TC_List0
  else if code =? 192 then Some TC_List8
  else if code =? 208 then Some TC_List32
  else if code =? 193 then Some TC_Map8
  else if code =? 209 then Some TC_Map32
  else if code =? 224 then Some TC_Array8
  else if code =? 240 then Some TC_Array32
  else None.

(** ** error.rs *)

Module AmqpEncodeError.
Inductive t := Io.
End AmqpEncodeError.

Module AmqpDecodeError.
Inductive t :=
  | InvalidTypeCode (code : Z)
  | InvalidTypeCodeFor (target : string) (code : TypeCode)
  | MessageParse (msg : error_text)
  | Incomplete (e : IncompleteError.t)
  | Utf8Error (invalid : bytes)
  | UuidError (length : Z).
End AmqpDecodeError.

Abbreviation amqp_decoder := (parser AmqpDecodeError.t).
Abbreviation amqp_encoder := (writer AmqpEncodeError.t unit).
Abbreviation incomplete := (map_err AmqpDecodeError.Incomplete).

(** [trait AmqpDecoder]: what a decoder of an embedded type promises: values of
    its type, at least one byte read, and no panic but an explicit one (the hash of a map). *)
Class AmqpReads {A} (dec : amqp_decoder A) (ok : A -> Prop) := {
  amqp_sound : sound dec ok;
  amqp_consumes : consumes 1 dec;
  amqp_panics Q : Q ExplicitPanic -> panics Q dec;
}.
#[global] Hint Mode AmqpReads - ! - : typeclass_instances.

Section codes.
Context {BO : ByteOrder}.

(** [Self::invalid_type_code(code)]; [target] names [Self]. *)
Definition invalid_type_code {A} (target : string) (code : TypeCode) : amqp_decoder A :=
  fail (AmqpDecodeError.InvalidTypeCodeFor target code).

Definition TypeCode_encoded_size (code : TypeCode) : Z := 1.
Definition TypeCode_encode (code : TypeCode) : amqp_encoder :=
  write_be 1 (TypeCode_to_u8 code).

Definition TypeCode_decode : amqp_decoder TypeCode :=
  code ← incomplete read_u8;
  match TypeCode_try_from code with
  | Some tc => mret tc
  | None => fail (AmqpDecodeError.InvalidTypeCode code)
  end.

(** *** Laws *)

Lemma TypeCode_try_from_to code : TypeCode_try_from (TypeCode_to_u8 code) = Some code.
Proof. by destruct code. Qed.

Lemma TypeCode_u8 code : u8_ok (TypeCode_to_u8 code).
Proof. by destruct code. Qed.

Lemma TypeCode_wire code : wire (TypeCode_encode code) TypeCode_decode code.
Proof.
  eapply wire_last; [apply read_u8_wire, TypeCode_u8|].
  intros. by rewrite TypeCode_try_from_to.
Qed.

Lemma TypeCode_sized code : sized (TypeCode_encode code) 1.
Proof. by apply write_be_sized. Qed.

Lemma TypeCode_consumes n : (n <= 1)%nat -> consumes n TypeCode_decode.
Proof.
  intros. apply consumes_bind_l; [apply consumes_map_err; auto with consumes|].
  intros c. destruct (TypeCode_try_from c); auto with consumes.
Qed.

Lemma TypeCode_panics Q : panics Q TypeCode_decode.
Proof. unfold TypeCode_decode. panics_solve. Qed.

(** The code is the first byte of what an encoder writes. *)
Definition tagged (w : amqp_encoder) (code : TypeCode) : Prop :=
  ∃ bs more, emits w (bs ++ more) ∧ parses TypeCode_decode bs code.

Definition tags (w : amqp_encoder) (codes : list TypeCode) : Prop :=
  ∃ code, code ∈ codes ∧ tagged w code.

Definition writes (w : amqp_encoder) : Prop := ∃ bs, emits w bs.

Lemma wire_writes {F A} w (p : parser F A) a : wire w p a -> writes w.
Proof. intros (bs & H & _). by exists bs. Qed.

Lemma sized_writes w n : sized w n -> writes w.
Proof. intros (bs & H & _). by exists bs. Qed.

Lemma tagged_seq code w : writes w -> tagged (TypeCode_encode code;; w) code.
Proof.
  intros (more & Hw). destruct (TypeCode_wire code) as (bs & He & Hp).
  exists bs, more. split; [by apply emits_seq|done].
Qed.

Lemma tagged_code code : tagged (TypeCode_encode code) code.
Proof.
  destruct (TypeCode_wire code) as (bs & He & Hp). exists bs, [].
  by rewrite app_nil_r.
Qed.

Lemma wire_tagged {A} w code (k : TypeCode -> amqp_decoder A) a :
  tagged w code -> wire w (k code) a -> wire w (peek TypeCode_decode ≫= k) a.
Proof. intros (bs & more & He & Hp). apply wire_peek. eauto. Qed.

(** Dispatching on the code that was written. *)
Lemma wire_tags {A} w codes (k : TypeCode -> amqp_decoder A) a :
  tags w codes -> Forall (λ code, wire w (k code) a) codes ->
  wire w (peek TypeCode_decode ≫= k) a.
Proof.
  intros (code & Hin & Ht) Hk. apply (wire_tagged _ code); [done|].
  by eapply Forall_forall in Hk.
Qed.

Lemma tags_mono w cs ds : tags w cs -> cs ⊆ ds -> tags w ds.
Proof. intros (c & Hc & Ht) Hs. exists c. split; [by apply Hs|done]. Qed.

Lemma tags_one w c : tagged w c -> tags w [c].
Proof. intros H. exists c. split; [apply list_elem_of_here|done]. Qed.
End codes.

#[export] Hint Resolve TypeCode_wire : wire.
#[export] Hint Resolve TypeCode_sized : sized.
#[export] Hint Unfold TypeCode_encoded_size : sizes.
#[export] Hint Resolve TypeCode_consumes : consumes.
#[export] Hint Resolve TypeCode_panics : panics.
#[export] Hint Extern 2 (sound _ _) => eapply @amqp_sound; typeclasses eauto : sound.
#[export] Hint Extern 2 (consumes 1 _) => eapply @amqp_consumes; typeclasses eauto : consumes.
#[export] Hint Extern 2 (panics _ _) => eapply @amqp_panics; [typeclasses eauto|assumption] : panics.
#[export] Hint Extern 3 (consumes 0 _) =>
  eapply consumes_weaken; [eapply @amqp_consumes; typeclasses eauto|lia] : consumes.
