(* ===== verification/AmqpExec.v ===== *)
(** * An executable instance of the external types of AMQP values

    A date is its milliseconds, within the range chrono accepts; a UUID is its
    16 bytes; the floats are compared on their bits, as ordered-float documents
    it: every NaN is equal to every NaN, the two zeros are equal, anything else
    is equal to itself only.  Concrete frames are evaluated with it. *)
From S2P Require Import Prelude Utf8 HashMaps Integers Codec Protocol AmqpCodes.

Definition chrono_range (millis : Z) : bool :=
  (-8334601228800000 <=? millis) && (millis <=? 8210266876799999).

Record uuid := Uuid16 { uuid_bytes : bytes; uuid_len : (len uuid_bytes =? 16) = true }.

Lemma uuid_eq (a b : uuid) : uuid_bytes a = uuid_bytes b -> a = b.
Proof.
  destruct a as [x Hx], b as [y Hy]. cbn. intros ->. f_equal. apply (proof_irrel Hx Hy).
Qed.

Definition uuid_of (bs : bytes) : option uuid :=
  match bool_dec (len bs =? 16) true with
  | left H => Some (Uuid16 bs H)
  | right _ => None
  end.

(** Equality of floats of [1 + e + m] bits. *)
Definition float_nan (e m : Z) (a : Z) : bool :=
  (Z.land (Z.shiftr a m) (2 ^ e - 1) =? 2 ^ e - 1) && negb (Z.land a (2 ^ m - 1) =? 0).
Definition float_zero (e m : Z) (a : Z) : bool := Z.land a (2 ^ (e + m) - 1) =? 0.
Definition float_eqb (e m : Z) (a b : Z) : bool :=
  (a =? b) || (float_nan e m a && float_nan e m b) || (float_zero e m a && float_zero e m b).

Lemma float_eqb_refl e m a : float_eqb e m a a = true.
Proof. unfold float_eqb. by rewrite Z.eqb_refl. Qed.

Lemma float_eqb_sym e m a b : float_eqb e m a b = float_eqb e m b a.
Proof. unfold float_eqb. rewrite (Z.eqb_sym a b). f_equal; [f_equal|]; apply andb_comm. Qed.

#[global] Instance amqp_exec : AmqpExt.
Proof.
  refine {| DateTime := Z;
            timestamp_millis_opt := λ z, if chrono_range z then Some z else None;
            timestamp_millis := λ z, z; datetime_eqb := Z.eqb;
            Uuid := uuid; uuid_from_slice := uuid_of; uuid_as_bytes := uuid_bytes;
            uuid_eqb := λ a b, bool_decide (uuid_bytes a = uuid_bytes b);
            f32_eqb := float_eqb 8 23; f64_eqb := float_eqb 11 52 |}.
  - intros millis t. destruct (chrono_range millis); [by intros [= ->]|done].
  - intros a b. apply Z.eqb_eq.
  - intros [bs H]. cbn. by apply Z.eqb_eq.
  - intros [bs H]. unfold uuid_of. cbn. destruct (bool_dec _ _) as [H'|]; [|done].
    f_equal. by apply uuid_eq.
  - intros bs. unfold uuid_of. destruct (bool_dec _ _) as [H|H].
    + split; [by intros _; eexists|intros _; by apply Z.eqb_eq].
    + split; [|by intros [? ?]]. intros Hl. by apply Z.eqb_eq in Hl.
  - intros a b. rewrite bool_decide_eq_true. split; [apply uuid_eq|by intros ->].
  - apply float_eqb_refl.
  - apply float_eqb_sym.
  - apply float_eqb_refl.
  - apply float_eqb_sym.
Defined.
