(* ===== verification/AmqpSimple.v ===== *)
(** * AMQP 1.0: simple types

    protocol/src/message/amqp/types/primitives/simple.rs, types/symbol.rs and
    types/descriptor.rs.  Each type has an encoder, its size and a decoder; the
    laws are the interface classes of Prelude.v and AmqpCodes.v. *)
From S2P Require Import Prelude Utf8 HashMaps Integers Codec AmqpCodes.

Section simple.
Context {BO : ByteOrder} {X : AmqpExt}.

(** The input after the code, where the code had only been looked at. *)
Definition skip_code : amqp_decoder unit := TypeCode_decode;; mret tt.

Definition amqp_from_utf8 (bs : bytes) : result AmqpDecodeError.t bytes :=
  if utf8_valid bs then Ok bs else Err (AmqpDecodeError.Utf8Error bs).

(** ** Integers *)

Definition UByte_encoded_size (z : Z) : Z := 2.
Definition UByte_encode (z : Z) : amqp_encoder := TypeCode_encode TC_UByte;; write_be 1 z.
Definition UByte_decode : amqp_decoder Z :=
  code ← TypeCode_decode;
  match code with
  | TC_UByte => incomplete read_u8
  | _ => invalid_type_code "UByte" code
  end.

Definition UShort_encoded_size (z : Z) : Z := 3.
Definition UShort_encode (z : Z) : amqp_encoder := TypeCode_encode TC_UShort;; write_be 2 z.
Definition UShort_decode : amqp_decoder Z :=
  code ← TypeCode_decode;
  match code with
  | TC_UShort => incomplete read_u16
  | _ => invalid_type_code "UShort" code
  end.

Definition UInt_encoded_size (z : Z) : Z :=
  if z =? 0 then 1 else if 255 <? z then 5 else 2.
Definition UInt_encode (z : Z) : amqp_encoder :=
  if z =? 0 then TypeCode_encode TC_UInt0
  else if 255 <? z then TypeCode_encode TC_UInt;; write_be 4 z
  else TypeCode_encode TC_UIntSmall;; write_be 1 (as_unsigned 8 z).
Definition UInt_decode : amqp_decoder Z :=
  code ← TypeCode_decode;
  match code with
  | TC_UInt0 => mret 0
  | TC_UIntSmall => incomplete read_u8
  | TC_UInt => incomplete read_u32
  | _ => invalid_type_code "UInt" code
  end.

Definition ULong_encoded_size (z : Z) : Z :=
  if z =? 0 then 1 else if 255 <? z then 9 else 2.
Definition ULong_encode (z : Z) : amqp_encoder :=
  if z =? 0 then TypeCode_encode TC_ULong0
  else if 255 <? z then TypeCode_encode TC_ULong;; write_be 8 z
  else TypeCode_encode TC_ULongSmall;; write_be 1 (as_unsigned 8 z).
Definition ULong_decode : amqp_decoder Z :=
  code ← TypeCode_decode;
  match code with
  | TC_ULong => incomplete read_u64
  | TC_ULongSmall => incomplete read_u8
  | TC_ULong0 => mret 0
  | _ => invalid_type_code "ULong" code
  end.

Definition Byte_encoded_size (z : Z) : Z := 2.
Definition Byte_encode (z : Z) : amqp_encoder := TypeCode_encode TC_Byte;; write_be 1 z.
Definition Byte_decode : amqp_decoder Z :=
  code ← TypeCode_decode;
  match code with
  | TC_Byte => incomplete read_i8
  | _ => invalid_type_code "Byte" code
  end.

Definition Short_encoded_size (z : Z) : Z := 3.
Definition Short_encode (z : Z) : amqp_encoder := TypeCode_encode TC_Short;; write_be 2 z.
Definition Short_decode : amqp_decoder Z :=
  code ← TypeCode_decode;
  match code with
  | TC_Short => incomplete read_i16
  | _ => invalid_type_code "Short" code
  end.

(** [IntSmall] is written as an [i8] and read as a [u8]. *)
Definition Int_encoded_size (z : Z) : Z := if (127 <? z) || (z <? -128) then 5 else 2.
Definition Int_encode (z : Z) : amqp_encoder :=
  if (127 <? z) || (z <? -128) then TypeCode_encode TC_Int;; write_be 4 z
  else TypeCode_encode TC_IntSmall;; write_be 1 (as_signed 8 z).
Definition Int_decode : amqp_decoder Z :=
  code ← TypeCode_decode;
  match code with
  | TC_Int => incomplete read_i32
  | TC_IntSmall => incomplete read_u8
  | _ => invalid_type_code "Int" code
  end.

(** The size of a small [Long] is 3 for the 2 bytes that are written. *)
Definition Long_encoded_size (z : Z) : Z := if (127 <? z) || (z <? -128) then 9 else 3.
Definition Long_encode (z : Z) : amqp_encoder :=
  if (127 <? z) || (z <? -128) then TypeCode_encode TC_Long;; write_be 8 z
  else TypeCode_encode TC_LongSmall;; write_be 1 (as_signed 8 z).
Definition Long_decode : amqp_decoder Z :=
  code ← TypeCode_decode;
  match code with
  | TC_Long => incomplete read_i64
  | TC_LongSmall => incomplete read_i8
  | _ => invalid_type_code "Long" code
  end.

(** ** Floats (bit patterns), characters, identifiers, booleans *)

Definition Float_encoded_size (z : Z) : Z := 5.
Definition Float_encode (z : Z) : amqp_encoder := TypeCode_encode TC_Float;; write_be 4 z.
Definition Float_decode : amqp_decoder Z :=
  code ← TypeCode_decode;
  match code with
  | TC_Float => incomplete read_u32
  | _ => invalid_type_code "Float" code
  end.

Definition Double_encoded_size (z : Z) : Z := 9.
Definition Double_encode (z : Z) : amqp_encoder := TypeCode_encode TC_Double;; write_be 8 z.
Definition Double_decode : amqp_decoder Z :=
  code ← TypeCode_decode;
  match code with
  | TC_Double => incomplete read_u64
  | _ => invalid_type_code "Double" code
  end.

(** A [char] is a Unicode scalar value. *)
Definition char_ok (c : Z) : Prop := 0 <= c < 55296 ∨ 57344 <= c <= 1114111.
Definition char_from_u32 (c : Z) : option Z :=
  if (c <? 55296) || ((57344 <=? c) && (c <=? 1114111)) then Some c else None.

Definition Char_encoded_size (c : Z) : Z := 5.
Definition Char_encode (c : Z) : amqp_encoder := TypeCode_encode TC_Char;; write_be 4 c.
Definition Char_decode : amqp_decoder Z :=
  code ← TypeCode_decode;
  match code with
  | TC_Char =>
      c ← incomplete read_u32;
      match char_from_u32 c with
      | Some c => mret c
      | None => invalid_type_code "Char" code
      end
  | _ => invalid_type_code "Char" code
  end.

Definition Uuid_encoded_size (u : Uuid) : Z := add32 (TypeCode_encoded_size TC_Uuid) 16.
Definition Uuid_encode (u : Uuid) : amqp_encoder :=
  TypeCode_encode TC_Uuid;; write_all (uuid_as_bytes u).
Definition Uuid_decode : amqp_decoder Uuid :=
  code ← TypeCode_decode;
  match code with
  | TC_Uuid =>
      bytes ← incomplete (read_exact 16);
      match uuid_from_slice bytes with
      | Some u => mret u
      | None => fail (AmqpDecodeError.UuidError (len bytes))
      end
  | _ => invalid_type_code "Uuid" code
  end.

Definition Boolean_encoded_size (b : bool) : Z := 1.
Definition Boolean_encode (b : bool) : amqp_encoder :=
  TypeCode_encode (if b then TC_BooleanTrue else TC_BooleanFalse).
Definition Boolean_decode : amqp_decoder bool :=
  code ← TypeCode_decode;
  match code with
  | TC_Boolean => boolean ← incomplete read_u8; mret (negb (boolean =? 0))
  | TC_BooleanTrue => mret true
  | TC_BooleanFalse => mret false
  | _ => invalid_type_code "Boolean" code
  end.

Definition Timestamp_encoded_size (t : DateTime) : Z :=
  add32 (TypeCode_encoded_size TC_Timestamp) 8.
Definition Timestamp_encode (t : DateTime) : amqp_encoder :=
  TypeCode_encode TC_Timestamp;; write_be 8 (timestamp_millis t).
Definition Timestamp_decode : amqp_decoder DateTime :=
  code ← TypeCode_decode;
  match code with
  | TC_Timestamp =>
      millis ← incomplete read_i64;
      match timestamp_millis_opt millis with
      | Some t => mret t
      | None => fail (AmqpDecodeError.MessageParse (InvalidTimestampText millis))
      end
  | _ => invalid_type_code "Timestamp" code
  end.

(** ** Byte strings, strings and symbols *)

Definition Binary_encoded_size (bs : bytes) : Z :=
  let length := wrap32 (len bs) in
  let size := if 255 <? length then 5 else 2 in
  add32 size length.
Definition Binary_encode (bs : bytes) : amqp_encoder :=
  let length := wrap32 (len bs) in
  (if 255 <? length then TypeCode_encode TC_Binary32;; write_be 4 length
   else TypeCode_encode TC_Binary8;; write_be 1 (as_unsigned 8 length));;
  write_all bs.
Definition Binary_decode : amqp_decoder bytes :=
  code ← TypeCode_decode;
  match code with
  | TC_Binary8 => length ← incomplete read_u8; incomplete (read_exact length)
  | TC_Binary32 => length ← incomplete read_u32; incomplete (read_exact length)
  | _ => invalid_type_code "Binary" code
  end.

Definition Str_encoded_size (s : bytes) : Z :=
  let length := wrap32 (len s) in
  let size := if 255 <? length then 5 else 2 in
  add32 size length.
Definition Str_encode (s : bytes) : amqp_encoder :=
  let length := len s in
  (if 255 <? length then TypeCode_encode TC_String32;; write_be 4 (wrap32 length)
   else TypeCode_encode TC_String8;; write_be 1 (as_unsigned 8 length));;
  write_all s.
Definition Str_decode : amqp_decoder bytes :=
  code ← TypeCode_decode;
  match code with
  | TC_String8 =>
      length ← incomplete read_u8;
      bytes ← incomplete (read_exact length);
      lift (amqp_from_utf8 bytes)
  | TC_String32 =>
      length ← incomplete read_u32;
      bytes ← incomplete (read_exact length);
      lift (amqp_from_utf8 bytes)
  | _ => invalid_type_code "Str" code
  end.

Definition Symbol_encoded_size (s : bytes) : Z :=
  let length := wrap32 (len s) in
  let size := if 255 <? length then 5 else 2 in
  add32 size length.
Definition Symbol_encode (s : bytes) : amqp_encoder :=
  let length := len s in
  (if 255 <? length then TypeCode_encode TC_Symbol32;; write_be 4 (wrap32 length)
   else TypeCode_encode TC_Symbol8;; write_be 1 (as_unsigned 8 length));;
  write_all s.
Definition Symbol_decode : amqp_decoder bytes :=
  code ← TypeCode_decode;
  match code with
  | TC_Symbol8 =>
      length ← incomplete read_u8;
      bytes ← incomplete (read_exact length);
      lift (amqp_from_utf8 bytes)
  | TC_Symbol32 =>
      length ← incomplete read_u32;
      bytes ← incomplete (read_exact length);
      lift (amqp_from_utf8 bytes)
  | _ => invalid_type_code "Symbol" code
  end.

(** ** Option *)

Definition Option_encoded_size {A} (size : A -> Z) (o : option A) : Z :=
  match o with Some value => size value | None => 1 end.
Definition Option_encode {A} (enc : A -> amqp_encoder) (o : option A) : amqp_encoder :=
  match o with Some value => enc value | None => TypeCode_encode TC_Null end.
Definition Option_decode {A} (dec : amqp_decoder A) : amqp_decoder (option A) :=
  code ← peek TypeCode_decode;
  match code with
  | TC_Null => skip_code;; mret None
  | _ => value ← dec; mret (Some value)
  end.

(** ** SimpleValue *)

Inductive SimpleValue :=
  | SimpleValue_Null
  | SimpleValue_Boolean (value : bool)
  | SimpleValue_Ubyte (value : Z)
  | SimpleValue_Ushort (value : Z)
  | SimpleValue_Uint (value : Z)
  | SimpleValue_Ulong (value : Z)
  | SimpleValue_Byte (value : Z)
  | SimpleValue_Short (value : Z)
  | SimpleValue_Int (value : Z)
  | SimpleValue_Long (value : Z)
  | SimpleValue_Float (value : Z)
  | SimpleValue_Double (value : Z)
  | SimpleValue_Char (value : Z)
  | SimpleValue_Timestamp (value : DateTime)
  | SimpleValue_Uuid (value : Uuid)
  | SimpleValue_Binary (value : bytes)
  | SimpleValue_String (value : bytes)
  | SimpleValue_Symbol (value : bytes).

Definition SimpleValue_encoded_size (v : SimpleValue) : Z :=
  match v with
  | SimpleValue_Null => 1
  | SimpleValue_Boolean value => Boolean_encoded_size value
  | SimpleValue_Ubyte value => UByte_encoded_size value
  | SimpleValue_Ushort value => UShort_encoded_size value
  | SimpleValue_Uint value => UInt_encoded_size value
  | SimpleValue_Ulong value => ULong_encoded_size value
  | SimpleValue_Byte value => Byte_encoded_size value
  | SimpleValue_Short value => Short_encoded_size value
  | SimpleValue_Int value => Int_encoded_size value
  | SimpleValue_Long value => Long_encoded_size value
  | SimpleValue_Float value => Float_encoded_size value
  | SimpleValue_Double value => Double_encoded_size value
  | SimpleValue_Char value => Char_encoded_size value
  | SimpleValue_Timestamp value => Timestamp_encoded_size value
  | SimpleValue_Uuid value => Uuid_encoded_size value
  | SimpleValue_Binary value => Binary_encoded_size value
  | SimpleValue_String value => Str_encoded_size value
  | SimpleValue_Symbol value => Symbol_encoded_size value
  end.

Definition SimpleValue_encode (v : SimpleValue) : amqp_encoder :=
  match v with
  | SimpleValue_Null => TypeCode_encode TC_Null
  | SimpleValue_Boolean value => Boolean_encode value
  | SimpleValue_Ubyte value => UByte_encode value
  | SimpleValue_Ushort value => UShort_encode value
  | SimpleValue_Uint value => UInt_encode value
  | SimpleValue_Ulong value => ULong_encode value
  | SimpleValue_Byte value => Byte_encode value
  | SimpleValue_Short value => Short_encode value
  | SimpleValue_Int value => Int_encode value
  | SimpleValue_Long value => Long_encode value
  | SimpleValue_Float value => Float_encode value
  | SimpleValue_Double value => Double_encode value
  | SimpleValue_Char value => Char_encode value
  | SimpleValue_Timestamp value => Timestamp_encode value
  | SimpleValue_Uuid value => Uuid_encode value
  | SimpleValue_Binary value => Binary_encode value
  | SimpleValue_String value => Str_encode value
  | SimpleValue_Symbol value => Symbol_encode value
  end.

Definition SimpleValue_decode : amqp_decoder SimpleValue :=
  code ← peek TypeCode_decode;
  match code with
  | TC_Null => skip_code;; mret SimpleValue_Null
  | TC_Boolean | TC_BooleanFalse | TC_BooleanTrue =>
      v ← Boolean_decode; mret (SimpleValue_Boolean v)
  | TC_UInt0 | TC_UIntSmall | TC_UInt => v ← UInt_decode; mret (SimpleValue_Uint v)
  | TC_ULong0 | TC_ULongSmall | TC_ULong => v ← ULong_decode; mret (SimpleValue_Ulong v)
  | TC_UByte => v ← UByte_decode; mret (SimpleValue_Ubyte v)
  | TC_UShort => v ← UShort_decode; mret (SimpleValue_Ushort v)
  | TC_Byte => v ← Byte_decode; mret (SimpleValue_Byte v)
  | TC_Short => v ← Short_decode; mret (SimpleValue_Short v)
  | TC_IntSmall | TC_Int => v ← Int_decode; mret (SimpleValue_Int v)
  | TC_LongSmall | TC_Long => v ← Long_decode; mret (SimpleValue_Long v)
  | TC_Float => v ← Float_decode; mret (SimpleValue_Float v)
  | TC_Double => v ← Double_decode; mret (SimpleValue_Double v)
  | TC_Char => v ← Char_decode; mret (SimpleValue_Char v)
  | TC_Timestamp => v ← Timestamp_decode; mret (SimpleValue_Timestamp v)
  | TC_Uuid => v ← Uuid_decode; mret (SimpleValue_Uuid v)
  | TC_Binary8 | TC_Binary32 => v ← Binary_decode; mret (SimpleValue_Binary v)
  | TC_String8 | TC_String32 => v ← Str_decode; mret (SimpleValue_String v)
  | TC_Symbol8 | TC_Symbol32 => v ← Symbol_decode; mret (SimpleValue_Symbol v)
  | _ => invalid_type_code "SimpleValue" code
  end.

(** ** Descriptor *)

Inductive Descriptor :=
  | Descriptor_Ulong (v : Z)
  | Descriptor_Symbol (v : bytes).

Definition Descriptor_encoded_size (d : Descriptor) : Z :=
  match d with
  | Descriptor_Ulong v => add32 1 (ULong_encoded_size v)
  | Descriptor_Symbol v => add32 1 (Symbol_encoded_size v)
  end.
Definition Descriptor_encode (d : Descriptor) : amqp_encoder :=
  TypeCode_encode TC_Described;;
  match d with
  | Descriptor_Ulong v => ULong_encode v
  | Descriptor_Symbol v => Symbol_encode v
  end.
Definition Descriptor_decode : amqp_decoder Descriptor :=
  code ← TypeCode_decode;
  match code with
  | TC_Described =>
      code ← peek TypeCode_decode;
      match code with
      | TC_ULong | TC_ULongSmall => v ← ULong_decode; mret (Descriptor_Ulong v)
      | TC_ULong0 => skip_code;; mret (Descriptor_Ulong 0)
      | TC_Symbol8 | TC_Symbol32 => v ← Symbol_decode; mret (Descriptor_Symbol v)
      | _ => invalid_type_code "Descriptor" code
      end
  | _ => invalid_type_code "Descriptor" code
  end.

Definition MESSAGE_HEADER : Descriptor := Descriptor_Ulong 112.
Definition MESSAGE_DELIVERY_ANNOTATIONS : Descriptor := Descriptor_Ulong 113.
Definition MESSAGE_ANNOTATIONS : Descriptor := Descriptor_Ulong 114.
Definition MESSAGE_PROPERTIES : Descriptor := Descriptor_Ulong 115.
Definition MESSAGE_APPLICATION_PROPERTIES : Descriptor := Descriptor_Ulong 116.
Definition MESSAGE_BODY_DATA : Descriptor := Descriptor_Ulong 117.
Definition MESSAGE_BODY_SEQUENCE : Descriptor := Descriptor_Ulong 118.
Definition MESSAGE_BODY_VALUE : Descriptor := Descriptor_Ulong 119.
Definition MESSAGE_FOOTER : Descriptor := Descriptor_Ulong 120.

(** ** MessageId *)

Inductive MessageId :=
  | MessageId_ULong (id : Z)
  | MessageId_Long (id : Z)
  | MessageId_Uuid (id : Uuid)
  | MessageId_Binary (id : bytes)
  | MessageId_String (id : bytes).

Definition MessageId_encoded_size (m : MessageId) : Z :=
  match m with
  | MessageId_ULong id => ULong_encoded_size id
  | MessageId_Uuid id => Uuid_encoded_size id
  | MessageId_Binary id => Binary_encoded_size id
  | MessageId_String id => Str_encoded_size id
  | MessageId_Long id => Long_encoded_size id
  end.
Definition MessageId_encode (m : MessageId) : amqp_encoder :=
  match m with
  | MessageId_ULong id => ULong_encode id
  | MessageId_Uuid id => Uuid_encode id
  | MessageId_Binary id => Binary_encode id
  | MessageId_String id => Str_encode id
  | MessageId_Long id => Long_encode id
  end.
Definition MessageId_decode : amqp_decoder MessageId :=
  code ← peek TypeCode_decode;
  match code with
  | TC_ULong0 | TC_ULong | TC_ULongSmall => id ← ULong_decode; mret (MessageId_ULong id)
  | TC_Long | TC_LongSmall => id ← Long_decode; mret (MessageId_Long id)
  | TC_Uuid => id ← Uuid_decode; mret (MessageId_Uuid id)
  | TC_Binary8 | TC_Binary32 => id ← Binary_decode; mret (MessageId_Binary id)
  | TC_String8 | TC_String32 => id ← Str_decode; mret (MessageId_String id)
  | _ => invalid_type_code "MessageId" code
  end.

(** ** AnnonationKey *)

Inductive AnnonationKey :=
  | AnnonationKey_Symbol (symbol : bytes)
  | AnnonationKey_ULong (long : Z)
  | AnnonationKey_Long (long : Z).

Definition AnnonationKey_encoded_size (k : AnnonationKey) : Z :=
  match k with
  | AnnonationKey_Symbol symbol => Symbol_encoded_size symbol
  | AnnonationKey_ULong long => ULong_encoded_size long
  | AnnonationKey_Long long => Long_encoded_size long
  end.
Definition AnnonationKey_encode (k : AnnonationKey) : amqp_encoder :=
  match k with
  | AnnonationKey_Symbol symbol => Symbol_encode symbol
  | AnnonationKey_ULong long => ULong_encode long
  | AnnonationKey_Long long => Long_encode long
  end.
Definition AnnonationKey_decode : amqp_decoder AnnonationKey :=
  code ← peek TypeCode_decode;
  match code with
  | TC_Symbol8 | TC_Symbol32 => k ← Symbol_decode; mret (AnnonationKey_Symbol k)
  | TC_ULong | TC_ULong0 | TC_ULongSmall => k ← ULong_decode; mret (AnnonationKey_ULong k)
  | TC_Long | TC_LongSmall => k ← Long_decode; mret (AnnonationKey_Long k)
  | _ => invalid_type_code "AnnonationKey" code
  end.
End simple.

(** ** Laws *)

Section laws.
Context {BO : ByteOrder} {X : AmqpExt}.

(** *** What the wire can carry *)

Definition bytes32 (bs : bytes) : Prop := len bs < 2 ^ 32.
Definition string32 (s : bytes) : Prop := string_ok s ∧ bytes32 s.

(** A negative [Int] of one byte is read back as a positive one. *)
Definition Int_wire_ok (z : Z) : Prop := i32_ok z ∧ ¬ (-128 <= z < 0).
Definition Timestamp_wire_ok (t : DateTime) : Prop :=
  i64_ok (timestamp_millis t) ∧ timestamp_millis_opt (timestamp_millis t) = Some t.

Lemma wire_code {A} c w (k : TypeCode -> amqp_decoder A) a :
  wire w (k c) a -> wire (TypeCode_encode c;; w) (TypeCode_decode ≫= k) a.
Proof. apply wire_seq, TypeCode_wire. Qed.

Lemma wire_code_only {A} c (k : TypeCode -> amqp_decoder A) a :
  (∀ input, k c input = Ok (input, a)) -> wire (TypeCode_encode c) (TypeCode_decode ≫= k) a.
Proof. apply wire_last, TypeCode_wire. Qed.

Lemma as_unsigned_8 z : 0 <= z < 256 -> as_unsigned 8 z = z.
Proof. intros. by apply as_unsigned_id. Qed.

#[global] Instance UByte_round_trips : RoundTrips UByte_encode UByte_decode u8_ok.
Proof. intros z Hz. by apply wire_code, read_u8_wire. Qed.
#[global] Instance UShort_round_trips : RoundTrips UShort_encode UShort_decode u16_ok.
Proof. intros z Hz. by apply wire_code, read_u16_wire. Qed.
#[global] Instance Byte_round_trips : RoundTrips Byte_encode Byte_decode i8_ok.
Proof. intros z Hz. by apply wire_code, read_i8_wire. Qed.
#[global] Instance Short_round_trips : RoundTrips Short_encode Short_decode i16_ok.
Proof. intros z Hz. by apply wire_code, read_i16_wire. Qed.
#[global] Instance Float_round_trips : RoundTrips Float_encode Float_decode u32_ok.
Proof. intros z Hz. by apply wire_code, read_u32_wire. Qed.
#[global] Instance Double_round_trips : RoundTrips Double_encode Double_decode u64_ok.
Proof. intros z Hz. by apply wire_code, read_u64_wire. Qed.

#[global] Instance UInt_round_trips : RoundTrips UInt_encode UInt_decode u32_ok.
Proof.
  intros z Hz. unfold UInt_encode. destruct (Z.eqb_spec z 0) as [->|Hz0].
  { by apply wire_code_only. }
  destruct (Z.ltb_spec 255 z); [by apply wire_code, read_u32_wire|].
  unfold unsigned_ok in Hz. rewrite as_unsigned_8 by lia.
  apply wire_code, read_u8_wire. unfold unsigned_ok. lia.
Qed.

#[global] Instance ULong_round_trips : RoundTrips ULong_encode ULong_decode u64_ok.
Proof.
  intros z Hz. unfold ULong_encode. destruct (Z.eqb_spec z 0) as [->|Hz0].
  { by apply wire_code_only. }
  destruct (Z.ltb_spec 255 z); [by apply wire_code, read_u64_wire|].
  unfold unsigned_ok in Hz. rewrite as_unsigned_8 by lia.
  apply wire_code, read_u8_wire. unfold unsigned_ok. lia.
Qed.

(** What comes back of an [Int]: a small negative one is written as a signed byte
    and read as an unsigned one. *)
Definition Int_received (z : Z) : Z := if (-128 <=? z) && (z <? 0) then z + 256 else z.

Lemma Int_wire_received z : i32_ok z -> wire (Int_encode z) Int_decode (Int_received z).
Proof.
  intros Hz. unfold Int_encode, Int_decode, Int_received.
  destruct (Z.ltb_spec 127 z) as [Hb|Hb]; [|destruct (Z.ltb_spec z (-128)) as [Hs|Hs]]; cbn [orb].
  1,2: rewrite (proj2 (andb_false_iff _ _)) by (rewrite Z.leb_gt, Z.ltb_ge; lia);
    by apply wire_code, read_i32_wire.
  rewrite as_signed_id by (unfold signed_ok; lia). rewrite (proj2 (Z.leb_le _ _)) by lia.
  cbn [andb]. destruct (Z.ltb_spec z 0) as [Hn|Hn]; apply wire_code.
  - destruct (read_u8_wire (E:=AmqpEncodeError.t) AmqpDecodeError.Incomplete (z + 256))
      as (bs & He & Hp); [unfold unsigned_ok; lia|]. exists bs. split; [|exact Hp].
    assert (write_be (E:=AmqpEncodeError.t) 1 z = write_be 1 (z + 256)) as ->; [|exact He].
    unfold write_be. rewrite !bo_write_1. do 2 f_equal. unfold byte_of_Z.
    by rewrite <- (Z_mod_plus_full z 1 256).
  - apply read_u8_wire. unfold unsigned_ok. lia.
Qed.

#[global] Instance Int_round_trips : RoundTrips Int_encode Int_decode Int_wire_ok.
Proof.
  intros z [Hz Hn]. pose proof (Int_wire_received z Hz) as H. unfold Int_received in H.
  rewrite (proj2 (andb_false_iff _ _)) in H by (rewrite Z.leb_gt, Z.ltb_ge; lia). exact H.
Qed.

#[global] Instance Long_round_trips : RoundTrips Long_encode Long_decode i64_ok.
Proof.
  intros z Hz. unfold Long_encode.
  destruct (Z.ltb_spec 127 z); cbn [orb]; [by apply wire_code, read_i64_wire|].
  destruct (Z.ltb_spec z (-128)); cbn [orb]; [by apply wire_code, read_i64_wire|].
  rewrite as_signed_id by (unfold signed_ok; lia).
  apply wire_code, read_i8_wire. unfold signed_ok. lia.
Qed.

#[global] Instance Char_round_trips : RoundTrips Char_encode Char_decode char_ok.
Proof.
  intros c Hc. unfold char_ok in Hc. apply wire_code.
  eapply wire_last; [apply read_u32_wire; unfold unsigned_ok; lia|]. intros input.
  unfold char_from_u32. destruct (Z.ltb_spec c 55296); [done|].
  destruct (Z.leb_spec 57344 c); [|lia]. destruct (Z.leb_spec c 1114111); [done|lia].
Qed.

#[global] Instance Boolean_round_trips :
  RoundTrips Boolean_encode Boolean_decode (λ _, True).
Proof. intros [] _; by apply wire_code_only. Qed.

Lemma read_exact_wire {E} bs n :
  n = len bs -> wire (write_all (E:=E) bs) (incomplete (read_exact n)) bs.
Proof. intros ->. apply wire_map_err, write_all_wire, read_exact_parses. Qed.

#[global] Instance Uuid_round_trips : RoundTrips Uuid_encode Uuid_decode (λ _, True).
Proof.
  intros u _. apply wire_code.
  eapply wire_last; [apply read_exact_wire; by rewrite uuid_as_bytes_len|].
  intros. by rewrite uuid_from_as_bytes.
Qed.

#[global] Instance Timestamp_round_trips :
  RoundTrips Timestamp_encode Timestamp_decode Timestamp_wire_ok.
Proof.
  intros t [Hi Ht]. apply wire_code. eapply wire_last; [by apply read_i64_wire|].
  intros. by rewrite Ht.
Qed.

Lemma wire_assoc {A} (w1 w2 w3 : amqp_encoder) (p : amqp_decoder A) a :
  wire (w1;; w2;; w3) p a -> wire ((w1;; w2);; w3) p a.
Proof.
  intros (bs & He & Hp). exists bs. split; [|done]. intros buf. specialize (He buf).
  unfold mbind, writer_bind in *. destruct (w1 buf) as [b [[]| |]]; [|done..]. exact He.
Qed.

#[global] Instance Binary_round_trips : RoundTrips Binary_encode Binary_decode bytes32.
Proof.
  intros bs Hl. unfold bytes32 in Hl. unfold Binary_encode. rewrite len_wrap32 by done.
  pose proof (len_nonneg bs). destruct (Z.ltb_spec 255 (len bs)); apply wire_assoc, wire_code.
  - eapply wire_seq; [apply read_u32_wire; unfold unsigned_ok; lia|]. by apply read_exact_wire.
  - rewrite as_unsigned_8 by lia.
    eapply wire_seq; [apply read_u8_wire; unfold unsigned_ok; lia|]. by apply read_exact_wire.
Qed.

(** A length, the bytes of a string, and the check that they are UTF-8. *)
Lemma utf8_wire s :
  string_ok s ->
  wire (E:=AmqpEncodeError.t) (write_all s) (bytes ← incomplete (read_exact (len s)); lift (amqp_from_utf8 bytes)) s.
Proof.
  intros Hs. eapply wire_last; [by apply read_exact_wire|]. intros. unfold amqp_from_utf8.
  by rewrite Hs.
Qed.

#[global] Instance Str_round_trips : RoundTrips Str_encode Str_decode string32.
Proof.
  intros s [Hs Hl]. unfold bytes32 in Hl. unfold Str_encode. rewrite len_wrap32 by done.
  pose proof (len_nonneg s). destruct (Z.ltb_spec 255 (len s)); apply wire_assoc, wire_code.
  - eapply wire_seq; [apply read_u32_wire; unfold unsigned_ok; lia|]. by apply utf8_wire.
  - rewrite as_unsigned_8 by lia.
    eapply wire_seq; [apply read_u8_wire; unfold unsigned_ok; lia|]. by apply utf8_wire.
Qed.

#[global] Instance Symbol_round_trips : RoundTrips Symbol_encode Symbol_decode string32.
Proof.
  intros s [Hs Hl]. unfold bytes32 in Hl. unfold Symbol_encode. rewrite len_wrap32 by done.
  pose proof (len_nonneg s). destruct (Z.ltb_spec 255 (len s)); apply wire_assoc, wire_code.
  - eapply wire_seq; [apply read_u32_wire; unfold unsigned_ok; lia|]. by apply utf8_wire.
  - rewrite as_unsigned_8 by lia.
    eapply wire_seq; [apply read_u8_wire; unfold unsigned_ok; lia|]. by apply utf8_wire.
Qed.

(** *** Which code each encoder writes first *)

Lemma write_be_writes n z : writes (write_be n z).
Proof. eexists. apply emits_write_all. Qed.

Lemma UInt_tags z : tags (UInt_encode z) [TC_UInt0; TC_UIntSmall; TC_UInt].
Proof.
  unfold UInt_encode. destruct (_ =? _); [|destruct (_ <? _)];
  eexists; (split; [|first [apply tagged_seq, write_be_writes|apply tagged_code]]); set_solver.
Qed.
Lemma ULong_tags z : tags (ULong_encode z) [TC_ULong0; TC_ULongSmall; TC_ULong].
Proof.
  unfold ULong_encode. destruct (_ =? _); [|destruct (_ <? _)];
  eexists; (split; [|first [apply tagged_seq, write_be_writes|apply tagged_code]]); set_solver.
Qed.
Lemma Int_tags z : tags (Int_encode z) [TC_IntSmall; TC_Int].
Proof.
  unfold Int_encode. destruct (_ || _);
  eexists; (split; [|apply tagged_seq, write_be_writes]); set_solver.
Qed.
Lemma Long_tags z : tags (Long_encode z) [TC_LongSmall; TC_Long].
Proof.
  unfold Long_encode. destruct (_ || _);
  eexists; (split; [|apply tagged_seq, write_be_writes]); set_solver.
Qed.
Lemma Boolean_tags b : tags (Boolean_encode b) [TC_BooleanFalse; TC_BooleanTrue].
Proof. destruct b; eexists; (split; [|apply tagged_code]); set_solver. Qed.

Lemma writes_seq w1 w2 : writes w1 -> writes w2 -> writes (w1;; w2).
Proof. intros [b1 H1] [b2 H2]. eexists. by apply emits_seq. Qed.
Lemma writes_write_all bs : writes (write_all bs).
Proof. eexists. apply emits_write_all. Qed.

Lemma tagged_assoc c w1 w2 : writes w1 -> writes w2 -> tagged ((TypeCode_encode c;; w1);; w2) c.
Proof.
  intros H1 H2. destruct (tagged_seq c w1 H1) as (bs & more & He & Hp).
  destruct H2 as [b2 H2]. exists bs, (more ++ b2). rewrite app_assoc.
  split; [by apply emits_seq|done].
Qed.

Lemma Binary_tags bs : tags (Binary_encode bs) [TC_Binary8; TC_Binary32].
Proof.
  unfold Binary_encode. destruct (_ <? _);
  eexists; (split; [|apply tagged_assoc; [apply write_be_writes|apply writes_write_all]]);
  set_solver.
Qed.
Lemma Str_tags s : tags (Str_encode s) [TC_String8; TC_String32].
Proof.
  unfold Str_encode. destruct (_ <? _);
  eexists; (split; [|apply tagged_assoc; [apply write_be_writes|apply writes_write_all]]);
  set_solver.
Qed.
Lemma Symbol_tags s : tags (Symbol_encode s) [TC_Symbol8; TC_Symbol32].
Proof.
  unfold Symbol_encode. destruct (_ <? _);
  eexists; (split; [|apply tagged_assoc; [apply write_be_writes|apply writes_write_all]]);
  set_solver.
Qed.
Lemma Uuid_tags u : tags (Uuid_encode u) [TC_Uuid].
Proof. apply tags_one, tagged_seq, writes_write_all. Qed.
End laws.

(** *** Sizes *)

(** The encoders whose size is right: a [Long] of one byte is counted as two. *)
Definition Long_fits (z : Z) : Prop := ¬ (-128 <= z <= 127).

Section sizes.
Context {BO : ByteOrder} {X : AmqpExt}.

Lemma code_sized c w n m :
  sized w n -> wrap32 (1 + n) = m -> sized (TypeCode_encode c;; w) m.
Proof.
  intros Hw <-. eapply sized_seq; [apply TypeCode_sized|done].
Qed.

#[global] Instance UByte_sized : SizeExact UByte_encode UByte_encoded_size (λ _, True).
Proof. intros z _. eapply code_sized; [by apply write_be_sized|done]. Qed.
#[global] Instance UShort_sized : SizeExact UShort_encode UShort_encoded_size (λ _, True).
Proof. intros z _. eapply code_sized; [by apply write_be_sized|done]. Qed.
#[global] Instance Byte_sized : SizeExact Byte_encode Byte_encoded_size (λ _, True).
Proof. intros z _. eapply code_sized; [by apply write_be_sized|done]. Qed.
#[global] Instance Short_sized : SizeExact Short_encode Short_encoded_size (λ _, True).
Proof. intros z _. eapply code_sized; [by apply write_be_sized|done]. Qed.
#[global] Instance Float_sized : SizeExact Float_encode Float_encoded_size (λ _, True).
Proof. intros z _. eapply code_sized; [by apply write_be_sized|done]. Qed.
#[global] Instance Double_sized : SizeExact Double_encode Double_encoded_size (λ _, True).
Proof. intros z _. eapply code_sized; [by apply write_be_sized|done]. Qed.
#[global] Instance Char_sized : SizeExact Char_encode Char_encoded_size (λ _, True).
Proof. intros z _. eapply code_sized; [by apply write_be_sized|done]. Qed.
#[global] Instance Timestamp_sized :
  SizeExact Timestamp_encode Timestamp_encoded_size (λ _, True).
Proof. intros t _. eapply code_sized; [by apply write_be_sized|done]. Qed.
#[global] Instance Boolean_sized : SizeExact Boolean_encode Boolean_encoded_size (λ _, True).
Proof. intros b _. apply TypeCode_sized. Qed.
#[global] Instance Uuid_sized : SizeExact Uuid_encode Uuid_encoded_size (λ _, True).
Proof.
  intros u _. eapply code_sized; [apply sized_write_all|]. by rewrite uuid_as_bytes_len.
Qed.

#[global] Instance UInt_sized : SizeExact UInt_encode UInt_encoded_size (λ _, True).
Proof.
  intros z _. unfold UInt_encode, UInt_encoded_size.
  destruct (z =? 0); [apply TypeCode_sized|].
  destruct (255 <? z); (eapply code_sized; [by apply write_be_sized|done]).
Qed.
#[global] Instance ULong_sized : SizeExact ULong_encode ULong_encoded_size (λ _, True).
Proof.
  intros z _. unfold ULong_encode, ULong_encoded_size.
  destruct (z =? 0); [apply TypeCode_sized|].
  destruct (255 <? z); (eapply code_sized; [by apply write_be_sized|done]).
Qed.
#[global] Instance Int_sized : SizeExact Int_encode Int_encoded_size (λ _, True).
Proof.
  intros z _. unfold Int_encode, Int_encoded_size.
  destruct (_ || _); (eapply code_sized; [by apply write_be_sized|done]).
Qed.
#[global] Instance Long_sized : SizeExact Long_encode Long_encoded_size Long_fits.
Proof.
  intros z Hz. unfold Long_encode, Long_encoded_size, Long_fits in *.
  destruct (Z.ltb_spec 127 z), (Z.ltb_spec z (-128)); cbn [orb]; try lia;
    (eapply code_sized; [by apply write_be_sized|done]).
Qed.

(** A small [Long] writes 2 bytes and announces 3. *)
Lemma Long_oversized z : -128 <= z <= 127 ->
  sized (Long_encode z) 2 ∧ Long_encoded_size z = 3.
Proof.
  intros Hz. unfold Long_encode, Long_encoded_size.
  destruct (Z.ltb_spec 127 z), (Z.ltb_spec z (-128)); cbn [orb]; try lia.
  split; [|done]. by eapply code_sized; [apply write_be_sized|].
Qed.

Lemma prefixed_sized c n z bs m :
  (n < 16)%nat -> wrap32 (1 + Z.of_nat n + len bs) = m ->
  sized ((TypeCode_encode c;; write_be n z);; write_all bs) m.
Proof.
  intros Hn <-. eapply sized_eq.
  - eapply sized_seq; [|apply sized_write_all].
    eapply sized_seq; [apply TypeCode_sized|by apply write_be_sized_eq].
  - wrap32_solve.
Qed.

Lemma prefix_sum a b n : a = b -> wrap32 (a + n) = add32 b (wrap32 n).
Proof. intros ->. wrap32_solve. Qed.

#[global] Instance Binary_sized : SizeExact Binary_encode Binary_encoded_size (λ _, True).
Proof.
  intros bs _. unfold Binary_encode, Binary_encoded_size.
  destruct (255 <? _); (apply prefixed_sized; [lia|by apply prefix_sum]).
Qed.
#[global] Instance Str_sized : SizeExact Str_encode Str_encoded_size bytes32.
Proof.
  intros s Hs. unfold bytes32 in Hs. unfold Str_encode, Str_encoded_size.
  rewrite len_wrap32 by done.
  destruct (255 <? _); (apply prefixed_sized; [lia|]);
    rewrite <- (len_wrap32 s) at 2 by done; by apply prefix_sum.
Qed.
#[global] Instance Symbol_sized : SizeExact Symbol_encode Symbol_encoded_size bytes32.
Proof.
  intros s Hs. unfold bytes32 in Hs. unfold Symbol_encode, Symbol_encoded_size.
  rewrite len_wrap32 by done.
  destruct (255 <? _); (apply prefixed_sized; [lia|]);
    rewrite <- (len_wrap32 s) at 2 by done; by apply prefix_sum.
Qed.
End sizes.

(** *** What the decoders return *)

(** Decoders that begin with a type code, read or looked at. *)
Ltac consumes_code :=
  intros; repeat (match goal with
  | |- consumes 1 (peek _ ≫= _) => apply consumes_bind_r; [apply consumes_peek|intros]
  | |- consumes 1 (_ ≫= _) => apply consumes_bind_l; [solve [eauto with consumes]|intros]
  | |- consumes 1 (match ?c with _ => _ end) => destruct c
  | |- consumes 1 _ => solve [eauto with consumes]
  end); consumes_solve.
Ltac amqp_reads :=
  constructor;
  [ lazymatch goal with |- sound ?p _ => unfold_head p end; sound_solve
  | lazymatch goal with |- consumes _ ?p => unfold_head p end; consumes_code
  | intros; lazymatch goal with |- panics _ ?p => unfold_head p end; panics_solve ].

Section reads.
Context {BO : ByteOrder} {X : AmqpExt}.

Lemma TypeCode_sound : sound TypeCode_decode (λ _, True).
Proof. done. Qed.
Lemma skip_code_sound : sound skip_code (λ _, True).
Proof. done. Qed.
Lemma skip_code_consumes n : (n <= 1)%nat -> consumes n skip_code.
Proof. intros. apply consumes_bind_l; eauto with consumes. Qed.
Lemma invalid_type_code_sound {A} t c (P : A -> Prop) : sound (invalid_type_code t c) P.
Proof. apply sound_fail. Qed.
Lemma invalid_type_code_consumes {A} n t c : consumes n (invalid_type_code (A:=A) t c).
Proof. apply consumes_fail. Qed.
Lemma read_exact_sound n : sound (read_exact n) (λ _, True).
Proof. done. Qed.
Lemma amqp_from_utf8_sound bs : sound (lift (amqp_from_utf8 bs)) string_ok.
Proof.
  apply sound_lift. intros s. unfold amqp_from_utf8.
  destruct (utf8_valid bs) eqn:Hu; [|done]. by intros [= <-].
Qed.
#[local] Hint Resolve TypeCode_sound skip_code_sound invalid_type_code_sound
  read_exact_sound amqp_from_utf8_sound : sound.
#[local] Hint Resolve skip_code_consumes invalid_type_code_consumes : consumes.

Lemma skip_code_panics Q : panics Q skip_code.
Proof. unfold skip_code. panics_solve. Qed.
Lemma invalid_type_code_panics {A} Q t c : panics Q (invalid_type_code (A:=A) t c).
Proof. apply panics_fail. Qed.
Lemma amqp_from_utf8_panics Q bs : panics Q (lift (amqp_from_utf8 bs)).
Proof. apply panics_lift. unfold amqp_from_utf8. by destruct (utf8_valid bs). Qed.
#[local] Hint Resolve skip_code_panics invalid_type_code_panics amqp_from_utf8_panics : panics.

Lemma u8_u32 z : u8_ok z -> u32_ok z.
Proof. unfold unsigned_ok. lia. Qed.
Lemma u8_u64 z : u8_ok z -> u64_ok z.
Proof. unfold unsigned_ok. lia. Qed.
Lemma u8_i32 z : u8_ok z -> i32_ok z.
Proof. unfold unsigned_ok, signed_ok. lia. Qed.
Lemma i8_i64 z : i8_ok z -> i64_ok z.
Proof. unfold signed_ok. lia. Qed.
Lemma u32_0 : u32_ok 0. Proof. done. Qed.
Lemma u64_0 : u64_ok 0. Proof. done. Qed.

(** A byte read where a wider integer is expected. *)
Lemma incomplete_weaken {A} (p : parser IncompleteError.t A) (P Q : A -> Prop) :
  sound p P -> (∀ a, P a -> Q a) -> sound (incomplete p) Q.
Proof. intros. eapply sound_weaken; [by apply sound_map_err|done]. Qed.
#[local] Hint Extern 1 (sound (incomplete read_u8) u32_ok) =>
  apply (incomplete_weaken _ u8_ok); [apply read_u8_sound|apply u8_u32] : sound.
#[local] Hint Extern 1 (sound (incomplete read_u8) u64_ok) =>
  apply (incomplete_weaken _ u8_ok); [apply read_u8_sound|apply u8_u64] : sound.
#[local] Hint Extern 1 (sound (incomplete read_u8) i32_ok) =>
  apply (incomplete_weaken _ u8_ok); [apply read_u8_sound|apply u8_i32] : sound.
#[local] Hint Extern 1 (sound (incomplete read_i8) i64_ok) =>
  apply (incomplete_weaken _ i8_ok); [apply read_i8_sound|apply i8_i64] : sound.

#[global] Instance UByte_reads : AmqpReads UByte_decode u8_ok.
Proof. amqp_reads. Qed.
#[global] Instance UShort_reads : AmqpReads UShort_decode u16_ok.
Proof. amqp_reads. Qed.
#[global] Instance UInt_reads : AmqpReads UInt_decode u32_ok.
Proof. amqp_reads; apply u32_0. Qed.
#[global] Instance ULong_reads : AmqpReads ULong_decode u64_ok.
Proof. amqp_reads; apply u64_0. Qed.
#[global] Instance Byte_reads : AmqpReads Byte_decode i8_ok.
Proof. amqp_reads. Qed.
#[global] Instance Short_reads : AmqpReads Short_decode i16_ok.
Proof. amqp_reads. Qed.
#[global] Instance Int_reads : AmqpReads Int_decode i32_ok.
Proof. amqp_reads. Qed.
#[global] Instance Long_reads : AmqpReads Long_decode i64_ok.
Proof. amqp_reads. Qed.
#[global] Instance Float_reads : AmqpReads Float_decode u32_ok.
Proof. amqp_reads. Qed.
#[global] Instance Double_reads : AmqpReads Double_decode u64_ok.
Proof. amqp_reads. Qed.
#[global] Instance Boolean_reads : AmqpReads Boolean_decode (λ _, True).
Proof. amqp_reads; done. Qed.
#[global] Instance Uuid_reads : AmqpReads Uuid_decode (λ _, True).
Proof. amqp_reads; done. Qed.
#[global] Instance Binary_reads : AmqpReads Binary_decode (λ _, True).
Proof. amqp_reads. Qed.
#[global] Instance Str_reads : AmqpReads Str_decode string_ok.
Proof. amqp_reads. Qed.
#[global] Instance Symbol_reads : AmqpReads Symbol_decode string_ok.
Proof. amqp_reads. Qed.

#[global] Instance Char_reads : AmqpReads Char_decode char_ok.
Proof.
  constructor; unfold Char_decode; [|consumes_code|panics_solve].
  sound_step. destruct a; sound_solve. unfold char_from_u32, char_ok in *.
  unfold unsigned_ok in *. destruct (Z.ltb_spec a 55296); simplify_eq/=; [lia|].
  destruct (Z.leb_spec 57344 a), (Z.leb_spec a 1114111); simplify_eq/=; lia.
Qed.

#[global] Instance Timestamp_reads : AmqpReads Timestamp_decode Timestamp_wire_ok.
Proof.
  constructor; unfold Timestamp_decode; [|consumes_code|panics_solve].
  sound_step. destruct a; sound_solve. unfold Timestamp_wire_ok.
  by rewrite (timestamp_millis_of a d).
Qed.

#[global] Instance Option_reads {A} (dec : amqp_decoder A) ok :
  AmqpReads dec ok -> AmqpReads (Option_decode dec) (from_option ok True).
Proof.
  intros [Hs Hc Hp]. constructor; unfold Option_decode; [|consumes_code|panics_solve].
  sound_step. destruct a; sound_solve; done.
Qed.
End reads.

#[export] Hint Resolve TypeCode_sound skip_code_sound invalid_type_code_sound
  read_exact_sound amqp_from_utf8_sound : sound.
#[export] Hint Resolve skip_code_consumes invalid_type_code_consumes : consumes.
#[export] Hint Resolve skip_code_panics invalid_type_code_panics amqp_from_utf8_panics : panics.

(** *** Simple values, descriptors, identifiers and options *)

(** The codes an encoder may write first. *)
Class Tagged {A} (enc : A -> amqp_encoder) (codes : list TypeCode) :=
  tagged_by x : tags (enc x) codes.
#[global] Hint Mode Tagged - ! - : typeclass_instances.

Definition no_null (codes : list TypeCode) : bool :=
  forallb (λ c, negb (bool_decide (c = TC_Null))) codes.

Section embedded.
Context {BO : ByteOrder} {X : AmqpExt}.

Definition SimpleValue_ok (v : SimpleValue) : Prop :=
  match v with
  | SimpleValue_Null | SimpleValue_Boolean _ | SimpleValue_Uuid _ | SimpleValue_Binary _ => True
  | SimpleValue_Ubyte z => u8_ok z
  | SimpleValue_Ushort z => u16_ok z
  | SimpleValue_Uint z | SimpleValue_Float z => u32_ok z
  | SimpleValue_Ulong z | SimpleValue_Double z => u64_ok z
  | SimpleValue_Byte z => i8_ok z
  | SimpleValue_Short z => i16_ok z
  | SimpleValue_Int z => i32_ok z
  | SimpleValue_Long z => i64_ok z
  | SimpleValue_Char z => char_ok z
  | SimpleValue_Timestamp t => Timestamp_wire_ok t
  | SimpleValue_String s | SimpleValue_Symbol s => string_ok s
  end.

Definition SimpleValue_wire_ok (v : SimpleValue) : Prop :=
  match v with
  | SimpleValue_Int z => Int_wire_ok z
  | SimpleValue_Binary s => bytes32 s
  | SimpleValue_String s | SimpleValue_Symbol s => string32 s
  | _ => SimpleValue_ok v
  end.

Definition SimpleValue_fits (v : SimpleValue) : Prop :=
  match v with
  | SimpleValue_Long z => Long_fits z
  | SimpleValue_String s | SimpleValue_Symbol s => bytes32 s
  | _ => True
  end.

Lemma coded_tags c w : writes w -> tags (TypeCode_encode c;; w) [c].
Proof. intros. by apply tags_one, tagged_seq. Qed.

#[global] Instance UByte_tagged : Tagged UByte_encode [TC_UByte].
Proof. intros z. apply coded_tags, write_be_writes. Qed.
#[global] Instance UInt_tagged : Tagged UInt_encode _ := UInt_tags.
#[global] Instance ULong_tagged : Tagged ULong_encode _ := ULong_tags.
#[global] Instance Long_tagged : Tagged Long_encode _ := Long_tags.
#[global] Instance Boolean_tagged : Tagged Boolean_encode _ := Boolean_tags.
#[global] Instance Binary_tagged : Tagged Binary_encode _ := Binary_tags.
#[global] Instance Str_tagged : Tagged Str_encode _ := Str_tags.
#[global] Instance Symbol_tagged : Tagged Symbol_encode _ := Symbol_tags.
#[global] Instance Timestamp_tagged : Tagged Timestamp_encode [TC_Timestamp].
Proof. intros t. apply coded_tags, write_be_writes. Qed.

Definition simple_codes : list TypeCode :=
  [TC_Null; TC_BooleanFalse; TC_BooleanTrue; TC_UByte; TC_UShort; TC_UInt0; TC_UIntSmall;
   TC_UInt; TC_ULong0; TC_ULongSmall; TC_ULong; TC_Byte; TC_Short; TC_IntSmall; TC_Int;
   TC_LongSmall; TC_Long; TC_Float; TC_Double; TC_Char; TC_Timestamp; TC_Uuid; TC_Binary8;
   TC_Binary32; TC_String8; TC_String32; TC_Symbol8; TC_Symbol32].

(** The codes of one simple value. *)
Definition SimpleValue_codes (v : SimpleValue) : list TypeCode :=
  match v with
  | SimpleValue_Null => [TC_Null]
  | SimpleValue_Boolean _ => [TC_BooleanFalse; TC_BooleanTrue]
  | SimpleValue_Ubyte _ => [TC_UByte]
  | SimpleValue_Ushort _ => [TC_UShort]
  | SimpleValue_Uint _ => [TC_UInt0; TC_UIntSmall; TC_UInt]
  | SimpleValue_Ulong _ => [TC_ULong0; TC_ULongSmall; TC_ULong]
  | SimpleValue_Byte _ => [TC_Byte]
  | SimpleValue_Short _ => [TC_Short]
  | SimpleValue_Int _ => [TC_IntSmall; TC_Int]
  | SimpleValue_Long _ => [TC_LongSmall; TC_Long]
  | SimpleValue_Float _ => [TC_Float]
  | SimpleValue_Double _ => [TC_Double]
  | SimpleValue_Char _ => [TC_Char]
  | SimpleValue_Timestamp _ => [TC_Timestamp]
  | SimpleValue_Uuid _ => [TC_Uuid]
  | SimpleValue_Binary _ => [TC_Binary8; TC_Binary32]
  | SimpleValue_String _ => [TC_String8; TC_String32]
  | SimpleValue_Symbol _ => [TC_Symbol8; TC_Symbol32]
  end.

Lemma SimpleValue_tags v : tags (SimpleValue_encode v) (SimpleValue_codes v).
Proof.
  destruct v; cbn [SimpleValue_encode SimpleValue_codes];
    first [ apply tagged_by | apply Int_tags | apply Uuid_tags | apply tags_one, tagged_code
          | apply coded_tags, write_be_writes ].
Qed.

#[global] Instance SimpleValue_tagged : Tagged SimpleValue_encode simple_codes.
Proof.
  intros v. eapply tags_mono; [apply SimpleValue_tags|].
  intros c Hc. apply (bool_decide_unpack (c ∈ simple_codes)).
  destruct v; cbn in Hc; repeat (apply elem_of_cons in Hc as [->|Hc]; [by vm_compute|]);
    by apply not_elem_of_nil in Hc.
Qed.

#[global] Instance SimpleValue_round_trips :
  RoundTrips SimpleValue_encode SimpleValue_decode SimpleValue_wire_ok.
Proof.
  intros v Hv. eapply wire_tags; [apply SimpleValue_tags|].
  destruct v; cbn [SimpleValue_codes SimpleValue_encode] in *; repeat constructor; cbn beta iota;
    (eapply wire_last; [first [by apply round_trip|apply wire_code_only; done]|done]).
Qed.

#[global] Instance SimpleValue_sized :
  SizeExact SimpleValue_encode SimpleValue_encoded_size SimpleValue_fits.
Proof.
  intros v Hv. destruct v; cbn [SimpleValue_encode SimpleValue_encoded_size];
    first [by apply size_exact|apply TypeCode_sized].
Qed.

#[global] Instance SimpleValue_reads : AmqpReads SimpleValue_decode SimpleValue_ok.
Proof.
  constructor; unfold SimpleValue_decode; [|consumes_code|panics_solve].
  sound_step. destruct a; sound_solve; done.
Qed.

(** Descriptors. *)

Definition Descriptor_ok (d : Descriptor) : Prop :=
  match d with Descriptor_Ulong v => u64_ok v | Descriptor_Symbol v => string_ok v end.
Definition Descriptor_wire_ok (d : Descriptor) : Prop :=
  match d with Descriptor_Ulong v => u64_ok v | Descriptor_Symbol v => string32 v end.
Definition Descriptor_fits (d : Descriptor) : Prop :=
  match d with Descriptor_Ulong v => True | Descriptor_Symbol v => bytes32 v end.

Lemma ULong_0_wire v :
  ULong_encode v = TypeCode_encode TC_ULong0 ∨ v ≠ 0.
Proof. unfold ULong_encode. destruct (Z.eqb_spec v 0); auto. Qed.

Lemma ULong_small_tags v : v ≠ 0 -> tags (ULong_encode v) [TC_ULongSmall; TC_ULong].
Proof.
  intros Hv. unfold ULong_encode. destruct (Z.eqb_spec v 0); [done|].
  destruct (_ <? _); eexists; (split; [|apply tagged_seq, write_be_writes]); set_solver.
Qed.

#[global] Instance Descriptor_round_trips :
  RoundTrips Descriptor_encode Descriptor_decode Descriptor_wire_ok.
Proof.
  intros [v|v] Hv; cbn in Hv; apply wire_code.
  - destruct (decide (v = 0)) as [->|Hv0].
    + eapply (wire_tagged _ TC_ULong0); [apply tagged_code|].
      eapply wire_last; [by apply wire_code_only|done].
    + eapply wire_tags; [by apply ULong_small_tags|].
      repeat constructor; (eapply wire_last; [by apply round_trip|done]).
  - eapply wire_tags; [apply Symbol_tags|].
    repeat constructor; (eapply wire_last; [by apply round_trip|done]).
Qed.
#[global] Instance Descriptor_sized :
  SizeExact Descriptor_encode Descriptor_encoded_size Descriptor_fits.
Proof. intros [v|v] Hv; (eapply code_sized; [by apply size_exact|done]). Qed.
#[global] Instance Descriptor_reads : AmqpReads Descriptor_decode Descriptor_ok.
Proof.
  constructor; unfold Descriptor_decode; [|consumes_code|panics_solve].
  sound_step. destruct a; sound_solve; done.
Qed.
#[global] Instance Descriptor_tagged : Tagged Descriptor_encode [TC_Described].
Proof.
  intros d. apply coded_tags. destruct d.
  - by eapply sized_writes, ULong_sized.
  - unfold Symbol_encode. destruct (_ <? _);
      (apply writes_seq; [eapply sized_writes, code_sized; [by apply write_be_sized|done]|
                          apply writes_write_all]).
Qed.

(** Message identifiers. *)

Definition MessageId_ok (m : MessageId) : Prop :=
  match m with
  | MessageId_ULong id => u64_ok id
  | MessageId_Long id => i64_ok id
  | MessageId_String s => string_ok s
  | _ => True
  end.
Definition MessageId_wire_ok (m : MessageId) : Prop :=
  match m with
  | MessageId_Binary s => bytes32 s
  | MessageId_String s => string32 s
  | _ => MessageId_ok m
  end.
Definition MessageId_fits (m : MessageId) : Prop :=
  match m with MessageId_Long z => Long_fits z | MessageId_String s => bytes32 s | _ => True end.

#[global] Instance MessageId_tagged : Tagged MessageId_encode
  [TC_ULong0; TC_ULongSmall; TC_ULong; TC_LongSmall; TC_Long; TC_Uuid; TC_Binary8;
   TC_Binary32; TC_String8; TC_String32].
Proof.
  intros m. destruct m; cbn [MessageId_encode];
  (eapply tags_mono; [first [apply tagged_by | apply Uuid_tags]|]);
  intros c Hc; repeat (apply elem_of_cons in Hc as [->|Hc]; [set_solver|]);
  by apply not_elem_of_nil in Hc.
Qed.

#[global] Instance MessageId_round_trips :
  RoundTrips MessageId_encode MessageId_decode MessageId_wire_ok.
Proof.
  intros m Hm. destruct m; cbn [MessageId_encode];
    (eapply wire_tags; [first [apply tagged_by|apply Uuid_tags]|]);
    repeat constructor; cbn beta iota; (eapply wire_last; [by apply round_trip|done]).
Qed.
#[global] Instance MessageId_sized :
  SizeExact MessageId_encode MessageId_encoded_size MessageId_fits.
Proof.
  intros m Hm. destruct m; cbn [MessageId_encode MessageId_encoded_size]; by apply size_exact.
Qed.
#[global] Instance MessageId_reads : AmqpReads MessageId_decode MessageId_ok.
Proof.
  constructor; unfold MessageId_decode; [|consumes_code|panics_solve].
  sound_step. destruct a; sound_solve; done.
Qed.

(** Annotation keys. *)

Definition AnnonationKey_ok (k : AnnonationKey) : Prop :=
  match k with
  | AnnonationKey_Symbol s => string_ok s
  | AnnonationKey_ULong z => u64_ok z
  | AnnonationKey_Long z => i64_ok z
  end.
Definition AnnonationKey_wire_ok (k : AnnonationKey) : Prop :=
  match k with AnnonationKey_Symbol s => string32 s | _ => AnnonationKey_ok k end.
Definition AnnonationKey_fits (k : AnnonationKey) : Prop :=
  match k with
  | AnnonationKey_Symbol s => bytes32 s
  | AnnonationKey_ULong _ => True
  | AnnonationKey_Long z => Long_fits z
  end.

#[global] Instance AnnonationKey_round_trips :
  RoundTrips AnnonationKey_encode AnnonationKey_decode AnnonationKey_wire_ok.
Proof.
  intros k Hk. destruct k; cbn [AnnonationKey_encode];
    (eapply wire_tags; [apply tagged_by|]);
    repeat constructor; cbn beta iota; (eapply wire_last; [by apply round_trip|done]).
Qed.
#[global] Instance AnnonationKey_sized :
  SizeExact AnnonationKey_encode AnnonationKey_encoded_size AnnonationKey_fits.
Proof.
  intros k Hk. destruct k; cbn [AnnonationKey_encode AnnonationKey_encoded_size];
    by apply size_exact.
Qed.
#[global] Instance AnnonationKey_reads : AmqpReads AnnonationKey_decode AnnonationKey_ok.
Proof.
  constructor; unfold AnnonationKey_decode; [|consumes_code|panics_solve].
  sound_step. destruct a; sound_solve; done.
Qed.

(** Options: the null code must not be one of the value's own. *)

Lemma no_null_spec codes c : no_null codes = true -> c ∈ codes -> c ≠ TC_Null.
Proof.
  unfold no_null. rewrite forallb_forall. intros H Hc%list_elem_of_In%H ->. done.
Qed.

#[global] Instance Option_round_trips {A} (enc : A -> amqp_encoder) dec wire_ok codes :
  RoundTrips enc dec wire_ok -> Tagged enc codes -> TCEq (no_null codes) true ->
  RoundTrips (Option_encode enc) (Option_decode dec) (from_option wire_ok True).
Proof.
  intros Hrt Htag Hnull%TCEq_eq [x|] Hx; cbn in Hx.
  - eapply wire_tags; [apply (tagged_by x)|]. apply Forall_forall. intros c Hc.
    pose proof (no_null_spec _ _ Hnull Hc).
    assert (wire (enc x) (value ← dec; mret (Some value)) (Some x)) as Hw.
    { eapply wire_last; [by apply Hrt|done]. }
    by destruct c.
  - eapply (wire_tagged _ TC_Null); [apply tagged_code|].
    eapply wire_last; [by apply wire_code_only|done].
Qed.

#[global] Instance Option_sized {A} (enc : A -> amqp_encoder) size fits :
  SizeExact enc size fits ->
  SizeExact (Option_encode enc) (Option_encoded_size size) (from_option fits True).
Proof. intros Hs [x|] Hx; [by apply Hs|apply TypeCode_sized]. Qed.
End embedded.
