(* ===== verification/AmqpValue.v ===== *)
(** * AMQP 1.0: values, lists and maps

    protocol/src/message/amqp/types/primitives/value.rs, list.rs, map.rs.

    Values nest, so [Value::decode] is recursive: its model recurses on fuel, and
    [Value_decode] gives it one unit more than the length of the input, which is
    enough because every call reads its type code before it recurses
    ([Value_decode_fuel_enough]).  The fuel never runs out: the only panic of the
    decoder is the [unimplemented!()] hash of a map used as a key. *)
From S2P Require Import Prelude Utf8 HashMaps Integers Codec AmqpCodes AmqpSimple.

(** ** Maps: map.rs *)

Section map.
Context {BO : ByteOrder} {K V : Type}.
Context (key_encode : K -> amqp_encoder) (key_size : K -> Z) (key_decode : amqp_decoder K).
Context (val_encode : V -> amqp_encoder) (val_size : V -> Z) (val_decode : amqp_decoder V).
(** [Eq] and [Hash] of the keys: hashing some keys panics. *)
Context (key_eq : K -> K -> bool) (key_hashable : K -> bool).

Definition Map_content_size (m : list (K * V)) : Z :=
  fold_left (λ acc kv, add32 (add32 acc (key_size kv.1)) (val_size kv.2)) m 0.

Definition Map_encoded_size (m : list (K * V)) : Z :=
  let content_size := Map_content_size m in
  let type_size := if 255 <? add32 content_size 1 then 9 else 3 in
  add32 content_size type_size.

Definition Map_encode (m : list (K * V)) : amqp_encoder :=
  let count := as_usize (len m * 2) in
  let content_size := Map_content_size m in
  (if 255 <? add32 content_size 1 then
     TypeCode_encode TC_Map32;;
     write_be 4 (add32 content_size 4);;
     write_be 4 (as_unsigned 32 count)
   else
     TypeCode_encode TC_Map8;;
     write_be 1 (as_unsigned 8 (add32 content_size 1));;
     write_be 1 (as_unsigned 8 count));;
  write_each (λ kv, key_encode kv.1;; val_encode kv.2) m.

(** [map.0.insert(key, value)]. *)
Definition Map_insert (key : K) (value : V) (m : list (K * V)) : amqp_decoder (list (K * V)) :=
  if key_hashable key then mret (hm_insert key_eq key value m) else abort ExplicitPanic.

(** [while count > 0 { count -= 2; .. }]: the subtraction wraps, so an odd count
    goes on until the input runs out. *)
Fixpoint Map_loop (fuel : nat) (count : Z) (m : list (K * V)) : amqp_decoder (list (K * V)) :=
  match fuel with
  | O => abort OutOfFuel
  | S fuel =>
      if 0 <? count then
        let count := wrap32 (count - 2) in
        key ← key_decode;
        value ← val_decode;
        m ← Map_insert key value m;
        Map_loop fuel count m
      else mret m
  end.

Definition Map_elements (count : Z) : amqp_decoder (list (K * V)) := λ input,
  Map_loop (S (length input)) count [] input.

Definition Map_decode : amqp_decoder (list (K * V)) :=
  code ← TypeCode_decode;
  count ← match code with
          | TC_Map8 => incomplete read_u8;; incomplete read_u8
          | TC_Map32 => incomplete read_u32;; incomplete read_u32
          | _ => invalid_type_code "Map" code
          end;
  Map_elements count.
End map.

(** ** Lists: list.rs *)

Section list.
Context {BO : ByteOrder} {V : Type}.
Context (encode : V -> amqp_encoder) (size : V -> Z) (decode : amqp_decoder V).

Definition List_content_size (l : list V) : Z := sum_sizes size l.

Definition List_encoded_size (l : list V) : Z :=
  let content_size := List_content_size l in
  let header := if 255 <? add32 content_size 1 then 9 else 3 in
  add32 header content_size.

(** Both branches write the code of the 8-bit list. *)
Definition List_encode (l : list V) : amqp_encoder :=
  let content_size := List_content_size l in
  (if 255 <? add32 content_size 1 then
     TypeCode_encode TC_List8;;
     write_be 4 (add32 content_size 4);;
     write_be 4 (wrap32 (len l))
   else
     TypeCode_encode TC_List8;;
     write_be 1 (as_unsigned 8 (add32 content_size 1));;
     write_be 1 (as_unsigned 8 (len l)));;
  write_each encode l.

Definition List_decode : amqp_decoder (list V) :=
  code ← TypeCode_decode;
  match code with
  | TC_List0 => mret []
  | _ =>
      count ← match code with
              | TC_List8 => incomplete read_u8;; incomplete read_u8
              | TC_List32 => incomplete read_u32;; incomplete read_u32
              | _ => invalid_type_code "List" code
              end;
      loop_n count (λ list, elem ← decode; mret (list ++ [elem])) []
  end.
End list.

(** [List::decode_with_fields]: the callback reads field [idx] into [dest]. *)
Definition List_decode_with_fields `{BO : ByteOrder} {T}
    (f : Z -> T -> amqp_decoder T) (dest : T) : amqp_decoder T :=
  code ← TypeCode_decode;
  match code with
  | TC_List0 => mret dest
  | _ =>
      count ← match code with
              | TC_List8 => incomplete read_u8;; incomplete read_u8
              | TC_List32 => incomplete read_u32;; incomplete read_u32
              | _ => fail (AmqpDecodeError.MessageParse (InvalidListText (TypeCode_to_u8 code)))
              end;
      r ← loop_n count (λ '(idx, dest), dest ← f idx dest; mret (idx + 1, dest)) (0, dest);
      mret r.2
  end.

(** ** Values: value.rs *)

Section values.
Context {BO : ByteOrder} {X : AmqpExt}.

Inductive Value : Type :=
  | Value_Simple (simple : SimpleValue)
  | Value_Collection (collection : CollectionValue)
  | Value_Described (described : DescribedValue)
with CollectionValue : Type :=
  | CollectionValue_List (list : list Value)
  | CollectionValue_Map (map : list (Value * Value))
with DescribedValue : Type :=
  | DescribedValue_new (descriptor : Descriptor) (value : Value).

Fixpoint Value_encoded_size (v : Value) : Z :=
  match v with
  | Value_Simple simple => SimpleValue_encoded_size simple
  | Value_Collection collection => CollectionValue_encoded_size collection
  | Value_Described described => DescribedValue_encoded_size described
  end
with CollectionValue_encoded_size (c : CollectionValue) : Z :=
  match c with
  | CollectionValue_List list => List_encoded_size Value_encoded_size list
  | CollectionValue_Map map => Map_encoded_size Value_encoded_size Value_encoded_size map
  end
with DescribedValue_encoded_size (d : DescribedValue) : Z :=
  match d with
  | DescribedValue_new descriptor value =>
      add32 (add32 1 (Descriptor_encoded_size descriptor)) (Value_encoded_size value)
  end.

Fixpoint Value_encode (v : Value) : amqp_encoder :=
  match v with
  | Value_Simple simple => SimpleValue_encode simple
  | Value_Collection collection => CollectionValue_encode collection
  | Value_Described described => DescribedValue_encode described
  end
with CollectionValue_encode (c : CollectionValue) : amqp_encoder :=
  match c with
  | CollectionValue_List list => List_encode Value_encode Value_encoded_size list
  | CollectionValue_Map map =>
      Map_encode Value_encode Value_encoded_size Value_encode Value_encoded_size map
  end
with DescribedValue_encode (d : DescribedValue) : amqp_encoder :=
  match d with
  | DescribedValue_new descriptor value =>
      TypeCode_encode TC_Described;; Descriptor_encode descriptor;; Value_encode value
  end.

(** [Hash for Map<Value, Value>] is [unimplemented!()]: no value with a map in it
    can be hashed. *)
Fixpoint Value_hashable (v : Value) : bool :=
  match v with
  | Value_Simple _ => true
  | Value_Collection (CollectionValue_List list) => forallb Value_hashable list
  | Value_Collection (CollectionValue_Map _) => false
  | Value_Described (DescribedValue_new _ value) => Value_hashable value
  end.

(** [==] of the keys of a map: floats compare as [OrderedFloat]. *)
Definition SimpleValue_eqb (a b : SimpleValue) : bool :=
  match a, b with
  | SimpleValue_Null, SimpleValue_Null => true
  | SimpleValue_Boolean a, SimpleValue_Boolean b => Bool.eqb a b
  | SimpleValue_Ubyte a, SimpleValue_Ubyte b
  | SimpleValue_Ushort a, SimpleValue_Ushort b
  | SimpleValue_Uint a, SimpleValue_Uint b
  | SimpleValue_Ulong a, SimpleValue_Ulong b
  | SimpleValue_Byte a, SimpleValue_Byte b
  | SimpleValue_Short a, SimpleValue_Short b
  | SimpleValue_Int a, SimpleValue_Int b
  | SimpleValue_Long a, SimpleValue_Long b
  | SimpleValue_Char a, SimpleValue_Char b => a =? b
  | SimpleValue_Float a, SimpleValue_Float b => f32_eqb a b
  | SimpleValue_Double a, SimpleValue_Double b => f64_eqb a b
  | SimpleValue_Timestamp a, SimpleValue_Timestamp b => datetime_eqb a b
  | SimpleValue_Uuid a, SimpleValue_Uuid b => uuid_eqb a b
  | SimpleValue_Binary a, SimpleValue_Binary b
  | SimpleValue_String a, SimpleValue_String b
  | SimpleValue_Symbol a, SimpleValue_Symbol b => bool_decide (a = b)
  | _, _ => false
  end.

Definition Descriptor_eqb (a b : Descriptor) : bool :=
  match a, b with
  | Descriptor_Ulong a, Descriptor_Ulong b => a =? b
  | Descriptor_Symbol a, Descriptor_Symbol b => bool_decide (a = b)
  | _, _ => false
  end.

Fixpoint Value_eqb (a b : Value) : bool :=
  match a, b with
  | Value_Simple a, Value_Simple b => SimpleValue_eqb a b
  | Value_Collection (CollectionValue_List a), Value_Collection (CollectionValue_List b) =>
      (fix go a b := match a, b with
       | [], [] => true
       | x :: a, y :: b => Value_eqb x y && go a b
       | _, _ => false
       end) a b
  | Value_Collection (CollectionValue_Map a), Value_Collection (CollectionValue_Map b) =>
      (len a =? len b) &&
      forallb (λ kv, existsb (λ kv', Value_eqb kv.1 kv'.1 && Value_eqb kv.2 kv'.2) b) a
  | Value_Described (DescribedValue_new d a), Value_Described (DescribedValue_new e b) =>
      Descriptor_eqb d e && Value_eqb a b
  | _, _ => false
  end.

(** The decoders call each other through [Value::decode]. *)

Definition DescribedValue_decode (Value_decode : amqp_decoder Value)
    : amqp_decoder DescribedValue :=
  code ← TypeCode_decode;
  match code with
  | TC_Described =>
      descriptor ← Descriptor_decode;
      value ← Value_decode;
      mret (DescribedValue_new descriptor value)
  | _ => invalid_type_code "DescribedValue" code
  end.

Definition CollectionValue_decode (Value_decode : amqp_decoder Value)
    : amqp_decoder CollectionValue :=
  code ← peek TypeCode_decode;
  match code with
  | TC_List0 | TC_List8 | TC_List32 =>
      list ← List_decode Value_decode; mret (CollectionValue_List list)
  | TC_Map8 | TC_Map32 =>
      map ← Map_decode Value_decode Value_decode Value_eqb Value_hashable;
      mret (CollectionValue_Map map)
  | _ => invalid_type_code "CollectionValue" code
  end.

Definition Value_decode_body (Value_decode : amqp_decoder Value) : amqp_decoder Value :=
  code ← peek TypeCode_decode;
  match code with
  | TC_Described => v ← DescribedValue_decode Value_decode; mret (Value_Described v)
  | TC_List0 | TC_List8 | TC_List32 | TC_Map8 | TC_Map32 | TC_Array8 | TC_Array32 =>
      v ← CollectionValue_decode Value_decode; mret (Value_Collection v)
  | _ => v ← SimpleValue_decode; mret (Value_Simple v)
  end.

Fixpoint Value_decode_fuel (fuel : nat) : amqp_decoder Value :=
  match fuel with
  | O => abort OutOfFuel
  | S fuel => Value_decode_body (Value_decode_fuel fuel)
  end.

Definition Value_decode : amqp_decoder Value := λ input,
  Value_decode_fuel (S (length input)) input.

(** *** Invariants and domains *)

Fixpoint Value_ok (v : Value) : Prop :=
  match v with
  | Value_Simple simple => SimpleValue_ok simple
  | Value_Collection (CollectionValue_List list) => all Value_ok list
  | Value_Collection (CollectionValue_Map map) =>
      all (λ kv, Value_ok kv.1 ∧ Value_ok kv.2) map ∧
      Forall (λ kv, Value_hashable kv.1 = true) map ∧ distinct_keys Value_eqb map = true
  | Value_Described (DescribedValue_new d value) => Descriptor_ok d ∧ Value_ok value
  end.

(** The count of a map fits the width it is written with. *)
Definition Map_count_ok {K V} (content_size : Z) (m : list (K * V)) : Prop :=
  if 255 <? add32 content_size 1 then len m * 2 < 2 ^ 32 else len m * 2 < 2 ^ 8.

(** A list whose content is longer than 254 bytes has the wrong code. *)
Definition List_count_ok {V} (content_size : Z) (l : list V) : Prop :=
  add32 content_size 1 <= 255 ∧ len l < 2 ^ 8.

Fixpoint Value_wire_ok (v : Value) : Prop :=
  match v with
  | Value_Simple simple => SimpleValue_wire_ok simple
  | Value_Collection (CollectionValue_List list) =>
      all Value_wire_ok list ∧ List_count_ok (List_content_size Value_encoded_size list) list
  | Value_Collection (CollectionValue_Map map) =>
      all (λ kv, Value_wire_ok kv.1 ∧ Value_wire_ok kv.2) map ∧
      Forall (λ kv, Value_hashable kv.1 = true) map ∧ distinct_keys Value_eqb map = true ∧
      Map_count_ok (Map_content_size Value_encoded_size Value_encoded_size map) map
  | Value_Described (DescribedValue_new d value) => Descriptor_wire_ok d ∧ Value_wire_ok value
  end.

Fixpoint Value_fits (v : Value) : Prop :=
  match v with
  | Value_Simple simple => SimpleValue_fits simple
  | Value_Collection (CollectionValue_List list) => all Value_fits list
  | Value_Collection (CollectionValue_Map map) =>
      all (λ kv, Value_fits kv.1 ∧ Value_fits kv.2) map
  | Value_Described (DescribedValue_new d value) => Descriptor_fits d ∧ Value_fits value
  end.

(** Induction on the nesting of values. *)
Section value_ind.
Variable P : Value -> Prop.
Hypothesis P_Simple : ∀ s, P (Value_Simple s).
Hypothesis P_List : ∀ l, Forall P l -> P (Value_Collection (CollectionValue_List l)).
Hypothesis P_Map : ∀ m, Forall (λ kv, P kv.1 ∧ P kv.2) m ->
  P (Value_Collection (CollectionValue_Map m)).
Hypothesis P_Described : ∀ d v, P v -> P (Value_Described (DescribedValue_new d v)).

Fixpoint Value_nested_ind (v : Value) : P v :=
  match v with
  | Value_Simple s => P_Simple s
  | Value_Collection (CollectionValue_List l) =>
      P_List l ((fix go l : Forall P l := match l with
        | [] => Forall_nil_2 _
        | x :: l => Forall_cons_2 _ _ _ (Value_nested_ind x) (go l)
        end) l)
  | Value_Collection (CollectionValue_Map m) =>
      P_Map m ((fix go m : Forall (λ kv, P kv.1 ∧ P kv.2) m := match m with
        | [] => Forall_nil_2 _
        | (k, v) :: m => Forall_cons_2 (λ kv, P kv.1 ∧ P kv.2) (k, v) m
            (conj (Value_nested_ind k) (Value_nested_ind v)) (go m)
        end) m)
  | Value_Described (DescribedValue_new d v) => P_Described d v (Value_nested_ind v)
  end.
End value_ind.
End values.

(** ** Laws of lists and maps *)

Section headers.
Context {BO : ByteOrder} {A : Type}.
Implicit Types (k : Z -> amqp_decoder A) (w : amqp_encoder).

(** The two shapes of a header: a size and a count, on 8 or on 32 bits. *)
Lemma header8_wire w k n1 n2 a :
  u8_ok n1 -> u8_ok n2 -> wire w (k n2) a ->
  wire ((write_be 1 n1;; write_be 1 n2);; w) ((incomplete read_u8;; incomplete read_u8) ≫= k) a.
Proof.
  intros H1 H2 Hw. eapply (wire_seq _ _ _ _ n2); [|done].
  eapply wire_seq; by apply read_u8_wire.
Qed.

Lemma header32_wire w k n1 n2 a :
  u32_ok n1 -> u32_ok n2 -> wire w (k n2) a ->
  wire ((write_be 4 n1;; write_be 4 n2);; w) ((incomplete read_u32;; incomplete read_u32) ≫= k) a.
Proof.
  intros H1 H2 Hw. eapply (wire_seq _ _ _ _ n2); [|done].
  eapply wire_seq; by apply read_u32_wire.
Qed.
End headers.

Lemma wrap32_u32 z : u32_ok (wrap32 z).
Proof. by apply Z.mod_pos_bound. Qed.
Lemma as_unsigned_u8 z : u8_ok (as_unsigned 8 z).
Proof. by apply Z.mod_pos_bound. Qed.
Lemma as_unsigned_u32 z : u32_ok (as_unsigned 32 z).
Proof. by apply Z.mod_pos_bound. Qed.

Section list_laws.
Context {BO : ByteOrder} {V : Type}.
Context (encode : V -> amqp_encoder) (size : V -> Z) (decode : amqp_decoder V).

Lemma List_tagged l :
  Forall (λ x, writes (encode x)) l -> tags (List_encode encode size l) [TC_List8].
Proof.
  intros Hl. apply tags_one. unfold List_encode.
  assert (writes (write_each encode l)) as Hw.
  { induction Hl; [eexists; apply emits_ret|by apply writes_seq]. }
  destruct (_ <? _); (apply tagged_assoc; [apply writes_seq; apply write_be_writes|done]).
Qed.

Lemma List_wire l :
  Forall (λ x, wire (encode x) decode x) l -> List_count_ok (List_content_size size l) l ->
  wire (List_encode encode size l) (List_decode decode) l.
Proof.
  intros Hl [Hc Hn]. unfold List_encode. pose proof (len_nonneg l).
  destruct (Z.ltb_spec 255 (add32 (List_content_size size l) 1)); [lia|].
  apply wire_assoc, wire_code, header8_wire; [apply as_unsigned_u8..|].
  apply wire_loop; [done|]. apply as_unsigned_id. unfold unsigned_ok. lia.
Qed.

Lemma List_sized l :
  Forall (λ x, sized (encode x) (size x)) l ->
  sized (List_encode encode size l) (List_encoded_size size l).
Proof.
  intros Hl. unfold List_encode, List_encoded_size.
  pose proof (sized_each encode size l Hl) as Hs.
  change (fold_left _ l 0) with (List_content_size size l) in Hs.
  destruct (255 <? _); (eapply sized_eq; [eapply sized_seq; [|exact Hs]; eapply code_sized;
    [apply sized_seq; by apply write_be_sized|reflexivity]|]); wrap32_solve.
Qed.

Lemma List_sound P : sound decode P -> sound (List_decode decode) (Forall P).
Proof.
  intros Hd. unfold List_decode. eapply sound_bind; [apply sound_true|]. intros c _.
  assert (∀ p : amqp_decoder Z, sound (count ← p;
    loop_n count (λ list, elem ← decode; mret (list ++ [elem])) []) (Forall P)) as Hloop.
  { intros p. eapply sound_bind; [apply sound_true|]. intros n _. by apply sound_collect. }
  destruct c; try apply Hloop. by apply sound_ret.
Qed.

Lemma List_consumes : consumes 0 decode -> consumes 1 (List_decode decode).
Proof. intros Hd. unfold List_decode. consumes_code. Qed.

Lemma List_panics Q : panics Q decode -> panics Q (List_decode decode).
Proof. intros Hd. unfold List_decode. panics_solve. Qed.
End list_laws.

Lemma List_settles `{BO : ByteOrder} {V} Q k (p q : amqp_decoder V) :
  settles Q k p q -> consumes 0 p -> settles Q (S k) (List_decode p) (List_decode q).
Proof.
  intros Hpq Hp. unfold List_decode.
  apply (settles_bind _ _ 1); [by apply settles_refl, TypeCode_panics|auto with consumes|].
  intros c. replace (S k - 1)%nat with k by lia.
  assert (∀ h : amqp_decoder Z, panics Q h -> consumes 0 h ->
    settles Q k (count ← h; loop_n count (λ list, elem ← p; mret (list ++ [elem])) [])
                (count ← h; loop_n count (λ list, elem ← q; mret (list ++ [elem])) [])) as Hloop.
  { intros h Hh Hc. apply (settles_bind _ _ 0); [by apply settles_refl|done|]. intros n.
    rewrite Nat.sub_0_r. apply settles_loop; [|consumes_solve]. intros l.
    apply (settles_bind _ _ 0); [done|done|]. intros a. apply settles_refl, panics_ret. }
  destruct c; try (apply Hloop; [panics_solve|consumes_solve]).
  apply settles_refl, panics_ret.
Qed.

Section map_laws.
Context {BO : ByteOrder} {K V : Type}.
Context (key_encode : K -> amqp_encoder) (key_size : K -> Z) (key_decode : amqp_decoder K).
Context (val_encode : V -> amqp_encoder) (val_size : V -> Z) (val_decode : amqp_decoder V).
Context (key_eq : K -> K -> bool) (key_hashable : K -> bool).

Local Abbreviation encode := (Map_encode key_encode key_size val_encode val_size).
Local Abbreviation decode := (Map_decode key_decode val_decode key_eq key_hashable).
Local Abbreviation loop := (Map_loop key_decode val_decode key_eq key_hashable).
Local Abbreviation content := (Map_content_size key_size val_size).

Lemma Map_tagged m :
  Forall (λ kv, writes (key_encode kv.1) ∧ writes (val_encode kv.2)) m ->
  tags (encode m) [TC_Map8; TC_Map32].
Proof.
  intros Hm. unfold Map_encode.
  assert (writes (write_each (λ kv, key_encode kv.1;; val_encode kv.2) m)) as Hw.
  { induction Hm as [|kv m [Hk Hv] Hm IH]; [eexists; apply emits_ret|].
    apply writes_seq; [by apply writes_seq|done]. }
  destruct (_ <? _); (eexists; split; [|apply tagged_assoc;
    [apply writes_seq; apply write_be_writes|done]]); set_solver.
Qed.

Lemma Map_sized m :
  Forall (λ kv, sized (key_encode kv.1) (key_size kv.1) ∧
                sized (val_encode kv.2) (val_size kv.2)) m ->
  sized (encode m) (Map_encoded_size key_size val_size m).
Proof.
  intros Hm. unfold Map_encode, Map_encoded_size.
  assert (sized (write_each (λ kv, key_encode kv.1;; val_encode kv.2) m) (content m)) as Hs.
  { eapply sized_eq; [apply (sized_each _ (λ kv, wrap32 (key_size kv.1 + val_size kv.2)))|].
    - eapply Forall_impl; [exact Hm|]. intros kv [Hk Hv]. by apply sized_seq.
    - unfold Map_content_size. generalize 0 as acc. clear.
      induction m as [|kv m IH]; intros acc; [done|]. cbn [fold_left]. rewrite IH.
      f_equal. wrap32_solve. }
  destruct (255 <? _); (eapply sized_eq; [eapply sized_seq; [|exact Hs]; eapply code_sized;
    [apply sized_seq; by apply write_be_sized|reflexivity]|]); wrap32_solve.
Qed.

(** The loop reads back the entries that were written, whatever fuel it has left. *)
Lemma Map_loop_wire es :
  Forall (λ kv, wire (key_encode kv.1) key_decode kv.1 ∧
                wire (val_encode kv.2) val_decode kv.2 ∧ key_hashable kv.1 = true) es ->
  consumes 1 key_decode -> 2 * len es < 2 ^ 32 ->
  ∃ bs, emits (write_each (λ kv, key_encode kv.1;; val_encode kv.2) es) bs ∧
    (length es <= length bs)%nat ∧
    ∀ fuel m, (length es < fuel)%nat ->
      parses (loop fuel (2 * len es) m) bs (hm_extend key_eq es m).
Proof.
  intros Hes Hc. induction Hes as [|[k v] es (Hk & Hv & Hh) Hes IH]; intros Hl.
  - exists []. split; [apply emits_ret|]. split; [done|].
    intros [|fuel] m Hf rest; [simpl in Hf; lia|done].
  - rewrite len_cons in Hl. destruct IH as (bs & He & Hlen & Hp); [lia|].
    destruct Hk as (bk & Hek & Hpk), Hv as (bv & Hev & Hpv).
    pose proof (consumes_parses _ _ _ _ Hc Hpk).
    exists ((bk ++ bv) ++ bs). split; [by repeat apply emits_seq|].
    split; [rewrite !length_app; simpl; lia|].
    intros [|fuel] m Hf rest; simpl in Hf; [lia|]. cbn [Map_loop].
    rewrite len_cons. pose proof (len_nonneg es).
    destruct (Z.ltb_spec 0 (2 * (1 + len es))); [|lia].
    rewrite wrap32_small by lia.
    replace (2 * (1 + len es) - 2) with (2 * len es) by lia.
    unfold mbind, parser_bind. rewrite <- !app_assoc, Hpk, Hpv.
    unfold Map_insert. rewrite Hh. cbn. apply Hp. lia.
Qed.

Lemma Map_wire m :
  Forall (λ kv, wire (key_encode kv.1) key_decode kv.1 ∧
                wire (val_encode kv.2) val_decode kv.2 ∧ key_hashable kv.1 = true) m ->
  consumes 1 key_decode -> distinct_keys key_eq m = true -> Map_count_ok (content m) m ->
  wire (encode m) decode m.
Proof.
  intros Hm Hc Hd Hn. unfold Map_encode, Map_count_ok in *. pose proof (len_nonneg m).
  assert (len m * 2 < 2 ^ 32) as Hlt by (destruct (_ <? _); lia).
  destruct (Map_loop_wire m Hm Hc) as (bs & He & Hlen & Hp); [lia|].
  assert (wire (write_each (λ kv, key_encode kv.1;; val_encode kv.2) m)
    (Map_elements key_decode val_decode key_eq key_hashable (len m * 2)) m) as Hw.
  { exists bs. split; [done|]. intros rest. unfold Map_elements.
    rewrite (Z.mul_comm (len m)), Hp; [by rewrite hm_extend_empty|].
    rewrite length_app. lia. }
  rewrite as_usize_small by lia.
  destruct (255 <? _); apply wire_assoc, wire_code.
  - apply header32_wire; [apply wrap32_u32|apply as_unsigned_u32|].
    rewrite as_unsigned_id; [done|]. unfold unsigned_ok. lia.
  - apply header8_wire; [apply as_unsigned_u8..|].
    rewrite as_unsigned_id; [done|]. unfold unsigned_ok. lia.
Qed.

(** An odd count never ends well: the loop reads on until something fails. *)
Lemma Map_loop_odd fuel count m input :
  Z.odd count = true -> 0 <= count -> is_ok (loop fuel count m input) = false.
Proof.
  revert count m input. induction fuel as [|fuel IH]; intros count m input Ho Hc; [done|].
  cbn [Map_loop]. destruct (Z.ltb_spec 0 count) as [|H0].
  - unfold mbind, parser_bind. destruct (key_decode input) as [[i k]| |]; [|done..].
    destruct (val_decode i) as [[i' v]| |]; [|done..].
    unfold Map_insert. destruct (key_hashable k); [|done]. cbn. apply IH.
    + unfold wrap32. change (2 ^ 32) with (2 * 2 ^ 31).
      rewrite <- Z.bit0_odd, Z.testbit_odd, Z.shiftr_0_r in *.
      pose proof (Z.div_mod (count - 2) (2 * 2 ^ 31)) as Hdm.
      replace ((count - 2) mod (2 * 2 ^ 31))
        with (count + 2 * (- 1 - 2 ^ 31 * ((count - 2) / (2 * 2 ^ 31)))) by lia.
      by rewrite Z.odd_add_mul_2.
    + apply Z.mod_pos_bound. done.
  - assert (count = 0) as -> by lia. done.
Qed.

Lemma Map_loop_sound P R :
  sound key_decode P -> sound val_decode R ->
  (∀ a b, P a -> P b -> key_hashable a = true -> key_hashable b = true ->
    key_eq a b = key_eq b a) ->
  ∀ fuel count m,
  Forall (λ kv, P kv.1 ∧ key_hashable kv.1 = true ∧ R kv.2) m ∧ distinct_keys key_eq m = true ->
  sound (loop fuel count m)
    (λ m, Forall (λ kv, P kv.1 ∧ key_hashable kv.1 = true ∧ R kv.2) m ∧
          distinct_keys key_eq m = true).
Proof.
  intros HP HR Hsym. induction fuel as [|fuel IH]; intros count m [Hm Hd]; [done|].
  cbn [Map_loop]. destruct (0 <? count); [|by apply sound_ret].
  eapply sound_bind; [exact HP|]. intros k Hk. eapply sound_bind; [exact HR|]. intros v Hv.
  unfold Map_insert. destruct (key_hashable k) eqn:Hh.
  - eapply sound_bind; [by apply (sound_ret _ (λ m', m' = hm_insert key_eq k v m))|].
    intros m' ->. apply IH. split.
    + clear -Hm Hk Hv Hh. induction Hm as [|[k' v'] m (Hk' & Hh' & Hv') Hm IH]; simpl.
      * by repeat constructor.
      * destruct (key_eq k k'); constructor; auto.
    + apply (hm_insert_distinct (λ k, P k ∧ key_hashable k = true)); [|done| |done].
      * intros a b [] []. by apply Hsym.
      * eapply Forall_impl; [exact Hm|]. by intros kv (? & ? & ?).
  - eapply (sound_bind _ _ (λ _, False)); [apply sound_abort|]. done.
Qed.

Lemma Map_sound P R :
  sound key_decode P -> sound val_decode R ->
  (∀ a b, P a -> P b -> key_hashable a = true -> key_hashable b = true ->
    key_eq a b = key_eq b a) ->
  sound decode (λ m, Forall (λ kv, P kv.1 ∧ key_hashable kv.1 = true ∧ R kv.2) m ∧
                     distinct_keys key_eq m = true).
Proof.
  intros HP HR Hsym. unfold Map_decode. eapply sound_bind; [apply sound_true|]. intros c _.
  eapply sound_bind; [apply sound_true|]. intros n _ input rest m. unfold Map_elements.
  by apply Map_loop_sound.
Qed.

Lemma Map_loop_consumes :
  consumes 0 key_decode -> consumes 0 val_decode ->
  ∀ fuel count m, consumes 0 (loop fuel count m).
Proof.
  intros Hk Hv. induction fuel as [|fuel IH]; intros count m; [apply consumes_abort|].
  cbn [Map_loop]. unfold Map_insert. consumes_solve.
Qed.

Lemma Map_consumes :
  consumes 0 key_decode -> consumes 0 val_decode -> consumes 1 decode.
Proof.
  intros Hk Hv. unfold Map_decode.
  assert (∀ n, consumes 0 (Map_elements key_decode val_decode key_eq key_hashable n)) as He.
  { intros n input rest m. unfold Map_elements. by apply Map_loop_consumes. }
  consumes_code.
Qed.
End map_laws.

(** Enough fuel for the loop, and the same answers from decoders that settle. *)
Lemma Map_loop_settles {K V} Q (pk qk : amqp_decoder K) (pv qv : amqp_decoder V) eq h :
  (Q : panic -> Prop) ExplicitPanic ->
  ∀ k, settles Q k pk qk -> settles Q k pv qv -> consumes 1 pk -> consumes 0 pv ->
  ∀ fuel count m input, (length input < fuel)%nat -> (length input < k)%nat ->
    Map_loop pk pv eq h fuel count m input = Map_loop qk qv eq h fuel count m input ∧
    ∀ x, Map_loop pk pv eq h fuel count m input = Panic x -> Q x.
Proof.
  intros HQ k Hk Hv Hck Hcv. induction fuel as [|fuel IH]; intros count m input Hf Hi; [lia|].
  cbn [Map_loop]. destruct (0 <? count); [|done].
  unfold mbind, parser_bind. destruct (Hk input Hi) as [<- Hkx].
  destruct (pk input) as [[i a]|e|y] eqn:Ek; [|done|split; [done|]; intros x [= <-]; auto].
  destruct (Hck _ _ _ Ek) as (c & -> & Hc). rewrite length_app in *.
  destruct (Hv i) as [<- Hvx]; [lia|].
  destruct (pv i) as [[j b]|e|y] eqn:Ev; [|done|split; [done|]; intros x [= <-]; auto].
  destruct (Hcv _ _ _ Ev) as (d & -> & Hd). rewrite length_app in *.
  unfold Map_insert. destruct (h a); [|by split; [|intros x [= <-]]].
  cbn. apply IH; lia.
Qed.

Lemma Map_settles `{BO : ByteOrder} {K V} Q k (pk qk : amqp_decoder K) (pv qv : amqp_decoder V)
    eq h :
  (Q : panic -> Prop) ExplicitPanic ->
  settles Q k pk qk -> settles Q k pv qv -> consumes 1 pk -> consumes 0 pv ->
  settles Q (S k) (Map_decode pk pv eq h) (Map_decode qk qv eq h).
Proof.
  intros HQ Hk Hv Hck Hcv. unfold Map_decode.
  apply (settles_bind _ _ 1); [by apply settles_refl, TypeCode_panics|auto with consumes|].
  intros c. replace (S k - 1)%nat with k by lia.
  apply (settles_bind _ _ 0); [apply settles_refl; panics_solve|consumes_solve|].
  intros n. rewrite Nat.sub_0_r. intros input Hi. unfold Map_elements.
  eapply Map_loop_settles; eauto with lia.
Qed.

(** ** Laws of values *)

Section value_laws.
Context {BO : ByteOrder} {X : AmqpExt}.

(** *** Fuel *)

Lemma Descriptor_consumes_0 : consumes 0 Descriptor_decode.
Proof. auto with consumes. Qed.

Lemma DescribedValue_consumes p : consumes 0 p -> consumes 1 (DescribedValue_decode p).
Proof. intros Hp. unfold DescribedValue_decode. consumes_code. Qed.

Lemma CollectionValue_consumes p : consumes 0 p -> consumes 1 (CollectionValue_decode p).
Proof.
  intros Hp. pose proof (List_consumes p Hp).
  pose proof (Map_consumes _ _ Value_eqb Value_hashable Hp Hp).
  unfold CollectionValue_decode. consumes_code.
Qed.

Lemma Value_body_consumes p : consumes 0 p -> consumes 1 (Value_decode_body p).
Proof.
  intros Hp. pose proof (DescribedValue_consumes p Hp).
  pose proof (CollectionValue_consumes p Hp). unfold Value_decode_body. consumes_code.
Qed.

Lemma Value_fuel_consumes n : consumes 1 (Value_decode_fuel n).
Proof.
  induction n as [|n IH]; [apply consumes_abort|]. apply Value_body_consumes.
  eapply consumes_weaken; [exact IH|lia].
Qed.

Lemma Value_consumes : consumes 1 Value_decode.
Proof. intros input rest v. apply Value_fuel_consumes. Qed.

Lemma code_settles {A} Q k (f g : TypeCode -> amqp_decoder A) :
  (∀ c, settles Q k (f c) (g c)) ->
  settles Q (S k) (TypeCode_decode ≫= f) (TypeCode_decode ≫= g).
Proof.
  intros Hfg. apply (settles_bind _ _ 1); [by apply settles_refl, TypeCode_panics| |].
  - auto with consumes.
  - intros c. replace (S k - 1)%nat with k by lia. apply Hfg.
Qed.

Lemma peek_settles {A} Q k (f g : TypeCode -> amqp_decoder A) :
  (∀ c, settles Q k (f c) (g c)) ->
  settles Q k (peek TypeCode_decode ≫= f) (peek TypeCode_decode ≫= g).
Proof.
  intros Hfg. apply (settles_bind _ _ 0); [|apply consumes_peek|].
  - apply settles_refl, panics_peek, TypeCode_panics.
  - intros c. by rewrite Nat.sub_0_r.
Qed.

Lemma map_settles {A B} Q k (p q : amqp_decoder A) (f : A -> B) :
  settles Q k p q -> consumes 0 p ->
  settles Q k (v ← p; mret (f v)) (v ← q; mret (f v)).
Proof.
  intros Hpq Hp. apply (settles_bind _ _ 0); [done|done|]. intros v.
  apply settles_refl, panics_ret.
Qed.

Lemma Value_body_settles Q k p q :
  (Q : panic -> Prop) ExplicitPanic -> consumes 1 p ->
  settles Q k p q -> settles Q (S k) (Value_decode_body p) (Value_decode_body q).
Proof.
  intros HQ Hc Hpq. assert (consumes 0 p) as Hc0 by (eapply consumes_weaken; [done|lia]).
  assert (settles Q (S k) (DescribedValue_decode p) (DescribedValue_decode q)) as Hdesc.
  { apply code_settles. intros []; try (apply settles_refl; panics_solve).
    apply (settles_bind _ _ 0); [apply settles_refl; panics_solve|auto with consumes|].
    intros d. rewrite Nat.sub_0_r. by apply map_settles. }
  assert (settles Q (S k) (CollectionValue_decode p) (CollectionValue_decode q)) as Hcoll.
  { apply peek_settles.
    assert (consumes 0 (List_decode p)) as H1.
    { eapply consumes_weaken; [by apply List_consumes|lia]. }
    assert (consumes 0 (Map_decode p p Value_eqb Value_hashable)) as H2.
    { eapply consumes_weaken; [by apply Map_consumes|lia]. }
    intros []; first [ by apply map_settles; [apply List_settles|]
                     | by apply map_settles; [apply Map_settles|]
                     | apply settles_refl; panics_solve ]. }
  apply peek_settles.
  assert (consumes 0 (DescribedValue_decode p)).
  { eapply consumes_weaken; [by apply DescribedValue_consumes|lia]. }
  assert (consumes 0 (CollectionValue_decode p)).
  { eapply consumes_weaken; [by apply CollectionValue_consumes|lia]. }
  intros []; first [by apply map_settles|apply settles_refl; panics_solve].
Qed.

(** Any fuel above the length of the input gives the same answer. *)
Lemma Value_fuel_settles k : ∀ n m, (k <= n)%nat -> (k <= m)%nat ->
  settles (λ x, x = ExplicitPanic) k (Value_decode_fuel n) (Value_decode_fuel m).
Proof.
  induction k as [|k IH]; intros n m Hn Hm; [intros input Hi; lia|].
  destruct n as [|n], m as [|m]; try lia. cbn [Value_decode_fuel].
  apply Value_body_settles; [done|apply Value_fuel_consumes|]. apply IH; lia.
Qed.

Lemma Value_decode_fuel_eq n input :
  (length input < n)%nat -> Value_decode_fuel n input = Value_decode input.
Proof. intros Hn. apply (Value_fuel_settles (S (length input))); lia. Qed.

Lemma Value_panics Q : Q ExplicitPanic -> panics Q Value_decode.
Proof.
  intros HQ input x Hx.
  destruct (Value_fuel_settles (S (length input)) _ (S (length input)) (le_n _) (le_n _) input)
    as [_ Hp]; [lia|].
  by rewrite (Hp x Hx).
Qed.

(** [Value::decode] as the source writes it: the recursion without fuel. *)
Lemma Value_decode_eq input : Value_decode input = Value_decode_body Value_decode input.
Proof.
  unfold Value_decode at 1. cbn [Value_decode_fuel].
  apply (Value_body_settles (λ x, x = ExplicitPanic) (length input)); [done| | |lia].
  - apply Value_fuel_consumes.
  - intros i Hi. split; [by apply Value_decode_fuel_eq|].
    rewrite Value_decode_fuel_eq by lia. by apply Value_panics.
Qed.

(** *** Sizes *)

Lemma Value_size v : Value_fits v -> sized (Value_encode v) (Value_encoded_size v).
Proof.
  induction v as [s|l IH|m IH|d v IH] using Value_nested_ind; intros Hv.
  - by apply (size_exact s).
  - cbn in Hv. apply all_Forall in Hv. apply (List_sized Value_encode Value_encoded_size).
    by eapply Forall_mp.
  - cbn in Hv. apply all_Forall in Hv.
    apply (Map_sized Value_encode Value_encoded_size Value_encode Value_encoded_size).
    eapply Forall_mp; [exact Hv|]. eapply Forall_impl; [exact IH|].
    intros kv [Hk1 Hk2] [H1 H2]. by split; [apply Hk1|apply Hk2].
  - destruct Hv as [Hd Hv]. eapply sized_eq.
    + eapply sized_seq; [apply TypeCode_sized|].
      eapply sized_seq; [by apply (size_exact d)|by apply IH].
    + cbn [Value_encoded_size DescribedValue_encoded_size]. wrap32_solve.
Qed.
#[global] Instance Value_sized : SizeExact Value_encode Value_encoded_size Value_fits :=
  Value_size.

(** *** Round trip *)

Lemma Value_wire v : Value_wire_ok v -> wire (Value_encode v) Value_decode v.
Proof.
  induction v as [s|l IH|m IH|d v IH] using Value_nested_ind; intros Hv;
    (eapply wire_ext; [|exact Value_decode_eq]); unfold Value_decode_body.
  - eapply wire_tags; [apply (tagged_by (enc:=SimpleValue_encode) s)|].
    apply Forall_forall. intros c Hc.
    assert (wire (SimpleValue_encode s)
      (v ← SimpleValue_decode; mret (Value_Simple v)) (Value_Simple s)) as Hw.
    { eapply wire_last; [by apply (round_trip s)|done]. }
    unfold simple_codes in Hc.
    repeat (apply elem_of_cons in Hc as [->|Hc]; [exact Hw|]). by apply not_elem_of_nil in Hc.
  - destruct Hv as [Hall Hn]. apply all_Forall in Hall.
    assert (Forall (λ x, wire (Value_encode x) Value_decode x) l) as Hl.
    { by eapply Forall_mp. }
    assert (tags (Value_encode (Value_Collection (CollectionValue_List l))) [TC_List8]) as Ht.
    { apply List_tagged. eapply Forall_impl; [exact Hl|]. intros x. apply wire_writes. }
    eapply wire_tags; [exact Ht|]. repeat constructor.
    eapply wire_last; [|done]. eapply wire_tags; [exact Ht|]. repeat constructor.
    eapply wire_last; [by apply List_wire|done].
  - destruct Hv as (Hall & Hh & Hd & Hn). apply all_Forall in Hall.
    assert (Forall (λ kv, wire (Value_encode kv.1) Value_decode kv.1 ∧
      wire (Value_encode kv.2) Value_decode kv.2 ∧ Value_hashable kv.1 = true) m) as Hm.
    { eapply Forall_mp; [exact Hall|]. eapply Forall_mp; [exact Hh|].
      eapply Forall_impl; [exact IH|].
      intros kv [Hk1 Hk2] Hh1 [H1 H2]. split_and!; auto. }
    assert (tags (Value_encode (Value_Collection (CollectionValue_Map m)))
      [TC_Map8; TC_Map32]) as Ht.
    { apply Map_tagged. eapply Forall_impl; [exact Hm|].
      intros kv (H1 & H2 & _). split; by eapply wire_writes. }
    eapply wire_tags; [exact Ht|].
    assert (wire (Value_encode (Value_Collection (CollectionValue_Map m)))
      (CollectionValue_decode Value_decode) (CollectionValue_Map m)) as Hw.
    { eapply wire_tags; [exact Ht|]. repeat constructor;
      (eapply wire_last; [apply Map_wire; [done|apply Value_consumes|done|done]|done]). }
    repeat constructor; (eapply wire_last; [exact Hw|done]).
  - destruct Hv as [Hd Hv]. specialize (IH Hv).
    assert (writes (Descriptor_encode d;; Value_encode v)) as Hwr.
    { apply writes_seq; [|by eapply wire_writes].
      apply (wire_writes _ Descriptor_decode d). by apply round_trip. }
    eapply (wire_tagged _ TC_Described); [by apply tagged_seq|].
    eapply wire_last; [|done]. apply wire_code.
    eapply wire_seq; [by apply (round_trip d)|]. by eapply wire_last.
Qed.
#[global] Instance Value_round_trips : RoundTrips Value_encode Value_decode Value_wire_ok :=
  Value_wire.

(** *** Type soundness *)

Lemma SimpleValue_eqb_sym a b : SimpleValue_eqb a b = SimpleValue_eqb b a.
Proof.
  destruct a, b; cbn; try done; try apply Z.eqb_sym;
    try (apply bool_decide_ext; done); try apply f32_eqb_sym; try apply f64_eqb_sym.
  - by destruct value, value0.
  - apply eq_bool_prop_intro. rewrite !Is_true_true, !datetime_eqb_eq. naive_solver.
  - apply eq_bool_prop_intro. rewrite !Is_true_true, !uuid_eqb_eq. naive_solver.
Qed.

Lemma Descriptor_eqb_sym a b : Descriptor_eqb a b = Descriptor_eqb b a.
Proof. destruct a, b; cbn; try done; [apply Z.eqb_sym|by apply bool_decide_ext]. Qed.

(** Keys that can be hashed have a symmetric equality. *)
Lemma Value_eqb_sym a : ∀ b,
  Value_hashable a = true -> Value_eqb a b = Value_eqb b a.
Proof.
  induction a as [s|l IH|m IH|d v IH] using Value_nested_ind; intros b Ha.
  - destruct b as [?|[]|[]]; cbn; try done. apply SimpleValue_eqb_sym.
  - destruct b as [?|[l'|]|[]]; cbn in *; try done. revert l'.
    induction IH as [|x l Hx Hl IHl]; intros [|y l']; try done. cbn in Ha.
    apply andb_true_iff in Ha as [Hxa Hla]. rewrite Hx by done. f_equal. by apply IHl.
  - done.
  - destruct b as [?|[]|[d' v']]; cbn in *; try done. by rewrite Descriptor_eqb_sym, IH.
Qed.

Lemma List_Value_sound p : sound p Value_ok ->
  sound (List_decode p) (λ l, Value_ok (Value_Collection (CollectionValue_List l))).
Proof.
  intros Hp. eapply sound_weaken; [by apply List_sound|]. intros l. apply all_Forall.
Qed.

Lemma Map_Value_sound p : sound p Value_ok ->
  sound (Map_decode p p Value_eqb Value_hashable)
    (λ m, Value_ok (Value_Collection (CollectionValue_Map m))).
Proof.
  intros Hp. eapply sound_weaken.
  - apply (Map_sound _ _ _ _ Value_ok Value_ok); [done|done|].
    intros a b _ _ Ha _. by apply Value_eqb_sym.
  - intros m [Hm Hd]. cbn. rewrite all_Forall. split_and!; [..|done].
    + eapply Forall_impl; [exact Hm|]. by intros kv (H1 & H2 & H3).
    + eapply Forall_impl; [exact Hm|]. by intros kv (H1 & H2 & H3).
Qed.

Lemma Value_body_sound p : sound p Value_ok -> sound (Value_decode_body p) Value_ok.
Proof.
  intros Hp. unfold Value_decode_body. sound_step.
  assert (sound (DescribedValue_decode p) (λ d, Value_ok (Value_Described d))) as Hd.
  { unfold DescribedValue_decode. sound_step. destruct a0; sound_solve. done. }
  assert (sound (CollectionValue_decode p) (λ c, Value_ok (Value_Collection c))) as Hc.
  { unfold CollectionValue_decode. sound_step.
    pose proof (List_Value_sound p Hp). pose proof (Map_Value_sound p Hp).
    destruct a0; first [solve [eauto with sound] |
      (eapply sound_bind; [eassumption|]; intros; by apply sound_ret)]. }
  destruct a; (eapply sound_bind; [first [eassumption|solve [eauto with sound]]|];
    intros; by apply sound_ret).
Qed.

Lemma Value_sound : sound Value_decode Value_ok.
Proof.
  intros input rest v. unfold Value_decode. generalize (S (length input)) as n.
  intros n. revert input rest v. change (sound (Value_decode_fuel n) Value_ok).
  induction n as [|n IH]; [apply sound_abort|by apply Value_body_sound].
Qed.

#[global] Instance Value_reads : AmqpReads Value_decode Value_ok.
Proof. constructor; [apply Value_sound|apply Value_consumes|apply Value_panics]. Qed.
End value_laws.
