(* ===== verification/AmqpMessage.v ===== *)
(** * AMQP 1.0: sections and messages

    protocol/src/message/amqp/: header.rs, properties.rs, body.rs, section.rs,
    message.rs, types/annotations.rs; protocol/src/message/mod.rs and builder.rs.

    A message is encoded as the sequence of its sections and decoded by folding
    the sections it finds into an empty message ([AmqpMessage_sections],
    [AmqpMessage_add]). *)
From S2P Require Import Prelude Utf8 HashMaps Integers Codec.
From S2P Require Import AmqpCodes AmqpSimple AmqpValue.

Section message.
Context {BO : ByteOrder} {X : AmqpExt}.

(** ** Annotations and application properties *)

Definition AnnonationKey_eqb (a b : AnnonationKey) : bool :=
  match a, b with
  | AnnonationKey_Symbol a, AnnonationKey_Symbol b => bool_decide (a = b)
  | AnnonationKey_ULong a, AnnonationKey_ULong b => a =? b
  | AnnonationKey_Long a, AnnonationKey_Long b => a =? b
  | _, _ => false
  end.

(** [Map<AnnonationKey, Value>]. *)
Definition Annotations : Type := list (AnnonationKey * Value).

Definition Annotations_put (key : AnnonationKey) (value : Value) (m : Annotations)
    : Annotations :=
  hm_insert AnnonationKey_eqb key value m.
Definition Annotations_get (key : AnnonationKey) (m : Annotations) : option Value :=
  hm_get AnnonationKey_eqb key m.

Definition Annotations_encoded_size (m : Annotations) : Z :=
  Map_encoded_size AnnonationKey_encoded_size Value_encoded_size m.
Definition Annotations_encode (m : Annotations) : amqp_encoder :=
  Map_encode AnnonationKey_encode AnnonationKey_encoded_size Value_encode Value_encoded_size m.
Definition Annotations_decode : amqp_decoder Annotations :=
  Map_decode AnnonationKey_decode Value_decode AnnonationKey_eqb (λ _, true).

(** [Map<Str, SimpleValue>]. *)
Definition ApplicationProperties : Type := list (bytes * SimpleValue).

Definition ApplicationProperties_encoded_size (m : ApplicationProperties) : Z :=
  Map_encoded_size Str_encoded_size SimpleValue_encoded_size m.
Definition ApplicationProperties_encode (m : ApplicationProperties) : amqp_encoder :=
  Map_encode Str_encode Str_encoded_size SimpleValue_encode SimpleValue_encoded_size m.
Definition ApplicationProperties_decode : amqp_decoder ApplicationProperties :=
  Map_decode Str_decode SimpleValue_decode key_eqb (λ _, true).

(** [List] of values, a sequence section. *)
Definition AmqpSequence_encoded_size (l : list Value) : Z :=
  List_encoded_size Value_encoded_size l.
Definition AmqpSequence_encode (l : list Value) : amqp_encoder :=
  List_encode Value_encode Value_encoded_size l.
Definition AmqpSequence_decode : amqp_decoder (list Value) := List_decode Value_decode.

(** ** header.rs *)

Record AmqpHeader := AmqpHeader_new {
  durable : bool;
  priority : Z;
  ttl : option Z;
  first_acquirer : bool;
  delivery_count : Z;
}.

Definition AmqpHeader_default : AmqpHeader := AmqpHeader_new false 4 None false 0.

Definition AmqpHeader_content_size (h : AmqpHeader) : Z :=
  add32 (add32 (add32 (add32
    (Boolean_encoded_size (durable h)) (UByte_encoded_size (priority h)))
    (Option_encoded_size UInt_encoded_size (ttl h)))
    (Boolean_encoded_size (first_acquirer h))) (UInt_encoded_size (delivery_count h)).

Definition AmqpHeader_encoded_size (h : AmqpHeader) : Z :=
  let size := add32 (AmqpHeader_content_size h) (Descriptor_encoded_size MESSAGE_HEADER) in
  let fixed := if 255 <? size then 9 else 3 in
  add32 fixed size.

Definition AmqpHeader_encode (h : AmqpHeader) : amqp_encoder :=
  Descriptor_encode MESSAGE_HEADER;;
  let content_size := AmqpHeader_content_size h in
  (if 255 <? add32 content_size (Descriptor_encoded_size MESSAGE_HEADER) then
     TypeCode_encode TC_List8;; write_be 4 (add32 content_size 4);; write_be 4 5
   else
     TypeCode_encode TC_List8;;
     write_be 1 (as_unsigned 8 (add32 content_size 4));; write_be 1 5);;
  Boolean_encode (durable h);;
  UByte_encode (priority h);;
  Option_encode UInt_encode (ttl h);;
  Boolean_encode (first_acquirer h);;
  UInt_encode (delivery_count h).

(** [list_decoder!(Header, ..)]: an absent delivery count is read as 4. *)
Definition list_decoder_header (idx : Z) (dest : AmqpHeader) : amqp_decoder AmqpHeader :=
  let 'AmqpHeader_new durable priority ttl first_acquirer delivery_count := dest in
  if idx =? 0 then
    value ← Option_decode Boolean_decode;
    mret (AmqpHeader_new (default false value) priority ttl first_acquirer delivery_count)
  else if idx =? 1 then
    value ← Option_decode UByte_decode;
    mret (AmqpHeader_new durable (default 4 value) ttl first_acquirer delivery_count)
  else if idx =? 2 then
    value ← Option_decode UInt_decode;
    mret (AmqpHeader_new durable priority value first_acquirer delivery_count)
  else if idx =? 3 then
    value ← Option_decode Boolean_decode;
    mret (AmqpHeader_new durable priority ttl (default false value) delivery_count)
  else if idx =? 4 then
    value ← Option_decode UInt_decode;
    mret (AmqpHeader_new durable priority ttl first_acquirer (default 4 value))
  else mret dest.

Definition descriptor_text (d : Descriptor) : Z + bytes :=
  match d with Descriptor_Ulong v => inl v | Descriptor_Symbol v => inr v end.

Definition AmqpHeader_decode : amqp_decoder AmqpHeader :=
  descriptor ← Descriptor_decode;
  if Descriptor_eqb descriptor MESSAGE_HEADER then
    List_decode_with_fields list_decoder_header AmqpHeader_default
  else fail (AmqpDecodeError.MessageParse (InvalidHeaderText (descriptor_text descriptor))).

(** ** properties.rs *)

Record Properties := Properties_new {
  message_id : option MessageId;
  user_id : option bytes;
  to : option bytes;
  subject : option bytes;
  reply_to : option bytes;
  correlation_id : option MessageId;
  content_type : option bytes;
  content_encoding : option bytes;
  absolute_expiry_time : option DateTime;
  creation_time : option DateTime;
  group_id : option bytes;
  group_sequence : option Z;
  reply_to_group_id : option bytes;
}.

Definition Properties_default : Properties :=
  Properties_new None None None None None None None None None None None None None.

Definition Properties_content_size (p : Properties) : Z :=
  fold_left add32 [
    Option_encoded_size Binary_encoded_size (user_id p);
    Option_encoded_size Str_encoded_size (to p);
    Option_encoded_size Str_encoded_size (subject p);
    Option_encoded_size Str_encoded_size (reply_to p);
    Option_encoded_size MessageId_encoded_size (correlation_id p);
    Option_encoded_size Symbol_encoded_size (content_type p);
    Option_encoded_size Symbol_encoded_size (content_encoding p);
    Option_encoded_size Timestamp_encoded_size (absolute_expiry_time p);
    Option_encoded_size Timestamp_encoded_size (creation_time p);
    Option_encoded_size Str_encoded_size (group_id p);
    Option_encoded_size UInt_encoded_size (group_sequence p);
    Option_encoded_size Str_encoded_size (reply_to_group_id p)]
    (Option_encoded_size MessageId_encoded_size (message_id p)).

Definition Properties_encoded_size (p : Properties) : Z :=
  let size := add32 (Descriptor_encoded_size MESSAGE_PROPERTIES) (Properties_content_size p) in
  let header := if 255 <? size then 9 else 3 in
  add32 header size.

(** Both branches write the code of the 8-bit list. *)
Definition Properties_encode (p : Properties) : amqp_encoder :=
  Descriptor_encode MESSAGE_PROPERTIES;;
  let content_size := Properties_content_size p in
  (if 255 <? add32 content_size 1 then
     TypeCode_encode TC_List8;; write_be 4 (add32 content_size 4);; write_be 4 13
   else
     TypeCode_encode TC_List8;;
     write_be 1 (as_unsigned 8 (add32 content_size 1));; write_be 1 13);;
  Option_encode MessageId_encode (message_id p);;
  Option_encode Binary_encode (user_id p);;
  Option_encode Str_encode (to p);;
  Option_encode Str_encode (subject p);;
  Option_encode Str_encode (reply_to p);;
  Option_encode MessageId_encode (correlation_id p);;
  Option_encode Symbol_encode (content_type p);;
  Option_encode Symbol_encode (content_encoding p);;
  Option_encode Timestamp_encode (absolute_expiry_time p);;
  Option_encode Timestamp_encode (creation_time p);;
  Option_encode Str_encode (group_id p);;
  Option_encode UInt_encode (group_sequence p);;
  Option_encode Str_encode (reply_to_group_id p).

Definition list_decoder_properties (idx : Z) (dest : Properties) : amqp_decoder Properties :=
  let 'Properties_new message_id user_id to subject reply_to correlation_id content_type
    content_encoding absolute_expiry_time creation_time group_id group_sequence
    reply_to_group_id := dest in
  if idx =? 0 then
    value ← Option_decode MessageId_decode;
    mret (Properties_new value user_id to subject reply_to correlation_id content_type
      content_encoding absolute_expiry_time creation_time group_id group_sequence
      reply_to_group_id)
  else if idx =? 1 then
    value ← Option_decode Binary_decode;
    mret (Properties_new message_id value to subject reply_to correlation_id content_type
      content_encoding absolute_expiry_time creation_time group_id group_sequence
      reply_to_group_id)
  else if idx =? 2 then
    value ← Option_decode Str_decode;
    mret (Properties_new message_id user_id value subject reply_to correlation_id
      content_type content_encoding absolute_expiry_time creation_time group_id
      group_sequence reply_to_group_id)
  else if idx =? 3 then
    value ← Option_decode Str_decode;
    mret (Properties_new message_id user_id to value reply_to correlation_id content_type
      content_encoding absolute_expiry_time creation_time group_id group_sequence
      reply_to_group_id)
  else if idx =? 4 then
    value ← Option_decode Str_decode;
    mret (Properties_new message_id user_id to subject value correlation_id content_type
      content_encoding absolute_expiry_time creation_time group_id group_sequence
      reply_to_group_id)
  else if idx =? 5 then
    value ← Option_decode MessageId_decode;
    mret (Properties_new message_id user_id to subject reply_to value content_type
      content_encoding absolute_expiry_time creation_time group_id group_sequence
      reply_to_group_id)
  else if idx =? 6 then
    value ← Option_decode Symbol_decode;
    mret (Properties_new message_id user_id to subject reply_to correlation_id value
      content_encoding absolute_expiry_time creation_time group_id group_sequence
      reply_to_group_id)
  else if idx =? 7 then
    value ← Option_decode Symbol_decode;
    mret (Properties_new message_id user_id to subject reply_to correlation_id
      content_type value absolute_expiry_time creation_time group_id group_sequence
      reply_to_group_id)
  else if idx =? 8 then
    value ← Option_decode Timestamp_decode;
    mret (Properties_new message_id user_id to subject reply_to correlation_id
      content_type content_encoding value creation_time group_id group_sequence
      reply_to_group_id)
  else if idx =? 9 then
    value ← Option_decode Timestamp_decode;
    mret (Properties_new message_id user_id to subject reply_to correlation_id
      content_type content_encoding absolute_expiry_time value group_id group_sequence
      reply_to_group_id)
  else if idx =? 10 then
    value ← Option_decode Str_decode;
    mret (Properties_new message_id user_id to subject reply_to correlation_id
      content_type content_encoding absolute_expiry_time creation_time value
      group_sequence reply_to_group_id)
  else if idx =? 11 then
    value ← Option_decode UInt_decode;
    mret (Properties_new message_id user_id to subject reply_to correlation_id
      content_type content_encoding absolute_expiry_time creation_time group_id value
      reply_to_group_id)
  else if idx =? 12 then
    value ← Option_decode Str_decode;
    mret (Properties_new message_id user_id to subject reply_to correlation_id
      content_type content_encoding absolute_expiry_time creation_time group_id
      group_sequence value)
  else mret dest.

Definition Properties_decode : amqp_decoder Properties :=
  descriptor ← Descriptor_decode;
  if Descriptor_eqb descriptor MESSAGE_PROPERTIES then
    List_decode_with_fields list_decoder_properties Properties_default
  else fail (AmqpDecodeError.MessageParse (InvalidPropertiesText (descriptor_text descriptor))).

(** ** body.rs *)

Record MessageBody := MessageBody_new {
  data : list bytes;
  sequence : list (list Value);
  value : option Value;
}.

Definition MessageBody_default : MessageBody := MessageBody_new [] [] None.

(** [MessageBody::data]: the first data section. *)
Definition MessageBody_data (b : MessageBody) : option bytes := head (data b).
Definition MessageBody_set_data (d : bytes) (b : MessageBody) : MessageBody :=
  MessageBody_new [d] (sequence b) (value b).

Definition MessageBody_encoded_size (b : MessageBody) : Z :=
  let size := fold_left (λ a d,
    add32 (add32 a (Binary_encoded_size d)) (Descriptor_encoded_size MESSAGE_BODY_DATA))
    (data b) 0 in
  let size := add32 size (fold_left (λ a seq,
    add32 (add32 a (AmqpSequence_encoded_size seq))
      (Descriptor_encoded_size MESSAGE_BODY_SEQUENCE)) (sequence b) 0) in
  match value b with
  | Some val =>
      add32 (add32 size (Value_encoded_size val)) (Descriptor_encoded_size MESSAGE_BODY_VALUE)
  | None => size
  end.

Definition MessageBody_encode (b : MessageBody) : amqp_encoder :=
  write_each (λ d, Descriptor_encode MESSAGE_BODY_DATA;; Binary_encode d) (data b);;
  write_each (λ seq, Descriptor_encode MESSAGE_BODY_SEQUENCE;; AmqpSequence_encode seq)
    (sequence b);;
  match value b with
  | Some val => Descriptor_encode MESSAGE_BODY_VALUE;; Value_encode val
  | None => mret tt
  end.

(** ** section.rs *)

Inductive MessageSection :=
  | MessageSection_Header (val : AmqpHeader)
  | MessageSection_DeliveryAnnotations (val : Annotations)
  | MessageSection_MessageAnnotations (val : Annotations)
  | MessageSection_ApplicationProperties (val : ApplicationProperties)
  | MessageSection_Data (val : bytes)
  | MessageSection_AmqpSequence (val : list Value)
  | MessageSection_AmqpValue (val : Value)
  | MessageSection_Footer (val : Annotations)
  | MessageSection_Properties (val : Properties).

(** The input after the descriptor, where it had only been looked at. *)
Definition skip_descriptor : amqp_decoder unit := Descriptor_decode;; mret tt.

(** The [match described]. *)
Definition section_decoder (described : Descriptor) : amqp_decoder MessageSection :=
  if Descriptor_eqb described MESSAGE_HEADER then
    v ← AmqpHeader_decode; mret (MessageSection_Header v)
  else if Descriptor_eqb described MESSAGE_BODY_DATA then
    skip_descriptor;; v ← Binary_decode; mret (MessageSection_Data v)
  else if Descriptor_eqb described MESSAGE_PROPERTIES then
    v ← Properties_decode; mret (MessageSection_Properties v)
  else if Descriptor_eqb described MESSAGE_BODY_VALUE then
    skip_descriptor;; v ← Value_decode; mret (MessageSection_AmqpValue v)
  else if Descriptor_eqb described MESSAGE_APPLICATION_PROPERTIES then
    skip_descriptor;; v ← ApplicationProperties_decode;
    mret (MessageSection_ApplicationProperties v)
  else if Descriptor_eqb described MESSAGE_ANNOTATIONS then
    skip_descriptor;; v ← Annotations_decode; mret (MessageSection_MessageAnnotations v)
  else if Descriptor_eqb described MESSAGE_BODY_SEQUENCE then
    skip_descriptor;; v ← AmqpSequence_decode; mret (MessageSection_AmqpSequence v)
  else if Descriptor_eqb described MESSAGE_DELIVERY_ANNOTATIONS then
    skip_descriptor;; v ← Annotations_decode; mret (MessageSection_DeliveryAnnotations v)
  else if Descriptor_eqb described MESSAGE_FOOTER then
    skip_descriptor;; v ← Annotations_decode; mret (MessageSection_Footer v)
  else fail (AmqpDecodeError.MessageParse (InvalidSectionText (descriptor_text described))).

Definition MessageSection_decode : amqp_decoder MessageSection :=
  described ← peek Descriptor_decode; section_decoder described.

(** ** message.rs *)

Record AmqpMessage := AmqpMessage_new {
  header : option AmqpHeader;
  delivery_annotations : option Annotations;
  message_annotations : option Annotations;
  properties : option Properties;
  application_properties : option ApplicationProperties;
  footer : option Annotations;
  body : MessageBody;
}.

Definition AmqpMessage_default : AmqpMessage :=
  AmqpMessage_new None None None None None None MessageBody_default.

(** The [match sec] of the decoding loop: a section met twice replaces the first,
    but for the data and sequence sections, which accumulate. *)
Definition AmqpMessage_add (sec : MessageSection) (m : AmqpMessage) : AmqpMessage :=
  let 'AmqpMessage_new h da ma p ap f b := m in
  match sec with
  | MessageSection_Header val => AmqpMessage_new (Some val) da ma p ap f b
  | MessageSection_DeliveryAnnotations val => AmqpMessage_new h (Some val) ma p ap f b
  | MessageSection_MessageAnnotations val => AmqpMessage_new h da (Some val) p ap f b
  | MessageSection_ApplicationProperties val => AmqpMessage_new h da ma p (Some val) f b
  | MessageSection_Footer val => AmqpMessage_new h da ma p ap (Some val) b
  | MessageSection_Properties val => AmqpMessage_new h da ma (Some val) ap f b
  | MessageSection_AmqpSequence val =>
      AmqpMessage_new h da ma p ap f
        (MessageBody_new (data b) (sequence b ++ [val]) (value b))
  | MessageSection_AmqpValue val =>
      AmqpMessage_new h da ma p ap f (MessageBody_new (data b) (sequence b) (Some val))
  | MessageSection_Data val =>
      AmqpMessage_new h da ma p ap f
        (MessageBody_new (data b ++ [val]) (sequence b) (value b))
  end.

Fixpoint AmqpMessage_loop (fuel : nat) (m : AmqpMessage) : amqp_decoder AmqpMessage :=
  match fuel with
  | O => abort OutOfFuel
  | S fuel => λ input,
      match input with
      | [] => Ok ([], m)
      | _ =>
          (sec ← MessageSection_decode; AmqpMessage_loop fuel (AmqpMessage_add sec m)) input
      end
  end.

Definition AmqpMessage_decode : amqp_decoder AmqpMessage := λ input,
  AmqpMessage_loop (S (length input)) AmqpMessage_default input.

(** [if let Some(ref x) = o { size += .. }]. *)
Definition add_some {A} (o : option A) (n : A -> Z) (size : Z) : Z :=
  match o with Some a => add32 size (n a) | None => size end.

Definition AmqpMessage_encoded_size (m : AmqpMessage) : Z :=
  let size := MessageBody_encoded_size (body m) in
  let size := add_some (header m) AmqpHeader_encoded_size size in
  let size := add_some (delivery_annotations m) (λ da,
    add32 (Annotations_encoded_size da) (Descriptor_encoded_size MESSAGE_DELIVERY_ANNOTATIONS))
    size in
  let size := add_some (message_annotations m) (λ ma,
    add32 (Annotations_encoded_size ma) (Descriptor_encoded_size MESSAGE_ANNOTATIONS)) size in
  let size := add_some (properties m) Properties_encoded_size size in
  let size := add_some (application_properties m) (λ ap,
    add32 (ApplicationProperties_encoded_size ap)
      (Descriptor_encoded_size MESSAGE_APPLICATION_PROPERTIES)) size in
  add_some (footer m) (λ f,
    add32 (Annotations_encoded_size f) (Descriptor_encoded_size MESSAGE_FOOTER)) size.

(** [if let Some(ref x) = o { .. }]. *)
Definition if_some {A} (o : option A) (enc : A -> amqp_encoder) : amqp_encoder :=
  match o with Some a => enc a | None => mret tt end.

Definition AmqpMessage_encode (m : AmqpMessage) : amqp_encoder :=
  if_some (header m) AmqpHeader_encode;;
  if_some (delivery_annotations m) (λ da,
    Descriptor_encode MESSAGE_DELIVERY_ANNOTATIONS;; Annotations_encode da);;
  if_some (message_annotations m) (λ ma,
    Descriptor_encode MESSAGE_ANNOTATIONS;; Annotations_encode ma);;
  if_some (properties m) Properties_encode;;
  if_some (application_properties m) (λ ap,
    Descriptor_encode MESSAGE_APPLICATION_PROPERTIES;; ApplicationProperties_encode ap);;
  MessageBody_encode (body m);;
  if_some (footer m) (λ f, Descriptor_encode MESSAGE_FOOTER;; Annotations_encode f).

(** ** message/mod.rs: the message of the public interface *)

(** [Message(Arc<InternalMessage>)], which is never changed once built. *)
Record Message := Message_new {
  publishing_id : option Z;
  message : AmqpMessage;
}.

Definition EncodeError_from_amqp (e : AmqpEncodeError.t) : EncodeError.t :=
  match e with AmqpEncodeError.Io => EncodeError.Io end.

Definition DecodeError_from_amqp (e : AmqpDecodeError.t) : DecodeError.t :=
  match e with
  | AmqpDecodeError.InvalidTypeCode code => DecodeError.InvalidFormatCode code
  | AmqpDecodeError.MessageParse err => DecodeError.MessageParse err
  | AmqpDecodeError.Incomplete err => DecodeError.Incomplete err
  | AmqpDecodeError.Utf8Error err => DecodeError.Utf8Error err
  | AmqpDecodeError.UuidError length => DecodeError.MessageParse (UuidText length)
  | AmqpDecodeError.InvalidTypeCodeFor target code =>
      DecodeError.MessageParse (InvalidTypeCodeText (TypeCode_to_u8 code) target)
  end.

Definition Message_encoded_size (m : Message) : Z := AmqpMessage_encoded_size (message m).
Definition Message_encode (m : Message) : encoder :=
  map_werr EncodeError_from_amqp (AmqpMessage_encode (message m)).
Definition Message_decode : decoder Message :=
  message ← map_err DecodeError_from_amqp AmqpMessage_decode;
  mret (Message_new None message).

(** [Message::data], [Message::value_ref]: the body as the application sees it. *)
Definition Message_data (m : Message) : option bytes := MessageBody_data (body (message m)).
Definition Message_value_ref {T} (try_from : Value -> result DecodeError.t T) (m : Message)
    : result DecodeError.t (option T) :=
  match value (body (message m)) with
  | Some v => t ← try_from v; Ok (Some t)
  | None => Ok None
  end.

(** ** message/builder.rs

    A builder is the message under construction. *)

Definition Message_builder : Message := Message_new None AmqpMessage_default.

Definition MessageBuilder_body (d : bytes) (m : Message) : Message :=
  let 'AmqpMessage_new h da ma p ap f b := message m in
  Message_new (publishing_id m) (AmqpMessage_new h da ma p ap f (MessageBody_set_data d b)).

Definition MessageBuilder_publising_id (id : Z) (m : Message) : Message :=
  Message_new (Some id) (message m).

(** [AmqpMessage::with_properties]: created when absent, then changed. *)
Definition with_properties (g : Properties -> Properties) (m : Message) : Message :=
  let 'AmqpMessage_new h da ma p ap f b := message m in
  Message_new (publishing_id m)
    (AmqpMessage_new h da ma (Some (g (default Properties_default p))) ap f b).

(** The setters of [PropertiesBuilder], by the field they set. *)
Inductive property :=
  | Set_message_id (v : MessageId)
  | Set_user_id (v : bytes)
  | Set_to (v : bytes)
  | Set_subject (v : bytes)
  | Set_reply_to (v : bytes)
  | Set_correlation_id (v : MessageId)
  | Set_content_type (v : bytes)
  | Set_content_encoding (v : bytes)
  | Set_absolute_expiry_time (v : DateTime)
  | Set_creation_time (v : DateTime)
  | Set_group_id (v : bytes)
  | Set_group_sequence (v : Z)
  | Set_reply_to_group_id (v : bytes).

Definition set_property (s : property) (p : Properties) : Properties :=
  let 'Properties_new message_id user_id to subject reply_to correlation_id content_type
    content_encoding absolute_expiry_time creation_time group_id group_sequence
    reply_to_group_id := p in
  match s with
  | Set_message_id v => Properties_new (Some v) user_id to subject reply_to
    correlation_id content_type content_encoding absolute_expiry_time creation_time
    group_id group_sequence reply_to_group_id
  | Set_user_id v => Properties_new message_id (Some v) to subject reply_to
    correlation_id content_type content_encoding absolute_expiry_time creation_time
    group_id group_sequence reply_to_group_id
  | Set_to v => Properties_new message_id user_id (Some v) subject reply_to
    correlation_id content_type content_encoding absolute_expiry_time creation_time
    group_id group_sequence reply_to_group_id
  | Set_subject v => Properties_new message_id user_id to (Some v) reply_to
    correlation_id content_type content_encoding absolute_expiry_time creation_time
    group_id group_sequence reply_to_group_id
  | Set_reply_to v => Properties_new message_id user_id to subject (Some v)
    correlation_id content_type content_encoding absolute_expiry_time creation_time
    group_id group_sequence reply_to_group_id
  | Set_correlation_id v => Properties_new message_id user_id to subject reply_to (Some
    v) content_type content_encoding absolute_expiry_time creation_time group_id
    group_sequence reply_to_group_id
  | Set_content_type v => Properties_new message_id user_id to subject reply_to
    correlation_id (Some v) content_encoding absolute_expiry_time creation_time group_id
    group_sequence reply_to_group_id
  | Set_content_encoding v => Properties_new message_id user_id to subject reply_to
    correlation_id content_type (Some v) absolute_expiry_time creation_time group_id
    group_sequence reply_to_group_id
  | Set_absolute_expiry_time v => Properties_new message_id user_id to subject reply_to
    correlation_id content_type content_encoding (Some v) creation_time group_id
    group_sequence reply_to_group_id
  | Set_creation_time v => Properties_new message_id user_id to subject reply_to
    correlation_id content_type content_encoding absolute_expiry_time (Some v) group_id
    group_sequence reply_to_group_id
  | Set_group_id v => Properties_new message_id user_id to subject reply_to
    correlation_id content_type content_encoding absolute_expiry_time creation_time (Some
    v) group_sequence reply_to_group_id
  | Set_group_sequence v => Properties_new message_id user_id to subject reply_to
    correlation_id content_type content_encoding absolute_expiry_time creation_time
    group_id (Some v) reply_to_group_id
  | Set_reply_to_group_id v => Properties_new message_id user_id to subject reply_to
    correlation_id content_type content_encoding absolute_expiry_time creation_time
    group_id group_sequence (Some v)
  end.

Definition PropertiesBuilder_set (s : property) (m : Message) : Message :=
  with_properties (set_property s) m.

(** [AnnotationBuider::insert], through [message_annotations_mut]. *)
Definition AnnotationBuider_insert (key : AnnonationKey) (v : Value) (m : Message) : Message :=
  let 'AmqpMessage_new h da ma p ap f b := message m in
  Message_new (publishing_id m)
    (AmqpMessage_new h da (Some (Annotations_put key v (default [] ma))) p ap f b).

(** [ApplicationPropertiesBuider::insert], through [application_properties_mut]. *)
Definition ApplicationPropertiesBuider_insert (key : bytes) (v : SimpleValue) (m : Message)
    : Message :=
  let 'AmqpMessage_new h da ma p ap f b := message m in
  Message_new (publishing_id m)
    (AmqpMessage_new h da ma p (Some (hm_insert key_eqb key v (default [] ap))) f b).
End message.

(** ** Laws *)

(** *** Annotations and application properties *)

Section map_laws.
Context {BO : ByteOrder} {X : AmqpExt}.

Definition Annotations_ok (m : Annotations) : Prop :=
  Forall (λ kv, AnnonationKey_ok kv.1 ∧ true = true ∧ Value_ok kv.2) m ∧
  distinct_keys AnnonationKey_eqb m = true.
Definition Annotations_wire_ok (m : Annotations) : Prop :=
  Forall (λ kv, AnnonationKey_wire_ok kv.1 ∧ Value_wire_ok kv.2) m ∧
  distinct_keys AnnonationKey_eqb m = true ∧
  Map_count_ok (Map_content_size AnnonationKey_encoded_size Value_encoded_size m) m.
Definition Annotations_fits (m : Annotations) : Prop :=
  Forall (λ kv, AnnonationKey_fits kv.1 ∧ Value_fits kv.2) m.

Definition ApplicationProperties_ok (m : ApplicationProperties) : Prop :=
  Forall (λ kv, string_ok kv.1 ∧ true = true ∧ SimpleValue_ok kv.2) m ∧
  distinct_keys key_eqb m = true.
Definition ApplicationProperties_wire_ok (m : ApplicationProperties) : Prop :=
  Forall (λ kv, string32 kv.1 ∧ SimpleValue_wire_ok kv.2) m ∧
  distinct_keys key_eqb m = true ∧
  Map_count_ok (Map_content_size Str_encoded_size SimpleValue_encoded_size m) m.
Definition ApplicationProperties_fits (m : ApplicationProperties) : Prop :=
  Forall (λ kv, bytes32 kv.1 ∧ SimpleValue_fits kv.2) m.

Definition AmqpSequence_wire_ok (l : list Value) : Prop :=
  Forall Value_wire_ok l ∧ List_count_ok (List_content_size Value_encoded_size l) l.

Lemma AnnonationKey_eqb_sym a b : AnnonationKey_eqb a b = AnnonationKey_eqb b a.
Proof. destruct a, b; cbn; try done; try apply Z.eqb_sym. by apply bool_decide_ext. Qed.

#[global] Instance Annotations_round_trips :
  RoundTrips Annotations_encode Annotations_decode Annotations_wire_ok.
Proof.
  intros m (Hm & Hd & Hn). apply Map_wire; [|auto with consumes|done|done].
  eapply Forall_impl; [exact Hm|]. intros kv [Hk Hv].
  split_and!; [by apply round_trip|by apply round_trip|done].
Qed.
#[global] Instance Annotations_sized :
  SizeExact Annotations_encode Annotations_encoded_size Annotations_fits.
Proof.
  intros m Hm. apply Map_sized. eapply Forall_impl; [exact Hm|]. intros kv [Hk Hv].
  split; by apply size_exact.
Qed.
#[global] Instance Annotations_reads : AmqpReads Annotations_decode Annotations_ok.
Proof.
  constructor; unfold Annotations_decode.
  - apply Map_sound; [apply amqp_sound|apply amqp_sound|]. intros. apply AnnonationKey_eqb_sym.
  - apply Map_consumes; auto with consumes.
  - intros Q HQ. apply (settles_panics _ _ (Map_decode AnnonationKey_decode Value_decode
      AnnonationKey_eqb (λ _, true))). intros k.
    apply (settles_weaken _ (S k)); [lia|].
    apply Map_settles; auto with consumes; apply settles_refl; auto with panics.
Qed.

#[global] Instance ApplicationProperties_round_trips :
  RoundTrips ApplicationProperties_encode ApplicationProperties_decode
    ApplicationProperties_wire_ok.
Proof.
  intros m (Hm & Hd & Hn). apply Map_wire; [|auto with consumes|done|done].
  eapply Forall_impl; [exact Hm|]. intros kv [Hk Hv].
  split_and!; [by apply round_trip|by apply round_trip|done].
Qed.
#[global] Instance ApplicationProperties_sized :
  SizeExact ApplicationProperties_encode ApplicationProperties_encoded_size
    ApplicationProperties_fits.
Proof.
  intros m Hm. apply Map_sized. eapply Forall_impl; [exact Hm|]. intros kv [Hk Hv].
  split; by apply size_exact.
Qed.
#[global] Instance ApplicationProperties_reads :
  AmqpReads ApplicationProperties_decode ApplicationProperties_ok.
Proof.
  constructor; unfold ApplicationProperties_decode.
  - apply Map_sound; [apply amqp_sound|apply amqp_sound|].
    intros. unfold key_eqb. by apply bool_decide_ext.
  - apply Map_consumes; auto with consumes.
  - intros Q HQ. apply (settles_panics _ _ (Map_decode Str_decode SimpleValue_decode
      key_eqb (λ _, true))). intros k.
    apply (settles_weaken _ (S k)); [lia|].
    apply Map_settles; auto with consumes; apply settles_refl; auto with panics.
Qed.

#[global] Instance AmqpSequence_round_trips :
  RoundTrips AmqpSequence_encode AmqpSequence_decode AmqpSequence_wire_ok.
Proof.
  intros l [Hl Hn]. apply List_wire; [|done].
  eapply Forall_impl; [exact Hl|]. apply round_trip.
Qed.
#[global] Instance AmqpSequence_sized :
  SizeExact AmqpSequence_encode AmqpSequence_encoded_size (Forall Value_fits).
Proof. intros l Hl. apply List_sized. eapply Forall_impl; [exact Hl|]. apply size_exact. Qed.
#[global] Instance AmqpSequence_reads : AmqpReads AmqpSequence_decode (Forall Value_ok).
Proof.
  constructor; unfold AmqpSequence_decode.
  - apply List_sound, amqp_sound.
  - apply List_consumes; auto with consumes.
  - intros Q HQ. apply List_panics; auto with panics.
Qed.
End map_laws.

(** *** The list of fields of the header and of the properties *)

Lemma loop_step {S} n (body : S -> amqp_decoder S) (w1 w2 : amqp_encoder) s s' t :
  wire w1 (body s) s' -> wire w2 (loop_nat n body s') t ->
  wire (w1;; w2) (loop_nat (Datatypes.S n) body s) t.
Proof. apply wire_seq. Qed.

Lemma loop_last {S} (body : S -> amqp_decoder S) (w : amqp_encoder) s t :
  wire w (body s) t -> wire w (loop_nat 1 body s) t.
Proof. intros Hw. eapply wire_last; [exact Hw|done]. Qed.

Section fields.
Context {BO : ByteOrder} {T : Type}.
Context (f : Z -> T -> amqp_decoder T) (I : T -> Prop).

Definition fields_step : Z * T -> amqp_decoder (Z * T) :=
  λ '(idx, dest), dest ← f idx dest; mret (idx + 1, dest).

Lemma fields_step_wire (w : amqp_encoder) idx dest dest' :
  wire w (f idx dest) dest' -> wire w (fields_step (idx, dest)) (idx + 1, dest').
Proof. intros Hw. eapply wire_last; [exact Hw|done]. Qed.

Lemma fields_step_field {A} (w : amqp_encoder) (p : amqp_decoder A) (upd : A -> T) idx idx' dest v :
  f idx dest = (value ← p; mret (upd value)) -> wire w p v -> idx + 1 = idx' ->
  wire w (fields_step (idx, dest)) (idx', upd v).
Proof.
  intros Hf Hw <-. apply fields_step_wire. rewrite Hf. eapply wire_last; [exact Hw|done].
Qed.

(** A list of [n] fields with an 8-bit header, [n] being a literal. *)
Lemma fields_wire (w : amqp_encoder) size n dest dest' :
  u8_ok (Z.of_nat n) ->
  wire w (loop_nat n fields_step (0, dest)) (Z.of_nat n, dest') ->
  wire ((TypeCode_encode TC_List8;; write_be 1 (as_unsigned 8 size);;
         write_be 1 (Z.of_nat n));; w) (List_decode_with_fields f dest) dest'.
Proof.
  intros Hn Hw. unfold List_decode_with_fields. apply wire_assoc, wire_code.
  apply header8_wire; [apply as_unsigned_u8|done|].
  eapply (wire_last _ _ _ (Z.of_nat n, dest')); [|done].
  eapply wire_ext; [exact Hw|]. intros input. rewrite loop_n_nat, Nat2Z.id. done.
Qed.

Lemma fields_sound dest :
  I dest -> (∀ idx dest, I dest -> sound (f idx dest) I) ->
  sound (List_decode_with_fields f dest) I.
Proof.
  intros Hd Hf. unfold List_decode_with_fields.
  eapply sound_bind; [apply sound_true|]. intros c _.
  assert (∀ p : amqp_decoder Z, sound (count ← p;
    r ← loop_n count fields_step (0, dest); mret r.2) I) as Hl.
  { intros p. eapply sound_bind; [apply sound_true|]. intros n _.
    eapply (sound_bind _ _ (λ r, I r.2)).
    - apply sound_loop; [done|]. intros [idx d] Hid. cbn in Hid.
      eapply sound_bind; [by apply Hf|]. intros d' Hd'. by apply sound_ret.
    - intros r Hr. by apply sound_ret. }
  destruct c; first [by apply sound_ret|apply Hl].
Qed.

Lemma fields_consumes dest :
  (∀ idx dest, consumes 0 (f idx dest)) -> consumes 1 (List_decode_with_fields f dest).
Proof.
  intros Hf. unfold List_decode_with_fields.
  assert (∀ n s, consumes 0 (loop_n n fields_step s)) as Hl.
  { intros n s. apply consumes_loop. intros [idx d]. unfold fields_step. consumes_solve. }
  consumes_code.
Qed.

Lemma fields_panics Q dest :
  (∀ idx dest, panics Q (f idx dest)) -> panics Q (List_decode_with_fields f dest).
Proof.
  intros Hf. unfold List_decode_with_fields.
  assert (∀ n s, panics Q (loop_n n fields_step s)) as Hl.
  { intros n s. apply panics_loop. intros [idx d]. unfold fields_step. panics_solve. }
  panics_solve.
Qed.
End fields.

(** The fields of a struct, in order: each decoder of a field is an
    [Option::<T>::decode] followed by the assignment of the field. *)
Ltac field_solve :=
  eapply fields_step_field;
  [ lazymatch goal with |- ?l = _ => unfold_head l end; cbn [Z.eqb Pos.eqb]; reflexivity
  | by apply round_trip
  | vm_compute; reflexivity ].
Ltac fields_wire_solve :=
  repeat (eapply loop_step; [field_solve|cbv beta]); apply loop_last; eapply wire_eq;
  [field_solve|first [reflexivity|match goal with |- _ = (_, ?p) => by destruct p end]].

Lemma option_no_fits {A} (o : option A) : from_option (λ _, True) True o.
Proof. by destruct o. Qed.
#[export] Hint Resolve option_no_fits : sized.

Ltac fields_sized_solve :=
  repeat (eapply sized_seq; [solve [eauto with sized]|]); solve [eauto with sized].

(** *** Header *)

Section header_laws.
Context {BO : ByteOrder} {X : AmqpExt}.

Definition AmqpHeader_ok (h : AmqpHeader) : Prop :=
  u8_ok (priority h) ∧ from_option u32_ok True (ttl h) ∧ u32_ok (delivery_count h).

Lemma Descriptor_eqb_refl d : Descriptor_eqb d d = true.
Proof. destruct d; [apply Z.eqb_refl|by apply bool_decide_eq_true]. Qed.

(** A struct behind its descriptor. *)
Lemma described_wire {A} d (w : amqp_encoder) (p : amqp_decoder A) (err : Descriptor -> amqp_decoder A) a :
  Descriptor_wire_ok d -> wire w p a ->
  wire (Descriptor_encode d;; w)
    (descriptor ← Descriptor_decode;
     if Descriptor_eqb descriptor d then p else err descriptor) a.
Proof.
  intros Hd Hw. eapply wire_seq; [by apply round_trip|]. cbv beta.
  by rewrite Descriptor_eqb_refl.
Qed.

(** The fields of a header take 14 bytes at most: its list is always a short one. *)
Lemma AmqpHeader_content_small h : 0 <= AmqpHeader_content_size h <= 14.
Proof.
  unfold AmqpHeader_content_size.
  assert (∀ z, 0 <= UInt_encoded_size z <= 5) as Hu.
  { intros z. unfold UInt_encoded_size. destruct (z =? 0), (255 <? z); lia. }
  assert (0 <= Option_encoded_size UInt_encoded_size (ttl h) <= 5) as Ht.
  { destruct (ttl h); cbn; [apply Hu|lia]. }
  specialize (Hu (delivery_count h)).
  unfold Boolean_encoded_size, UByte_encoded_size, add32.
  wrap32_bounded. lia.
Qed.

Lemma AmqpHeader_short h :
  (255 <? add32 (AmqpHeader_content_size h) (Descriptor_encoded_size MESSAGE_HEADER)) = false.
Proof.
  pose proof (AmqpHeader_content_small h).
  change (Descriptor_encoded_size MESSAGE_HEADER) with 3.
  unfold add32. rewrite wrap32_small by lia. apply Z.ltb_ge. lia.
Qed.

#[global] Instance AmqpHeader_round_trips :
  RoundTrips AmqpHeader_encode AmqpHeader_decode AmqpHeader_ok.
Proof.
  intros h (Hp & Ht & Hd). unfold AmqpHeader_encode. rewrite AmqpHeader_short.
  apply described_wire; [done|].
  apply (fields_wire _ _ _ 5); [done|].
  destruct h as [du pr tt' fa dc].
  cbn [durable priority ttl first_acquirer delivery_count] in *.
  change (Boolean_encode du) with (Option_encode Boolean_encode (Some du)).
  change (UByte_encode pr) with (Option_encode UByte_encode (Some pr)).
  change (Boolean_encode fa) with (Option_encode Boolean_encode (Some fa)).
  change (UInt_encode dc) with (Option_encode UInt_encode (Some dc)).
  fields_wire_solve.
Qed.

#[global] Instance AmqpHeader_sized :
  SizeExact AmqpHeader_encode AmqpHeader_encoded_size (λ _, True).
Proof.
  intros h _. unfold AmqpHeader_encode, AmqpHeader_encoded_size. cbv zeta.
  rewrite AmqpHeader_short.
  eapply sized_eq.
  - eapply sized_seq; [by apply size_exact|].
    eapply sized_seq; [eapply code_sized; [apply sized_seq; by apply write_be_sized|done]|].
    fields_sized_solve.
  - unfold AmqpHeader_content_size, Boolean_encoded_size. wrap32_solve.
Qed.

Lemma list_decoder_header_sound idx dest :
  AmqpHeader_ok dest -> sound (list_decoder_header idx dest) AmqpHeader_ok.
Proof.
  destruct dest as [du pr tt' fa dc]. intros (Hp & Ht & Hd). cbn in *.
  unfold list_decoder_header. sound_solve; (split_and!; cbn; [try done..|try done]);
    by destruct a.
Qed.

#[global] Instance AmqpHeader_reads : AmqpReads AmqpHeader_decode AmqpHeader_ok.
Proof.
  constructor; unfold AmqpHeader_decode.
  - sound_step. sound_step; [|sound_step]. apply fields_sound.
    + by split_and!.
    + intros idx dest. apply list_decoder_header_sound.
  - assert (∀ dest, consumes 1 (List_decode_with_fields list_decoder_header dest)) as Hc.
    { intros dest. apply fields_consumes. intros idx [du pr tt' fa dc].
      unfold list_decoder_header. consumes_solve. }
    apply consumes_bind_l; [auto with consumes|]. intros d.
    destruct (Descriptor_eqb _ _); [|auto with consumes].
    eapply consumes_weaken; [apply Hc|lia].
  - intros Q HQ. apply panics_bind; [auto with panics|]. intros d.
    destruct (Descriptor_eqb _ _); [|auto with panics].
    apply fields_panics. intros idx [du pr tt' fa dc]. unfold list_decoder_header.
    panics_solve.
Qed.
End header_laws.

(** *** Properties *)

Section properties_laws.
Context {BO : ByteOrder} {X : AmqpExt}.

Definition Properties_all (message_id_P : MessageId -> Prop) (binary_P string_P symbol_P : bytes -> Prop)
    (time_P : DateTime -> Prop) (seq_P : Z -> Prop) (p : Properties) : Prop :=
  from_option message_id_P True (message_id p) ∧
  from_option binary_P True (user_id p) ∧
  from_option string_P True (to p) ∧
  from_option string_P True (subject p) ∧
  from_option string_P True (reply_to p) ∧
  from_option message_id_P True (correlation_id p) ∧
  from_option symbol_P True (content_type p) ∧
  from_option symbol_P True (content_encoding p) ∧
  from_option time_P True (absolute_expiry_time p) ∧
  from_option time_P True (creation_time p) ∧
  from_option string_P True (group_id p) ∧
  from_option seq_P True (group_sequence p) ∧
  from_option string_P True (reply_to_group_id p).

Definition Properties_ok : Properties -> Prop :=
  Properties_all MessageId_ok (λ _, True) string_ok string_ok Timestamp_wire_ok u32_ok.

(** The encoder chooses the one-byte header. *)
Definition Properties_short (p : Properties) : bool :=
  negb (255 <? add32 (Properties_content_size p) 1).

Lemma Properties_short_header p :
  Properties_short p = true -> (255 <? add32 (Properties_content_size p) 1) = false.
Proof. unfold Properties_short. by destruct (255 <? _). Qed.

Definition Properties_wire_ok (p : Properties) : Prop :=
  Properties_all MessageId_wire_ok bytes32 string32 string32 Timestamp_wire_ok u32_ok p ∧
  Properties_short p = true.

(** The header [encoded_size] counts is the one [encode] writes: not for a content
    of 253 or 254 bytes. *)
Definition Properties_fits (p : Properties) : Prop :=
  Properties_all MessageId_fits (λ _, True) bytes32 bytes32 (λ _, True) (λ _, True) p ∧
  (255 <? add32 3 (Properties_content_size p)) = (255 <? add32 (Properties_content_size p) 1).

Lemma Properties_fields_wire p :
  Properties_all MessageId_wire_ok bytes32 string32 string32 Timestamp_wire_ok u32_ok p ->
  wire (
    Option_encode MessageId_encode (message_id p);;
    Option_encode Binary_encode (user_id p);;
    Option_encode Str_encode (to p);;
    Option_encode Str_encode (subject p);;
    Option_encode Str_encode (reply_to p);;
    Option_encode MessageId_encode (correlation_id p);;
    Option_encode Symbol_encode (content_type p);;
    Option_encode Symbol_encode (content_encoding p);;
    Option_encode Timestamp_encode (absolute_expiry_time p);;
    Option_encode Timestamp_encode (creation_time p);;
    Option_encode Str_encode (group_id p);;
    Option_encode UInt_encode (group_sequence p);;
    Option_encode Str_encode (reply_to_group_id p))
    (loop_nat 13 (fields_step list_decoder_properties) (0, Properties_default))
    (13, p).
Proof.
  intros Hp. unfold Properties_all in Hp. destruct_and!.
  fields_wire_solve.
Qed.

#[global] Instance Properties_round_trips :
  RoundTrips Properties_encode Properties_decode Properties_wire_ok.
Proof.
  intros p [Hp Hs%Properties_short_header]. unfold Properties_encode, Properties_decode.
  rewrite Hs.
  apply described_wire; [done|].
  apply (fields_wire _ _ _ 13); [done|]. by apply Properties_fields_wire.
Qed.

#[global] Instance Properties_sized :
  SizeExact Properties_encode Properties_encoded_size Properties_fits.
Proof.
  intros p [Hp Hs]. unfold Properties_encode, Properties_encoded_size. cbv zeta.
  change (Descriptor_encoded_size MESSAGE_PROPERTIES) with 3. rewrite Hs.
  clear Hs. unfold Properties_all in Hp. destruct_and!.
  eapply sized_eq.
  - eapply sized_seq; [by apply size_exact|].
    eapply sized_seq; [|fields_sized_solve].
    instantiate (1 := if 255 <? add32 (Properties_content_size p) 1 then 9 else 3).
    destruct (255 <? _);
      (eapply code_sized; [apply sized_seq; by apply write_be_sized|done]).
  - change (Descriptor_encoded_size MESSAGE_PROPERTIES) with 3.
    unfold Properties_content_size. cbn [fold_left].
    destruct (255 <? _); wrap32_solve.
Qed.

Lemma list_decoder_properties_sound idx dest :
  Properties_ok dest -> sound (list_decoder_properties idx dest) Properties_ok.
Proof.
  destruct dest. intros Hd. unfold Properties_ok, Properties_all in Hd.
  cbn [message_id user_id to subject reply_to correlation_id content_type content_encoding
    absolute_expiry_time creation_time group_id group_sequence reply_to_group_id] in Hd.
  destruct_and!. unfold list_decoder_properties. sound_solve; by split_and!.
Qed.

#[global] Instance Properties_reads : AmqpReads Properties_decode Properties_ok.
Proof.
  constructor; unfold Properties_decode.
  - sound_step. sound_step; [|sound_step]. apply fields_sound.
    + by split_and!.
    + intros idx dest. apply list_decoder_properties_sound.
  - assert (∀ dest, consumes 1 (List_decode_with_fields list_decoder_properties dest)) as Hc.
    { intros dest. apply fields_consumes. intros idx [].
      unfold list_decoder_properties. consumes_solve. }
    apply consumes_bind_l; [auto with consumes|]. intros d.
    destruct (Descriptor_eqb _ _); [|auto with consumes].
    eapply consumes_weaken; [apply Hc|lia].
  - intros Q HQ. apply panics_bind; [auto with panics|]. intros d.
    destruct (Descriptor_eqb _ _); [|auto with panics].
    apply fields_panics. intros idx []. unfold list_decoder_properties.
    panics_solve.
Qed.
End properties_laws.

(** *** Sections *)

Section section_laws.
Context {BO : ByteOrder} {X : AmqpExt}.

(** How [AmqpMessage_encode] writes a section. *)
Definition MessageSection_encode (sec : MessageSection) : amqp_encoder :=
  match sec with
  | MessageSection_Header val => AmqpHeader_encode val
  | MessageSection_DeliveryAnnotations val =>
      Descriptor_encode MESSAGE_DELIVERY_ANNOTATIONS;; Annotations_encode val
  | MessageSection_MessageAnnotations val =>
      Descriptor_encode MESSAGE_ANNOTATIONS;; Annotations_encode val
  | MessageSection_ApplicationProperties val =>
      Descriptor_encode MESSAGE_APPLICATION_PROPERTIES;; ApplicationProperties_encode val
  | MessageSection_Data val => Descriptor_encode MESSAGE_BODY_DATA;; Binary_encode val
  | MessageSection_AmqpSequence val =>
      Descriptor_encode MESSAGE_BODY_SEQUENCE;; AmqpSequence_encode val
  | MessageSection_AmqpValue val => Descriptor_encode MESSAGE_BODY_VALUE;; Value_encode val
  | MessageSection_Footer val => Descriptor_encode MESSAGE_FOOTER;; Annotations_encode val
  | MessageSection_Properties val => Properties_encode val
  end.

Definition MessageSection_ok (sec : MessageSection) : Prop :=
  match sec with
  | MessageSection_Header val => AmqpHeader_ok val
  | MessageSection_DeliveryAnnotations val | MessageSection_MessageAnnotations val
  | MessageSection_Footer val => Annotations_ok val
  | MessageSection_ApplicationProperties val => ApplicationProperties_ok val
  | MessageSection_Data val => True
  | MessageSection_AmqpSequence val => Forall Value_ok val
  | MessageSection_AmqpValue val => Value_ok val
  | MessageSection_Properties val => Properties_ok val
  end.

Definition MessageSection_wire_ok (sec : MessageSection) : Prop :=
  match sec with
  | MessageSection_Header val => AmqpHeader_ok val
  | MessageSection_DeliveryAnnotations val | MessageSection_MessageAnnotations val
  | MessageSection_Footer val => Annotations_wire_ok val
  | MessageSection_ApplicationProperties val => ApplicationProperties_wire_ok val
  | MessageSection_Data val => bytes32 val
  | MessageSection_AmqpSequence val => AmqpSequence_wire_ok val
  | MessageSection_AmqpValue val => Value_wire_ok val
  | MessageSection_Properties val => Properties_wire_ok val
  end.

Lemma Descriptor_eqb_eq a b : Descriptor_eqb a b = true -> a = b.
Proof.
  destruct a, b; cbn; try done; [|intros H%bool_decide_eq_true]; [|by subst].
  intros H%Z.eqb_eq. by subst.
Qed.

(** A section behind its descriptor. *)
Lemma section_wire {A} d (w : amqp_encoder) (p : amqp_decoder A) (f : A -> MessageSection) a :
  Descriptor_wire_ok d -> wire w p a ->
  section_decoder d = (skip_descriptor;; v ← p; mret (f v)) ->
  wire (Descriptor_encode d;; w) MessageSection_decode (f a).
Proof.
  intros Hd Hw Hk. destruct (round_trip (enc:=Descriptor_encode) (dec:=Descriptor_decode) d Hd) as (b1 & H1 & Hp1).
  destruct Hw as (b2 & H2 & Hp2).
  apply (wire_peek _ _ section_decoder d).
  - exists b1, b2. split; [by apply emits_seq|done].
  - rewrite Hk. exists (b1 ++ b2). split; [by apply emits_seq|]. intros rest.
    rewrite <- app_assoc. unfold skip_descriptor, mbind, parser_bind.
    rewrite Hp1. cbn. by rewrite Hp2.
Qed.

(** A section whose own decoder reads the descriptor. *)
Lemma section_wire_struct {A} d (w : amqp_encoder) (p q : amqp_decoder A) err
    (f : A -> MessageSection) a :
  wire w p a ->
  p = (descriptor ← Descriptor_decode;
       if Descriptor_eqb descriptor d then q else fail (err descriptor)) ->
  section_decoder d = (v ← p; mret (f v)) ->
  wire w MessageSection_decode (f a).
Proof.
  intros (bs & Hw & Hp) Hq Hk. exists bs. split; [done|]. intros rest.
  specialize (Hp rest). pose proof Hp as Hp'. rewrite Hq in Hp'.
  unfold mbind, parser_bind in Hp'.
  destruct (Descriptor_decode (bs ++ rest)) as [[i d']|e|x] eqn:Ed; [|done..].
  destruct (Descriptor_eqb d' d) eqn:Heq; [|done]. apply Descriptor_eqb_eq in Heq as ->.
  change (MessageSection_decode (bs ++ rest)) with
    ((peek Descriptor_decode ≫= section_decoder) (bs ++ rest)).
  unfold mbind at 1, parser_bind, peek. rewrite Ed, Hk.
  unfold mbind, parser_bind. by rewrite Hp.
Qed.

#[global] Instance MessageSection_round_trips :
  RoundTrips MessageSection_encode MessageSection_decode MessageSection_wire_ok.
Proof.
  intros sec Hs. destruct sec; cbn [MessageSection_encode MessageSection_wire_ok] in *.
  - eapply (section_wire_struct MESSAGE_HEADER _ AmqpHeader_decode); [by apply round_trip|reflexivity..].
  - eapply (section_wire MESSAGE_DELIVERY_ANNOTATIONS _ Annotations_decode); [done|by apply round_trip|reflexivity].
  - eapply (section_wire MESSAGE_ANNOTATIONS _ Annotations_decode); [done|by apply round_trip|reflexivity].
  - eapply (section_wire MESSAGE_APPLICATION_PROPERTIES _ ApplicationProperties_decode);
      [done|by apply round_trip|reflexivity].
  - eapply (section_wire MESSAGE_BODY_DATA _ Binary_decode); [done|by apply round_trip|reflexivity].
  - eapply (section_wire MESSAGE_BODY_SEQUENCE _ AmqpSequence_decode); [done|by apply round_trip|reflexivity].
  - eapply (section_wire MESSAGE_BODY_VALUE _ Value_decode); [done|by apply round_trip|reflexivity].
  - eapply (section_wire MESSAGE_FOOTER _ Annotations_decode); [done|by apply round_trip|reflexivity].
  - eapply (section_wire_struct MESSAGE_PROPERTIES _ Properties_decode); [by apply round_trip|reflexivity..].
Qed.

Lemma skip_descriptor_sound : sound skip_descriptor (λ _, True).
Proof. done. Qed.
Lemma skip_descriptor_consumes n : (n <= 1)%nat -> consumes n skip_descriptor.
Proof.
  intros Hn. apply consumes_bind_l; [|auto with consumes].
  eapply consumes_weaken; [apply amqp_consumes|done].
Qed.
Lemma skip_descriptor_panics Q : Q ExplicitPanic -> panics Q skip_descriptor.
Proof. intros HQ. unfold skip_descriptor. panics_solve. Qed.
Hint Resolve skip_descriptor_sound : sound.
Hint Resolve skip_descriptor_consumes : consumes.
Hint Resolve skip_descriptor_panics : panics.

#[global] Instance MessageSection_reads : AmqpReads MessageSection_decode MessageSection_ok.
Proof.
  constructor; unfold MessageSection_decode, section_decoder.
  - sound_solve; done.
  - apply consumes_bind_r; [auto with consumes|]. intros d.
    repeat (destruct (Descriptor_eqb _ _);
      [apply consumes_bind_l; [auto with consumes|consumes_solve]|]).
    auto with consumes.
  - panics_solve.
Qed.
End section_laws.

(** *** Messages *)

Section message_laws.
Context {BO : ByteOrder} {X : AmqpExt}.

Definition section_of {A} (f : A -> MessageSection) (o : option A) : list MessageSection :=
  match o with Some a => [f a] | None => [] end.

(** The sections of a message, in the order they are written. *)
Definition AmqpMessage_sections (m : AmqpMessage) : list MessageSection :=
  section_of MessageSection_Header (header m) ++
  section_of MessageSection_DeliveryAnnotations (delivery_annotations m) ++
  section_of MessageSection_MessageAnnotations (message_annotations m) ++
  section_of MessageSection_Properties (properties m) ++
  section_of MessageSection_ApplicationProperties (application_properties m) ++
  (MessageSection_Data <$> data (body m)) ++
  (MessageSection_AmqpSequence <$> sequence (body m)) ++
  section_of MessageSection_AmqpValue (value (body m)) ++
  section_of MessageSection_Footer (footer m).

Definition add_sections (secs : list MessageSection) (m : AmqpMessage) : AmqpMessage :=
  fold_left (λ m sec, AmqpMessage_add sec m) secs m.

Definition AmqpMessage_ok (m : AmqpMessage) : Prop :=
  Forall MessageSection_ok (AmqpMessage_sections m).
Definition AmqpMessage_wire_ok (m : AmqpMessage) : Prop :=
  Forall MessageSection_wire_ok (AmqpMessage_sections m).

(** The sections of an input: what the decoding loop reads. *)
Inductive reads_sections : bytes -> list MessageSection -> Prop :=
  | reads_sections_nil : reads_sections [] []
  | reads_sections_cons input rest sec secs :
      input ≠ [] -> MessageSection_decode input = Ok (rest, sec) ->
      reads_sections rest secs -> reads_sections input (sec :: secs).

Lemma section_of_weq {A} (f : A -> MessageSection) enc o :
  (∀ a, MessageSection_encode (f a) = enc a) ->
  weq (if_some o enc) (write_each MessageSection_encode (section_of f o)).
Proof.
  intros Hf. destruct o as [a|]; cbn; [|done]. rewrite Hf. symmetry. apply weq_ret_r.
Qed.

Lemma MessageBody_encode_weq b :
  weq (MessageBody_encode b)
    (write_each MessageSection_encode
      ((MessageSection_Data <$> data b) ++ (MessageSection_AmqpSequence <$> sequence b) ++
       section_of MessageSection_AmqpValue (value b))).
Proof.
  unfold MessageBody_encode. symmetry.
  etransitivity; [apply write_each_app|]. apply weq_seq; [by rewrite write_each_fmap|].
  etransitivity; [apply write_each_app|]. apply weq_seq; [by rewrite write_each_fmap|].
  symmetry. by apply (section_of_weq _ (λ v, Descriptor_encode MESSAGE_BODY_VALUE;; Value_encode v)).
Qed.

(** A message is written as the sequence of its sections. *)
Lemma AmqpMessage_encode_weq m :
  weq (AmqpMessage_encode m) (write_each MessageSection_encode (AmqpMessage_sections m)).
Proof.
  unfold AmqpMessage_encode, AmqpMessage_sections. symmetry.
  do 5 (etransitivity; [apply write_each_app|]; apply weq_seq;
    [symmetry; by apply section_of_weq|]).
  rewrite !app_assoc, <- (app_assoc (_ <$> _)).
  etransitivity; [apply write_each_app|]. apply weq_seq.
  - symmetry. apply MessageBody_encode_weq.
  - symmetry. by apply section_of_weq.
Qed.

Lemma add_sections_app l k m : add_sections (l ++ k) m = add_sections k (add_sections l m).
Proof. apply fold_left_app. Qed.

Lemma add_data ds h da ma p ap f b :
  add_sections (MessageSection_Data <$> ds) (AmqpMessage_new h da ma p ap f b) =
  AmqpMessage_new h da ma p ap f (MessageBody_new (data b ++ ds) (sequence b) (value b)).
Proof.
  revert b. induction ds as [|d ds IH]; intros b; cbn.
  - rewrite app_nil_r. by destruct b.
  - unfold add_sections in IH. rewrite IH. cbn. by rewrite <- app_assoc.
Qed.

Lemma add_sequence ss h da ma p ap f b :
  add_sections (MessageSection_AmqpSequence <$> ss) (AmqpMessage_new h da ma p ap f b) =
  AmqpMessage_new h da ma p ap f (MessageBody_new (data b) (sequence b ++ ss) (value b)).
Proof.
  revert b. induction ss as [|d ss IH]; intros b; cbn.
  - rewrite app_nil_r. by destruct b.
  - unfold add_sections in IH. rewrite IH. cbn. by rewrite <- app_assoc.
Qed.

(** Folding the sections of a message gives the message back. *)
Lemma add_sections_all m : add_sections (AmqpMessage_sections m) AmqpMessage_default = m.
Proof.
  destruct m as [h da ma p ap f [ds ss v]].
  unfold AmqpMessage_sections. cbn -[fmap add_sections].
  rewrite !add_sections_app. unfold AmqpMessage_default, MessageBody_default.
  destruct h, da, ma, p, ap; cbn -[fmap]; unfold add_sections at 3; cbn [fold_left];
    rewrite add_data, add_sequence; by destruct v, f.
Qed.

Lemma reads_sections_length input secs :
  reads_sections input secs -> (length secs <= length input)%nat.
Proof.
  induction 1 as [|input rest sec secs _ Hd _ IH]; cbn; [lia|].
  destruct (amqp_consumes (dec:=MessageSection_decode) _ _ _ Hd) as (c & -> & Hc).
  rewrite length_app. lia.
Qed.

Lemma AmqpMessage_loop_reads input secs fuel m :
  reads_sections input secs -> (length secs < fuel)%nat ->
  AmqpMessage_loop fuel m input = Ok ([], add_sections secs m).
Proof.
  intros Hr. revert fuel m.
  induction Hr as [|input rest sec secs Hne Hd _ IH]; intros [|fuel] m Hf; cbn in Hf; try lia.
  - done.
  - cbn [AmqpMessage_loop]. destruct input as [|b input]; [done|].
    unfold mbind, parser_bind. rewrite Hd. rewrite IH by lia. done.
Qed.

Lemma AmqpMessage_loop_sections fuel m input rest m' :
  AmqpMessage_loop fuel m input = Ok (rest, m') ->
  rest = [] ∧ ∃ secs, reads_sections input secs ∧ m' = add_sections secs m.
Proof.
  revert m input. induction fuel as [|fuel IH]; intros m input; [done|].
  cbn [AmqpMessage_loop]. destruct input as [|b input].
  - intros [= <- <-]. split; [done|]. exists []. split; [constructor|done].
  - unfold mbind, parser_bind.
    destruct (MessageSection_decode (b :: input)) as [[i sec]|e|x] eqn:Ed; [|done..].
    intros (-> & secs & Hs & ->)%IH. split; [done|]. exists (sec :: secs).
    split; [by econstructor|done].
Qed.

(** Fuel: the loop does the same with any fuel above the length of the input. *)
Lemma AmqpMessage_loop_settles Q fuel fuel' m input :
  Q ExplicitPanic -> (length input < fuel)%nat -> (length input < fuel')%nat ->
  AmqpMessage_loop fuel m input = AmqpMessage_loop fuel' m input ∧
  ∀ x, AmqpMessage_loop fuel m input = Panic x -> Q x.
Proof.
  intros HQ. revert fuel' m input.
  induction fuel as [|fuel IH]; intros [|fuel'] m input Hi Hi'; try lia.
  cbn [AmqpMessage_loop]. destruct input as [|b input]; [done|].
  unfold mbind, parser_bind.
  destruct (MessageSection_decode (b :: input)) as [[i sec]|e|x] eqn:Ed.
  - destruct (amqp_consumes (dec:=MessageSection_decode) _ _ _ Ed) as (c & Hc & Hn).
    apply (f_equal length) in Hc. rewrite length_app in Hc. apply IH; lia.
  - done.
  - split; [done|]. intros y [= <-].
    by apply (amqp_panics (dec:=MessageSection_decode) Q HQ _ _ Ed).
Qed.

Lemma AmqpMessage_decode_spec input rest m :
  AmqpMessage_decode input = Ok (rest, m) <->
  rest = [] ∧ ∃ secs, reads_sections input secs ∧ m = add_sections secs AmqpMessage_default.
Proof.
  split; [apply AmqpMessage_loop_sections|].
  intros (-> & secs & Hr & ->). apply AmqpMessage_loop_reads; [done|].
  apply reads_sections_length in Hr. lia.
Qed.

(** *** What a message is, without the loop

    The descriptor in front of a section says what it is. *)
Definition section_descriptor (sec : MessageSection) : Descriptor :=
  match sec with
  | MessageSection_Header _ => MESSAGE_HEADER
  | MessageSection_DeliveryAnnotations _ => MESSAGE_DELIVERY_ANNOTATIONS
  | MessageSection_MessageAnnotations _ => MESSAGE_ANNOTATIONS
  | MessageSection_ApplicationProperties _ => MESSAGE_APPLICATION_PROPERTIES
  | MessageSection_Data _ => MESSAGE_BODY_DATA
  | MessageSection_AmqpSequence _ => MESSAGE_BODY_SEQUENCE
  | MessageSection_AmqpValue _ => MESSAGE_BODY_VALUE
  | MessageSection_Footer _ => MESSAGE_FOOTER
  | MessageSection_Properties _ => MESSAGE_PROPERTIES
  end.

(** [input] starts with the section [sec], and [rest] is behind it: a descriptor, and
    behind the descriptor the content; headers and properties are composite types,
    whose descriptor is part of their own encoding. *)
Definition section_at (input rest : bytes) (sec : MessageSection) : Prop :=
  ∃ content, Descriptor_decode input = Ok (content, section_descriptor sec) ∧
    match sec with
    | MessageSection_Header v => AmqpHeader_decode input = Ok (rest, v)
    | MessageSection_Properties v => Properties_decode input = Ok (rest, v)
    | MessageSection_DeliveryAnnotations v | MessageSection_MessageAnnotations v
    | MessageSection_Footer v => Annotations_decode content = Ok (rest, v)
    | MessageSection_ApplicationProperties v => ApplicationProperties_decode content = Ok (rest, v)
    | MessageSection_Data v => Binary_decode content = Ok (rest, v)
    | MessageSection_AmqpSequence v => AmqpSequence_decode content = Ok (rest, v)
    | MessageSection_AmqpValue v => Value_decode content = Ok (rest, v)
    end.

(** An input that is one section after the other. *)
Inductive sections_of : bytes -> list MessageSection -> Prop :=
  | sections_end : sections_of [] []
  | sections_next input rest sec secs :
      section_at input rest sec -> sections_of rest secs -> sections_of input (sec :: secs).

Lemma section_at_iff input rest sec :
  MessageSection_decode input = Ok (rest, sec) <-> section_at input rest sec.
Proof.
  unfold section_at, MessageSection_decode, peek, mbind, parser_bind.
  destruct (Descriptor_decode input) as [[content d]|e|p] eqn:Ed.
  2, 3: by split; [|intros (? & ? & _)].
  unfold section_decoder, skip_descriptor. split.
  - intros H. exists content.
    repeat (match type of H with (if ?b then _ else _) _ = _ =>
      destruct b eqn:Heq; [apply Descriptor_eqb_eq in Heq as ->|clear Heq] end);
      unfold mbind, parser_bind in H; rewrite ?Ed in H; cbn [mret parser_ret] in H; try done;
      (match type of H with match ?x with _ => _ end = _ => destruct x as [[? ?]|?|?] eqn:E end);
      try done; by injection H as <- <-.
  - intros (c & [= <- ->] & H).
    destruct sec; cbn -[Descriptor_decode AmqpHeader_decode Properties_decode Annotations_decode
      ApplicationProperties_decode Binary_decode AmqpSequence_decode Value_decode];
      unfold mbind, parser_bind; rewrite ?Ed; cbn [mret parser_ret]; by rewrite H.
Qed.

Lemma sections_of_iff input secs : reads_sections input secs <-> sections_of input secs.
Proof.
  split.
  - induction 1 as [|input rest sec secs _ Hd _ IH]; [constructor|].
    econstructor; [by apply section_at_iff|exact IH].
  - induction 1 as [|input rest sec secs Hd%section_at_iff _ IH]; [constructor|].
    econstructor; [|exact Hd|exact IH].
    intros ->. by apply (amqp_consumes (dec:=MessageSection_decode)) in Hd as ([|] & ? & ?); cbn in *; [lia|].
Qed.

(** The content of the sections of one kind. *)
Definition as_header (sec : MessageSection) : option AmqpHeader :=
  match sec with MessageSection_Header v => Some v | _ => None end.
Definition as_delivery_annotations (sec : MessageSection) : option Annotations :=
  match sec with MessageSection_DeliveryAnnotations v => Some v | _ => None end.
Definition as_message_annotations (sec : MessageSection) : option Annotations :=
  match sec with MessageSection_MessageAnnotations v => Some v | _ => None end.
Definition as_properties (sec : MessageSection) : option Properties :=
  match sec with MessageSection_Properties v => Some v | _ => None end.
Definition as_application_properties (sec : MessageSection) : option ApplicationProperties :=
  match sec with MessageSection_ApplicationProperties v => Some v | _ => None end.
Definition as_footer (sec : MessageSection) : option Annotations :=
  match sec with MessageSection_Footer v => Some v | _ => None end.
Definition as_data (sec : MessageSection) : option bytes :=
  match sec with MessageSection_Data v => Some v | _ => None end.
Definition as_sequence (sec : MessageSection) : option (list Value) :=
  match sec with MessageSection_AmqpSequence v => Some v | _ => None end.
Definition as_value (sec : MessageSection) : option Value :=
  match sec with MessageSection_AmqpValue v => Some v | _ => None end.

(** The message of a run of sections: of every kind the last one, but for the data and
    the sequences of the body, of which it has all in their order. *)
Record message_of (secs : list MessageSection) (m : AmqpMessage) : Prop := {
  mo_header : header m = last (omap as_header secs);
  mo_delivery : delivery_annotations m = last (omap as_delivery_annotations secs);
  mo_message : message_annotations m = last (omap as_message_annotations secs);
  mo_properties : properties m = last (omap as_properties secs);
  mo_application : application_properties m = last (omap as_application_properties secs);
  mo_footer : footer m = last (omap as_footer secs);
  mo_data : data (body m) = omap as_data secs;
  mo_sequence : sequence (body m) = omap as_sequence secs;
  mo_value : value (body m) = last (omap as_value secs);
}.

Lemma add_sections_message secs : message_of secs (add_sections secs AmqpMessage_default).
Proof.
  induction secs as [|sec secs IH] using rev_ind; [done|].
  rewrite add_sections_app. destruct IH as [? ? ? ? ? ? ? ? ?].
  destruct (add_sections secs AmqpMessage_default) as [h da ma p ap f [ds ss v]]. cbn in *. subst.
  destruct sec; split; cbn; rewrite omap_app; cbn; by rewrite ?app_nil_r, ?last_snoc.
Qed.

Lemma message_of_unique secs m m' : message_of secs m -> message_of secs m' -> m = m'.
Proof.
  destruct m as [? ? ? ? ? ? [? ? ?]], m' as [? ? ? ? ? ? [? ? ?]]. intros [] []. cbn in *. by subst.
Qed.

Lemma AmqpMessage_decode_sections input rest m :
  AmqpMessage_decode input = Ok (rest, m) <->
  rest = [] ∧ ∃ secs, sections_of input secs ∧ message_of secs m.
Proof.
  rewrite AmqpMessage_decode_spec. split.
  - intros (-> & secs & Hr%sections_of_iff & ->). split; [done|]. exists secs.
    split; [exact Hr|apply add_sections_message].
  - intros (-> & secs & Hr%sections_of_iff & Hm). split; [done|]. exists secs.
    split; [exact Hr|]. by eapply message_of_unique, add_sections_message.
Qed.

Lemma AmqpMessage_panics Q : Q ExplicitPanic -> panics Q AmqpMessage_decode.
Proof. intros HQ input. apply (AmqpMessage_loop_settles Q _ (S (length input))); auto with lia. Qed.

Lemma write_sections_reads secs :
  Forall MessageSection_wire_ok secs ->
  ∃ bs, emits (write_each MessageSection_encode secs) bs ∧ reads_sections bs secs.
Proof.
  induction 1 as [|sec secs Hs _ (bs & Hw & Hr)]; cbn [write_each].
  - exists []. split; [apply emits_ret|constructor].
  - destruct (round_trip (enc:=MessageSection_encode) (dec:=MessageSection_decode) _ Hs)
      as (b & Hb & Hp).
    exists (b ++ bs). split; [by apply emits_seq|].
    econstructor; [|apply Hp|done]. intros [-> _]%app_eq_nil.
    apply (consumes_parses 1) in Hp; [cbn in Hp; lia|]. apply amqp_consumes.
Qed.

(** The message read back is the message written. *)
Lemma AmqpMessage_wire m :
  AmqpMessage_wire_ok m ->
  ∃ bs, emits (AmqpMessage_encode m) bs ∧ AmqpMessage_decode bs = Ok ([], m).
Proof.
  intros (bs & Hw & Hr)%write_sections_reads. exists bs. split.
  - eapply emits_weq; [|exact Hw]. symmetry. apply AmqpMessage_encode_weq.
  - apply AmqpMessage_decode_spec. split; [done|]. eexists. split; [exact Hr|].
    by rewrite add_sections_all.
Qed.

Lemma AmqpMessage_add_ok sec m :
  MessageSection_ok sec -> AmqpMessage_ok m -> AmqpMessage_ok (AmqpMessage_add sec m).
Proof.
  destruct m as [h da ma p ap f [ds ss v]]. unfold AmqpMessage_ok, AmqpMessage_sections.
  intros Hs. destruct sec; cbn -[fmap app section_of] in *; rewrite !Forall_app; intros;
    destruct_and!; split_and!; try done;
    rewrite ?fmap_app, ?Forall_app; try split; try done; by apply Forall_singleton.
Qed.

Lemma reads_sections_ok input secs :
  reads_sections input secs -> Forall MessageSection_ok secs.
Proof.
  induction 1 as [|input rest sec secs _ Hd _ IH]; constructor; [|done].
  by eapply (amqp_sound (dec:=MessageSection_decode)).
Qed.

Lemma AmqpMessage_sound : sound AmqpMessage_decode AmqpMessage_ok.
Proof.
  intros input rest m (_ & secs & Hr%reads_sections_ok & ->)%AmqpMessage_decode_spec.
  assert (AmqpMessage_ok AmqpMessage_default) as H0 by constructor.
  revert H0. generalize AmqpMessage_default.
  induction Hr as [|sec secs Hs _ IH]; intros m Hm; [done|].
  apply IH. by apply AmqpMessage_add_ok.
Qed.
End message_laws.

(** *** Sizes *)

Section message_sizes.
Context {BO : ByteOrder} {X : AmqpExt}.

Definition MessageSection_fits (sec : MessageSection) : Prop :=
  match sec with
  | MessageSection_Header val => True
  | MessageSection_DeliveryAnnotations val | MessageSection_MessageAnnotations val
  | MessageSection_Footer val => Annotations_fits val
  | MessageSection_ApplicationProperties val => ApplicationProperties_fits val
  | MessageSection_Data val => True
  | MessageSection_AmqpSequence val => Forall Value_fits val
  | MessageSection_AmqpValue val => Value_fits val
  | MessageSection_Properties val => Properties_fits val
  end.
Definition AmqpMessage_fits (m : AmqpMessage) : Prop :=
  Forall MessageSection_fits (AmqpMessage_sections m).

Lemma fold_ext {A} (f g : Z -> A -> Z) l acc :
  (∀ a x, f a x = g a x) -> fold_left f l acc = fold_left g l acc.
Proof. intros Hfg. revert acc. induction l as [|x l IH]; intros acc; cbn; [done|]. by rewrite Hfg. Qed.

Lemma described_sized d (w : amqp_encoder) n :
  Descriptor_fits d -> sized w n ->
  sized (Descriptor_encode d;; w) (add32 n (Descriptor_encoded_size d)).
Proof.
  intros Hd Hw. eapply sized_eq; [apply sized_seq; [by apply size_exact|exact Hw]|].
  unfold add32. by rewrite Z.add_comm.
Qed.

Definition some_size {A} (o : option A) (n : A -> Z) : Z :=
  match o with Some a => n a | None => 0 end.

Lemma if_some_sized {A} (o : option A) enc n :
  (∀ a, o = Some a -> sized (enc a) (n a)) -> sized (if_some o enc) (some_size o n).
Proof. intros H. destruct o as [a|]; [by apply H|apply sized_ret]. Qed.

Lemma add_some_wrap {A} (o : option A) n size :
  add_some o n (wrap32 size) = wrap32 (size + some_size o n).
Proof. destruct o; cbn; wrap32_solve. Qed.

(** A loop that writes each element behind its descriptor. *)
Lemma described_each {A} d (enc : A -> amqp_encoder) (size : A -> Z) l :
  Descriptor_fits d -> Forall (λ x, sized (enc x) (size x)) l ->
  sized (write_each (λ x, Descriptor_encode d;; enc x) l)
    (fold_left (λ a x, add32 (add32 a (size x)) (Descriptor_encoded_size d)) l 0).
Proof.
  intros Hd Hl. eapply sized_eq.
  - apply (sized_each _ (λ x, add32 (size x) (Descriptor_encoded_size d))).
    eapply Forall_impl; [exact Hl|]. intros x Hx. by apply described_sized.
  - apply fold_ext. intros a x. wrap32_solve.
Qed.

Lemma MessageBody_sized b :
  Forall (Forall Value_fits) (sequence b) -> from_option Value_fits True (value b) ->
  sized (MessageBody_encode b) (MessageBody_encoded_size b).
Proof.
  intros Hs Hv. unfold MessageBody_encode, MessageBody_encoded_size. cbv zeta.
  eapply sized_eq.
  - eapply sized_seq; [apply described_each; [done|]|].
    { apply Forall_forall. intros d _. by apply size_exact. }
    eapply sized_seq; [apply described_each; [done|]|].
    { eapply Forall_impl; [exact Hs|]. intros l Hl. by apply size_exact. }
    change (match value b with Some val => _ | None => mret tt end) with
      (if_some (value b) (λ val, Descriptor_encode MESSAGE_BODY_VALUE;; Value_encode val)).
    apply if_some_sized. intros v Ev. rewrite Ev in Hv.
    apply described_sized; [done|]. by apply size_exact.
  - unfold some_size. destruct (value b); wrap32_solve.
Qed.

Lemma section_of_Forall {A} (P : MessageSection -> Prop) (f : A -> MessageSection) o a :
  Forall P (section_of f o) -> o = Some a -> P (f a).
Proof. intros H ->. cbn in H. by inversion H. Qed.

Lemma AmqpMessage_sized m :
  AmqpMessage_fits m -> sized (AmqpMessage_encode m) (AmqpMessage_encoded_size m).
Proof.
  unfold AmqpMessage_fits, AmqpMessage_sections. rewrite !Forall_app.
  intros (Hh & Hda & Hma & Hp & Hap & Hd & Hs & Hv & Hf).
  assert (sized (MessageBody_encode (body m)) (MessageBody_encoded_size (body m))) as Hb.
  { apply MessageBody_sized; [by rewrite Forall_fmap in Hs|].
    destruct (value (body m)) as [v|]; [|done]. by inversion Hv. }
  pose proof (sized_wrap _ _ Hb) as Hw.
  unfold AmqpMessage_encode, AmqpMessage_encoded_size.
  rewrite <- Hw, !add_some_wrap. eapply sized_eq.
  - eapply sized_seq.
    { apply if_some_sized. intros h _. by apply size_exact. }
    eapply sized_seq.
    { apply if_some_sized. intros a Ha. apply described_sized; [done|].
      apply size_exact. by apply (section_of_Forall _ _ _ _ Hda). }
    eapply sized_seq.
    { apply if_some_sized. intros a Ha. apply described_sized; [done|].
      apply size_exact. by apply (section_of_Forall _ _ _ _ Hma). }
    eapply sized_seq.
    { apply if_some_sized. intros a Ha.
      apply size_exact. by apply (section_of_Forall _ _ _ _ Hp). }
    eapply sized_seq.
    { apply if_some_sized. intros a Ha. apply described_sized; [done|].
      apply size_exact. by apply (section_of_Forall _ _ _ _ Hap). }
    eapply sized_seq.
    { exact Hb. }
    apply if_some_sized. intros a Ha. apply described_sized; [done|].
    apply size_exact. by apply (section_of_Forall _ _ _ _ Hf).
  - wrap32_sums.
Qed.
End message_sizes.

(** *** The message of the public interface *)

Section public_message.
Context {BO : ByteOrder} {X : AmqpExt}.

Definition Message_ok (m : Message) : Prop := AmqpMessage_ok (message m).
Definition Message_wire_ok (m : Message) : Prop := AmqpMessage_wire_ok (message m).
Definition Message_fits (m : Message) : Prop := AmqpMessage_fits (message m).

(** A message takes all of its input; its publishing id stays with the publisher. *)
Lemma Message_wire m :
  Message_wire_ok m ->
  ∃ bs, emits (Message_encode m) bs ∧ Message_decode bs = Ok ([], Message_new None (message m)).
Proof.
  intros (bs & Hw & Hr)%AmqpMessage_wire. exists bs.
  split; [by apply emits_map_werr|].
  unfold Message_decode, mbind, parser_bind, map_err. by rewrite Hr.
Qed.

#[global] Instance Message_sized : SizeExact Message_encode Message_encoded_size Message_fits.
Proof. intros m Hm. by apply sized_map_werr, AmqpMessage_sized. Qed.

Lemma Message_sound : sound Message_decode (λ m, Message_ok m ∧ publishing_id m = None).
Proof.
  eapply sound_bind; [apply sound_map_err, AmqpMessage_sound|]. intros m Hm.
  by apply sound_ret.
Qed.

Lemma Message_panics Q : Q ExplicitPanic -> panics Q Message_decode.
Proof.
  intros HQ. apply panics_bind; [by apply panics_map_err, AmqpMessage_panics|].
  intros m. apply panics_ret.
Qed.

Lemma Message_decode_all input rest m : Message_decode input = Ok (rest, m) -> rest = [].
Proof.
  unfold Message_decode, mbind, parser_bind, map_err.
  destruct (AmqpMessage_decode input) as [[i m']|e|x] eqn:Ed; [|done..].
  intros [= <- _]. by apply AmqpMessage_decode_spec in Ed as [-> _].
Qed.
End public_message.
