(* ===== verification/AmqpLimits.v ===== *)
(** * Property sections that are too long

    [Properties::encode] writes the code of the 8-bit list also when the content
    takes 255 bytes or more, and then a 32-bit size and count: the decoder reads
    two of those bytes as the size and the count of an empty list, and the rest
    as the next section. *)
From S2P Require Import Prelude Utf8 HashMaps Integers Codec Protocol.
From S2P Require Import AmqpCodes AmqpSimple AmqpValue AmqpMessage.

Section limits.
Context {BO : ByteOrder} {X : AmqpExt}.

Lemma read_byte v rest :
  u8_ok v -> incomplete read_u8 (byte_of_Z v :: rest) = Ok (rest, v).
Proof.
  intros Hv. destruct (read_u8_wire (E:=AmqpEncodeError.t) AmqpDecodeError.Incomplete v Hv)
    as (b & Hb & Hp).
  assert (b = [byte_of_Z v]) as ->.
  { specialize (Hb []). unfold write_be, write_all in Hb. rewrite bo_write_1 in Hb. by injection Hb. }
  exact (Hp rest).
Qed.

(** The first byte of a section is the code of a described type: 0. *)
Lemma section_byte v rest :
  1 <= v < 256 -> ∃ e, MessageSection_decode (byte_of_Z v :: rest) = Err e.
Proof.
  intros Hv. unfold MessageSection_decode, peek, mbind, parser_bind, Descriptor_decode.
  unfold mbind, parser_bind, TypeCode_decode, mbind, parser_bind.
  rewrite read_byte by (unfold unsigned_ok; lia).
  destruct (TypeCode_try_from v) as [tc|] eqn:Et; [|by eexists].
  destruct tc; try by eexists. exfalso. revert Et. clear -Hv.
  unfold TypeCode_try_from. destruct (Z.eqb_spec v 0); [lia|].
  repeat (destruct (_ =? _); [done|]). done.
Qed.

Lemma bo_write_4 z :
  bo_write 4 z = [byte_of_Z (z / 2 ^ 24); byte_of_Z (z / 2 ^ 16); byte_of_Z (z / 2 ^ 8); byte_of_Z z].
Proof. rewrite !bo_write_cons, bo_write_0. cbn. by rewrite Z.div_1_r. Qed.

Lemma byte_of_Z_mod z : byte_of_Z (z mod 256) = byte_of_Z z.
Proof. unfold byte_of_Z. by rewrite Z.mod_mod. Qed.

(** The section that was written long is read as an empty one, up to the third
    byte of its size. *)
Lemma long_list_read n rest :
  255 <= n < 65532 ->
  List_decode_with_fields list_decoder_properties Properties_default
    ([byte_of_Z (TypeCode_to_u8 TC_List8)] ++ bo_write 4 (n + 4) ++ rest) =
  Ok (byte_of_Z ((n + 4) / 2 ^ 8) :: byte_of_Z (n + 4) :: rest, Properties_default).
Proof.
  intros Hn. rewrite bo_write_4.
  replace ((n + 4) / 2 ^ 24) with 0 by (symmetry; apply Z.div_small; lia).
  replace ((n + 4) / 2 ^ 16) with 0 by (symmetry; apply Z.div_small; lia).
  cbn [app]. unfold List_decode_with_fields, TypeCode_decode, mbind, parser_bind.
  rewrite read_byte by done. rewrite TypeCode_try_from_to. cbn -[read_u8].
  rewrite read_byte by done. by rewrite read_byte by done.
Qed.

(** The message with the properties [p] and the body [b], nothing else. *)
Definition properties_message (p : Properties) (b : MessageBody) : AmqpMessage :=
  AmqpMessage_new None None None (Some p) None None b.

(** What [Properties::encode] writes after the count. *)
Definition Properties_fields_encode (p : Properties) : amqp_encoder :=
  Option_encode MessageId_encode (message_id p);;
  Option_encode Binary_encode (user_id p);;
  Option_encode Str_encode (to p);;
  Option_encode Str_encode (subject p);;
  Option_encode Str_encode (reply_to p);;
  Option_encode MessageId_encode (correlation_id p);;
  Option_encode Symbol_encode (content_type p);;
  Option_encode Symbol_encode (content_encoding p);;
  Option_encode Timestamp_encode (absolute_expiry_time p);;
  Option_encode Timestamp_encode (creation_time p);;
  Option_encode Str_encode (group_id p);;
  Option_encode UInt_encode (group_sequence p);;
  Option_encode Str_encode (reply_to_group_id p).

Lemma Properties_fields_emits p : Properties_fits p -> ∃ f, emits (Properties_fields_encode p) f.
Proof.
  intros [Hp _]. unfold Properties_all in Hp. destruct_and!.
  assert (∃ n, sized (Properties_fields_encode p) n) as (n & f & Hf & _); [|by exists f].
  eexists. unfold Properties_fields_encode. fields_sized_solve.
Qed.

Lemma Properties_long_emits p d :
  Properties_fits p -> 255 <= Properties_content_size p < 65532 ->
  emits (Descriptor_encode MESSAGE_PROPERTIES) d -> ∃ f,
    emits (Properties_encode p)
      (d ++ [byte_of_Z (TypeCode_to_u8 TC_List8)] ++ bo_write 4 (Properties_content_size p + 4) ++ f).
Proof.
  intros Hfits Hn Hd. destruct (Properties_fields_emits p Hfits) as (f & Hf).
  exists (bo_write 4 13 ++ f).
  assert (Hadd : add32 (Properties_content_size p) 1 = Properties_content_size p + 1)
    by (unfold add32, wrap32; apply Z.mod_small; lia).
  assert (Hadd4 : add32 (Properties_content_size p) 4 = Properties_content_size p + 4)
    by (unfold add32, wrap32; apply Z.mod_small; lia).
  unfold Properties_encode. cbv zeta. rewrite Hadd, Hadd4, (proj2 (Z.ltb_lt _ _)) by lia.
  apply emits_seq; [exact Hd|]. rewrite !app_assoc. apply emits_seq; [|exact Hf].
  rewrite <- app_assoc. apply emits_seq; [|apply emits_seq; apply emits_write_all].
  unfold TypeCode_encode. rewrite <- bo_write_1. apply emits_write_all.
Qed.

(** A message with long properties is encoded, and cannot be decoded. *)
Lemma properties_message_unreadable p b :
  Properties_fits p -> 255 <= Properties_content_size p < 65532 ->
  Forall (Forall Value_fits) (sequence b) -> from_option Value_fits True (value b) ->
  ∃ bs e, emits (AmqpMessage_encode (properties_message p b)) bs /\ AmqpMessage_decode bs = Err e.
Proof.
  intros Hfits Hn Hs Hv.
  destruct (round_trip (enc:=Descriptor_encode) (dec:=Descriptor_decode)
    MESSAGE_PROPERTIES) as (d & Hd & Hdd); [done|].
  destruct (Properties_long_emits p d Hfits Hn Hd) as (f & Hp).
  destruct (MessageBody_sized b Hs Hv) as (t & Ht & _).
  set (n := Properties_content_size p) in *.
  set (code := [byte_of_Z (TypeCode_to_u8 TC_List8)]) in *.
  set (k := (n + 4) / 2 ^ 8).
  assert (Hk : 1 <= k < 256).
  { subst k. split; [apply Z.div_le_lower_bound; lia|apply Z.div_lt_upper_bound; lia]. }
  destruct (section_byte k (byte_of_Z (n + 4) :: f ++ t) Hk) as [e He].
  exists ((d ++ code ++ bo_write 4 (n + 4) ++ f) ++ t), e. split.
  - assert (Ht' : emits (MessageBody_encode b;; mret tt) t).
    { rewrite <- (app_nil_r t). apply emits_seq; [exact Ht|apply emits_ret]. }
    exact (emits_seq _ _ _ _ Hp Ht').
  - rewrite <- !app_assoc. unfold AmqpMessage_decode. set (input := d ++ _).
    assert (Hsec : MessageSection_decode input =
                   Ok (byte_of_Z k :: byte_of_Z (n + 4) :: f ++ t,
                       MessageSection_Properties Properties_default)).
    { unfold MessageSection_decode, peek, mbind, parser_bind. subst input. rewrite Hdd.
      change (section_decoder MESSAGE_PROPERTIES) with
        (v ← Properties_decode; mret (MessageSection_Properties v) : amqp_decoder MessageSection).
      unfold Properties_decode, mbind, parser_bind. rewrite Hdd.
      change (Descriptor_eqb MESSAGE_PROPERTIES MESSAGE_PROPERTIES) with true. cbv iota.
      pose proof (long_list_read n (f ++ t) Hn) as Hl. fold code in Hl. by rewrite Hl. }
    clearbody input. destruct input as [|x input]; [done|].
    cbn [AmqpMessage_loop]. unfold mbind, parser_bind. rewrite Hsec.
    cbn [length AmqpMessage_loop]. unfold mbind, parser_bind. by rewrite He.
Qed.

End limits.
