(* ===== verification/Messages.v ===== *)
(** * Messages on the wire: the publish and deliver commands

    protocol/src/types.rs (PublishedMessage), protocol/src/codec/ (its encoder and
    decoder), protocol/src/commands/publish.rs and deliver.rs.

    A message travels behind its length, [encoded_size]: it can be read back when
    that size is the one of the bytes written ([Message_fits]). *)
From S2P Require Import Prelude Utf8 HashMaps Integers Codec Protocol.
From S2P Require Import AmqpCodes AmqpSimple AmqpValue AmqpMessage.

(** ** Published messages *)

Module published_message.
Section defs.
Context {BO : ByteOrder} {X : AmqpExt}.

Record PublishedMessage := PublishedMessage_new {
  publishing_id : Z;
  message : Message;
  filter_value : option bytes;
}.

Definition PublishedMessage_encoded_size (p : PublishedMessage) : Z :=
  add32 (add32 (u64_encoded_size (publishing_id p)) 4) (Message_encoded_size (message p)).
Definition PublishedMessage_encode (p : PublishedMessage) : encoder :=
  u64_encode (publishing_id p);;
  u32_encode (Message_encoded_size (message p));;
  Message_encode (message p).

Definition PublishedMessage_encoded_size_version_2 (p : PublishedMessage) : Z :=
  add32 (add32 (add32 (u64_encoded_size (publishing_id p))
    (opt_string_encoded_size (filter_value p))) 4) (Message_encoded_size (message p)).
Definition PublishedMessage_encode_version_2 (p : PublishedMessage) : encoder :=
  u64_encode (publishing_id p);;
  opt_string_encode (filter_value p);;
  u32_encode (Message_encoded_size (message p));;
  Message_encode (message p).

(** [read_vec::<u8>]. *)
Definition read_bytes : decoder bytes :=
  body ← read_vec u8_decode; mret (byte_of_Z <$> body).

Definition PublishedMessage_decode : decoder PublishedMessage :=
  publishing_id ← u64_decode;
  body ← read_bytes;
  message ← on body Message_decode;
  mret (PublishedMessage_new publishing_id message None).

Definition PublishedMessage_decode_version_2 : decoder PublishedMessage :=
  publishing_id ← u64_decode;
  body ← read_bytes;
  filter_value ← opt_string_decode;
  message ← on body Message_decode;
  mret (PublishedMessage_new publishing_id message filter_value).

(** *** [Vec<PublishedMessage>] *)

Definition vec_PublishedMessage_encoded_size (l : list PublishedMessage) : Z :=
  add32 4 (sum_sizes PublishedMessage_encoded_size l).
Definition vec_PublishedMessage_encode (l : list PublishedMessage) : encoder :=
  write_be 4 (wrap32 (len l));; write_each PublishedMessage_encode l.
Definition vec_PublishedMessage_encoded_size_version_2 (l : list PublishedMessage) : Z :=
  add32 4 (sum_sizes PublishedMessage_encoded_size_version_2 l).
Definition vec_PublishedMessage_encode_version_2 (l : list PublishedMessage) : encoder :=
  write_be 4 (wrap32 (len l));; write_each PublishedMessage_encode_version_2 l.

Definition vec_PublishedMessage_decode : decoder (list PublishedMessage) :=
  len ← u32_decode;
  loop_n len (λ result, published_message ← PublishedMessage_decode;
    mret (result ++ [published_message])) [].
End defs.
End published_message.
Export published_message.

(** ** protocol/src/commands/publish.rs *)

Module publish.
Section defs.
Context {BO : ByteOrder} {X : AmqpExt}.

Record PublishCommand := PublishCommand_new {
  publisher_id : Z;
  published_messages : list PublishedMessage;
  version : Z;
}.

#[global] Instance PublishCommand_command : Command PublishCommand :=
  {| command_key _ := COMMAND_PUBLISH; command_version x := version x |}.

Definition PublishCommand_encoded_size (x : PublishCommand) : Z :=
  if version x =? PROTOCOL_VERSION_2 then
    add32 (u8_encoded_size (publisher_id x))
      (vec_PublishedMessage_encoded_size_version_2 (published_messages x))
  else
    add32 (u8_encoded_size (publisher_id x))
      (vec_PublishedMessage_encoded_size (published_messages x)).

Definition PublishCommand_encode (x : PublishCommand) : encoder :=
  u8_encode (publisher_id x);;
  (if version x =? PROTOCOL_VERSION_2 then
     vec_PublishedMessage_encode_version_2 (published_messages x)
   else vec_PublishedMessage_encode (published_messages x)).

(** The version is the one of the struct, not the one of the header. *)
Definition PublishCommand_decode : decoder PublishCommand :=
  publisher_id ← u8_decode;
  published_messages ← vec_PublishedMessage_decode;
  mret (PublishCommand_new publisher_id published_messages 1).
End defs.
End publish.

(** ** protocol/src/commands/deliver.rs *)

Module deliver.
Section defs.
Context {BO : ByteOrder} {X : AmqpExt}.

Record DeliverCommand := DeliverCommand_new {
  subscription_id : Z;
  magic_version : Z;
  chunk_type : Z;
  num_entries : Z;
  timestamp : Z;
  epoch : Z;
  chunk_first_offset : Z;
  chunk_crc : Z;
  trailer_length : Z;
  reserved : Z;
  messages : list Message;
}.

#[global] Instance DeliverCommand_command : Command DeliverCommand :=
  {| command_key _ := COMMAND_DELIVER; command_version _ := PROTOCOL_VERSION |}.

(** One byte is counted for the length of a message, which takes four. *)
Definition messages_size (l : list Message) : Z :=
  fold_left (λ acc message, add32 (add32 acc 1) (Message_encoded_size message)) l 0.

Definition DeliverCommand_encoded_size (x : DeliverCommand) : Z :=
  fold_left add32 [
    i8_encoded_size (magic_version x);
    u8_encoded_size (chunk_type x);
    u16_encoded_size (num_entries x);
    4;
    u64_encoded_size (timestamp x);
    u64_encoded_size (epoch x);
    u64_encoded_size (chunk_first_offset x);
    i32_encoded_size (chunk_crc x);
    u32_encoded_size (trailer_length x);
    u32_encoded_size (reserved x);
    4;
    messages_size (messages x)] (u8_encoded_size (subscription_id x)).

Definition DeliverCommand_encode (x : DeliverCommand) : encoder :=
  u8_encode (subscription_id x);;
  i8_encode (magic_version x);;
  u8_encode (chunk_type x);;
  u16_encode (num_entries x);;
  u32_encode (wrap32 (len (messages x)));;
  u64_encode (timestamp x);;
  u64_encode (epoch x);;
  u64_encode (chunk_first_offset x);;
  i32_encode (chunk_crc x);;
  write_be 4 (messages_size (messages x));;
  u32_encode (trailer_length x);;
  u32_encode (reserved x);;
  write_each (λ message,
    u32_encode (Message_encoded_size message);; Message_encode message) (messages x).

Definition DeliverCommand_decode : decoder DeliverCommand :=
  subscription_id ← u8_decode;
  magic_version ← i8_decode;
  chunk_type ← u8_decode;
  num_entries ← u16_decode;
  num_records ← u32_decode;
  timestamp ← u64_decode;
  epoch ← u64_decode;
  chunk_first_offset ← u64_decode;
  chunk_crc ← i32_decode;
  _data_length ← u32_decode;
  trailer_length ← u32_decode;
  reserved ← u32_decode;
  messages ← loop_n num_records (λ messages,
    result ← read_bytes;
    message ← on result Message_decode;
    mret (messages ++ [message])) [];
  mret (DeliverCommand_new subscription_id magic_version chunk_type num_entries timestamp
    epoch chunk_first_offset chunk_crc trailer_length reserved messages).
End defs.
End deliver.

(** ** Laws *)

(** *** A message behind its length *)

Section framing.
Context {BO : ByteOrder} {X : AmqpExt}.

Lemma write_each_bytes bs : emits (write_each u8_encode (Z_of_byte <$> bs)) bs.
Proof.
  induction bs as [|b bs IH]; cbn [write_each fmap list_fmap]; [apply emits_ret|].
  apply (emits_seq _ _ [b]); [|exact IH].
  intros buf. unfold u8_encode, write_be, write_all. rewrite bo_write_1, byte_of_Z_of_byte. done.
Qed.

(** Bytes behind their length are read back as they are. *)
Lemma read_bytes_wire bs :
  len bs < 2 ^ 31 -> wire (u32_encode (wrap32 (len bs));; write_all bs) read_bytes bs.
Proof.
  intros Hl. unfold read_bytes.
  assert (len (Z_of_byte <$> bs) = len bs) as Hlen by (unfold len; by rewrite length_fmap).
  destruct (read_vec_wire u8_ok u8_encode u8_decode (Z_of_byte <$> bs)) as (b & Hb & Hp).
  - intros z. apply u8_wire.
  - split; [|by rewrite Hlen]. apply Forall_fmap, Forall_true. intros c. apply Z_of_byte_range.
  - assert (b = bo_write 4 (wrap32 (len bs)) ++ bs) as ->.
    { eapply emits_unique; [exact Hb|]. rewrite Hlen, <- len_u32_i32 by done.
      apply emits_seq; [apply emits_write_all|apply write_each_bytes]. }
    exists (bo_write 4 (wrap32 (len bs)) ++ bs). split.
    + apply emits_seq; apply emits_write_all.
    + intros rest. unfold mbind, parser_bind. rewrite Hp. unfold mret, parser_ret.
      rewrite <- list_fmap_compose. do 2 f_equal.
      rewrite <- (list_fmap_id bs) at 2. apply list_fmap_ext. intros _ c _.
      apply byte_of_Z_of_byte.
Qed.

Lemma u8_reads : Reads u8_decode u8_ok.
Proof. constructor; [apply u8_sound|apply u8_stable|by apply u8_consumes, le_0_n]. Qed.

#[global] Instance read_bytes_reads : Reads read_bytes (λ _, True).
Proof.
  pose proof (read_vec_reads _ _ u8_reads) as Hv.
  constructor; unfold read_bytes; [done|stable_solve|consumes_solve].
Qed.

(** What the length on 31 bits can announce. *)
Definition Message_short (m : Message) : Prop := len (Message_encode m []).1 < 2 ^ 31.
(** What a frame can carry: the message survives, and its announced size is the
    number of bytes written. *)
Definition Message_framed (m : Message) : Prop :=
  Message_wire_ok m ∧ Message_fits m ∧ Message_short m.

(** The receiver's copy: a publishing id is not part of the encoded message. *)
Definition received (m : Message) : Message := Message_new None (AmqpMessage.message m).

Definition framed_encode (m : Message) : encoder :=
  u32_encode (Message_encoded_size m);; Message_encode m.
Definition framed_decode : decoder Message := body ← read_bytes; on body Message_decode.

Lemma Message_framed_emits m :
  Message_framed m -> ∃ bs, emits (Message_encode m) bs ∧ len bs < 2 ^ 31 ∧
    Message_encoded_size m = wrap32 (len bs) ∧ Message_decode bs = Ok ([], received m).
Proof.
  intros (Hw & Hf & Hs). destruct (Message_wire m Hw) as (bs & Hb & Hd). exists bs.
  split_and!; [done| | |done].
  - unfold Message_short in Hs. by rewrite Hb in Hs.
  - destruct (size_exact (enc:=Message_encode) m Hf) as (bs' & Hb' & ->).
    by rewrite (emits_unique _ _ _ Hb Hb').
Qed.

Lemma framed_wire m : Message_framed m -> wire (framed_encode m) framed_decode (received m).
Proof.
  intros (bs & Hb & Hl & Hsz & Hd)%Message_framed_emits.
  destruct (read_bytes_wire bs Hl) as (b & He & Hp). exists b. split.
  - intros buf. rewrite <- He. unfold framed_encode. rewrite Hsz.
    unfold mbind, writer_bind. unfold u32_encode, write_be, write_all. by rewrite Hb.
  - intros rest. unfold framed_decode, mbind, parser_bind. rewrite Hp. unfold on.
    by rewrite Hd.
Qed.

Lemma framed_sound : sound framed_decode (λ m, Message_ok m ∧ AmqpMessage.publishing_id m = None).
Proof.
  eapply sound_bind; [apply sound_true|]. intros b _. apply sound_on, Message_sound.
Qed.

#[global] Instance framed_reads :
  Reads framed_decode (λ m, Message_ok m ∧ AmqpMessage.publishing_id m = None).
Proof.
  constructor; [apply framed_sound|unfold framed_decode; stable_solve|].
  unfold framed_decode. consumes_solve.
Qed.
End framing.

(** *** Published messages *)

Section published_laws.
Context {BO : ByteOrder} {X : AmqpExt}.

Definition PublishedMessage_ok (p : PublishedMessage) : Prop :=
  u64_ok (published_message.publishing_id p) ∧ Message_ok (published_message.message p) ∧
  opt_string_ok (filter_value p).
Definition PublishedMessage_wire (p : PublishedMessage) : Prop :=
  u64_ok (published_message.publishing_id p) ∧ Message_framed (published_message.message p).
Definition PublishedMessage_received (p : PublishedMessage) : PublishedMessage :=
  PublishedMessage_new (published_message.publishing_id p)
    (received (published_message.message p)) None.

Lemma PublishedMessage_v1_wire p :
  PublishedMessage_wire p ->
  wire (PublishedMessage_encode p) PublishedMessage_decode (PublishedMessage_received p).
Proof.
  intros [Hi Hm]. eapply wire_seq; [by apply u64_wire|]. cbv beta.
  destruct (framed_wire _ Hm) as (bs & Hb & Hp). exists bs. split; [exact Hb|].
  intros rest. specialize (Hp rest). revert Hp. unfold framed_decode, mbind, parser_bind.
  destruct (read_bytes (bs ++ rest)) as [[i b]|e|x]; [|done..].
  destruct (on b Message_decode i) as [[i' m]|e|x]; [|done..]. by intros [= -> ->].
Qed.

#[global] Instance PublishedMessage_reads : Reads PublishedMessage_decode PublishedMessage_ok.
Proof.
  constructor; unfold PublishedMessage_decode; [|stable_solve|consumes_solve].
  eapply sound_bind; [apply u64_sound|]. intros i Hi. eapply sound_bind; [apply sound_true|].
  intros b _. eapply sound_bind; [apply sound_on, Message_sound|]. intros m [Hm _].
  by apply sound_ret.
Qed.

(** The size of a published message, as the two versions write it. *)
Lemma PublishedMessage_sized p :
  Message_fits (published_message.message p) ->
  sized (PublishedMessage_encode p) (PublishedMessage_encoded_size p).
Proof. intros Hm. unfold PublishedMessage_encode, PublishedMessage_encoded_size. sized_solve. Qed.

Lemma PublishedMessage_sized_version_2 p :
  Message_fits (published_message.message p) ->
  sized (PublishedMessage_encode_version_2 p) (PublishedMessage_encoded_size_version_2 p).
Proof.
  intros Hm.
  unfold PublishedMessage_encode_version_2, PublishedMessage_encoded_size_version_2.
  sized_solve.
Qed.

#[global] Instance vec_PublishedMessage_reads :
  Reads vec_PublishedMessage_decode (Forall PublishedMessage_ok).
Proof.
  constructor; unfold vec_PublishedMessage_decode; [|stable_solve|consumes_solve].
  eapply sound_bind; [apply sound_true|]. intros n _. apply sound_collect, reads_sound.
Qed.

Lemma vec_PublishedMessage_v1_wire l :
  Forall PublishedMessage_wire l -> len l < 2 ^ 32 ->
  wire (vec_PublishedMessage_encode l) vec_PublishedMessage_decode
    (PublishedMessage_received <$> l).
Proof.
  intros Hl Hn. eapply wire_seq; [apply u32_wire, len_u32; done|]. cbv beta.
  apply wire_collect; [|by apply len_wrap32].
  eapply Forall_impl; [exact Hl|]. intros p Hp acc.
  eapply wire_last; [by apply PublishedMessage_v1_wire|done].
Qed.

Definition PublishedMessage_fits (p : PublishedMessage) : Prop :=
  Message_fits (published_message.message p).

Lemma vec_PublishedMessage_sized l :
  Forall PublishedMessage_fits l ->
  sized (vec_PublishedMessage_encode l) (vec_PublishedMessage_encoded_size l).
Proof.
  intros Hl. apply counted_sized, sized_each.
  eapply Forall_impl; [exact Hl|]. apply PublishedMessage_sized.
Qed.
Lemma vec_PublishedMessage_sized_version_2 l :
  Forall PublishedMessage_fits l ->
  sized (vec_PublishedMessage_encode_version_2 l)
    (vec_PublishedMessage_encoded_size_version_2 l).
Proof.
  intros Hl. apply counted_sized, sized_each.
  eapply Forall_impl; [exact Hl|]. apply PublishedMessage_sized_version_2.
Qed.
End published_laws.

(** *** The publish command *)

Section publish_laws.
Context {BO : ByteOrder} {X : AmqpExt}.
Import publish.

Definition PublishCommand_ok (x : PublishCommand) : Prop :=
  u8_ok (publisher_id x) ∧ Forall PublishedMessage_ok (published_messages x) ∧ version x = 1.
(** The first version of the command is the one its decoder reads. *)
Definition PublishCommand_wire (x : PublishCommand) : Prop :=
  u8_ok (publisher_id x) ∧ Forall PublishedMessage_wire (published_messages x) ∧
  len (published_messages x) < 2 ^ 32 ∧ version x = 1.
Definition PublishCommand_received (x : PublishCommand) : PublishCommand :=
  PublishCommand_new (publisher_id x) (PublishedMessage_received <$> published_messages x) 1.
Definition PublishCommand_fits (x : PublishCommand) : Prop :=
  Forall PublishedMessage_fits (published_messages x).

Lemma PublishCommand_v1_wire x :
  PublishCommand_wire x ->
  wire (PublishCommand_encode x) PublishCommand_decode (PublishCommand_received x).
Proof.
  intros (Hi & Hl & Hn & Hv). unfold PublishCommand_encode. rewrite Hv.
  eapply wire_seq; [by apply u8_wire|]. cbv beta.
  eapply wire_last; [by apply vec_PublishedMessage_v1_wire|done].
Qed.

#[global] Instance PublishCommand_sized :
  SizeExact PublishCommand_encode PublishCommand_encoded_size PublishCommand_fits.
Proof.
  intros x Hx. unfold PublishCommand_encode, PublishCommand_encoded_size.
  destruct (version x =? PROTOCOL_VERSION_2);
    (eapply sized_eq; [apply sized_seq; [apply u8_sized|]|reflexivity]).
  - by apply vec_PublishedMessage_sized_version_2.
  - by apply vec_PublishedMessage_sized.
Qed.

#[global] Instance PublishCommand_reads : Reads PublishCommand_decode PublishCommand_ok.
Proof. reads. Qed.
End publish_laws.

(** *** The deliver command *)

Section deliver_laws.
Context {BO : ByteOrder} {X : AmqpExt}.
Import deliver.

Definition DeliverCommand_header (x : DeliverCommand) : Prop :=
  u8_ok (subscription_id x) ∧ i8_ok (magic_version x) ∧ u8_ok (chunk_type x) ∧
  u16_ok (num_entries x) ∧ u64_ok (timestamp x) ∧ u64_ok (epoch x) ∧
  u64_ok (chunk_first_offset x) ∧ i32_ok (chunk_crc x) ∧ u32_ok (trailer_length x) ∧
  u32_ok (reserved x).
Definition DeliverCommand_ok (x : DeliverCommand) : Prop :=
  DeliverCommand_header x ∧
  Forall (λ m, Message_ok m ∧ AmqpMessage.publishing_id m = None) (messages x).
Definition DeliverCommand_wire (x : DeliverCommand) : Prop :=
  DeliverCommand_header x ∧ Forall Message_framed (messages x) ∧ len (messages x) < 2 ^ 32.
Definition DeliverCommand_received (x : DeliverCommand) : DeliverCommand :=
  DeliverCommand_new (subscription_id x) (magic_version x) (chunk_type x) (num_entries x)
    (timestamp x) (epoch x) (chunk_first_offset x) (chunk_crc x) (trailer_length x)
    (reserved x) (received <$> messages x).

Lemma messages_wire l :
  Forall Message_framed l ->
  wire (write_each framed_encode l)
    (loop_n (len l) (λ messages,
      result ← read_bytes; message ← on result Message_decode; mret (messages ++ [message])) [])
    (received <$> l).
Proof.
  intros Hl. apply wire_collect; [|done]. eapply Forall_impl; [exact Hl|].
  intros m Hm acc. eapply wire_ext.
  - eapply (wire_last _ framed_decode (λ m, mret (acc ++ [m])));
      [by apply framed_wire|reflexivity].
  - intros input. unfold framed_decode, mbind, parser_bind.
    by destruct (read_bytes input) as [[i b]|e|x].
Qed.

Lemma DeliverCommand_wire_received x :
  DeliverCommand_wire x ->
  wire (DeliverCommand_encode x) DeliverCommand_decode (DeliverCommand_received x).
Proof.
  intros ((? & ? & ? & ? & ? & ? & ? & ? & ? & ?) & Hm & Hl).
  unfold DeliverCommand_encode, DeliverCommand_decode. rewrite (len_wrap32 _ Hl).
  assert (u32_ok (len (messages x))) by (rewrite <- len_wrap32 by done; by apply len_u32).
  assert (u32_ok (messages_size (messages x))).
  { unfold messages_size. destruct (messages x) as [|m l] using rev_ind; [done|].
    rewrite fold_left_app. apply wrap32_u32. }
  do 12 (eapply wire_seq; [eauto with wire|]; cbv beta).
  eapply wire_last; [by apply messages_wire|done].
Qed.

#[global] Instance DeliverCommand_reads : Reads DeliverCommand_decode DeliverCommand_ok.
Proof.
  assert (∀ n, Reads (loop_n n (λ messages,
    result ← read_bytes; message ← on result Message_decode; mret (messages ++ [message])) [])
    (Forall (λ m, Message_ok m ∧ AmqpMessage.publishing_id m = None))) as Hloop.
  { intros n. constructor; [|stable_solve|consumes_solve].
    apply sound_loop; [constructor|]. intros ms Hms.
    eapply sound_bind; [apply sound_true|]. intros b _.
    eapply sound_bind; [apply sound_on, Message_sound|]. intros m Hm. apply sound_ret.
    apply Forall_app. split; [done|]. by apply Forall_singleton. }
  unfold DeliverCommand_decode. constructor; [|stable_solve|consumes_solve].
  do 12 (eapply sound_bind; [solve [auto with sound]|]; intros).
  eapply sound_bind; [apply reads_sound|]. intros ms Hms. apply sound_ret.
  by split.
Qed.
End deliver_laws.
