(* ===== verification/Request.v ===== *)
(** * Requests

    protocol/src/request/mod.rs and shims.rs: the frame of a request, a length,
    a header and the body its key announces. *)
From S2P Require Import Prelude Utf8 HashMaps Integers Codec Protocol.
From S2P Require Import Session Streams Producing Consuming.
From S2P Require Import AmqpCodes AmqpSimple AmqpValue AmqpMessage Messages.

Module request.
Section defs.
Context {BO : ByteOrder} {X : AmqpExt}.

Inductive RequestKind :=
  | RequestKind_PeerProperties (cmd : peer_properties.PeerPropertiesCommand)
  | RequestKind_SaslHandshake (cmd : sasl_handshake.SaslHandshakeCommand)
  | RequestKind_SaslAuthenticate (cmd : sasl_authenticate.SaslAuthenticateCommand)
  | RequestKind_Tunes (cmd : tune.TunesCommand)
  | RequestKind_Open (cmd : open.OpenCommand)
  | RequestKind_Close (cmd : close.CloseRequest)
  | RequestKind_Delete (cmd : delete.Delete)
  | RequestKind_CreateStream (cmd : create_stream.CreateStreamCommand)
  | RequestKind_Subscribe (cmd : subscribe.SubscribeCommand)
  | RequestKind_Credit (cmd : credit.CreditCommand)
  | RequestKind_Metadata (cmd : metadata.MetadataCommand)
  | RequestKind_DeclarePublisher (cmd : declare_publisher.DeclarePublisherCommand)
  | RequestKind_DeletePublisher (cmd : delete_publisher.DeletePublisherCommand)
  | RequestKind_Heartbeat (cmd : heart_beat.HeartBeatCommand)
  | RequestKind_Publish (cmd : publish.PublishCommand)
  | RequestKind_QueryOffset (cmd : query_offset.QueryOffsetRequest)
  | RequestKind_QueryPublisherSequence (cmd : query_publisher_sequence.QueryPublisherRequest)
  | RequestKind_StoreOffset (cmd : store_offset.StoreOffset)
  | RequestKind_Unsubscribe (cmd : unsubscribe.UnSubscribeCommand)
  | RequestKind_ExchangeCommandVersions (cmd : exchange_command_versions.ExchangeCommandVersionsRequest)
  | RequestKind_CreateSuperStream (cmd : create_super_stream.CreateSuperStreamCommand)
  | RequestKind_DeleteSuperStream (cmd : delete_super_stream.DeleteSuperStreamCommand)
  | RequestKind_SuperStreamPartitions (cmd : superstream_partitions.SuperStreamPartitionsRequest)
  | RequestKind_SuperStreamRoute (cmd : superstream_route.SuperStreamRouteRequest)
  | RequestKind_ConsumerUpdateRequest (cmd : consumer_update_request.ConsumerUpdateRequestCommand).

Record Request := Request_new { header : Header; kind : RequestKind }.

Definition RequestKind_encoded_size (kind : RequestKind) : Z :=
  match kind with
  | RequestKind_PeerProperties cmd => peer_properties.PeerPropertiesCommand_encoded_size cmd
  | RequestKind_SaslHandshake cmd => sasl_handshake.SaslHandshakeCommand_encoded_size cmd
  | RequestKind_SaslAuthenticate cmd => sasl_authenticate.SaslAuthenticateCommand_encoded_size cmd
  | RequestKind_Tunes cmd => tune.TunesCommand_encoded_size cmd
  | RequestKind_Open cmd => open.OpenCommand_encoded_size cmd
  | RequestKind_Close cmd => close.CloseRequest_encoded_size cmd
  | RequestKind_Delete cmd => delete.Delete_encoded_size cmd
  | RequestKind_CreateStream cmd => create_stream.CreateStreamCommand_encoded_size cmd
  | RequestKind_Subscribe cmd => subscribe.SubscribeCommand_encoded_size cmd
  | RequestKind_Credit cmd => credit.CreditCommand_encoded_size cmd
  | RequestKind_Metadata cmd => metadata.MetadataCommand_encoded_size cmd
  | RequestKind_DeclarePublisher cmd => declare_publisher.DeclarePublisherCommand_encoded_size cmd
  | RequestKind_DeletePublisher cmd => delete_publisher.DeletePublisherCommand_encoded_size cmd
  | RequestKind_Heartbeat cmd => heart_beat.HeartBeatCommand_encoded_size cmd
  | RequestKind_Publish cmd => publish.PublishCommand_encoded_size cmd
  | RequestKind_QueryOffset cmd => query_offset.QueryOffsetRequest_encoded_size cmd
  | RequestKind_QueryPublisherSequence cmd => query_publisher_sequence.QueryPublisherRequest_encoded_size cmd
  | RequestKind_StoreOffset cmd => store_offset.StoreOffset_encoded_size cmd
  | RequestKind_Unsubscribe cmd => unsubscribe.UnSubscribeCommand_encoded_size cmd
  | RequestKind_ExchangeCommandVersions cmd => exchange_command_versions.ExchangeCommandVersionsRequest_encoded_size cmd
  | RequestKind_CreateSuperStream cmd => create_super_stream.CreateSuperStreamCommand_encoded_size cmd
  | RequestKind_DeleteSuperStream cmd => delete_super_stream.DeleteSuperStreamCommand_encoded_size cmd
  | RequestKind_SuperStreamPartitions cmd => superstream_partitions.SuperStreamPartitionsRequest_encoded_size cmd
  | RequestKind_SuperStreamRoute cmd => superstream_route.SuperStreamRouteRequest_encoded_size cmd
  | RequestKind_ConsumerUpdateRequest cmd => consumer_update_request.ConsumerUpdateRequestCommand_encoded_size cmd
  end.

Definition RequestKind_encode (kind : RequestKind) : encoder :=
  match kind with
  | RequestKind_PeerProperties cmd => peer_properties.PeerPropertiesCommand_encode cmd
  | RequestKind_SaslHandshake cmd => sasl_handshake.SaslHandshakeCommand_encode cmd
  | RequestKind_SaslAuthenticate cmd => sasl_authenticate.SaslAuthenticateCommand_encode cmd
  | RequestKind_Tunes cmd => tune.TunesCommand_encode cmd
  | RequestKind_Open cmd => open.OpenCommand_encode cmd
  | RequestKind_Close cmd => close.CloseRequest_encode cmd
  | RequestKind_Delete cmd => delete.Delete_encode cmd
  | RequestKind_CreateStream cmd => create_stream.CreateStreamCommand_encode cmd
  | RequestKind_Subscribe cmd => subscribe.SubscribeCommand_encode cmd
  | RequestKind_Credit cmd => credit.CreditCommand_encode cmd
  | RequestKind_Metadata cmd => metadata.MetadataCommand_encode cmd
  | RequestKind_DeclarePublisher cmd => declare_publisher.DeclarePublisherCommand_encode cmd
  | RequestKind_DeletePublisher cmd => delete_publisher.DeletePublisherCommand_encode cmd
  | RequestKind_Heartbeat cmd => heart_beat.HeartBeatCommand_encode cmd
  | RequestKind_Publish cmd => publish.PublishCommand_encode cmd
  | RequestKind_QueryOffset cmd => query_offset.QueryOffsetRequest_encode cmd
  | RequestKind_QueryPublisherSequence cmd => query_publisher_sequence.QueryPublisherRequest_encode cmd
  | RequestKind_StoreOffset cmd => store_offset.StoreOffset_encode cmd
  | RequestKind_Unsubscribe cmd => unsubscribe.UnSubscribeCommand_encode cmd
  | RequestKind_ExchangeCommandVersions cmd => exchange_command_versions.ExchangeCommandVersionsRequest_encode cmd
  | RequestKind_CreateSuperStream cmd => create_super_stream.CreateSuperStreamCommand_encode cmd
  | RequestKind_DeleteSuperStream cmd => delete_super_stream.DeleteSuperStreamCommand_encode cmd
  | RequestKind_SuperStreamPartitions cmd => superstream_partitions.SuperStreamPartitionsRequest_encode cmd
  | RequestKind_SuperStreamRoute cmd => superstream_route.SuperStreamRouteRequest_encode cmd
  | RequestKind_ConsumerUpdateRequest cmd => consumer_update_request.ConsumerUpdateRequestCommand_encode cmd
  end.

Definition Request_encoded_size (r : Request) : Z :=
  add32 (Header_encoded_size (header r)) (RequestKind_encoded_size (kind r)).
Definition Request_encode (r : Request) : encoder :=
  write_be 4 (Request_encoded_size r);;
  Header_encode (header r);;
  RequestKind_encode (kind r).

(** The [match header.key()]. *)
Definition request_kind_decoder (key : Z) : decoder RequestKind :=
  if key =? COMMAND_OPEN then
    kind ← open.OpenCommand_decode; mret (RequestKind_Open kind)
  else if key =? COMMAND_PEER_PROPERTIES then
    kind ← peer_properties.PeerPropertiesCommand_decode; mret (RequestKind_PeerProperties kind)
  else if key =? COMMAND_SASL_HANDSHAKE then
    kind ← sasl_handshake.SaslHandshakeCommand_decode; mret (RequestKind_SaslHandshake kind)
  else if key =? COMMAND_SASL_AUTHENTICATE then
    kind ← sasl_authenticate.SaslAuthenticateCommand_decode; mret (RequestKind_SaslAuthenticate kind)
  else if key =? COMMAND_TUNE then
    kind ← tune.TunesCommand_decode; mret (RequestKind_Tunes kind)
  else if key =? COMMAND_DELETE_STREAM then
    kind ← delete.Delete_decode; mret (RequestKind_Delete kind)
  else if key =? COMMAND_CREATE_STREAM then
    kind ← create_stream.CreateStreamCommand_decode; mret (RequestKind_CreateStream kind)
  else if key =? COMMAND_METADATA then
    kind ← metadata.MetadataCommand_decode; mret (RequestKind_Metadata kind)
  else if key =? COMMAND_CLOSE then
    kind ← close.CloseRequest_decode; mret (RequestKind_Close kind)
  else if key =? COMMAND_CREDIT then
    kind ← credit.CreditCommand_decode; mret (RequestKind_Credit kind)
  else if key =? COMMAND_DECLARE_PUBLISHER then
    kind ← declare_publisher.DeclarePublisherCommand_decode; mret (RequestKind_DeclarePublisher kind)
  else if key =? COMMAND_DELETE_PUBLISHER then
    kind ← delete_publisher.DeletePublisherCommand_decode; mret (RequestKind_DeletePublisher kind)
  else if key =? COMMAND_HEARTBEAT then
    kind ← heart_beat.HeartBeatCommand_decode; mret (RequestKind_Heartbeat kind)
  else if key =? COMMAND_PUBLISH then
    kind ← publish.PublishCommand_decode; mret (RequestKind_Publish kind)
  else if key =? COMMAND_QUERY_OFFSET then
    kind ← query_offset.QueryOffsetRequest_decode; mret (RequestKind_QueryOffset kind)
  else if key =? COMMAND_QUERY_PUBLISHER_SEQUENCE then
    kind ← query_publisher_sequence.QueryPublisherRequest_decode; mret (RequestKind_QueryPublisherSequence kind)
  else if key =? COMMAND_STORE_OFFSET then
    kind ← store_offset.StoreOffset_decode; mret (RequestKind_StoreOffset kind)
  else if key =? COMMAND_SUBSCRIBE then
    kind ← subscribe.SubscribeCommand_decode; mret (RequestKind_Subscribe kind)
  else if key =? COMMAND_UNSUBSCRIBE then
    kind ← unsubscribe.UnSubscribeCommand_decode; mret (RequestKind_Unsubscribe kind)
  else if key =? COMMAND_EXCHANGE_COMMAND_VERSIONS then
    kind ← exchange_command_versions.ExchangeCommandVersionsRequest_decode; mret (RequestKind_ExchangeCommandVersions kind)
  else if key =? COMMAND_CREATE_SUPER_STREAM then
    kind ← create_super_stream.CreateSuperStreamCommand_decode; mret (RequestKind_CreateSuperStream kind)
  else if key =? COMMAND_DELETE_SUPER_STREAM then
    kind ← delete_super_stream.DeleteSuperStreamCommand_decode; mret (RequestKind_DeleteSuperStream kind)
  else if key =? COMMAND_PARTITIONS then
    kind ← superstream_partitions.SuperStreamPartitionsRequest_decode; mret (RequestKind_SuperStreamPartitions kind)
  else if key =? COMMAND_ROUTE then
    kind ← superstream_route.SuperStreamRouteRequest_decode; mret (RequestKind_SuperStreamRoute kind)
  else if key =? COMMAND_CONSUMER_UPDATE_REQUEST then
    kind ← consumer_update_request.ConsumerUpdateRequestCommand_decode; mret (RequestKind_ConsumerUpdateRequest kind)
  else fail (DecodeError.UnsupportedResponseType key).

Definition Request_decode : decoder Request :=
  _ ← u32_decode;
  header ← Header_decode;
  cmd ← request_kind_decoder (key header);
  mret (Request_new header cmd).
End defs.

(** ** shims.rs: [impl From<T> for RequestKind], [impl From<T> for Request] *)

Class IntoRequestKind {X : AmqpExt} (T : Type) := into_kind : T -> RequestKind.

Definition Request_from {X : AmqpExt} {T} `{!Command T, !IntoRequestKind T} (cmd : T) : Request :=
  Request_new (Header_new (command_key cmd) (command_version cmd)) (into_kind cmd).

Section shims.
Context {X : AmqpExt}.

#[global] Instance PeerPropertiesCommand_into : IntoRequestKind peer_properties.PeerPropertiesCommand := RequestKind_PeerProperties.
#[global] Instance SaslHandshakeCommand_into : IntoRequestKind sasl_handshake.SaslHandshakeCommand := RequestKind_SaslHandshake.
#[global] Instance SaslAuthenticateCommand_into : IntoRequestKind sasl_authenticate.SaslAuthenticateCommand := RequestKind_SaslAuthenticate.
#[global] Instance TunesCommand_into : IntoRequestKind tune.TunesCommand := RequestKind_Tunes.
#[global] Instance OpenCommand_into : IntoRequestKind open.OpenCommand := RequestKind_Open.
#[global] Instance CloseRequest_into : IntoRequestKind close.CloseRequest := RequestKind_Close.
#[global] Instance Delete_into : IntoRequestKind delete.Delete := RequestKind_Delete.
#[global] Instance CreateStreamCommand_into : IntoRequestKind create_stream.CreateStreamCommand := RequestKind_CreateStream.
#[global] Instance SubscribeCommand_into : IntoRequestKind subscribe.SubscribeCommand := RequestKind_Subscribe.
#[global] Instance CreditCommand_into : IntoRequestKind credit.CreditCommand := RequestKind_Credit.
#[global] Instance MetadataCommand_into : IntoRequestKind metadata.MetadataCommand := RequestKind_Metadata.
#[global] Instance DeclarePublisherCommand_into : IntoRequestKind declare_publisher.DeclarePublisherCommand := RequestKind_DeclarePublisher.
#[global] Instance DeletePublisherCommand_into : IntoRequestKind delete_publisher.DeletePublisherCommand := RequestKind_DeletePublisher.
#[global] Instance HeartBeatCommand_into : IntoRequestKind heart_beat.HeartBeatCommand := RequestKind_Heartbeat.
#[global] Instance PublishCommand_into : IntoRequestKind publish.PublishCommand := RequestKind_Publish.
#[global] Instance QueryOffsetRequest_into : IntoRequestKind query_offset.QueryOffsetRequest := RequestKind_QueryOffset.
#[global] Instance QueryPublisherRequest_into : IntoRequestKind query_publisher_sequence.QueryPublisherRequest := RequestKind_QueryPublisherSequence.
#[global] Instance StoreOffset_into : IntoRequestKind store_offset.StoreOffset := RequestKind_StoreOffset.
#[global] Instance UnSubscribeCommand_into : IntoRequestKind unsubscribe.UnSubscribeCommand := RequestKind_Unsubscribe.
#[global] Instance ExchangeCommandVersionsRequest_into : IntoRequestKind exchange_command_versions.ExchangeCommandVersionsRequest := RequestKind_ExchangeCommandVersions.
#[global] Instance CreateSuperStreamCommand_into : IntoRequestKind create_super_stream.CreateSuperStreamCommand := RequestKind_CreateSuperStream.
#[global] Instance DeleteSuperStreamCommand_into : IntoRequestKind delete_super_stream.DeleteSuperStreamCommand := RequestKind_DeleteSuperStream.
#[global] Instance SuperStreamPartitionsRequest_into : IntoRequestKind superstream_partitions.SuperStreamPartitionsRequest := RequestKind_SuperStreamPartitions.
#[global] Instance SuperStreamRouteRequest_into : IntoRequestKind superstream_route.SuperStreamRouteRequest := RequestKind_SuperStreamRoute.
#[global] Instance ConsumerUpdateRequestCommand_into : IntoRequestKind consumer_update_request.ConsumerUpdateRequestCommand := RequestKind_ConsumerUpdateRequest.
End shims.
End request.
Export request.

(** ** Laws *)

Section laws.
Context {BO : ByteOrder} {X : AmqpExt}.

(** The key that announces a kind of body. *)
Definition RequestKind_key (kind : RequestKind) : Z :=
  match kind with
  | RequestKind_PeerProperties _ => COMMAND_PEER_PROPERTIES
  | RequestKind_SaslHandshake _ => COMMAND_SASL_HANDSHAKE
  | RequestKind_SaslAuthenticate _ => COMMAND_SASL_AUTHENTICATE
  | RequestKind_Tunes _ => COMMAND_TUNE
  | RequestKind_Open _ => COMMAND_OPEN
  | RequestKind_Close _ => COMMAND_CLOSE
  | RequestKind_Delete _ => COMMAND_DELETE_STREAM
  | RequestKind_CreateStream _ => COMMAND_CREATE_STREAM
  | RequestKind_Subscribe _ => COMMAND_SUBSCRIBE
  | RequestKind_Credit _ => COMMAND_CREDIT
  | RequestKind_Metadata _ => COMMAND_METADATA
  | RequestKind_DeclarePublisher _ => COMMAND_DECLARE_PUBLISHER
  | RequestKind_DeletePublisher _ => COMMAND_DELETE_PUBLISHER
  | RequestKind_Heartbeat _ => COMMAND_HEARTBEAT
  | RequestKind_Publish _ => COMMAND_PUBLISH
  | RequestKind_QueryOffset _ => COMMAND_QUERY_OFFSET
  | RequestKind_QueryPublisherSequence _ => COMMAND_QUERY_PUBLISHER_SEQUENCE
  | RequestKind_StoreOffset _ => COMMAND_STORE_OFFSET
  | RequestKind_Unsubscribe _ => COMMAND_UNSUBSCRIBE
  | RequestKind_ExchangeCommandVersions _ => COMMAND_EXCHANGE_COMMAND_VERSIONS
  | RequestKind_CreateSuperStream _ => COMMAND_CREATE_SUPER_STREAM
  | RequestKind_DeleteSuperStream _ => COMMAND_DELETE_SUPER_STREAM
  | RequestKind_SuperStreamPartitions _ => COMMAND_PARTITIONS
  | RequestKind_SuperStreamRoute _ => COMMAND_ROUTE
  | RequestKind_ConsumerUpdateRequest _ => COMMAND_CONSUMER_UPDATE_REQUEST
  end.

Definition RequestKind_ok (kind : RequestKind) : Prop :=
  match kind with
  | RequestKind_PeerProperties cmd => peer_properties.PeerPropertiesCommand_ok cmd
  | RequestKind_SaslHandshake cmd => sasl_handshake.SaslHandshakeCommand_ok cmd
  | RequestKind_SaslAuthenticate cmd => sasl_authenticate.SaslAuthenticateCommand_ok cmd
  | RequestKind_Tunes cmd => tune.TunesCommand_ok cmd
  | RequestKind_Open cmd => open.OpenCommand_ok cmd
  | RequestKind_Close cmd => close.CloseRequest_ok cmd
  | RequestKind_Delete cmd => delete.Delete_ok cmd
  | RequestKind_CreateStream cmd => create_stream.CreateStreamCommand_ok cmd
  | RequestKind_Subscribe cmd => subscribe.SubscribeCommand_ok cmd
  | RequestKind_Credit cmd => credit.CreditCommand_ok cmd
  | RequestKind_Metadata cmd => metadata.MetadataCommand_ok cmd
  | RequestKind_DeclarePublisher cmd => declare_publisher.DeclarePublisherCommand_ok cmd
  | RequestKind_DeletePublisher cmd => delete_publisher.DeletePublisherCommand_ok cmd
  | RequestKind_Heartbeat cmd => heart_beat.HeartBeatCommand_ok cmd
  | RequestKind_Publish cmd => PublishCommand_ok cmd
  | RequestKind_QueryOffset cmd => query_offset.QueryOffsetRequest_ok cmd
  | RequestKind_QueryPublisherSequence cmd => query_publisher_sequence.QueryPublisherRequest_ok cmd
  | RequestKind_StoreOffset cmd => store_offset.StoreOffset_ok cmd
  | RequestKind_Unsubscribe cmd => unsubscribe.UnSubscribeCommand_ok cmd
  | RequestKind_ExchangeCommandVersions cmd => exchange_command_versions.ExchangeCommandVersionsRequest_ok cmd
  | RequestKind_CreateSuperStream cmd => create_super_stream.CreateSuperStreamCommand_ok cmd
  | RequestKind_DeleteSuperStream cmd => delete_super_stream.DeleteSuperStreamCommand_ok cmd
  | RequestKind_SuperStreamPartitions cmd => superstream_partitions.SuperStreamPartitionsRequest_ok cmd
  | RequestKind_SuperStreamRoute cmd => superstream_route.SuperStreamRouteRequest_ok cmd
  | RequestKind_ConsumerUpdateRequest cmd => consumer_update_request.ConsumerUpdateRequestCommand_ok cmd
  end.

(** The bodies that survive the trip: the reply to a consumer update does not,
    whatever its fields, as its key is cut to 15 bits by the header. *)
Definition RequestKind_wire (kind : RequestKind) : Prop :=
  match kind with
  | RequestKind_PeerProperties cmd => peer_properties.PeerPropertiesCommand_wire cmd
  | RequestKind_SaslHandshake cmd => sasl_handshake.SaslHandshakeCommand_ok cmd
  | RequestKind_SaslAuthenticate cmd => sasl_authenticate.SaslAuthenticateCommand_wire cmd
  | RequestKind_Tunes cmd => tune.TunesCommand_ok cmd
  | RequestKind_Open cmd => open.OpenCommand_wire cmd
  | RequestKind_Close cmd => close.CloseRequest_wire cmd
  | RequestKind_Delete cmd => delete.Delete_wire cmd
  | RequestKind_CreateStream cmd => create_stream.CreateStreamCommand_wire cmd
  | RequestKind_Subscribe cmd => subscribe.SubscribeCommand_wire cmd
  | RequestKind_Credit cmd => credit.CreditCommand_ok cmd
  | RequestKind_Metadata cmd => metadata.MetadataCommand_wire cmd
  | RequestKind_DeclarePublisher cmd => declare_publisher.DeclarePublisherCommand_wire cmd
  | RequestKind_DeletePublisher cmd => delete_publisher.DeletePublisherCommand_ok cmd
  | RequestKind_Heartbeat cmd => heart_beat.HeartBeatCommand_ok cmd
  | RequestKind_Publish cmd => PublishCommand_wire cmd
  | RequestKind_QueryOffset cmd => query_offset.QueryOffsetRequest_wire cmd
  | RequestKind_QueryPublisherSequence cmd => query_publisher_sequence.QueryPublisherRequest_wire cmd
  | RequestKind_StoreOffset cmd => store_offset.StoreOffset_wire cmd
  | RequestKind_Unsubscribe cmd => unsubscribe.UnSubscribeCommand_ok cmd
  | RequestKind_ExchangeCommandVersions cmd => exchange_command_versions.ExchangeCommandVersionsRequest_wire cmd
  | RequestKind_CreateSuperStream cmd => create_super_stream.CreateSuperStreamCommand_wire cmd
  | RequestKind_DeleteSuperStream cmd => delete_super_stream.DeleteSuperStreamCommand_wire cmd
  | RequestKind_SuperStreamPartitions cmd => superstream_partitions.SuperStreamPartitionsRequest_wire cmd
  | RequestKind_SuperStreamRoute cmd => superstream_route.SuperStreamRouteRequest_wire cmd
  | RequestKind_ConsumerUpdateRequest cmd => False
  end.

(** The bodies whose size is the number of bytes written. *)
Definition RequestKind_fits (kind : RequestKind) : Prop :=
  match kind with
  | RequestKind_Publish cmd => PublishCommand_fits cmd
  | RequestKind_QueryOffset x => len (query_offset.reference x) < 256
  | RequestKind_QueryPublisherSequence x => len (query_publisher_sequence.publisher_reference x) < 256
  | RequestKind_StoreOffset x => len (store_offset.reference x) < 256
  | _ => True
  end.

Definition RequestKind_received (kind : RequestKind) : RequestKind :=
  match kind with
  | RequestKind_Publish cmd => RequestKind_Publish (PublishCommand_received cmd)
  | _ => kind
  end.

Definition Request_wire (r : Request) : Prop :=
  key (header r) = RequestKind_key (kind r) ∧ u16_ok (version (header r)) ∧
  RequestKind_wire (kind r).
Definition Request_ok (r : Request) : Prop :=
  Header_ok (header r) ∧ RequestKind_ok (kind r).
Definition Request_fits (r : Request) : Prop := RequestKind_fits (kind r).
Definition Request_received (r : Request) : Request :=
  Request_new (header r) (RequestKind_received (kind r)).

Lemma RequestKind_body_wire kind :
  RequestKind_wire kind ->
  wire (RequestKind_encode kind) (request_kind_decoder (RequestKind_key kind))
    (RequestKind_received kind).
Proof.
  intros Hk. destruct kind; cbn [RequestKind_encode RequestKind_key RequestKind_wire
    RequestKind_received] in *; try done; unfold request_kind_decoder;
    (eapply wire_ext; [|intros input; reflexivity]);
    (eapply (wire_last _ _ (λ k, mret (_ k)));
      [first [by apply round_trip|by apply PublishCommand_v1_wire]|reflexivity]).
Qed.

Lemma RequestKind_sized kind :
  RequestKind_fits kind -> sized (RequestKind_encode kind) (RequestKind_encoded_size kind).
Proof.
  intros Hk. destruct kind; cbn [RequestKind_encode RequestKind_encoded_size
    RequestKind_fits] in *; by apply size_exact.
Qed.

#[global] Instance RequestKind_reads k : Reads (request_kind_decoder k) RequestKind_ok.
Proof.
  constructor; unfold request_kind_decoder; [|stable_solve|consumes_solve].
  sound_solve; done.
Qed.

Lemma RequestKind_key_small kind :
  RequestKind_wire kind -> 0 <= RequestKind_key kind < 2 ^ 15.
Proof. destruct kind; intros Hw; first [by destruct Hw|by split]. Qed.

(** The body of a frame: what follows the length. *)
Definition Request_body_encode (r : Request) : encoder :=
  Header_encode (header r);; RequestKind_encode (kind r).

Lemma Request_body_sized r :
  Request_fits r -> sized (Request_body_encode r) (Request_encoded_size r).
Proof.
  intros Hr. apply sized_seq; [by apply size_exact|by apply RequestKind_sized].
Qed.

(** The length in front of a frame is the number of bytes that follow it. *)
Lemma Request_frame r :
  Request_fits r -> ∃ bs,
    emits (Request_encode r) (bo_write 4 (wrap32 (len bs)) ++ bs) ∧
    emits (Request_body_encode r) bs ∧ Request_encoded_size r = wrap32 (len bs).
Proof.
  intros (bs & Hb & Hn)%Request_body_sized. exists bs. split_and!; [|done|done].
  unfold Request_encode. rewrite Hn. apply emits_seq; [apply emits_write_all|exact Hb].
Qed.

Lemma Request_wire_received r :
  Request_wire r -> wire (Request_encode r) Request_decode (Request_received r).
Proof.
  intros (Hk & Hv & Hw). eapply wire_seq.
  - apply u32_wire. apply wrap32_u32.
  - cbv beta. eapply wire_seq.
    + apply round_trip. split; [|done]. rewrite Hk. by apply RequestKind_key_small.
    + cbv beta. rewrite Hk. eapply wire_last; [by apply RequestKind_body_wire|done].
Qed.

#[global] Instance Request_reads : Reads Request_decode Request_ok.
Proof.
  constructor; unfold Request_decode; [|stable_solve|consumes_solve].
  eapply sound_bind; [apply sound_true|]. intros n _.
  eapply sound_bind; [apply reads_sound|]. intros h Hh.
  eapply sound_bind; [apply reads_sound|]. intros k Hk. by apply sound_ret.
Qed.

(** The requests the client builds carry the key of their body. *)
Class RequestCommand {T} `{!Command T, !IntoRequestKind T} := {
  command_key_kind (cmd : T) : command_key cmd = RequestKind_key (into_kind cmd);
}.
#[global] Hint Mode RequestCommand ! - - : typeclass_instances.

Lemma Request_from_wire {T} `{RequestCommand T} (cmd : T) :
  u16_ok (command_version cmd) -> RequestKind_wire (into_kind cmd) ->
  Request_wire (Request_from cmd).
Proof. intros Hv Hw. split_and!; [apply command_key_kind|done|done]. Qed.

#[global] Instance PeerPropertiesCommand_request : RequestCommand (T:=peer_properties.PeerPropertiesCommand).
Proof. by constructor. Qed.
#[global] Instance SaslHandshakeCommand_request : RequestCommand (T:=sasl_handshake.SaslHandshakeCommand).
Proof. by constructor. Qed.
#[global] Instance SaslAuthenticateCommand_request : RequestCommand (T:=sasl_authenticate.SaslAuthenticateCommand).
Proof. by constructor. Qed.
#[global] Instance TunesCommand_request : RequestCommand (T:=tune.TunesCommand).
Proof. by constructor. Qed.
#[global] Instance OpenCommand_request : RequestCommand (T:=open.OpenCommand).
Proof. by constructor. Qed.
#[global] Instance CloseRequest_request : RequestCommand (T:=close.CloseRequest).
Proof. by constructor. Qed.
#[global] Instance Delete_request : RequestCommand (T:=delete.Delete).
Proof. by constructor. Qed.
#[global] Instance CreateStreamCommand_request : RequestCommand (T:=create_stream.CreateStreamCommand).
Proof. by constructor. Qed.
#[global] Instance SubscribeCommand_request : RequestCommand (T:=subscribe.SubscribeCommand).
Proof. by constructor. Qed.
#[global] Instance CreditCommand_request : RequestCommand (T:=credit.CreditCommand).
Proof. by constructor. Qed.
#[global] Instance MetadataCommand_request : RequestCommand (T:=metadata.MetadataCommand).
Proof. by constructor. Qed.
#[global] Instance DeclarePublisherCommand_request : RequestCommand (T:=declare_publisher.DeclarePublisherCommand).
Proof. by constructor. Qed.
#[global] Instance DeletePublisherCommand_request : RequestCommand (T:=delete_publisher.DeletePublisherCommand).
Proof. by constructor. Qed.
#[global] Instance HeartBeatCommand_request : RequestCommand (T:=heart_beat.HeartBeatCommand).
Proof. by constructor. Qed.
#[global] Instance PublishCommand_request : RequestCommand (T:=publish.PublishCommand).
Proof. by constructor. Qed.
#[global] Instance QueryOffsetRequest_request : RequestCommand (T:=query_offset.QueryOffsetRequest).
Proof. by constructor. Qed.
#[global] Instance QueryPublisherRequest_request : RequestCommand (T:=query_publisher_sequence.QueryPublisherRequest).
Proof. by constructor. Qed.
#[global] Instance StoreOffset_request : RequestCommand (T:=store_offset.StoreOffset).
Proof. by constructor. Qed.
#[global] Instance UnSubscribeCommand_request : RequestCommand (T:=unsubscribe.UnSubscribeCommand).
Proof. by constructor. Qed.
#[global] Instance ExchangeCommandVersionsRequest_request : RequestCommand (T:=exchange_command_versions.ExchangeCommandVersionsRequest).
Proof. by constructor. Qed.
#[global] Instance CreateSuperStreamCommand_request : RequestCommand (T:=create_super_stream.CreateSuperStreamCommand).
Proof. by constructor. Qed.
#[global] Instance DeleteSuperStreamCommand_request : RequestCommand (T:=delete_super_stream.DeleteSuperStreamCommand).
Proof. by constructor. Qed.
#[global] Instance SuperStreamPartitionsRequest_request : RequestCommand (T:=superstream_partitions.SuperStreamPartitionsRequest).
Proof. by constructor. Qed.
#[global] Instance SuperStreamRouteRequest_request : RequestCommand (T:=superstream_route.SuperStreamRouteRequest).
Proof. by constructor. Qed.
#[global] Instance ConsumerUpdateRequestCommand_request : RequestCommand (T:=consumer_update_request.ConsumerUpdateRequestCommand).
Proof. by constructor. Qed.

(** The key of a consumer update reply has the response bit set: the header loses
    it, and the frame is rejected. *)
Lemma ConsumerUpdateRequest_rejected
    (cmd : consumer_update_request.ConsumerUpdateRequestCommand) rest :
  ∃ bs, emits (Request_encode (Request_from cmd)) bs ∧
    Request_decode (bs ++ rest) = Err (DecodeError.UnsupportedResponseType 26).
Proof.
  set (r := Request_from cmd).
  assert (sized (RequestKind_encode (kind r)) (RequestKind_encoded_size (kind r))) as (b & Hb & _)
    by (by apply RequestKind_sized).
  destruct (u32_wire (Request_encoded_size r)) as (b1 & H1 & P1); [apply wrap32_u32|].
  destruct (u16_wire COMMAND_CONSUMER_UPDATE_REQUEST) as (b2 & H2 & P2); [done|].
  destruct (u16_wire PROTOCOL_VERSION) as (b3 & H3 & P3); [done|].
  exists (b1 ++ (b2 ++ b3) ++ b). split.
  - apply emits_seq; [exact H1|]. apply emits_seq; [by apply emits_seq|exact Hb].
  - unfold Request_decode, mbind, parser_bind. rewrite <- !app_assoc, P1.
    unfold Header_decode, mbind, parser_bind. by rewrite P2, P3.
Qed.
End laws.
