(* ===== verification/Response.v ===== *)
(** * Responses

    protocol/src/response/mod.rs, and the [FromResponse] of protocol/src/commands/:
    what the client reads from the connection, replies and notifications alike. *)
From S2P Require Import Prelude Utf8 HashMaps Integers Codec Protocol.
From S2P Require Import Session Streams Producing Consuming.
From S2P Require Import AmqpCodes AmqpSimple AmqpValue AmqpMessage Messages.

Module response.
Section defs.
Context {BO : ByteOrder} {X : AmqpExt}.

Inductive ResponseKind :=
  | ResponseKind_Open (response : open.OpenResponse)
  | ResponseKind_Close (response : close.CloseResponse)
  | ResponseKind_PeerProperties (response : peer_properties.PeerPropertiesResponse)
  | ResponseKind_SaslHandshake (response : sasl_handshake.SaslHandshakeResponse)
  | ResponseKind_Generic (response : generic.GenericResponse)
  | ResponseKind_Tunes (response : tune.TunesCommand)
  | ResponseKind_Deliver (response : deliver.DeliverCommand)
  | ResponseKind_Heartbeat (response : heart_beat.HeartbeatResponse)
  | ResponseKind_Metadata (response : metadata.MetadataResponse)
  | ResponseKind_MetadataUpdate (response : metadata_update.MetadataUpdateCommand)
  | ResponseKind_PublishConfirm (response : publish_confirm.PublishConfirm)
  | ResponseKind_PublishError (response : publish_error.PublishErrorResponse)
  | ResponseKind_QueryOffset (response : query_offset.QueryOffsetResponse)
  | ResponseKind_QueryPublisherSequence (response : query_publisher_sequence.QueryPublisherResponse)
  | ResponseKind_Credit (response : credit.CreditResponse)
  | ResponseKind_ExchangeCommandVersions (response : exchange_command_versions.ExchangeCommandVersionsResponse)
  | ResponseKind_SuperStreamPartitions (response : superstream_partitions.SuperStreamPartitionsResponse)
  | ResponseKind_SuperStreamRoute (response : superstream_route.SuperStreamRouteResponse)
  | ResponseKind_ConsumerUpdate (response : consumer_update.ConsumerUpdateCommand)
  | ResponseKind_ConsumerUpdateRequest (response : consumer_update_request.ConsumerUpdateRequestCommand).

Record Response := Response_new { header : Header; kind : ResponseKind }.

Definition Response_correlation_id (r : Response) : option Z :=
  match kind r with
  | ResponseKind_Open response => Some (open.r_correlation_id response)
  | ResponseKind_Close response => Some (close.r_correlation_id response)
  | ResponseKind_PeerProperties response => Some (peer_properties.r_correlation_id response)
  | ResponseKind_SaslHandshake response => Some (sasl_handshake.r_correlation_id response)
  | ResponseKind_Generic response => Some (generic.correlation_id response)
  | ResponseKind_Tunes _ => None
  | ResponseKind_Deliver _ => None
  | ResponseKind_Heartbeat _ => None
  | ResponseKind_Metadata response => Some (metadata.r_correlation_id response)
  | ResponseKind_MetadataUpdate _ => None
  | ResponseKind_PublishConfirm _ => None
  | ResponseKind_PublishError _ => None
  | ResponseKind_QueryOffset response => Some (query_offset.r_correlation_id response)
  | ResponseKind_QueryPublisherSequence response => Some (query_publisher_sequence.r_correlation_id response)
  | ResponseKind_Credit _ => None
  | ResponseKind_ExchangeCommandVersions response => Some (exchange_command_versions.r_correlation_id response)
  | ResponseKind_SuperStreamPartitions response => Some (superstream_partitions.r_correlation_id response)
  | ResponseKind_SuperStreamRoute response => Some (superstream_route.r_correlation_id response)
  | ResponseKind_ConsumerUpdate response => Some (consumer_update.correlation_id response)
  | ResponseKind_ConsumerUpdateRequest response => Some (consumer_update_request.correlation_id response)
  end.

(** The [match header.key()]. *)
Definition response_kind_decoder (key : Z) : decoder ResponseKind :=
  if key =? COMMAND_OPEN then
    kind ← open.OpenResponse_decode; mret (ResponseKind_Open kind)
  else if key =? COMMAND_CLOSE then
    kind ← close.CloseResponse_decode; mret (ResponseKind_Close kind)
  else if key =? COMMAND_PEER_PROPERTIES then
    kind ← peer_properties.PeerPropertiesResponse_decode; mret (ResponseKind_PeerProperties kind)
  else if key =? COMMAND_SASL_HANDSHAKE then
    kind ← sasl_handshake.SaslHandshakeResponse_decode; mret (ResponseKind_SaslHandshake kind)
  else if existsb (Z.eqb key) [
    COMMAND_DECLARE_PUBLISHER;
    COMMAND_DELETE_PUBLISHER;
    COMMAND_SASL_AUTHENTICATE;
    COMMAND_SUBSCRIBE;
    COMMAND_UNSUBSCRIBE;
    COMMAND_CREATE_STREAM;
    COMMAND_CREATE_SUPER_STREAM;
    COMMAND_DELETE_SUPER_STREAM;
    COMMAND_CONSUMER_UPDATE_REQUEST;
    COMMAND_DELETE_STREAM] then
    kind ← generic.GenericResponse_decode; mret (ResponseKind_Generic kind)
  else if key =? COMMAND_TUNE then
    kind ← tune.TunesCommand_decode; mret (ResponseKind_Tunes kind)
  else if key =? COMMAND_DELIVER then
    kind ← deliver.DeliverCommand_decode; mret (ResponseKind_Deliver kind)
  else if key =? COMMAND_HEARTBEAT then
    kind ← heart_beat.HeartbeatResponse_decode; mret (ResponseKind_Heartbeat kind)
  else if key =? COMMAND_METADATA then
    kind ← metadata.MetadataResponse_decode; mret (ResponseKind_Metadata kind)
  else if key =? COMMAND_METADATA_UPDATE then
    kind ← metadata_update.MetadataUpdateCommand_decode; mret (ResponseKind_MetadataUpdate kind)
  else if key =? COMMAND_PUBLISH_CONFIRM then
    kind ← publish_confirm.PublishConfirm_decode; mret (ResponseKind_PublishConfirm kind)
  else if key =? COMMAND_PUBLISH_ERROR then
    kind ← publish_error.PublishErrorResponse_decode; mret (ResponseKind_PublishError kind)
  else if key =? COMMAND_QUERY_OFFSET then
    kind ← query_offset.QueryOffsetResponse_decode; mret (ResponseKind_QueryOffset kind)
  else if key =? COMMAND_CREDIT then
    kind ← credit.CreditResponse_decode; mret (ResponseKind_Credit kind)
  else if key =? COMMAND_QUERY_PUBLISHER_SEQUENCE then
    kind ← query_publisher_sequence.QueryPublisherResponse_decode; mret (ResponseKind_QueryPublisherSequence kind)
  else if key =? COMMAND_EXCHANGE_COMMAND_VERSIONS then
    kind ← exchange_command_versions.ExchangeCommandVersionsResponse_decode; mret (ResponseKind_ExchangeCommandVersions kind)
  else if key =? COMMAND_PARTITIONS then
    kind ← superstream_partitions.SuperStreamPartitionsResponse_decode; mret (ResponseKind_SuperStreamPartitions kind)
  else if key =? COMMAND_ROUTE then
    kind ← superstream_route.SuperStreamRouteResponse_decode; mret (ResponseKind_SuperStreamRoute kind)
  else if key =? COMMAND_CONSUMER_UPDATE then
    kind ← consumer_update.ConsumerUpdateCommand_decode; mret (ResponseKind_ConsumerUpdate kind)
  else fail (DecodeError.UnsupportedResponseType key).

Definition Response_decode : decoder Response :=
  _ ← u32_decode;
  header ← Header_decode;
  kind ← response_kind_decoder (key header);
  mret (Response_new header kind).
End defs.

(** ** [FromResponse] *)

Class FromResponse {X : AmqpExt} (T : Type) := from_response : Response -> option T.

Definition Response_get {X : AmqpExt} {T} `{!FromResponse T} (r : Response) : option T :=
  from_response r.

Section from_response.
Context {X : AmqpExt}.

#[global] Instance CloseResponse_from : FromResponse close.CloseResponse := λ r,
  match kind r with ResponseKind_Close response => Some response | _ => None end.
#[global] Instance ExchangeCommandVersionsResponse_from : FromResponse exchange_command_versions.ExchangeCommandVersionsResponse := λ r,
  match kind r with ResponseKind_ExchangeCommandVersions response => Some response | _ => None end.
#[global] Instance GenericResponse_from : FromResponse generic.GenericResponse := λ r,
  match kind r with ResponseKind_Generic response => Some response | _ => None end.
#[global] Instance MetadataResponse_from : FromResponse metadata.MetadataResponse := λ r,
  match kind r with ResponseKind_Metadata response => Some response | _ => None end.
#[global] Instance OpenResponse_from : FromResponse open.OpenResponse := λ r,
  match kind r with ResponseKind_Open response => Some response | _ => None end.
#[global] Instance PeerPropertiesResponse_from : FromResponse peer_properties.PeerPropertiesResponse := λ r,
  match kind r with ResponseKind_PeerProperties response => Some response | _ => None end.
#[global] Instance QueryOffsetResponse_from : FromResponse query_offset.QueryOffsetResponse := λ r,
  match kind r with ResponseKind_QueryOffset response => Some response | _ => None end.
#[global] Instance QueryPublisherResponse_from : FromResponse query_publisher_sequence.QueryPublisherResponse := λ r,
  match kind r with ResponseKind_QueryPublisherSequence response => Some response | _ => None end.
#[global] Instance SaslHandshakeResponse_from : FromResponse sasl_handshake.SaslHandshakeResponse := λ r,
  match kind r with ResponseKind_SaslHandshake response => Some response | _ => None end.
#[global] Instance SuperStreamPartitionsResponse_from : FromResponse superstream_partitions.SuperStreamPartitionsResponse := λ r,
  match kind r with ResponseKind_SuperStreamPartitions response => Some response | _ => None end.
#[global] Instance SuperStreamRouteResponse_from : FromResponse superstream_route.SuperStreamRouteResponse := λ r,
  match kind r with ResponseKind_SuperStreamRoute response => Some response | _ => None end.
#[global] Instance TunesCommand_from : FromResponse tune.TunesCommand := λ r,
  match kind r with ResponseKind_Tunes response => Some response | _ => None end.
End from_response.
End response.
Export response.

(** ** Laws *)

Section laws.
Context {BO : ByteOrder} {X : AmqpExt}.

Definition ResponseKind_ok (kind : ResponseKind) : Prop :=
  match kind with
  | ResponseKind_Open response => open.OpenResponse_ok response
  | ResponseKind_Close response => close.CloseResponse_ok response
  | ResponseKind_PeerProperties response => peer_properties.PeerPropertiesResponse_ok response
  | ResponseKind_SaslHandshake response => sasl_handshake.SaslHandshakeResponse_ok response
  | ResponseKind_Generic response => generic.GenericResponse_ok response
  | ResponseKind_Tunes response => tune.TunesCommand_ok response
  | ResponseKind_Deliver response => DeliverCommand_ok response
  | ResponseKind_Heartbeat response => heart_beat.HeartbeatResponse_ok response
  | ResponseKind_Metadata response => metadata.MetadataResponse_ok response
  | ResponseKind_MetadataUpdate response => metadata_update.MetadataUpdateCommand_ok response
  | ResponseKind_PublishConfirm response => publish_confirm.PublishConfirm_ok response
  | ResponseKind_PublishError response => publish_error.PublishErrorResponse_ok response
  | ResponseKind_QueryOffset response => query_offset.QueryOffsetResponse_ok response
  | ResponseKind_QueryPublisherSequence response => query_publisher_sequence.QueryPublisherResponse_ok response
  | ResponseKind_Credit response => credit.CreditResponse_ok response
  | ResponseKind_ExchangeCommandVersions response => exchange_command_versions.ExchangeCommandVersionsResponse_ok response
  | ResponseKind_SuperStreamPartitions response => superstream_partitions.SuperStreamPartitionsResponse_ok response
  | ResponseKind_SuperStreamRoute response => superstream_route.SuperStreamRouteResponse_ok response
  | ResponseKind_ConsumerUpdate response => consumer_update.ConsumerUpdateCommand_ok response
  | ResponseKind_ConsumerUpdateRequest response => consumer_update_request.ConsumerUpdateRequestCommand_ok response
  end.

Definition Response_ok (r : Response) : Prop := Header_ok (header r) ∧ ResponseKind_ok (kind r).

#[global] Instance ResponseKind_reads k : Reads (response_kind_decoder k) ResponseKind_ok.
Proof.
  constructor; unfold response_kind_decoder; [|stable_solve|consumes_solve].
  sound_solve; done.
Qed.

#[global] Instance Response_reads : Reads Response_decode Response_ok.
Proof.
  constructor; unfold Response_decode; [|stable_solve|consumes_solve].
  eapply sound_bind; [apply sound_true|]. intros n _.
  eapply sound_bind; [apply reads_sound|]. intros h Hh.
  eapply sound_bind; [apply reads_sound|]. intros k Hk. by apply sound_ret.
Qed.

Lemma Response_consumes : consumes 8 Response_decode.
Proof.
  apply (consumes_bind 4 4); [by apply u32_consumes|]. intros n.
  apply consumes_bind_l; [|consumes_solve].
  apply (consumes_bind 2 2); [by apply u16_consumes|]. intros k.
  apply consumes_bind_l; [by apply u16_consumes|]. consumes_solve.
Qed.

(** A frame of the server: the key of a reply has the response bit set. *)
Definition Response_frame (reply : bool) (key version size : Z) (body : encoder) : encoder :=
  u32_encode size;;
  Header_encode (Header_new (if reply then encode_response_code key else key) version);;
  body.

Lemma extract_encode_response_code key :
  0 <= key < 2 ^ 15 -> extract_response_code (encode_response_code key) = key.
Proof.
  intros Hk. unfold extract_response_code, encode_response_code.
  rewrite Z.land_lor_distr_l. change (Z.land 32768 32767) with 0.
  rewrite Z.lor_0_r. by apply extract_response_code_low.
Qed.

Lemma encode_response_code_u16 key : 0 <= key < 2 ^ 15 -> u16_ok (encode_response_code key).
Proof.
  intros Hk. unfold unsigned_ok, encode_response_code. split.
  - apply Z.lor_nonneg. lia.
  - destruct (decide (Z.lor key 32768 = 0)) as [->|Hn]; [lia|].
    apply Z.log2_lt_pow2; [pose proof (Z.lor_nonneg key 32768); lia|].
    rewrite Z.log2_lor by lia. change (Z.log2 32768) with 15.
    destruct (decide (key = 0)) as [->|Hk0]; [done|].
    assert (Z.log2 key < 15) by (apply Z.log2_lt_pow2; lia). lia.
Qed.

(** A frame is decoded by the decoder of its key, with or without the response bit. *)
Lemma Response_frame_wire reply key version size body kind :
  0 <= key < 2 ^ 15 -> u16_ok version -> u32_ok size ->
  wire body (response_kind_decoder key) kind ->
  wire (Response_frame reply key version size body) Response_decode
    (Response_new (Header_new key version) kind).
Proof.
  intros Hk Hv Hs Hw. eapply wire_seq; [by apply u32_wire|]. cbv beta.
  eapply (wire_seq _ _ _ _ (Header_new key version)).
  - unfold Header_encode, Header_decode. cbn [Protocol.key Protocol.version].
    eapply wire_seq.
    + apply u16_wire. destruct reply; [by apply encode_response_code_u16|].
      unfold unsigned_ok. lia.
    + cbv beta. eapply wire_last; [by apply u16_wire|]. intros input. destruct reply.
      * by rewrite extract_encode_response_code.
      * by rewrite extract_response_code_low.
  - cbv beta. eapply wire_last; [exact Hw|done].
Qed.
(** What the server writes, for each kind of body. *)
Definition ResponseKind_encode (kind : ResponseKind) : encoder :=
  match kind with
  | ResponseKind_Open response => open.OpenResponse_encode response
  | ResponseKind_Close response => close.CloseResponse_encode response
  | ResponseKind_PeerProperties response => peer_properties.PeerPropertiesResponse_encode response
  | ResponseKind_SaslHandshake response => sasl_handshake.SaslHandshakeResponse_encode response
  | ResponseKind_Generic response => generic.GenericResponse_encode response
  | ResponseKind_Tunes response => tune.TunesCommand_encode response
  | ResponseKind_Deliver response => deliver.DeliverCommand_encode response
  | ResponseKind_Heartbeat response => heart_beat.HeartbeatResponse_encode response
  | ResponseKind_Metadata response => metadata.MetadataResponse_encode response
  | ResponseKind_MetadataUpdate response => metadata_update.MetadataUpdateCommand_encode response
  | ResponseKind_PublishConfirm response => publish_confirm.PublishConfirm_encode response
  | ResponseKind_PublishError response => publish_error.PublishErrorResponse_encode response
  | ResponseKind_QueryOffset response => query_offset.QueryOffsetResponse_encode response
  | ResponseKind_QueryPublisherSequence response => query_publisher_sequence.QueryPublisherResponse_encode response
  | ResponseKind_Credit response => credit.CreditResponse_encode response
  | ResponseKind_ExchangeCommandVersions response => exchange_command_versions.ExchangeCommandVersionsResponse_encode response
  | ResponseKind_SuperStreamPartitions response => superstream_partitions.SuperStreamPartitionsResponse_encode response
  | ResponseKind_SuperStreamRoute response => superstream_route.SuperStreamRouteResponse_encode response
  | ResponseKind_ConsumerUpdate response => consumer_update.ConsumerUpdateCommand_encode response
  | ResponseKind_ConsumerUpdateRequest response =>
      consumer_update_request.ConsumerUpdateRequestCommand_encode response
  end.

(** The commands whose reply is a correlation id and a code. *)
Definition generic_keys : list Z :=
  [COMMAND_DECLARE_PUBLISHER; COMMAND_DELETE_PUBLISHER; COMMAND_SASL_AUTHENTICATE;
   COMMAND_SUBSCRIBE; COMMAND_UNSUBSCRIBE; COMMAND_CREATE_STREAM; COMMAND_CREATE_SUPER_STREAM;
   COMMAND_DELETE_SUPER_STREAM; COMMAND_DELETE_STREAM].

(** The keys that announce a kind of body: none for the reply to a consumer
    update, which is not a response. *)
Definition ResponseKind_keys (kind : ResponseKind) : list Z :=
  match kind with
  | ResponseKind_Open _ => [COMMAND_OPEN]
  | ResponseKind_Close _ => [COMMAND_CLOSE]
  | ResponseKind_PeerProperties _ => [COMMAND_PEER_PROPERTIES]
  | ResponseKind_SaslHandshake _ => [COMMAND_SASL_HANDSHAKE]
  | ResponseKind_Generic _ => generic_keys
  | ResponseKind_Tunes _ => [COMMAND_TUNE]
  | ResponseKind_Deliver _ => [COMMAND_DELIVER]
  | ResponseKind_Heartbeat _ => [COMMAND_HEARTBEAT]
  | ResponseKind_Metadata _ => [COMMAND_METADATA]
  | ResponseKind_MetadataUpdate _ => [COMMAND_METADATA_UPDATE]
  | ResponseKind_PublishConfirm _ => [COMMAND_PUBLISH_CONFIRM]
  | ResponseKind_PublishError _ => [COMMAND_PUBLISH_ERROR]
  | ResponseKind_QueryOffset _ => [COMMAND_QUERY_OFFSET]
  | ResponseKind_QueryPublisherSequence _ => [COMMAND_QUERY_PUBLISHER_SEQUENCE]
  | ResponseKind_Credit _ => [COMMAND_CREDIT]
  | ResponseKind_ExchangeCommandVersions _ => [COMMAND_EXCHANGE_COMMAND_VERSIONS]
  | ResponseKind_SuperStreamPartitions _ => [COMMAND_PARTITIONS]
  | ResponseKind_SuperStreamRoute _ => [COMMAND_ROUTE]
  | ResponseKind_ConsumerUpdate _ => [COMMAND_CONSUMER_UPDATE]
  | ResponseKind_ConsumerUpdateRequest _ => []
  end.

Definition ResponseKind_wire (kind : ResponseKind) : Prop :=
  match kind with
  | ResponseKind_Open response => open.OpenResponse_wire response
  | ResponseKind_Close response => close.CloseResponse_ok response
  | ResponseKind_PeerProperties response => peer_properties.PeerPropertiesResponse_wire response
  | ResponseKind_SaslHandshake response => sasl_handshake.SaslHandshakeResponse_wire response
  | ResponseKind_Generic response => generic.GenericResponse_ok response
  | ResponseKind_Tunes response => tune.TunesCommand_ok response
  | ResponseKind_Deliver response => DeliverCommand_wire response
  | ResponseKind_Heartbeat response => heart_beat.HeartbeatResponse_ok response
  | ResponseKind_Metadata response => metadata.MetadataResponse_wire response
  | ResponseKind_MetadataUpdate response => metadata_update.MetadataUpdateCommand_wire response
  | ResponseKind_PublishConfirm response => publish_confirm.PublishConfirm_wire response
  | ResponseKind_PublishError response => publish_error.PublishErrorResponse_wire response
  | ResponseKind_QueryOffset response => query_offset.QueryOffsetResponse_ok response
  | ResponseKind_QueryPublisherSequence response => query_publisher_sequence.QueryPublisherResponse_ok response
  | ResponseKind_Credit response => credit.CreditResponse_ok response
  | ResponseKind_ExchangeCommandVersions response => exchange_command_versions.ExchangeCommandVersionsResponse_wire response
  | ResponseKind_SuperStreamPartitions response => superstream_partitions.SuperStreamPartitionsResponse_wire response
  | ResponseKind_SuperStreamRoute response => superstream_route.SuperStreamRouteResponse_wire response
  | ResponseKind_ConsumerUpdate response => consumer_update.ConsumerUpdateCommand_ok response
  | ResponseKind_ConsumerUpdateRequest _ => False
  end.

(** Messages come without the publishing id of the sender. *)
Definition ResponseKind_received (kind : ResponseKind) : ResponseKind :=
  match kind with
  | ResponseKind_Deliver response => ResponseKind_Deliver (DeliverCommand_received response)
  | _ => kind
  end.

Lemma ResponseKind_body_wire kind key :
  ResponseKind_wire kind -> key ∈ ResponseKind_keys kind ->
  0 <= key < 2 ^ 15 /\
  wire (ResponseKind_encode kind) (response_kind_decoder key) (ResponseKind_received kind).
Proof.
  intros Hk Hin. split.
  - destruct kind; cbn in Hin; repeat (apply elem_of_cons in Hin as [->|Hin]); try done;
      by apply elem_of_nil in Hin.
  - destruct kind; cbn [ResponseKind_encode ResponseKind_keys ResponseKind_wire
      ResponseKind_received generic_keys] in *; try done;
      repeat (apply elem_of_cons in Hin as [->|Hin]); try (by apply elem_of_nil in Hin);
      unfold response_kind_decoder; cbn -[wire];
      (eapply (wire_last _ _ (λ k, mret (_ k)));
        [first [by apply round_trip|by apply DeliverCommand_wire_received]|reflexivity]).
Qed.

(** What a server sends. *)
Record ServerFrame := {
  sf_reply : bool;
  sf_key : Z;
  sf_version : Z;
  sf_size : Z;
  sf_kind : ResponseKind;
}.

Definition ServerFrame_encode (f : ServerFrame) : encoder :=
  Response_frame (sf_reply f) (sf_key f) (sf_version f) (sf_size f) (ResponseKind_encode (sf_kind f)).

Definition ServerFrame_wire (f : ServerFrame) : Prop :=
  sf_key f ∈ ResponseKind_keys (sf_kind f) ∧ u16_ok (sf_version f) ∧ u32_ok (sf_size f) ∧
  ResponseKind_wire (sf_kind f).

Definition ServerFrame_received (f : ServerFrame) : Response :=
  Response_new (Header_new (sf_key f) (sf_version f)) (ResponseKind_received (sf_kind f)).

Lemma ServerFrame_round_trip f :
  ServerFrame_wire f -> wire (ServerFrame_encode f) Response_decode (ServerFrame_received f).
Proof.
  intros (Hk & Hv & Hs & Hw). destruct (ResponseKind_body_wire _ _ Hw Hk) as [Hkey Hbody].
  by apply Response_frame_wire.
Qed.
End laws.

(** ** The panics of a response

    Malformed frames can make the decoder panic, but it always ends: no loop runs
    out of fuel. *)
Lemma ResponseCode_try_from_panics z : is_panic (ResponseCode_try_from z) = false.
Proof. unfold ResponseCode_try_from. by repeat case_match. Qed.
Lemma from_utf8_panics z : is_panic (from_utf8 z) = false.
Proof. unfold from_utf8. by repeat case_match. Qed.

Create HintDb panics_results.
#[export] Hint Resolve ResponseCode_try_from_panics from_utf8_panics : panics_results.

Section panics.
Context {BO : ByteOrder} {X : AmqpExt}.

Lemma Response_panics : panics (λ x, x <> OutOfFuel) Response_decode.
Proof.
  unfold Response_decode, response_kind_decoder.
  repeat first [apply panics_bind; [|intros] | apply panics_loop; intros
   | match goal with
     | |- panics _ (if ?b then _ else _) => destruct b
     | |- panics _ (match ?x with _ => _ end) => destruct x
     | |- panics _ (match ?x with _ => _ end _) => destruct x
     | |- panics _ (lift _) => apply panics_lift; solve [auto with panics_results]
     | |- panics _ (split_at _) => intros ? ?; unfold split_at; case_match; congruence
     end
   | solve [auto with panics] | solve [apply panics_abort; done] | solve [apply panics_unwrap; done]
   | solve [apply panics_on, Message_panics; done]
   | match goal with |- panics _ ?p => unfold_head p end].
Qed.
End panics.

(** ** Frames that arrive in part

    The part of a frame that has arrived is incomplete for the decoder, but where the
    cut is inside a string: that makes it panic.  Frames of the other kinds may be cut
    anywhere. *)
Definition holds_strings {X : AmqpExt} (kind : ResponseKind) : bool :=
  match kind with
  | ResponseKind_Open _ | ResponseKind_PeerProperties _ | ResponseKind_SaslHandshake _
  | ResponseKind_Metadata _ | ResponseKind_MetadataUpdate _
  | ResponseKind_SuperStreamPartitions _ | ResponseKind_SuperStreamRoute _ => true
  | _ => false
  end.

Section cuts.
Context {BO : ByteOrder} {X : AmqpExt}.

Lemma Response_cuts : cut_panics (λ x, x = SplitAt) Response_decode.
Proof.
  assert (Hs : ∀ n, cut_panics (λ x, x = SplitAt) (split_at n)) by (intros n; by apply split_at_cuts).
  unfold Response_decode, response_kind_decoder. cuts_solve.
Qed.

(** Only where the whole gives a [P] does [p] panic on a part. *)
Definition cut_only {A} (P : A -> Prop) (p : decoder A) : Prop := ∀ input more rest a x,
  p (input ++ more) = Ok (rest, a) -> p input = Panic x -> P a.

Lemma cut_only_then {A B} (P : B -> Prop) (p : decoder A) (k : A -> decoder B) :
  stable p -> cut_panics (λ _, False) p -> (∀ a, cut_only P (k a)) -> cut_only P (p ≫= k).
Proof.
  intros Hs Hp Hk input more rest b x. specialize (Hs input more). specialize (Hp input more).
  unfold mbind, parser_bind. destruct (p input) as [[i a]|e|y]; [rewrite Hs; apply Hk|done|].
  destruct (p (input ++ more)) as [[i a]|e|z]; [|done..].
  intros _ _. by destruct (Hp _ _ _ eq_refl eq_refl).
Qed.

Lemma cut_only_fmap {A B} (P : A -> Prop) (Q : B -> Prop) (p : decoder A) (f : A -> B) :
  cut_only P p -> (∀ a, P a -> Q (f a)) -> cut_only Q (a ← p; mret (f a)).
Proof.
  intros Hp HQ input more rest b x. unfold mbind, parser_bind.
  destruct (p (input ++ more)) as [[i a]|e|z] eqn:E; [|done..]. intros [= _ <-].
  destruct (p input) as [[i' a']|e|y] eqn:E'; [done..|]. intros _. apply HQ. by eapply Hp.
Qed.

Lemma response_kind_cuts key : cut_only holds_strings (response_kind_decoder key).
Proof.
  unfold response_kind_decoder.
  repeat (match goal with |- cut_only _ (if ?b then _ else _) => destruct b end;
    [first [by apply (cut_only_fmap (λ _, True))
           |apply cut_only_then; [stable_solve|cuts_solve|done]]|]).
  done.
Qed.

(** A frame cut short panics only inside a string, and only if it has one. *)
Lemma Response_cut_kind : cut_only (λ r, holds_strings (kind r)) Response_decode.
Proof.
  unfold Response_decode.
  apply cut_only_then; [stable_solve|cuts_solve|]. intros _.
  apply cut_only_then; [stable_solve|cuts_solve|]. intros h.
  by eapply cut_only_fmap; [apply response_kind_cuts|].
Qed.

(** The part [part] of the frame [f], which is not all of it. *)
Definition part_of (f : ServerFrame) (part : bytes) : Prop :=
  ServerFrame_wire f /\ ∃ more, more <> [] /\ emits (ServerFrame_encode f) (part ++ more).

Lemma part_decode f part :
  part_of f part ->
  match Response_decode part with
  | Ok _ => False
  | Err e => is_incomplete e = true
  | Panic x => x = SplitAt /\ holds_strings (sf_kind f) = true
  end.
Proof.
  intros (Hw & more & Hm & He). destruct (ServerFrame_round_trip _ Hw) as (bs & He' & Hp).
  specialize (Hp []). rewrite (emits_unique _ _ _ He' He), app_nil_r in Hp.
  pose proof (reads_stable (dec:=Response_decode) part more) as Hs.
  destruct (Response_decode part) as [[rest r]|e|x] eqn:E.
  - rewrite Hs in Hp. injection Hp as Hr _. by apply app_nil in Hr as [_ ?].
  - destruct (is_incomplete e) eqn:Hi; [done|]. rewrite Hs in Hp by done. done.
  - split; [exact (Response_cuts _ _ _ _ _ Hp E)|].
    pose proof (Response_cut_kind _ _ _ _ _ Hp E) as Hh. cbn in Hh. by destruct f as [? ? ? ? []].
Qed.

End cuts.
