(* ===== verification/ClientCodec.v ===== *)
(** * The codec of the connection

    src/client/codec.rs: responses are cut out of a growing buffer, requests are
    appended to another one; src/error.rs: the errors of the client.

    tokio's [Framed] calls [decode] again and again on the bytes received so far
    and stops at the first error: [drain]. *)
From S2P Require Import Prelude Utf8 HashMaps Integers Codec Protocol.
From S2P Require Import Session Streams Producing Consuming.
From S2P Require Import AmqpCodes AmqpSimple AmqpValue AmqpMessage Messages Request Response.

(** ** src/error.rs *)

Module ProtocolError.
Inductive t := Encode (e : EncodeError.t) | Decode (e : DecodeError.t).
End ProtocolError.

Module ClientError.
Inductive t :=
  | Io
  | Protocol (e : ProtocolError.t)
  | CastError
  | GenericError
  | AlreadyClosed
  | ConnectionClosed
  | Tls
  | RequestError (code : ResponseCode).
End ClientError.

Definition ClientError_from_encode (e : EncodeError.t) : ClientError.t :=
  ClientError.Protocol (ProtocolError.Encode e).
Definition ClientError_from_decode (e : DecodeError.t) : ClientError.t :=
  ClientError.Protocol (ProtocolError.Decode e).

Section codec.
Context {BO : ByteOrder} {X : AmqpExt}.

(** [RabbitMqStreamCodec::decode]: the buffer left, and what is returned. *)
Definition codec_decode (buf : bytes) : bytes * result ClientError.t (option Response) :=
  match Response_decode buf with
  | Ok (remaining, response) =>
      (drop (length buf - length remaining) buf, Ok (Some response))
  | Err (DecodeError.Incomplete _) => (buf, Ok None)
  | Err e => (buf, Err (ClientError_from_decode e))
  | Panic p => (buf, Panic p)
  end.

(** [RabbitMqStreamCodec::encode]. *)
Definition codec_encode (req : Request) : writer ClientError.t unit :=
  map_werr ClientError_from_encode (Request_encode req).

(** The responses in a buffer, up to the first that is not complete. *)
Fixpoint drain_fuel (fuel : nat) (buf : bytes) : bytes * result ClientError.t (list Response) :=
  match fuel with
  | O => (buf, Panic OutOfFuel)
  | S fuel =>
      match codec_decode buf with
      | (buf', Ok (Some r)) =>
          let '(rest, rs) := drain_fuel fuel buf' in (rest, rs ← rs; Ok (r :: rs))
      | (buf', Ok None) => (buf', Ok [])
      | (buf', Err e) => (buf', Err e)
      | (buf', Panic p) => (buf', Panic p)
      end
  end.
Definition drain (buf : bytes) : bytes * result ClientError.t (list Response) :=
  drain_fuel (S (length buf)) buf.

(** ** Laws *)

Lemma codec_decode_some buf rest r :
  codec_decode buf = (rest, Ok (Some r)) <-> Response_decode buf = Ok (rest, r).
Proof.
  unfold codec_decode. destruct (Response_decode buf) as [[i a]|e|p] eqn:Ed.
  - destruct (Response_consumes _ _ _ Ed) as (c & -> & _).
    rewrite length_app, drop_app_le by lia.
    replace (length c + length i - length i)%nat with (length c) by lia.
    rewrite drop_all. cbn. split; [by intros [= -> ->]|by intros [= -> ->]].
  - by destruct e.
  - done.
Qed.

Lemma codec_decode_shrinks buf rest r :
  codec_decode buf = (rest, Ok (Some r)) -> (length rest + 8 <= length buf)%nat.
Proof.
  rewrite codec_decode_some. intros (c & -> & Hc)%Response_consumes. rewrite length_app. lia.
Qed.

(** A response, once complete, does not depend on the bytes behind it. *)
Lemma codec_decode_more buf rest r more :
  codec_decode buf = (rest, Ok (Some r)) -> codec_decode (buf ++ more) = (rest ++ more, Ok (Some r)).
Proof.
  rewrite !codec_decode_some. intros Hd.
  pose proof (reads_stable (dec:=Response_decode) buf more) as Hs. by rewrite Hd in Hs.
Qed.

Lemma codec_decode_none buf rest : codec_decode buf = (rest, Ok None) -> rest = buf.
Proof.
  unfold codec_decode.
  destruct (Response_decode buf) as [[i a]|[]|p]; try done; by intros [= <-].
Qed.

(** Any fuel above the length of the buffer gives the same. *)
Lemma drain_fuel_enough n m buf :
  (length buf < n)%nat -> (length buf < m)%nat -> drain_fuel n buf = drain_fuel m buf.
Proof.
  revert m buf. induction n as [|n IH]; intros [|m] buf Hn Hm; try lia. cbn [drain_fuel].
  destruct (codec_decode buf) as [buf' [[r|]|e|p]] eqn:Ed; try done.
  apply codec_decode_shrinks in Ed. rewrite (IH m buf'); [done|lia|lia].
Qed.

Lemma drain_eq buf :
  drain buf =
  match codec_decode buf with
  | (buf', Ok (Some r)) => let '(rest, rs) := drain buf' in (rest, rs ← rs; Ok (r :: rs))
  | (buf', Ok None) => (buf', Ok [])
  | (buf', Err e) => (buf', Err e)
  | (buf', Panic p) => (buf', Panic p)
  end.
Proof.
  unfold drain at 1. cbn [drain_fuel].
  destruct (codec_decode buf) as [buf' [[r|]|e|p]] eqn:Ed; try done.
  apply codec_decode_shrinks in Ed.
  by rewrite (drain_fuel_enough _ (S (length buf')) buf') by lia.
Qed.

(** Bytes that arrive in two parts give the responses of the whole. *)
Lemma drain_app b1 b2 rest rs :
  drain b1 = (rest, Ok rs) ->
  drain (b1 ++ b2) = let '(rest', rs') := drain (rest ++ b2) in (rest', rs' ← rs'; Ok (rs ++ rs')).
Proof.
  remember (length b1) as n eqn:Hn. revert b1 Hn rest rs.
  induction (lt_wf n) as [n _ IH]. intros b1 -> rest rs. rewrite (drain_eq b1).
  destruct (codec_decode b1) as [b1' [[r|]|e|p]] eqn:Ed; [| |done..].
  - destruct (drain b1') as [rest' [rs'|e|p]] eqn:E1; [|done..].
    intros [= <- <-]. rewrite drain_eq, (codec_decode_more _ _ _ _ Ed).
    pose proof (codec_decode_shrinks _ _ _ Ed).
    rewrite (IH (length b1') ltac:(lia) b1' eq_refl _ _ E1).
    by destruct (drain (rest' ++ b2)) as [rest'' [rs''|e|p]].
  - apply codec_decode_none in Ed as ->. intros [= <- <-].
    by destruct (drain (b1 ++ b2)) as [rest'' [rs''|e|p]].
Qed.

(** The buffer of the connection, as chunks of bytes arrive. *)
Definition feed (st : bytes * result ClientError.t (list Response)) (chunk : bytes)
    : bytes * result ClientError.t (list Response) :=
  match st with
  | (buf, Ok rs) => let '(buf', rs') := drain (buf ++ chunk) in (buf', rs' ← rs'; Ok (rs ++ rs'))
  | _ => st
  end.
Definition feed_all (chunks : list bytes) : bytes * result ClientError.t (list Response) :=
  fold_left feed chunks ([], Ok []).

Lemma drain_nil : drain [] = ([], Ok []).
Proof. reflexivity. Qed.

Lemma codec_decode_err buf buf' e more :
  codec_decode buf = (buf', Err e) -> (codec_decode (buf ++ more)).2 = Err e.
Proof.
  unfold codec_decode. pose proof (reads_stable (dec:=Response_decode) buf more) as Hs.
  destruct (Response_decode buf) as [[i a]|d|p]; [done| |done].
  destruct d; try done; rewrite (Hs eq_refl); by intros [= _ <-].
Qed.

(** An error does not depend on the bytes behind it either. *)
Lemma drain_err_app b1 b2 rest e :
  drain b1 = (rest, Err e) -> (drain (b1 ++ b2)).2 = Err e.
Proof.
  remember (length b1) as n eqn:Hn. revert b1 Hn rest.
  induction (lt_wf n) as [n _ IH]. intros b1 -> rest. rewrite (drain_eq b1).
  destruct (codec_decode b1) as [b1' [[r|]|e'|p]] eqn:Ed; [|done| |done].
  - destruct (drain b1') as [rest' [rs'|e'|p]] eqn:E1; [done| |done].
    intros [= <- <-]. rewrite drain_eq, (codec_decode_more _ _ _ _ Ed).
    pose proof (codec_decode_shrinks _ _ _ Ed).
    pose proof (IH (length b1') ltac:(lia) b1' eq_refl _ E1) as Hr.
    destruct (drain (b1' ++ b2)) as [rest'' rs'']. cbn in Hr. by rewrite Hr.
  - intros [= <- <-]. rewrite drain_eq. pose proof (codec_decode_err _ _ _ b2 Ed) as Hr.
    destruct (codec_decode (b1 ++ b2)) as [b' r]. cbn in Hr. by rewrite Hr.
Qed.

Lemma feed_stuck buf e chunks : fold_left feed chunks (buf, Err e) = (buf, Err e).
Proof. by induction chunks. Qed.
Lemma feed_dead buf p chunks : fold_left feed chunks (buf, Panic p) = (buf, Panic p).
Proof. by induction chunks. Qed.

Lemma feed_chunks b buf out chunks :
  drain b = (buf, Ok out) ->
  match fold_left feed chunks (buf, Ok out) with
  | (rest, Ok rs) => drain (b ++ mjoin chunks) = (rest, Ok rs)
  | (_, Err e) => (drain (b ++ mjoin chunks)).2 = Err e
  | (_, Panic _) => True
  end.
Proof.
  revert b buf out. induction chunks as [|c chunks IH]; intros b buf out Hb;
    cbn [mjoin list_join fold_left].
  - by rewrite app_nil_r.
  - cbn [feed]. pose proof (drain_app b c buf out Hb) as Hc. rewrite app_assoc.
    destruct (drain (buf ++ c)) as [buf' [rs'|e|p]]; cbn in Hc |- *.
    + by apply IH.
    + rewrite feed_stuck. exact (drain_err_app _ _ _ _ Hc).
    + by rewrite feed_dead.
Qed.

(** However the bytes are cut into chunks, the responses read are those of the whole,
    unless the decoder panics on a chunk that ends inside a frame. *)
Lemma feed_all_chunks chunks :
  match feed_all chunks with
  | (rest, Ok rs) => drain (mjoin chunks) = (rest, Ok rs)
  | (_, Err e) => (drain (mjoin chunks)).2 = Err e
  | (_, Panic _) => True
  end.
Proof. exact (feed_chunks [] [] [] chunks drain_nil). Qed.

(** A sequence of frames is read as the sequence of their responses. *)
Lemma drain_frames frames :
  Forall (λ fr, parses Response_decode fr.1 fr.2) frames ->
  drain (mjoin (frames.*1)) = ([], Ok (frames.*2)).
Proof.
  induction 1 as [|[b r] frames Hf _ IH]; cbn [fmap list_fmap mjoin list_join]; [done|].
  cbn [fst snd] in Hf. rewrite drain_eq.
  replace (codec_decode _) with (mjoin (frames.*1), Ok (E:=ClientError.t) (Some r))
    by (symmetry; apply codec_decode_some, Hf).
  change (mjoin (frames.*1)) with (mjoin (fst <$> frames)) in *. by rewrite IH.
Qed.

(** The frames of a server, one after the other. *)
Lemma drain_server_frames frames :
  Forall ServerFrame_wire frames -> ∃ bs,
    emits (write_each ServerFrame_encode frames) bs ∧
    drain bs = ([], Ok (ServerFrame_received <$> frames)).
Proof.
  intros Hf.
  assert (∃ l, l.*2 = ServerFrame_received <$> frames ∧
    Forall (λ fr, parses Response_decode fr.1 fr.2) l ∧
    emits (write_each ServerFrame_encode frames) (mjoin l.*1)) as (l & Hl & Hp & He).
  { induction Hf as [|f frames (bs & Hb & Hp)%ServerFrame_round_trip _ (l & Hl & Hps & He)].
    - exists []. split_and!; [done|constructor|apply emits_ret].
    - exists ((bs, ServerFrame_received f) :: l). split_and!.
      + cbn. by rewrite Hl.
      + by constructor.
      + cbn. by apply emits_seq. }
  exists (mjoin l.*1). split; [done|]. rewrite <- Hl. by apply drain_frames.
Qed.

(** Decoding a buffer always ends. *)
Lemma drain_panics buf rest p : drain buf = (rest, Panic p) -> p <> OutOfFuel.
Proof.
  remember (length buf) as n eqn:Hn. revert buf Hn rest.
  induction (lt_wf n) as [n _ IH]. intros buf -> rest. rewrite drain_eq.
  destruct (codec_decode buf) as [buf' [[r|]|e|q]] eqn:Ed; [|done|done|].
  - pose proof (codec_decode_shrinks _ _ _ Ed).
    destruct (drain buf') as [rest' [rs|e|q]] eqn:E1; [done|done|]. intros [= _ <-].
    by apply (IH (length buf') ltac:(lia) buf' eq_refl _ E1).
  - intros [= _ <-]. unfold codec_decode in Ed.
    destruct (Response_decode buf) as [[i a]|d|q'] eqn:E1; [done|by destruct d|].
    injection Ed as _ <-. by apply (Response_panics _ _ E1).
Qed.

Lemma feed_panics buf rs chunks rest p :
  fold_left feed chunks (buf, Ok rs) = (rest, Panic p) -> p <> OutOfFuel.
Proof.
  revert buf rs. induction chunks as [|c chunks IH]; intros buf rs; [done|].
  cbn [fold_left feed]. destruct (drain (buf ++ c)) as [buf' [rs'|e|q]] eqn:Ed; cbn.
  - apply IH.
  - by rewrite feed_stuck.
  - rewrite feed_dead. intros [= _ <-]. by eapply drain_panics.
Qed.

(** *** Chunks that end inside a frame *)

(** Bytes behind a run of frames are read as they are alone. *)
Lemma drain_behind frames bs part :
  Forall ServerFrame_wire frames -> emits (write_each ServerFrame_encode frames) bs ->
  drain (bs ++ part) = let '(rest, rs) := drain part in
    (rest, rs ← rs; Ok ((ServerFrame_received <$> frames) ++ rs)).
Proof.
  intros Hf He. destruct (drain_server_frames frames Hf) as (bs' & He' & Hd).
  rewrite (emits_unique _ _ _ He' He) in Hd. exact (drain_app bs part [] _ Hd).
Qed.

Lemma drain_part f part :
  part_of f part ->
  drain part = (part, Ok []) /\ (∀ x, Response_decode part <> Panic x) \/
  drain part = (part, Panic SplitAt) /\ Response_decode part = Panic SplitAt /\
    holds_strings (sf_kind f) = true.
Proof.
  intros Hp%part_decode. rewrite drain_eq. unfold codec_decode.
  destruct (Response_decode part) as [[rest r]|e|x]; [done| |].
  - left. by destruct e.
  - right. by destruct Hp as [-> ->].
Qed.

(** Where the bytes of a run of frames are cut, a frame is cut or the next is about to
    start. *)
Lemma frames_cut frames before after :
  Forall ServerFrame_wire frames ->
  emits (write_each ServerFrame_encode frames) (before ++ after) -> after <> [] ->
  ∃ done f later bs part, frames = done ++ f :: later /\
    emits (write_each ServerFrame_encode done) bs /\ before = bs ++ part /\ part_of f part.
Proof.
  intros Hf. revert before. induction Hf as [|f frames Hw Hf IH]; intros before He Ha.
  - pose proof (emits_unique _ _ _ He emits_ret) as H. by apply app_nil in H as [_ ?].
  - destruct (ServerFrame_round_trip _ Hw) as (bf & Hbf & _).
    destruct (drain_server_frames frames Hf) as (bl & Hbl & _).
    pose proof (emits_unique _ _ _ He (emits_seq _ _ _ _ Hbf Hbl)) as Heq.
    destruct (decide (length before < length bf)%nat) as [Hlt|Hge].
    + exists [], f, frames, [], before. split; [done|]. split; [apply emits_ret|]. split; [done|].
      split; [exact Hw|]. exists (drop (length before) bf). split.
      { intros Hn%(f_equal length). rewrite length_drop in Hn. cbn in Hn. lia. }
      apply (f_equal (take (length bf))) in Heq. rewrite take_app_length, take_app_ge in Heq by lia.
      rewrite <- Heq at 1. rewrite <- Heq in Hbf.
      rewrite drop_app_length. exact Hbf.
    + apply (f_equal (drop (length bf))) in Heq as Hd. rewrite drop_app_length, drop_app_le in Hd by lia.
      apply (f_equal (take (length bf))) in Heq as Ht. rewrite take_app_length, take_app_le in Ht by lia.
      destruct (IH (drop (length bf) before)) as (done & g & later & bs & part & -> & Hdone & Hb & Hp).
      { by rewrite Hd. }
      { exact Ha. }
      exists (f :: done), g, later, (bf ++ bs), part. split; [done|].
      split; [by apply emits_seq|]. split; [|exact Hp].
      rewrite <- app_assoc, <- Hb. rewrite <- Ht at 1. by rewrite take_drop.
Qed.

(** A chunk ends inside a string of a frame. *)
Definition cuts_string (frames : list ServerFrame) (chunks : list bytes) : Prop :=
  ∃ done f later bs part arrived left, frames = done ++ f :: later /\ chunks = arrived ++ left /\
    emits (write_each ServerFrame_encode done) bs /\ mjoin arrived = bs ++ part /\ part_of f part /\
    holds_strings (sf_kind f) = true /\ Response_decode part = Panic SplitAt.

(** A panic happens at the end of a chunk. *)
Lemma feed_panics_at chunks buf rs p :
  (fold_left feed chunks (buf, Ok rs)).2 = Panic p -> ∃ c1 c c2 buf1 rs1,
    chunks = c1 ++ c :: c2 /\ fold_left feed c1 (buf, Ok rs) = (buf1, Ok rs1) /\
    (drain (buf1 ++ c)).2 = Panic p.
Proof.
  revert buf rs. induction chunks as [|c chunks IH]; intros buf rs; [done|].
  cbn [fold_left feed]. destruct (drain (buf ++ c)) as [buf' [rs'|e|q]] eqn:Ed; cbn [mbind result_bind].
  - intros (c1 & d & c2 & buf1 & rs1 & -> & H1 & H2)%IH. exists (c :: c1), d, c2, buf1, rs1.
    split; [done|]. split; [|exact H2]. cbn [fold_left feed]. by rewrite Ed.
  - by rewrite feed_stuck.
  - rewrite feed_dead. intros [= <-]. exists [], c, chunks, buf, rs. by rewrite Ed.
Qed.

(** Frames cut into chunks anywhere are read as their responses, or a chunk ends inside
    a string. *)
Lemma feed_frames frames chunks bs :
  Forall ServerFrame_wire frames -> emits (write_each ServerFrame_encode frames) bs ->
  mjoin chunks = bs ->
  feed_all chunks = ([], Ok (ServerFrame_received <$> frames)) \/
  (feed_all chunks).2 = Panic SplitAt /\ cuts_string frames chunks.
Proof.
  intros Hf He <-. destruct (drain_server_frames frames Hf) as (bs & He' & Hd).
  rewrite (emits_unique _ _ _ He' He) in Hd.
  pose proof (feed_all_chunks chunks) as H. rewrite Hd in H.
  destruct (feed_all chunks) as [rest [rs|e|p]] eqn:E; [by injection H as -> ->; left|done|right].
  apply (f_equal snd) in E. destruct (feed_panics_at chunks [] [] p E) as (c1 & c & c2 & buf1 & rs1 & -> & H1 & H2).
  pose proof (feed_all_chunks c1) as Hc. unfold feed_all in Hc. rewrite H1 in Hc.
  pose proof (drain_app _ c _ _ Hc) as Hp.
  destruct (drain (buf1 ++ c)) as [b [?|?|?]]; try done. injection H2 as ->. cbn [mbind result_bind] in Hp.
  assert (Hj : mjoin (c1 ++ c :: c2) = (mjoin c1 ++ c) ++ mjoin c2) by (rewrite join_app; cbn; by rewrite app_assoc).
  rewrite Hj in He, Hd.
  destruct (decide (mjoin c2 = [])) as [Hn|Hn]; [by rewrite Hn, app_nil_r, Hp in Hd|].
  destruct (frames_cut _ _ _ Hf He Hn) as (done & f & later & bs' & part & -> & Hdone & Hb & Hpart).
  rewrite Hb, (drain_behind done bs') in Hp; [|by apply Forall_app in Hf as [? _]|done].
  destruct (drain_part _ _ Hpart) as [[Hq _]|(Hq & Hpanic & Hs)]; rewrite Hq in Hp; [done|].
  injection Hp as _ <-. split; [done|].
  exists done, f, later, bs', part, (c1 ++ [c]), c2. split_and!; try done.
  - by rewrite <- app_assoc.
  - rewrite join_app. cbn. by rewrite app_nil_r.
Qed.

(** *** Frames that are not complete *)

Definition fails {E A} (p : parser E A) (bs : bytes) (e : E) : Prop :=
  ∀ rest, p (bs ++ rest) = Err e.

Lemma fails_first {E A B} (p : parser E A) (k : A -> parser E B) bs e :
  fails p bs e -> fails (p ≫= k) bs e.
Proof. intros H rest. unfold mbind, parser_bind. by rewrite H. Qed.

Lemma fails_then {E F A B} (w : writer E unit) (w2 : writer E unit) (p : parser F A)
    (k : A -> parser F B) a e :
  wire w p a -> (∃ b2, emits w2 b2 ∧ fails (k a) b2 e) ->
  ∃ bs, emits (w;; w2) bs ∧ fails (p ≫= k) bs e.
Proof.
  intros (b1 & Hw & Hp) (b2 & Hw2 & Hk). exists (b1 ++ b2). split; [by apply emits_seq|].
  intros rest. unfold mbind, parser_bind. rewrite <- app_assoc, Hp. apply Hk.
Qed.

Lemma parse_then {E A B} (p : parser E A) (k : A -> parser E B) b1 b2 a :
  parses p b1 a -> (p ≫= k) (b1 ++ b2) = k a b2.
Proof. intros Hp. unfold mbind, parser_bind. by rewrite Hp. Qed.

(** The deliver frame of one message whose bytes are [body]. *)
Definition deliver_frame (version size : Z) (x : deliver.DeliverCommand) (data_length : Z)
    (body : bytes) : encoder :=
  Response_frame false COMMAND_DELIVER version size (
    u8_encode (deliver.subscription_id x);;
    i8_encode (deliver.magic_version x);;
    u8_encode (deliver.chunk_type x);;
    u16_encode (deliver.num_entries x);;
    u32_encode 1;;
    u64_encode (deliver.timestamp x);;
    u64_encode (deliver.epoch x);;
    u64_encode (deliver.chunk_first_offset x);;
    i32_encode (deliver.chunk_crc x);;
    u32_encode data_length;;
    u32_encode (deliver.trailer_length x);;
    u32_encode (deliver.reserved x);;
    u32_encode (wrap32 (len body));; write_all body).

Lemma frame_fails {A} key version size body (p : decoder A) f e :
  0 <= key < 2 ^ 15 -> u16_ok version -> u32_ok size ->
  response_kind_decoder key = (x ← p; mret (f x)) ->
  (∃ bs, emits body bs ∧ fails p bs e) ->
  ∃ bs, emits (Response_frame false key version size body) bs ∧ fails Response_decode bs e.
Proof.
  intros Hk Hv Hs Hd (bs & Hb & Hf). eapply fails_then; [by apply u32_wire|]. cbv beta.
  eapply (fails_then _ _ _ _ (Header_new key version)); [by apply round_trip|]. cbv beta.
  exists bs. split; [exact Hb|]. apply fails_first. cbn [Protocol.key]. rewrite Hd.
  by apply fails_first.
Qed.

(** An error inside the body of a message is the error of the frame, whatever comes
    next: when it is "incomplete", the codec waits for more bytes for ever. *)
Lemma deliver_frame_fails version size x data_length body e :
  u16_ok version -> u32_ok size -> u32_ok data_length -> DeliverCommand_header x ->
  len body < 2 ^ 31 -> Message_decode body = Err e ->
  ∃ bs, emits (deliver_frame version size x data_length body) bs ∧ fails Response_decode bs e.
Proof.
  intros Hv Hs Hd (? & ? & ? & ? & ? & ? & ? & ? & ? & ?) Hl He.
  eapply (frame_fails _ _ _ _ deliver.DeliverCommand_decode);
    [done|done|done|reflexivity|]. unfold deliver.DeliverCommand_decode.
  assert (u32_ok 1) by done.
  do 12 (eapply fails_then; [eauto with wire|]; cbv beta).
  destruct (read_bytes_wire body Hl) as (bs & Hb & Hp). exists bs. split; [exact Hb|].
  apply fails_first. intros rest. rewrite loop_n_nat. change (Z.to_nat 1) with 1%nat.
  cbn [loop_nat]. unfold mbind, parser_bind. rewrite Hp. unfold on. by rewrite He.
Qed.

(** A string cut short by the end of the buffer is a panic, not an incomplete frame. *)
Lemma opt_string_truncated s k :
  wire_string s -> (k < length s)%nat ->
  opt_string_decode (bo_write 2 (as_signed 16 (len s)) ++ take k s) = Panic SplitAt.
Proof.
  intros Hs Hk. pose proof (wire_string_len s Hs) as Hl.
  unfold opt_string_decode. rewrite as_signed_id by (unfold signed_ok; lia).
  destruct (i16_wire (E:=EncodeError.t) (len s)) as (bs & He & Hp); [unfold signed_ok; lia|].
  rewrite (emits_unique _ _ _ (emits_write_all _) He).
  rewrite (parse_then _ _ _ _ _ Hp).
  destruct (Z.eqb_spec (len s) 0) as [|_]; [lia|]. rewrite as_usize_small by lia.
  unfold mbind, parser_bind, split_at.
  destruct (Z.ltb_spec (len (take k s)) (len s)) as [_|Hge]; [done|].
  unfold len in Hge. rewrite length_take in Hge. lia.
Qed.

Lemma metadata_update_truncated version size code s k :
  u16_ok version -> u32_ok size -> wire_string s -> (k < length s)%nat ->
  ∃ pre,
    emits (Response_frame false COMMAND_METADATA_UPDATE version size
      (metadata_update.MetadataUpdateCommand_encode
        (metadata_update.MetadataUpdateCommand_new code s))) (pre ++ s) ∧
    codec_decode (pre ++ take k s) = (pre ++ take k s, Panic SplitAt).
Proof.
  intros Hv Hs Hw Hk.
  destruct (u32_wire size) as (b1 & W1 & P1); [done|].
  destruct (round_trip (enc:=Header_encode) (dec:=Header_decode)
    (Header_new COMMAND_METADATA_UPDATE version)) as (b2 & W2 & P2); [by split|].
  destruct (round_trip (enc:=ResponseCode_encode) (dec:=ResponseCode_decode) code I)
    as (b3 & W3 & P3).
  exists (b1 ++ b2 ++ b3 ++ bo_write 2 (as_signed 16 (len s))). split.
  - rewrite <- !app_assoc. apply emits_seq; [exact W1|]. apply emits_seq; [exact W2|].
    apply emits_seq; [exact W3|]. apply emits_seq; apply emits_write_all.
  - unfold codec_decode. rewrite <- !app_assoc.
    assert (Response_decode (b1 ++ b2 ++ b3 ++
      bo_write 2 (as_signed 16 (len s)) ++ take k s) = Panic SplitAt) as ->; [|done].
    unfold Response_decode. rewrite (parse_then _ _ _ _ _ P1), (parse_then _ _ _ _ _ P2).
    unfold mbind at 1, parser_bind. cbn [key].
    assert (response_kind_decoder COMMAND_METADATA_UPDATE =
      (kind ← metadata_update.MetadataUpdateCommand_decode;
       mret (ResponseKind_MetadataUpdate kind))) as -> by reflexivity.
    unfold mbind at 1, parser_bind, metadata_update.MetadataUpdateCommand_decode.
    rewrite (parse_then _ _ _ _ _ P3). unfold mbind at 1, parser_bind.
    by rewrite opt_string_truncated.
Qed.
End codec.
