(* ===== verification/Effects.v ===== *)
(** * Effects of the client

    The asynchronous methods of the client read and write shared state, fail
    with [?], panic, or wait for something that may never come.  [io S E A] is
    a method on the state [S] with the error type [E]: run on a state it
    returns, throws, panics or is left waiting, always with the state it has
    reached (what was written before an error stays written). *)
From S2P Require Import Prelude.

Inductive outcome (S E A : Type) :=
  | Returns (s : S) (a : A)
  | Throws (s : S) (e : E)
  | Panics (s : S) (p : panic)
  | Waits (s : S).
Arguments Returns {S E A} _ _.
Arguments Throws {S E A} _ _.
Arguments Panics {S E A} _ _.
Arguments Waits {S E A} _.

Definition io (S E A : Type) : Type := S -> outcome S E A.

#[global] Instance io_ret S E : MRet (io S E) := λ A a s, Returns s a.
#[global] Instance io_bind S E : MBind (io S E) := λ A B k m s,
  match m s with
  | Returns s' a => k a s'
  | Throws s' e => Throws s' e
  | Panics s' p => Panics s' p
  | Waits s' => Waits s'
  end.

Definition outcome_state {S E A} (o : outcome S E A) : S :=
  match o with Returns s _ | Throws s _ | Panics s _ | Waits s => s end.

(** [return Err(e)]. *)
Definition throw {S E A} (e : E) : io S E A := λ s, Throws s e.
(** A panic of the task. *)
Definition crash {S E A} (p : panic) : io S E A := λ s, Panics s p.
(** An [.await] that nothing will ever complete. *)
Definition await_forever {S E A} : io S E A := λ s, Waits s.
Definition get_state {S E} : io S E S := λ s, Returns s s.
Definition gets {S E A} (f : S -> A) : io S E A := λ s, Returns s (f s).
Definition modify {S E} (f : S -> S) : io S E unit := λ s, Returns (f s) tt.

(** [?] on a plain [Result]. *)
Definition of_result {S E A} (r : result E A) : io S E A := λ s,
  match r with Ok a => Returns s a | Err e => Throws s e | Panic p => Panics s p end.

(** [ok_or(e)?]. *)
Definition ok_or {S E A} (o : option A) (e : E) : io S E A :=
  match o with Some a => mret a | None => throw e end.

(** [?] with a conversion of the error. *)
Definition map_throws {S E F A} (f : E -> F) (m : io S E A) : io S F A := λ s,
  match m s with
  | Returns s' a => Returns s' a
  | Throws s' e => Throws s' (f e)
  | Panics s' p => Panics s' p
  | Waits s' => Waits s'
  end.

(** The [Result] of a call, when the caller looks at it: [let _ = call;],
    [match call {..}]. *)
Definition attempt {S E F A} (m : io S E A) : io S F (E + A) := λ s,
  match m s with
  | Returns s' a => Returns s' (inr a)
  | Throws s' e => Returns s' (inl e)
  | Panics s' p => Panics s' p
  | Waits s' => Waits s'
  end.
Definition ignore {S E F A} (m : io S E A) : io S F unit := attempt m;; mret tt.

(** A task of its own: its error and its panic end it, and nothing else. *)
Definition detached {S E F A} (m : io S E A) : io S F unit := λ s,
  match m s with
  | Returns s' _ | Throws s' _ | Panics s' _ => Returns s' tt
  | Waits s' => Waits s'
  end.

(** A call on a part of the state, through a shared handle. *)
Definition zoom {S T E A} (get : S -> T) (put : T -> S -> S) (m : io T E A) : io S E A := λ s,
  match m (get s) with
  | Returns t a => Returns (put t s) a
  | Throws t e => Throws (put t s) e
  | Panics t p => Panics (put t s) p
  | Waits t => Waits (put t s)
  end.

(** [for x in l { body(x)?; }]. *)
Fixpoint each {S E A} (body : A -> io S E unit) (l : list A) : io S E unit :=
  match l with
  | [] => mret tt
  | a :: l' => body a;; each body l'
  end.

(** [l.into_iter().map(f).collect()] with an effectful [f]. *)
Fixpoint map_each {S E A B} (body : A -> io S E B) (l : list A) : io S E (list B) :=
  match l with
  | [] => mret []
  | a :: l' => b ← body a; bs ← map_each body l'; mret (b :: bs)
  end.

(** ** Laws *)

Lemma io_bind_returns {S E A B} (m : io S E A) (k : A -> io S E B) s s' a :
  m s = Returns s' a -> (m ≫= k) s = k a s'.
Proof. intros H. unfold mbind, io_bind. by rewrite H. Qed.

Lemma io_bind_throws {S E A B} (m : io S E A) (k : A -> io S E B) s s' e :
  m s = Throws s' e -> (m ≫= k) s = Throws s' e.
Proof. intros H. unfold mbind, io_bind. by rewrite H. Qed.

Lemma io_bind_panics {S E A B} (m : io S E A) (k : A -> io S E B) s s' p :
  m s = Panics s' p -> (m ≫= k) s = Panics s' p.
Proof. intros H. unfold mbind, io_bind. by rewrite H. Qed.

Lemma io_bind_waits {S E A B} (m : io S E A) (k : A -> io S E B) s s' :
  m s = Waits s' -> (m ≫= k) s = Waits s'.
Proof. intros H. unfold mbind, io_bind. by rewrite H. Qed.

Lemma io_bind_returns_inv {S E A B} (m : io S E A) (k : A -> io S E B) s s2 b :
  (m ≫= k) s = Returns s2 b -> ∃ s1 a, m s = Returns s1 a /\ k a s1 = Returns s2 b.
Proof. unfold mbind, io_bind. destruct (m s) eqn:E1; try done. by eauto. Qed.

Lemma ignore_returns {S E F A} (m : io S E A) s s' a :
  m s = Returns s' a -> ignore (F:=F) m s = Returns s' tt.
Proof. intros H. unfold ignore, attempt, mbind, io_bind. by rewrite H. Qed.

Lemma ignore_throws {S E F A} (m : io S E A) s s' e :
  m s = Throws s' e -> ignore (F:=F) m s = Returns s' tt.
Proof. intros H. unfold ignore, attempt, mbind, io_bind. by rewrite H. Qed.

Lemma gets_returns {S E A} (f : S -> A) s a : f s = a -> gets (E:=E) f s = Returns s a.
Proof. by intros <-. Qed.

(** Does a call return?  Whether it does is computed, what it returns is not. *)
Definition is_returns {S E A} (o : outcome S E A) : bool :=
  match o with Returns _ _ => true | _ => false end.
Lemma is_returns_inv {S E A} (o : outcome S E A) : is_returns o = true -> ∃ s a, o = Returns s a.
Proof. destruct o; try done. by eauto. Qed.

(** A property of the state that a call keeps, however it ends. *)
Definition keeps {S E A} (P : S -> Prop) (m : io S E A) : Prop :=
  ∀ s, P s -> P (outcome_state (m s)).

Lemma keeps_returns {S E A} (P : S -> Prop) (m : io S E A) s s' a :
  keeps P m -> P s -> m s = Returns s' a -> P s'.
Proof. intros Hm Hs E1. specialize (Hm s Hs). by rewrite E1 in Hm. Qed.

Lemma keeps_ret {S E A} (P : S -> Prop) (a : A) : keeps (E:=E) P (mret a).
Proof. by intros s Hs. Qed.
Lemma keeps_bind {S E A B} (P : S -> Prop) (m : io S E A) (k : A -> io S E B) :
  keeps P m -> (∀ a, keeps P (k a)) -> keeps P (m ≫= k).
Proof.
  intros Hm Hk s Hs. unfold mbind, io_bind. specialize (Hm s Hs).
  destruct (m s); cbn in *; auto. by apply Hk.
Qed.
Lemma keeps_throw {S E A} (P : S -> Prop) (e : E) : keeps (A:=A) P (throw e).
Proof. by intros s Hs. Qed.
Lemma keeps_crash {S E A} (P : S -> Prop) p : keeps (E:=E) (A:=A) P (crash p).
Proof. by intros s Hs. Qed.
Lemma keeps_wait {S E A} (P : S -> Prop) : keeps (E:=E) (A:=A) P await_forever.
Proof. by intros s Hs. Qed.
Lemma keeps_gets {S E A} (P : S -> Prop) (f : S -> A) : keeps (E:=E) P (gets f).
Proof. by intros s Hs. Qed.
Lemma keeps_modify {S E} (P : S -> Prop) (f : S -> S) :
  (∀ s, P s -> P (f s)) -> keeps (E:=E) P (modify f).
Proof. intros Hf s Hs. by apply Hf. Qed.
Lemma keeps_ok_or {S E A} (P : S -> Prop) (o : option A) (e : E) : keeps P (ok_or o e).
Proof. destruct o; intros s Hs; exact Hs. Qed.
Lemma keeps_of_result {S E A} (P : S -> Prop) (r : result E A) : keeps P (of_result r).
Proof. destruct r; intros s Hs; exact Hs. Qed.
Lemma keeps_attempt {S E F A} (P : S -> Prop) (m : io S E A) :
  keeps P m -> keeps P (attempt (F:=F) m).
Proof. intros Hm s Hs. specialize (Hm s Hs). unfold attempt. by destruct (m s). Qed.
Lemma keeps_map_throws {S E F A} (P : S -> Prop) (f : E -> F) (m : io S E A) :
  keeps P m -> keeps P (map_throws f m).
Proof. intros Hm s Hs. specialize (Hm s Hs). unfold map_throws. by destruct (m s). Qed.
Lemma keeps_ignore {S E F A} (P : S -> Prop) (m : io S E A) :
  keeps P m -> keeps P (ignore (F:=F) m).
Proof.
  intros Hm. apply keeps_bind; [by apply keeps_attempt|]. intros _. apply keeps_ret.
Qed.
Lemma keeps_each {S E A} (P : S -> Prop) (body : A -> io S E unit) l :
  (∀ a, keeps P (body a)) -> keeps P (each body l).
Proof.
  intros Hb. induction l as [|a l IH]; [apply keeps_ret|].
  apply keeps_bind; [apply Hb|by intros _].
Qed.

Lemma keeps_map_each {S E A B} (P : S -> Prop) (body : A -> io S E B) l :
  (∀ a, keeps P (body a)) -> keeps P (map_each body l).
Proof.
  intros Hb. induction l as [|a l IH]; [apply keeps_ret|].
  apply keeps_bind; [apply Hb|]. intros b. apply keeps_bind; [exact IH|]. intros bs. apply keeps_ret.
Qed.
Lemma keeps_detached {S E F A} (P : S -> Prop) (m : io S E A) :
  keeps P m -> keeps P (detached (F:=F) m).
Proof. intros Hm s Hs. specialize (Hm s Hs). unfold detached. by destruct (m s). Qed.

Create HintDb keeps.
#[export] Hint Resolve keeps_ret keeps_bind keeps_throw keeps_crash keeps_wait keeps_gets
  keeps_ok_or keeps_of_result keeps_attempt keeps_map_throws keeps_ignore keeps_each : keeps.

Lemma map_each_length {S E A B} (body : A -> io S E B) l s s' bs :
  map_each body l s = Returns s' bs -> length bs = length l.
Proof.
  revert s s' bs. induction l as [|a l IH]; cbn; intros s s' bs H; [by injection H as <- <-|].
  apply io_bind_returns_inv in H as (s1 & b & Hb & H).
  apply io_bind_returns_inv in H as (s2 & bs' & Hbs & H).
  injection H as <- <-. cbn. f_equal. eauto.
Qed.
