(* ===== verification/Dispatcher.v ===== *)
(** * The dispatcher: matching responses with the calls that wait for them

    src/client/dispatcher.rs, src/client/handler.rs.

    A call takes a correlation id and a channel from [response_channel], sends
    its request and waits on the channel.  One task reads the responses of the
    connection: a response with a correlation id is sent to the channel
    registered under it, everything else goes to the handler.  When the
    connection ends the task closes the map, which drops the registered
    senders, so that the calls still waiting see their channel closed.

    The map is dashmap's and the channels are tokio's: both are interfaces
    here.  [World] is the state that the handles share; the sequential
    operations are followed by a step relation in which calls and the task
    interleave at the reads and writes of the map.  When the decoder panics on a
    frame the task is gone and the map stays as it is ([step_panic]). *)
From S2P Require Import Prelude Utf8 HashMaps Integers Codec Protocol.
From S2P Require Import Session Streams Producing Consuming.
From S2P Require Import AmqpCodes AmqpSimple AmqpValue AmqpMessage Messages Request Response.
From S2P Require Import ClientCodec Effects.

(** ** Interfaces: dashmap and tokio::sync::mpsc *)

(** [DashMap<u32, V>]: each operation is atomic. *)
Class DashMap := {
  dashmap : Type -> Type;
  dm_new {V} : dashmap V;
  dm_get {V} : Z -> dashmap V -> option V;
  dm_insert {V} : Z -> V -> dashmap V -> dashmap V;
  dm_remove {V} : Z -> dashmap V -> dashmap V;
  dm_iter {V} : dashmap V -> list (Z * V);
  dm_get_new {V} k : dm_get k (dm_new (V:=V)) = None;
  dm_get_insert {V} k k' (v : V) m :
    dm_get k' (dm_insert k v m) = if decide (k = k') then Some v else dm_get k' m;
  dm_get_remove {V} k k' (m : dashmap V) :
    dm_get k' (dm_remove k m) = if decide (k = k') then None else dm_get k' m;
  dm_iter_get {V} k (v : V) m : (k, v) ∈ dm_iter m <-> dm_get k m = Some v;
}.

Lemma dm_iter_new {DM : DashMap} {V} : dm_iter (dm_new (V:=V)) = [].
Proof.
  destruct (dm_iter dm_new) as [|[k v] l] eqn:E; [done|].
  assert (H : (k, v) ∈ dm_iter (dm_new (V:=V))) by (rewrite E; by left).
  apply dm_iter_get in H. by rewrite dm_get_new in H.
Qed.

(** What [recv] finds: a value, that every sender is gone, or nothing yet. *)
Inductive recv (A : Type) := Received (a : A) | Disconnected | Waiting.
Arguments Received {A} _.
Arguments Disconnected {A}.
Arguments Waiting {A}.

(** [channel(capacity)] with its one sender and its one receiver, which is
    alive as long as somebody looks. *)
Class Mpsc := {
  mpsc : Type -> Type;
  mpsc_channel {A} : Z -> mpsc A;
  mpsc_send {A} : A -> mpsc A -> mpsc A;
  mpsc_drop_sender {A} : mpsc A -> mpsc A;
  mpsc_recv {A} : mpsc A -> recv A * mpsc A;
  (** what is observed of a channel *)
  mpsc_buffer {A} : mpsc A -> list A;
  mpsc_capacity {A} : mpsc A -> Z;
  mpsc_open {A} : mpsc A -> bool;
  mpsc_channel_buffer {A} n : mpsc_buffer (mpsc_channel (A:=A) n) = [];
  mpsc_channel_capacity {A} n : mpsc_capacity (mpsc_channel (A:=A) n) = n;
  mpsc_channel_open {A} n : mpsc_open (mpsc_channel (A:=A) n) = true;
  mpsc_send_buffer {A} (a : A) c :
    len (mpsc_buffer c) < mpsc_capacity c -> mpsc_buffer (mpsc_send a c) = mpsc_buffer c ++ [a];
  mpsc_send_capacity {A} (a : A) c : mpsc_capacity (mpsc_send a c) = mpsc_capacity c;
  mpsc_send_open {A} (a : A) c : mpsc_open (mpsc_send a c) = mpsc_open c;
  mpsc_drop_buffer {A} (c : mpsc A) : mpsc_buffer (mpsc_drop_sender c) = mpsc_buffer c;
  mpsc_drop_capacity {A} (c : mpsc A) : mpsc_capacity (mpsc_drop_sender c) = mpsc_capacity c;
  mpsc_drop_open {A} (c : mpsc A) : mpsc_open (mpsc_drop_sender c) = false;
  mpsc_recv_value {A} (c : mpsc A) :
    (mpsc_recv c).1 = match mpsc_buffer c with
                      | a :: _ => Received a
                      | [] => if mpsc_open c then Waiting else Disconnected
                      end;
  mpsc_recv_buffer {A} (c : mpsc A) : mpsc_buffer (mpsc_recv c).2 = tail (mpsc_buffer c);
  mpsc_recv_capacity {A} (c : mpsc A) : mpsc_capacity (mpsc_recv c).2 = mpsc_capacity c;
  mpsc_recv_open {A} (c : mpsc A) : mpsc_open (mpsc_recv c).2 = mpsc_open c;
}.

(** Both interfaces can be met. *)
#[global] Instance gmap_dashmap : DashMap.
Proof.
  refine {| dashmap := gmap Z; dm_new := λ _, ∅; dm_get := λ _ k m, m !! k;
            dm_insert := λ _ k v m, <[k:=v]> m; dm_remove := λ _ k m, delete k m;
            dm_iter := λ _ m, map_to_list m |}.
  - intros V k. apply lookup_empty.
  - intros V k k' v m. case_decide as Hk; [subst; apply lookup_insert_eq|].
    by apply lookup_insert_ne.
  - intros V k k' m. case_decide as Hk; [subst; apply lookup_delete_eq|].
    by apply lookup_delete_ne.
  - intros V k v m. apply elem_of_map_to_list.
Defined.

Record queue (A : Type) := Queue { q_buffer : list A; q_capacity : Z; q_open : bool }.
Arguments Queue {A} _ _ _.
Arguments q_buffer {A} _.
Arguments q_capacity {A} _.
Arguments q_open {A} _.

#[global] Instance queue_mpsc : Mpsc.
Proof.
  refine {| mpsc := queue; mpsc_channel := λ A n, Queue [] n true;
            mpsc_send := λ A a c, Queue (q_buffer c ++ [a]) (q_capacity c) (q_open c);
            mpsc_drop_sender := λ A c, Queue (q_buffer c) (q_capacity c) false;
            mpsc_recv := λ A c,
              (match q_buffer c with
               | a :: _ => Received a
               | [] => if q_open c then Waiting else Disconnected
               end, Queue (tail (q_buffer c)) (q_capacity c) (q_open c));
            mpsc_buffer := λ A, q_buffer; mpsc_capacity := λ A, q_capacity;
            mpsc_open := λ A, q_open |}; done.
Defined.

(** ** State *)

Section dispatcher.
Context {X : AmqpExt} {DM : DashMap} {MC : Mpsc}.

(** src/client/handler.rs. *)
Definition MessageResult : Type := option (result ClientError.t Response).

Class MessageHandler (T S : Type) :=
  handle_message : T -> MessageResult -> io S ClientError.t unit.

(** A [Sender<Response>] or a [Receiver<Response>] is the number of its channel. *)
Record RequestsMap := { requests : dashmap nat; closed : bool }.

(** The state behind the handles: the [Arc]s of [DispatcherState], the channels
    created so far, and what the handler works on. *)
Record World (T R : Type) := {
  requests_map : RequestsMap;
  correlation_id : Z;
  handler : option T;
  channels : gmap nat (mpsc Response);
  next_channel : nat;
  rest : R;
}.
Arguments requests_map {T R} _.
Arguments correlation_id {T R} _.
Arguments handler {T R} _.
Arguments channels {T R} _.
Arguments next_channel {T R} _.
Arguments rest {T R} _.

Section operations.
Context {T R : Type}.
Abbreviation W := (World T R).

Definition set_requests (rm : RequestsMap) (w : W) : W :=
  {| requests_map := rm; correlation_id := correlation_id w; handler := handler w;
     channels := channels w; next_channel := next_channel w; rest := rest w |}.
Definition set_channels (cs : gmap nat (mpsc Response)) (w : W) : W :=
  {| requests_map := requests_map w; correlation_id := correlation_id w; handler := handler w;
     channels := cs; next_channel := next_channel w; rest := rest w |}.
Definition set_rest (r : R) (w : W) : W :=
  {| requests_map := requests_map w; correlation_id := correlation_id w; handler := handler w;
     channels := channels w; next_channel := next_channel w; rest := r |}.

Definition RequestsMap_new : RequestsMap := {| requests := dm_new; closed := false |}.

Definition Dispatcher_new (r : R) : W :=
  {| requests_map := RequestsMap_new; correlation_id := 0; handler := None;
     channels := ∅; next_channel := 0; rest := r |}.

Definition set_handler (h : T) (w : W) : W :=
  {| requests_map := requests_map w; correlation_id := correlation_id w; handler := Some h;
     channels := channels w; next_channel := next_channel w; rest := rest w |}.

(** A sender goes out of scope. *)
Definition drop_sender (tx : nat) (w : W) : W :=
  set_channels (alter mpsc_drop_sender tx (channels w)) w.

(** [self.closed.load(..)] *)
Definition RequestsMap_closed (w : W) : bool := closed (requests_map w).

(** [self.requests.insert(correlation_id, sender)]: a sender that was
    registered under the id is replaced, and dropped. *)
Definition RequestsMap_put (cid : Z) (sender : nat) (w : W) : W :=
  let rm := requests_map w in
  let w := match dm_get cid (requests rm) with Some old => drop_sender old w | None => w end in
  set_requests {| requests := dm_insert cid sender (requests rm); closed := closed rm |} w.

Definition RequestsMap_insert {E} (cid : Z) (sender : nat) : io W E bool :=
  is_closed ← gets RequestsMap_closed;
  if (is_closed : bool) then modify (drop_sender sender);; mret false
  else modify (RequestsMap_put cid sender);; mret true.

Definition RequestsMap_remove {E} (cid : Z) : io W E (option nat) := λ w,
  let rm := requests_map w in
  Returns (set_requests {| requests := dm_remove cid (requests rm); closed := closed rm |} w)
          (dm_get cid (requests rm)).

(** [self.closed.store(true)] and [self.requests.clear()]. *)
Definition RequestsMap_store_closed (w : W) : W :=
  set_requests {| requests := requests (requests_map w); closed := true |} w.
Definition RequestsMap_clear (w : W) : W :=
  set_requests {| requests := dm_new; closed := closed (requests_map w) |}
    (foldr (λ kv, drop_sender kv.2) w (dm_iter (requests (requests_map w)))).
Definition RequestsMap_close (w : W) : W := RequestsMap_clear (RequestsMap_store_closed w).

(** [channel(1)] and [correlation_id.fetch_add(1)]. *)
Definition fetch_channel (w : W) : W * (Z * nat) :=
  ({| requests_map := requests_map w; correlation_id := (correlation_id w + 1) mod 2 ^ 32;
      handler := handler w; channels := <[next_channel w := mpsc_channel 1]> (channels w);
      next_channel := S (next_channel w); rest := rest w |},
   (correlation_id w, next_channel w)).

Definition response_channel {E} : io W E (option (Z * nat)) := λ w,
  let '(w, (cid, ch)) := fetch_channel w in
  (inserted ← RequestsMap_insert cid ch;
   mret (if (inserted : bool) then Some (cid, ch) else None)) w.

(** [receiver.recv()]: what is there now. *)
Definition receive {E} (rx : nat) : io W E (recv Response) := λ w,
  match channels w !! rx with
  | Some c => Returns (set_channels (<[rx := (mpsc_recv c).2]> (channels w)) w) (mpsc_recv c).1
  | None => Returns w Disconnected
  end.

(** [rcv.send(response)], whose result is ignored; the sender is then dropped. *)
Definition send_response (tx : nat) (r : Response) (w : W) : W :=
  drop_sender tx (set_channels (alter (mpsc_send r) tx (channels w)) w).

Definition dispatch {E} (cid : Z) (r : Response) : io W E unit :=
  receiver ← RequestsMap_remove cid;
  match receiver with
  | Some rcv => modify (send_response rcv r)
  | None => mret tt
  end.

Context {MH : MessageHandler T W}.

Definition notify {E} (r : Response) : io W E unit :=
  h ← gets handler;
  match h with
  | Some h => ignore (handle_message h (Some (Ok r)))
  | None => mret tt
  end.

(** The part of [close] that tells the handler. *)
Definition notify_closed {E} (error : option ClientError.t) : io W E unit :=
  h ← gets handler;
  match h with
  | Some h =>
      match error with
      | Some err => ignore (handle_message h (Some (Err err)))
      | None => mret tt
      end;;
      ignore (handle_message h None)
  | None => mret tt
  end.

Definition close {E} (error : option ClientError.t) : io W E unit :=
  modify RequestsMap_close;; notify_closed error.

(** One turn of the loop of [handle_response]: does it go on?  A panic while
    the frame was decoded is a panic of the task. *)
Definition handle_item {E} (item : result ClientError.t Response) : io W E bool :=
  match item with
  | Ok r =>
      match Response_correlation_id r with
      | Some cid =>
          match kind r with
          | ResponseKind_ConsumerUpdate _ => notify r
          | _ => dispatch cid r
          end
      | None => notify r
      end;; mret true
  | Err _ => mret false
  | Panic p => crash p
  end.

(** [handle_response] on the items the stream yields before it ends. *)
Fixpoint handle_response {E} (items : list (result ClientError.t Response)) : io W E unit :=
  match items with
  | [] => close None
  | item :: items =>
      continue ← handle_item item;
      if (continue : bool) then handle_response items else close None
  end.

End operations.

(** ** Interleaving

    The calls and the task share the map.  A call in [response_channel] has
    fetched its id, or has read that the map is open; [handed] are the ids and
    receivers [response_channel] has returned.  The task ends in one of two ways: at
    the end of the stream or an error of it, after which it closes the map and clears
    it, or by a panic while a frame is decoded ([step_panic]), which unwinds past the
    closing: the map stays open and keeps its entries. *)

Inductive call := Fetched (cid : Z) (ch : nat) | Checked (cid : Z) (ch : nat).
Inductive task := Running | Closing | Stopped | Panicked.

#[export] Instance log_handler : MessageHandler unit (World unit (list MessageResult)) :=
  λ _ m, modify (λ w, set_rest (rest w ++ [m]) w).

Record system := {
  world : World unit (list MessageResult);
  calls : list call;
  handed : list (Z * nat);
  status : task;
}.

Definition system_start : system :=
  {| world := set_handler tt (Dispatcher_new []); calls := []; handed := []; status := Running |}.

Inductive step : system -> system -> Prop :=
  | step_fetch s w cid ch :
      fetch_channel (world s) = (w, (cid, ch)) ->
      step s {| world := w; calls := Fetched cid ch :: calls s; handed := handed s;
                status := status s |}
  | step_check_open s cid ch before after :
      calls s = before ++ Fetched cid ch :: after -> RequestsMap_closed (world s) = false ->
      step s {| world := world s; calls := before ++ Checked cid ch :: after;
                handed := handed s; status := status s |}
  | step_check_closed s cid ch before after :
      calls s = before ++ Fetched cid ch :: after -> RequestsMap_closed (world s) = true ->
      step s {| world := drop_sender ch (world s); calls := before ++ after;
                handed := handed s; status := status s |}
  | step_insert s cid ch before after :
      calls s = before ++ Checked cid ch :: after ->
      step s {| world := RequestsMap_put cid ch (world s); calls := before ++ after;
                handed := (cid, ch) :: handed s; status := status s |}
  | step_item s r w :
      status s = Running -> handle_item (E:=ClientError.t) (Ok r) (world s) = Returns w true ->
      step s {| world := w; calls := calls s; handed := handed s; status := Running |}
  | step_panic s p w :
      status s = Running -> handle_item (E:=ClientError.t) (Panic p) (world s) = Panics w p ->
      step s {| world := w; calls := calls s; handed := handed s; status := Panicked |}
  | step_end s :
      status s = Running ->
      step s {| world := RequestsMap_store_closed (world s); calls := calls s;
                handed := handed s; status := Closing |}
  | step_clear s w :
      status s = Closing ->
      notify_closed (E:=ClientError.t) None (RequestsMap_clear (world s)) = Returns w tt ->
      step s {| world := w; calls := calls s;
                handed := handed s; status := Stopped |}.

Definition reachable : system -> Prop := rtc step system_start.

(** What the holder of the receiver [ch] would find. *)
Definition answer (s : system) (ch : nat) : recv Response :=
  match channels (world s) !! ch with
  | Some c => (mpsc_recv c).1
  | None => Disconnected
  end.

(** The channels the calls under way and the returned receivers belong to. *)
Definition call_channel (c : call) : nat :=
  match c with Fetched _ ch | Checked _ ch => ch end.

Definition idle (w : World unit (list MessageResult)) (ch : nat) : Prop :=
  ∃ c, channels w !! ch = Some c /\ mpsc_buffer c = [] /\ mpsc_open c = true.

(** A channel that was returned under [cid] waits in the map under [cid], or has
    been closed, or holds the one response it was waiting for. *)
Definition settled (w : World unit (list MessageResult)) (cid : Z) (ch : nat) : Prop :=
  ∃ c, channels w !! ch = Some c /\
    ((mpsc_buffer c = [] /\
      (mpsc_open c = true -> dm_get cid (requests (requests_map w)) = Some ch)) \/
     (∃ r, mpsc_buffer c = [r] /\ Response_correlation_id r = Some cid)).

Record system_ok (s : system) : Prop := {
  ok_fresh ch c : channels (world s) !! ch = Some c -> (ch < next_channel (world s))%nat;
  ok_capacity ch c : channels (world s) !! ch = Some c -> mpsc_capacity c = 1;
  ok_calls k : k ∈ calls s -> idle (world s) (call_channel k);
  ok_handed cid ch : (cid, ch) ∈ handed s -> settled (world s) cid ch;
  ok_pending cid ch :
    dm_get cid (requests (requests_map (world s))) = Some ch ->
    (cid, ch) ∈ handed s /\ idle (world s) ch;
  ok_nodup : NoDup (map call_channel (calls s) ++ map snd (handed s));
  ok_closed : status s = Closing \/ status s = Stopped -> closed (requests_map (world s)) = true;
  ok_handler : handler (world s) = Some tt;
}.

(** ** Laws *)

Lemma call_channel_live s k :
  system_ok s -> k ∈ calls s -> ∃ c, channels (world s) !! call_channel k = Some c.
Proof. intros Hs Hk. destruct (ok_calls s Hs k Hk) as (c & Hc & _). by exists c. Qed.

Lemma drop_sender_channels {T R} tx (w : World T R) ch :
  channels (drop_sender tx w) !! ch =
  if decide (ch = tx) then mpsc_drop_sender <$> channels w !! ch else channels w !! ch.
Proof.
  cbn. case_decide as H; [subst; apply lookup_alter_eq|by apply lookup_alter_ne].
Qed.

Lemma idle_drop_ne w ch tx : ch <> tx -> idle w ch -> idle (drop_sender tx w) ch.
Proof.
  intros Hne (c & Hc & ?). exists c. by rewrite drop_sender_channels, decide_False.
Qed.

Lemma drop_senders_channels {T R} (l : list (Z * nat)) (w : World T R) ch :
  let w' := foldr (λ kv, drop_sender kv.2) w l in
  match channels w !! ch with
  | Some c => ∃ c', channels w' !! ch = Some c' /\ mpsc_buffer c' = mpsc_buffer c /\
      mpsc_capacity c' = mpsc_capacity c /\
      mpsc_open c' = if decide (ch ∈ map snd l) then false else mpsc_open c
  | None => channels w' !! ch = None
  end.
Proof.
  induction l as [|[k tx] l IH]; cbn [foldr map snd] in *.
  - by destruct (channels w !! ch) as [c|]; [exists c|].
  - rewrite drop_sender_channels. destruct (channels w !! ch) as [c|] eqn:Ec.
    + destruct IH as (c' & Hc' & Hb & Hcap & Ho). rewrite Hc'. cbn.
      destruct (decide (ch = tx)) as [->|Hne].
      * exists (mpsc_drop_sender c').
        rewrite mpsc_drop_buffer, mpsc_drop_capacity, mpsc_drop_open.
        rewrite decide_True by (by left). done.
      * exists c'. repeat split; try done. rewrite Ho.
        case_decide as H1; case_decide as H2; try done; exfalso.
        -- apply H2. by right.
        -- by apply elem_of_cons in H2 as [?|?].
    + rewrite IH. by destruct (decide (ch = tx)).
Qed.

Lemma drop_senders_rest {T R} (l : list (Z * nat)) (w : World T R) :
  let w' := foldr (λ kv, drop_sender kv.2) w l in
  next_channel w' = next_channel w /\ handler w' = handler w /\
  requests_map w' = requests_map w /\ rest w' = rest w.
Proof. induction l as [|[k tx] l IH]; cbn in *; [done|]. exact IH. Qed.

Lemma system_start_ok : system_ok system_start.
Proof.
  split.
  - done.
  - done.
  - intros k H. by apply elem_of_nil in H.
  - intros cid ch H. by apply elem_of_nil in H.
  - intros cid ch H. cbn in H. by rewrite dm_get_new in H.
  - constructor.
  - by intros [].
  - done.
Qed.

Lemma elem_of_calls k before after (c : call) :
  k ∈ before ++ c :: after <-> k = c \/ k ∈ before ++ after.
Proof. rewrite !elem_of_app, elem_of_cons. tauto. Qed.

Lemma calls_nodup before after c (hs : list (Z * nat)) :
  NoDup (map call_channel (before ++ c :: after) ++ map snd hs) ->
  NoDup (map call_channel (before ++ after) ++ map snd hs) /\
  call_channel c ∉ map call_channel (before ++ after) ++ map snd hs.
Proof.
  rewrite !map_app. cbn. rewrite <- !app_assoc. cbn.
  intros H. rewrite <- (Permutation_middle _ _ (call_channel c)) in H.
  by apply NoDup_cons in H as [? ?].
Qed.

(** The parts of the state that a step leaves alone. *)
Lemma settled_drop_other w cid ch tx :
  ch <> tx -> settled w cid ch -> settled (drop_sender tx w) cid ch.
Proof.
  intros Hne (c & Hc & H). exists c. by rewrite drop_sender_channels, decide_False.
Qed.

Lemma not_in_handed s cid ch k before after :
  system_ok s -> calls s = before ++ k :: after ->
  (cid, ch) ∈ handed s -> ch <> call_channel k.
Proof.
  intros Hs Hk Hin ->. pose proof (ok_nodup s Hs) as Hn. rewrite Hk in Hn.
  apply calls_nodup in Hn as [_ Hn]. apply Hn, elem_of_app. right.
  apply list_elem_of_fmap. by exists (cid, call_channel k).
Qed.

Lemma not_in_calls s k k' before after :
  system_ok s -> calls s = before ++ k :: after -> k' ∈ before ++ after ->
  call_channel k' <> call_channel k.
Proof.
  intros Hs Hk Hin He. pose proof (ok_nodup s Hs) as Hn. rewrite Hk in Hn.
  apply calls_nodup in Hn as [_ Hn]. apply Hn, elem_of_app. left.
  rewrite <- He. apply list_elem_of_fmap. by exists k'.
Qed.

Lemma step_fetch_ok s w cid ch :
  system_ok s -> fetch_channel (world s) = (w, (cid, ch)) ->
  system_ok {| world := w; calls := Fetched cid ch :: calls s; handed := handed s;
               status := status s |}.
Proof.
  intros Hs [= <- <- <-]. set (n := next_channel (world s)).
  assert (Hn : channels (world s) !! n = None).
  { destruct (channels (world s) !! n) as [c|] eqn:Ec; [|done].
    apply (ok_fresh s Hs) in Ec. lia. }
  assert (Hold : ∀ ch c, channels (world s) !! ch = Some c ->
            <[n:=mpsc_channel 1]> (channels (world s)) !! ch = Some c).
  { intros ch c Hc. rewrite lookup_insert_ne; [done|]. intros <-. by rewrite Hn in Hc. }
  split; cbn; fold n.
  - intros ch c H. apply lookup_insert_Some in H as [[<- _]|[_ H]]; [lia|].
    apply (ok_fresh s Hs) in H. lia.
  - intros ch c H. apply lookup_insert_Some in H as [[_ <-]|[_ H]].
    + apply mpsc_channel_capacity.
    + exact (ok_capacity s Hs _ _ H).
  - intros k [->|Hk]%elem_of_cons; cbn.
    + exists (mpsc_channel 1). cbn. fold n.
      by rewrite lookup_insert_eq, mpsc_channel_buffer, mpsc_channel_open.
    + destruct (ok_calls s Hs k Hk) as (c & Hc & ?). exists c. cbn. fold n. by rewrite (Hold _ _ Hc).
  - intros cid ch Hin. destruct (ok_handed s Hs _ _ Hin) as (c & Hc & ?).
    exists c. cbn. fold n. by rewrite (Hold _ _ Hc).
  - intros cid ch Hp. destruct (ok_pending s Hs _ _ Hp) as (? & c & Hc & ?).
    split; [done|]. exists c. cbn. fold n. by rewrite (Hold _ _ Hc).
  - constructor; [|apply (ok_nodup s Hs)].
    rewrite elem_of_app, !list_elem_of_fmap. intros [(k & Hk & Hin)|([cid ch] & Hk & Hin)].
    + destruct (call_channel_live s k Hs Hin) as [c Hc]. rewrite <- Hk, Hn in Hc. done.
    + destruct (ok_handed s Hs _ _ Hin) as (c & Hc & _). cbn in Hk. subst ch.
      by rewrite Hn in Hc.
  - apply (ok_closed s Hs).
  - apply (ok_handler s Hs).
Qed.

(** A receiver belongs to one call. *)
Lemma handed_once s cid cid' ch :
  system_ok s -> (cid, ch) ∈ handed s -> (cid', ch) ∈ handed s -> cid = cid'.
Proof.
  intros Hs H1 H2. pose proof (ok_nodup s Hs) as Hn. apply NoDup_app in Hn as (_ & _ & Hn).
  revert Hn H1 H2. generalize (handed s). intros l. induction l as [|[k n] l IH]; cbn.
  - intros _ H. by apply elem_of_nil in H.
  - intros [Hk Hl]%NoDup_cons H1 H2.
    assert (∀ x, (x, n) ∉ l) by
      (intros x Hx; apply Hk, list_elem_of_fmap; by exists (x, n)).
    apply elem_of_cons in H1 as [H1|H1]; apply elem_of_cons in H2 as [H2|H2];
      simplify_eq/=; [done|by apply H in H2|by apply H in H1|by apply IH].
Qed.

Lemma step_check_ok s cid ch before after :
  system_ok s -> calls s = before ++ Fetched cid ch :: after ->
  system_ok {| world := world s; calls := before ++ Checked cid ch :: after;
               handed := handed s; status := status s |}.
Proof.
  intros Hs Hk. destruct Hs as [Hf Hcap Hcalls Hh Hp Hn Hc Hhd]. split; cbn; try done.
  - intros k Hin. apply elem_of_calls in Hin as [->|Hin]; cbn.
    + apply (Hcalls (Fetched cid ch)). rewrite Hk. apply elem_of_calls. by left.
    + apply Hcalls. rewrite Hk. apply elem_of_calls. by right.
  - rewrite Hk, !map_app in Hn. by rewrite !map_app.
Qed.

Lemma step_check_closed_ok s cid ch before after :
  system_ok s -> calls s = before ++ Fetched cid ch :: after ->
  system_ok {| world := drop_sender ch (world s); calls := before ++ after;
               handed := handed s; status := status s |}.
Proof.
  intros Hs Hk. pose proof (ok_nodup s Hs) as Hn. rewrite Hk in Hn.
  apply calls_nodup in Hn as [Hn _].
  assert (Hback : ∀ ch' c, channels (drop_sender ch (world s)) !! ch' = Some c ->
            ∃ c0, channels (world s) !! ch' = Some c0 /\ mpsc_capacity c = mpsc_capacity c0).
  { intros ch' c. rewrite drop_sender_channels. case_decide; [|by eauto].
    destruct (channels (world s) !! ch') as [c0|]; [|done]. intros [= <-].
    exists c0. by rewrite mpsc_drop_capacity. }
  split; try done.
  - intros ch' c H. apply Hback in H as (c0 & H & _). exact (ok_fresh s Hs _ _ H).
  - intros ch' c H. apply Hback in H as (c0 & H & ->). exact (ok_capacity s Hs _ _ H).
  - cbn [calls]. intros k Hin. apply idle_drop_ne.
    + exact (not_in_calls s _ _ _ _ Hs Hk Hin).
    + apply (ok_calls s Hs). rewrite Hk. apply elem_of_calls. by right.
  - intros cid' ch' Hin. apply settled_drop_other; [|by apply (ok_handed s Hs)].
    exact (not_in_handed s _ _ _ _ _ Hs Hk Hin).
  - intros cid' ch' Hp. destruct (ok_pending s Hs cid' ch' Hp) as [Hin Hi]. split; [done|].
    apply idle_drop_ne; [|done]. exact (not_in_handed s _ _ _ _ _ Hs Hk Hin).
  - apply (ok_closed s Hs).
  - apply (ok_handler s Hs).
Qed.

Lemma step_end_ok s :
  system_ok s ->
  system_ok {| world := RequestsMap_store_closed (world s); calls := calls s;
               handed := handed s; status := Closing |}.
Proof. intros [Hf Hcap Hcalls Hh Hp Hn Hc Hhd]. by split. Qed.

Lemma step_clear_ok s w :
  system_ok s -> status s = Closing ->
  notify_closed (E:=ClientError.t) None (RequestsMap_clear (world s)) = Returns w tt ->
  system_ok {| world := w; calls := calls s; handed := handed s; status := Stopped |}.
Proof.
  intros Hs Hst Hw.
  pose proof (drop_senders_rest (dm_iter (requests (requests_map (world s)))) (world s))
    as (Hnext & Hhandler & _ & Hrest).
  assert (Hch := drop_senders_channels (dm_iter (requests (requests_map (world s)))) (world s)).
  set (l := dm_iter _) in *. cbn zeta in *. fold l in Hch.
  set (w0 := foldr _ (world s) l) in *.
  assert (Hwc : w = set_rest (rest (world s) ++ [None]) (RequestsMap_clear (world s))).
  { unfold notify_closed, gets, mbind, io_bind in Hw. cbn in Hw. fold l in Hw. fold w0 in Hw.
    rewrite Hhandler, (ok_handler s Hs) in Hw. cbn in Hw. injection Hw as <-.
    cbn. fold l. fold w0. by rewrite Hrest. }
  assert (Hcs : channels w = channels w0) by by rewrite Hwc.
  assert (Hin : ∀ cid ch, dm_get cid (requests (requests_map (world s))) = Some ch ->
                  ch ∈ map snd l).
  { intros cid ch H. apply dm_iter_get in H. apply list_elem_of_fmap. by exists (cid, ch). }
  split.
  - intros ch c. cbn. rewrite Hcs, Hwc. cbn. fold l. fold w0. rewrite Hnext. specialize (Hch ch).
    destruct (channels (world s) !! ch) as [c0|] eqn:E0; [|by rewrite Hch].
    intros _. exact (ok_fresh s Hs _ _ E0).
  - intros ch c. cbn. rewrite Hcs. specialize (Hch ch).
    destruct (channels (world s) !! ch) as [c0|] eqn:E0; [|by rewrite Hch].
    destruct Hch as (c' & -> & _ & Hcap & _). intros [= <-].
    rewrite Hcap. exact (ok_capacity s Hs _ _ E0).
  - intros k Hk. destruct (ok_calls s Hs k Hk) as (c & Hc & Hb & Ho).
    specialize (Hch (call_channel k)). rewrite Hc in Hch.
    destruct Hch as (c' & Hc' & Hb' & _ & Ho'). exists c'. cbn [world]. rewrite Hcs, Hb', Ho'.
    rewrite decide_False; [done|]. intros Hl.
    apply list_elem_of_fmap in Hl as ([cid ch] & Hkc & Hl). apply dm_iter_get in Hl.
    destruct (ok_pending s Hs _ _ Hl) as [Hhd _].
    apply list_elem_of_split in Hk as (before & after & Hk).
    by apply (not_in_handed s _ _ _ _ _ Hs Hk Hhd).
  - intros cid ch H. destruct (ok_handed s Hs _ _ H) as (c & Hc & Hcase).
    specialize (Hch ch). rewrite Hc in Hch. destruct Hch as (c' & Hc' & Hb' & _ & Ho').
    exists c'. cbn [world]. rewrite Hcs, Hc', Hb', Ho'. split; [done|].
    destruct Hcase as [[He Hp]|Hr]; [left|by right]. split; [done|].
    case_decide as Hl; [done|]. intros Ho. by apply Hp, Hin in Ho.
  - intros cid ch. cbn. rewrite Hwc. cbn. by rewrite dm_get_new.
  - apply (ok_nodup s Hs).
  - intros _. rewrite Hwc. cbn. apply (ok_closed s Hs). by left.
  - rewrite Hwc. cbn. fold l. fold w0. rewrite Hhandler. apply (ok_handler s Hs).
Qed.

Lemma put_channels cid ch (w : World unit (list MessageResult)) ch' :
  channels (RequestsMap_put cid ch w) !! ch' =
  if decide (dm_get cid (requests (requests_map w)) = Some ch')
  then mpsc_drop_sender <$> channels w !! ch' else channels w !! ch'.
Proof.
  unfold RequestsMap_put. destruct (dm_get cid _) as [old|] eqn:Ep.
  - change (channels (set_requests ?r ?x)) with (channels x). rewrite drop_sender_channels.
    case_decide as H1; case_decide as H2; congruence.
  - case_decide as H; [done|reflexivity].
Qed.

Lemma put_world cid ch (w : World unit (list MessageResult)) :
  let w' := RequestsMap_put cid ch w in
  requests (requests_map w') = dm_insert cid ch (requests (requests_map w)) /\
  closed (requests_map w') = closed (requests_map w) /\
  next_channel w' = next_channel w /\ handler w' = handler w.
Proof. cbn. unfold RequestsMap_put. by destruct (dm_get cid _). Qed.

Lemma put_idle cid ch (w : World unit (list MessageResult)) ch' :
  dm_get cid (requests (requests_map w)) <> Some ch' -> idle w ch' ->
  idle (RequestsMap_put cid ch w) ch'.
Proof. intros Hne (c & Hc & ?). exists c. by rewrite put_channels, decide_False. Qed.

Lemma put_back cid ch (w : World unit (list MessageResult)) ch' c :
  channels (RequestsMap_put cid ch w) !! ch' = Some c ->
  ∃ c0, channels w !! ch' = Some c0 /\ mpsc_capacity c = mpsc_capacity c0.
Proof.
  rewrite put_channels. case_decide; [|by eauto].
  destruct (channels w !! ch') as [c0|]; [|done]. intros [= <-].
  exists c0. by rewrite mpsc_drop_capacity.
Qed.

Lemma step_insert_ok s cid ch before after :
  system_ok s -> calls s = before ++ Checked cid ch :: after ->
  system_ok {| world := RequestsMap_put cid ch (world s); calls := before ++ after;
               handed := (cid, ch) :: handed s; status := status s |}.
Proof.
  intros Hs Hk. destruct (put_world cid ch (world s)) as (Hreq & Hcl & Hnext & Hhd).
  pose proof (ok_nodup s Hs) as Hn. rewrite Hk in Hn. apply calls_nodup in Hn as [Hn Hnew].
  assert (Hcall : idle (world s) ch).
  { apply (ok_calls s Hs (Checked cid ch)). rewrite Hk. apply elem_of_calls. by left. }
  assert (Hold : ∀ ch', (∃ c, (c, ch') ∈ handed s) -> ch' <> ch).
  { intros ch' [c Hc]. exact (not_in_handed s _ _ _ _ _ Hs Hk Hc). }
  assert (Hidle := put_idle cid ch (world s)). assert (Hback := put_back cid ch (world s)).
  split; cbn [world calls handed status].
  - intros ch' c H. apply Hback in H as (c0 & H & _). rewrite Hnext. exact (ok_fresh s Hs _ _ H).
  - intros ch' c H. apply Hback in H as (c0 & H & ->). exact (ok_capacity s Hs _ _ H).
  - intros k Hin. apply Hidle.
    + intros Hp. apply (ok_pending s Hs) in Hp as [Hp _].
      assert (Hkin : k ∈ calls s) by (rewrite Hk; apply elem_of_calls; by right).
      apply list_elem_of_split in Hkin as (b & a & Hkin).
      by apply (not_in_handed s _ _ _ _ _ Hs Hkin Hp).
    + apply (ok_calls s Hs). rewrite Hk. apply elem_of_calls. by right.
  - intros cid' ch' [[= -> ->]|Hin]%elem_of_cons.
    + destruct (Hidle ch) as (c & Hc & Hb & Ho); [|done|].
      { intros Hp. apply (ok_pending s Hs) in Hp as [Hp _]. by apply (Hold ch); [exists cid|]. }
      exists c. split; [done|]. left. split; [done|]. intros _.
      by rewrite Hreq, dm_get_insert, decide_True.
    + destruct (ok_handed s Hs _ _ Hin) as (c & Hc & Hcase). unfold settled.
      rewrite put_channels, Hc, Hreq. case_decide as Hp; cbn.
      * exists (mpsc_drop_sender c). rewrite mpsc_drop_buffer, mpsc_drop_open. split; [done|].
        destruct Hcase as [[He _]|Hr]; [by left|by right].
      * exists c. split; [done|]. destruct Hcase as [[He Hpend]|Hr]; [left|by right].
        split; [done|]. intros Ho. rewrite dm_get_insert. case_decide as Hc'; [|by apply Hpend].
        subst cid'. by apply Hpend in Ho.
  - intros cid' ch'. rewrite Hreq, dm_get_insert. case_decide as Hc.
    + intros [= <-]. subst cid'. split; [by left|]. apply Hidle; [|done].
      intros Hp. apply (ok_pending s Hs) in Hp as [Hp _]. by apply (Hold ch); [exists cid|].
    + intros Hp. destruct (ok_pending s Hs _ _ Hp) as [Hin Hi]. split; [by right|].
      apply Hidle; [|done]. intros Hp'. apply (ok_pending s Hs) in Hp' as [Hin' _].
      by apply Hc, (handed_once s cid cid' ch').
  - cbn. rewrite <- (Permutation_middle _ _ ch). by apply NoDup_cons.
  - rewrite Hcl. apply (ok_closed s Hs).
  - rewrite Hhd. apply (ok_handler s Hs).
Qed.

(** What [dispatch] does to the state. *)
Definition dispatched {T R} (cid : Z) (r : Response) (w : World T R) : World T R :=
  let rm := requests_map w in
  let w' := set_requests {| requests := dm_remove cid (requests rm); closed := closed rm |} w in
  match dm_get cid (requests rm) with Some rcv => send_response rcv r w' | None => w' end.

Lemma dispatch_eq {T R E} cid r (w : World T R) :
  dispatch (E:=E) cid r w = Returns (dispatched cid r w) tt.
Proof. unfold dispatch, dispatched, mbind, io_bind. cbn. by destruct (dm_get cid _). Qed.

Definition is_consumer_update (r : Response) : bool :=
  match kind r with ResponseKind_ConsumerUpdate _ => true | _ => false end.

(** A response goes to the channel of its id, unless it is a push. *)
Lemma handle_item_dispatch {T R E} `{!MessageHandler T (World T R)} r cid (w : World T R) :
  Response_correlation_id r = Some cid ->
  is_consumer_update r = false ->
  handle_item (E:=E) (Ok r) w = Returns (dispatched cid r w) true.
Proof.
  intros Hc Hk. unfold handle_item. rewrite Hc.
  assert (Hd : (dispatch (E:=E) cid r;; mret true) w = Returns (dispatched cid r w) true)
    by (erewrite io_bind_returns; [done|apply dispatch_eq]).
  unfold is_consumer_update in Hk. by destruct (kind r).
Qed.

Lemma handle_item_notify {T R E} `{!MessageHandler T (World T R)} r (w : World T R) :
  Response_correlation_id r = None \/ is_consumer_update r = true ->
  handle_item (E:=E) (Ok r) w = (notify r;; mret true) w.
Proof.
  intros [H|H]; unfold handle_item; [by rewrite H|].
  unfold Response_correlation_id. unfold is_consumer_update in H. by destruct (kind r).
Qed.

Lemma handle_item_cases s w r :
  system_ok s -> handle_item (E:=ClientError.t) (Ok r) (world s) = Returns w true ->
  w = set_rest (rest (world s) ++ [Some (Ok r)]) (world s) \/
  ∃ cid, Response_correlation_id r = Some cid /\ w = dispatched cid r (world s).
Proof.
  intros Hs. pose proof (ok_handler s Hs) as Hh.
  destruct (Response_correlation_id r) as [cid|] eqn:Ec;
    [destruct (is_consumer_update r) eqn:Hk|].
  - rewrite handle_item_notify by by right.
    unfold notify, mbind, io_bind. cbn. rewrite Hh. intros [= <-]. by left.
  - rewrite (handle_item_dispatch r cid) by done. intros [= <-]. right. by exists cid.
  - rewrite handle_item_notify by by left.
    unfold notify, mbind, io_bind. cbn. rewrite Hh. intros [= <-]. by left.
Qed.

Lemma dispatched_channels cid r (w : World unit (list MessageResult)) ch :
  channels (dispatched cid r w) !! ch =
  if decide (dm_get cid (requests (requests_map w)) = Some ch)
  then mpsc_drop_sender ∘ mpsc_send r <$> channels w !! ch else channels w !! ch.
Proof.
  unfold dispatched. destruct (dm_get cid _) as [rcv|] eqn:Ep; [|by case_decide].
  unfold send_response. rewrite drop_sender_channels. cbn.
  case_decide as H1; case_decide as H2; try congruence; subst.
  - rewrite lookup_alter_eq. by rewrite <- option_fmap_compose.
  - by rewrite lookup_alter_ne.
Qed.

Lemma dispatched_world cid r (w : World unit (list MessageResult)) :
  let w' := dispatched cid r w in
  requests (requests_map w') = dm_remove cid (requests (requests_map w)) /\
  closed (requests_map w') = closed (requests_map w) /\
  next_channel w' = next_channel w /\ handler w' = handler w.
Proof. cbn. unfold dispatched. by destruct (dm_get cid _). Qed.

Lemma dispatched_settled s cid r cid' ch :
  system_ok s -> Response_correlation_id r = Some cid ->
  (cid', ch) ∈ handed s -> settled (dispatched cid r (world s)) cid' ch.
Proof.
  intros Hs Hr Hin. destruct (ok_handed s Hs _ _ Hin) as (c & Hc & Hcase).
  destruct (dispatched_world cid r (world s)) as (Hreq & _).
  unfold settled. rewrite dispatched_channels, Hc, Hreq. case_decide as Hp; cbn.
  - destruct (ok_pending s Hs _ _ Hp) as (Hin' & c0 & Hc0 & Hb & _).
    rewrite Hc in Hc0. injection Hc0 as <-.
    rewrite (handed_once s cid' cid ch) by done.
    eexists. split; [reflexivity|]. right. exists r.
    rewrite mpsc_drop_buffer, mpsc_send_buffer, Hb; [done|].
    rewrite Hb, (ok_capacity s Hs _ _ Hc). done.
  - exists c. split; [done|]. destruct Hcase as [[He Hpend]|?]; [left|by right].
    split; [done|]. intros Ho. rewrite dm_get_remove. case_decide as Hcid; [|by apply Hpend].
    subst. by apply Hpend in Ho.
Qed.

Lemma dispatched_idle cid r (w : World unit (list MessageResult)) ch :
  dm_get cid (requests (requests_map w)) <> Some ch -> idle w ch -> idle (dispatched cid r w) ch.
Proof. intros Hne (c & Hc & ?). exists c. by rewrite dispatched_channels, decide_False. Qed.

Lemma step_dispatch_ok s cid r :
  system_ok s -> status s = Running -> Response_correlation_id r = Some cid ->
  system_ok {| world := dispatched cid r (world s); calls := calls s; handed := handed s;
               status := Running |}.
Proof.
  intros Hs Hst Hr. destruct (dispatched_world cid r (world s)) as (Hreq & Hcl & Hnext & Hhd).
  assert (Hback : ∀ ch' c, channels (dispatched cid r (world s)) !! ch' = Some c ->
            ∃ c0, channels (world s) !! ch' = Some c0 /\ mpsc_capacity c = mpsc_capacity c0).
  { intros ch' c. rewrite dispatched_channels. case_decide; [|by eauto].
    destruct (channels (world s) !! ch') as [c0|]; [|done]. intros [= <-].
    exists c0. by rewrite mpsc_drop_capacity, mpsc_send_capacity. }
  split; cbn [world calls handed status].
  - intros ch' c H. apply Hback in H as (c0 & H & _). rewrite Hnext. exact (ok_fresh s Hs _ _ H).
  - intros ch' c H. apply Hback in H as (c0 & H & ->). exact (ok_capacity s Hs _ _ H).
  - intros k Hk. apply dispatched_idle; [|by apply (ok_calls s Hs)].
    intros Hp. apply (ok_pending s Hs) in Hp as [Hp _].
    apply list_elem_of_split in Hk as (b & a & Hk).
    by apply (not_in_handed s _ _ _ _ _ Hs Hk Hp).
  - intros cid' ch Hin. by apply dispatched_settled.
  - intros cid' ch. rewrite Hreq, dm_get_remove. case_decide as Hc; [done|]. intros Hp.
    destruct (ok_pending s Hs _ _ Hp) as [Hin Hi]. split; [done|].
    apply dispatched_idle; [|done]. intros Hp'. apply (ok_pending s Hs) in Hp' as [Hin' _].
    by apply Hc, (handed_once s cid cid' ch).
  - apply (ok_nodup s Hs).
  - by intros [].
  - rewrite Hhd. apply (ok_handler s Hs).
Qed.

Lemma step_ok s s' : system_ok s -> step s s' -> system_ok s'.
Proof.
  intros Hs Hstep.
  destruct Hstep as [s w cid ch Hf|s cid ch b a Hk _|s cid ch b a Hk _|s cid ch b a Hk
    |s r w Hst Hi|s p w Hst Hi|s Hst|s w Hst Hw].
  - by eapply step_fetch_ok.
  - by apply step_check_ok.
  - by eapply step_check_closed_ok.
  - by apply step_insert_ok.
  - apply handle_item_cases in Hi as [->|(cid & Hr & ->)]; [|by apply step_dispatch_ok|done].
    destruct Hs as [Hf Hcap Hcalls Hh Hp Hn Hc Hhd]. by split; try done; intros [].
  - injection Hi as <-. destruct Hs as [Hf Hcap Hcalls Hh Hp Hn Hc Hhd]. by split; try done; intros [].
  - by apply step_end_ok.
  - by eapply step_clear_ok.
Qed.

Lemma reachable_ok s : reachable s -> system_ok s.
Proof.
  intros H. unfold reachable in H. pose proof system_start_ok as H0.
  induction H as [s|s1 s2 s3 Hstep _ IH]; [done|]. apply IH. by eapply step_ok.
Qed.

Lemma answer_value s ch c :
  channels (world s) !! ch = Some c ->
  answer s ch = match mpsc_buffer c with
                | a :: _ => Received a
                | [] => if mpsc_open c then Waiting else Disconnected
                end.
Proof. intros Hc. unfold answer. by rewrite Hc, mpsc_recv_value. Qed.

Lemma answer_settled s cid ch r :
  settled (world s) cid ch -> answer s ch = Received r -> Response_correlation_id r = Some cid.
Proof.
  intros (c & Hc & Hcase). rewrite (answer_value _ _ _ Hc).
  destruct Hcase as [[-> _]|(r' & -> & Hr)]; [by destruct (mpsc_open c)|].
  by intros [= ->].
Qed.

Lemma answer_waiting s cid ch :
  settled (world s) cid ch -> answer s ch = Waiting ->
  dm_get cid (requests (requests_map (world s))) = Some ch.
Proof.
  intros (c & Hc & Hcase). rewrite (answer_value _ _ _ Hc).
  destruct Hcase as [[-> Hp]|(r' & -> & Hr)]; [|done].
  destruct (mpsc_open c) eqn:Ho; [|done]. intros _. by apply Hp.
Qed.

(** A channel that is still registered waits. *)
Lemma answer_pending s cid ch :
  system_ok s -> dm_get cid (requests (requests_map (world s))) = Some ch -> answer s ch = Waiting.
Proof.
  intros Hs Hp. destruct (ok_pending s Hs _ _ Hp) as (_ & c & Hc & Hb & Ho).
  by rewrite (answer_value _ _ _ Hc), Hb, Ho.
Qed.

Lemma not_pending s ch :
  system_ok s -> answer s ch <> Waiting ->
  ∀ cid, dm_get cid (requests (requests_map (world s))) <> Some ch.
Proof. intros Hs Hne cid Hp. by eapply Hne, answer_pending. Qed.

Lemma clear_channels w w' ch :
  handler w = Some tt ->
  notify_closed (E:=ClientError.t) None (RequestsMap_clear w) = Returns w' tt ->
  match channels w !! ch with
  | Some c => ∃ c', channels w' !! ch = Some c' /\ mpsc_buffer c' = mpsc_buffer c /\
      ((∀ cid, dm_get cid (requests (requests_map w)) <> Some ch) ->
       mpsc_open c' = mpsc_open c)
  | None => channels w' !! ch = None
  end.
Proof.
  intros Hh Hw. set (l := dm_iter (requests (requests_map w))).
  pose proof (drop_senders_channels l w ch) as Hch. cbv zeta in Hch.
  pose proof (drop_senders_rest l w) as (_ & Hhandler & _ & _).
  unfold notify_closed in Hw. unfold mbind, io_bind in Hw. cbn in Hw.
  fold l in Hw. rewrite Hhandler, Hh in Hw. cbn in Hw. injection Hw as <-. cbn.
  destruct (channels w !! ch) as [c|]; [|exact Hch].
  destruct Hch as (c' & Hc' & Hb & _ & Ho). exists c'. split; [exact Hc'|]. split; [exact Hb|].
  intros Hnp. rewrite Ho, decide_False; [done|]. rewrite list_elem_of_fmap.
  intros ([cid ch'] & -> & H). apply (Hnp cid). by apply dm_iter_get.
Qed.

(** What a call has found, a response or the end, never changes. *)
Lemma answer_step s s' cid ch :
  system_ok s -> (cid, ch) ∈ handed s -> answer s ch <> Waiting -> step s s' ->
  (cid, ch) ∈ handed s' /\ answer s' ch = answer s ch.
Proof.
  intros Hs Hin Hne Hstep. pose proof (not_pending s ch Hs Hne) as Hnp. unfold answer in *.
  destruct Hstep as [s w cid' ch' Hf|s cid' ch' b a Hk _|s cid' ch' b a Hk _|s cid' ch' b a Hk
    |s r w Hst Hi|s p w Hst Hi|s Hst|s w Hst Hw]; cbn [world handed] in *; (split; [try done|]).
  - injection Hf as <- <- <-. cbn. rewrite lookup_insert_ne; [done|]. intros Hn.
    destruct (ok_handed s Hs _ _ Hin) as (c & Hc & _). apply (ok_fresh s Hs) in Hc. lia.
  - done.
  - rewrite drop_sender_channels, decide_False; [done|]. exact (not_in_handed s _ _ _ _ _ Hs Hk Hin).
  - by right.
  - by rewrite put_channels, decide_False.
  - apply handle_item_cases in Hi as [->|(cid' & Hr & ->)]; [done| |done].
    by rewrite dispatched_channels, decide_False.
  - by injection Hi as <-.
  - done.
  - pose proof (clear_channels _ _ ch (ok_handler s Hs) Hw) as Hch.
    destruct (channels (world s) !! ch) as [c|]; [|by rewrite Hch].
    destruct Hch as (c' & Hc' & Hb & Ho). by rewrite Hc', !mpsc_recv_value, Hb, Ho.
Qed.

Lemma answer_steps s s' cid ch :
  system_ok s -> (cid, ch) ∈ handed s -> answer s ch <> Waiting -> rtc step s s' ->
  answer s' ch = answer s ch.
Proof.
  intros Hs Hin Hne Hsteps. induction Hsteps as [s|s1 s2 s3 Hstep _ IH]; [done|].
  destruct (answer_step s1 s2 cid ch Hs Hin Hne Hstep) as [Hin2 Ha].
  rewrite IH; [done|by eapply step_ok|done|by rewrite Ha].
Qed.

(** When the task stops, every receiver handed out so far has its response or
    sees its channel closed. *)
Lemma answer_stopped s s' cid ch :
  system_ok s -> (cid, ch) ∈ handed s -> status s = Closing -> status s' = Stopped ->
  step s s' -> answer s' ch <> Waiting.
Proof.
  intros Hs Hin Hcl Hst Hstep Hw.
  assert (Hs' : system_ok s') by by eapply step_ok.
  assert (Hin' : (cid, ch) ∈ handed s' /\ requests (requests_map (world s')) = dm_new).
  { destruct Hstep as [s w cid' ch' Hf|s cid' ch' b a Hk _|s cid' ch' b a Hk _|s cid' ch' b a Hk
      |s r w Hr Hi|s p w Hr Hi|s Hr|s w Hr Hn]; cbn [status handed world] in *; try congruence.
    split; [done|]. unfold notify_closed, mbind, io_bind in Hn. cbn in Hn.
    pose proof (drop_senders_rest (dm_iter (requests (requests_map (world s)))) (world s))
      as (_ & Hhandler & _ & _).
    rewrite Hhandler, (ok_handler s Hs) in Hn. cbn in Hn. by injection Hn as <-. }
  destruct Hin' as [Hin' Hreq]. pose proof (answer_waiting _ _ _ (ok_handed s' Hs' _ _ Hin') Hw) as H.
  by rewrite Hreq, dm_get_new in H.
Qed.

(** The response that is read while a call is registered under its id is the one
    the call gets. *)
Lemma answer_dispatched s w cid ch r :
  system_ok s -> dm_get cid (requests (requests_map (world s))) = Some ch ->
  Response_correlation_id r = Some cid -> is_consumer_update r = false ->
  handle_item (E:=ClientError.t) (Ok r) (world s) = Returns w true ->
  answer {| world := w; calls := calls s; handed := handed s; status := Running |} ch = Received r.
Proof.
  intros Hs Hp Hr Hk Hi. rewrite (handle_item_dispatch r cid) in Hi by done. injection Hi as <-.
  destruct (ok_pending s Hs _ _ Hp) as (_ & c & Hc & Hb & _). unfold answer. cbn [world].
  rewrite dispatched_channels, decide_True, Hc by done. cbn.
  by rewrite mpsc_recv_value, mpsc_drop_buffer, mpsc_send_buffer, Hb
    by (by rewrite Hb, (ok_capacity s Hs _ _ Hc)).
Qed.

(** After the task has stopped the map takes no new entry, and the calls that
    are not past the check cannot touch a receiver handed out before. *)
Definition finished (s : system) : Prop :=
  status s = Stopped /\ ∀ k, k ∈ calls s -> ∃ cid ch, k = Fetched cid ch.

Lemma finished_step s s' cid ch :
  system_ok s -> finished s -> (cid, ch) ∈ handed s -> step s s' ->
  finished s' /\ (cid, ch) ∈ handed s' /\
  channels (world s') !! ch = channels (world s) !! ch.
Proof.
  intros Hs [Hst Hcalls] Hin Hstep.
  destruct Hstep as [s w cid' ch' Hf|s cid' ch' b a Hk Hc|s cid' ch' b a Hk _|s cid' ch' b a Hk
    |s r w Hst' Hi|s p w Hst' Hi|s Hst'|s w Hst' Hw]; try by rewrite Hst in Hst'.
  - injection Hf as <- <- <-. split; [split; [done|]|split; [done|]].
    + cbn. intros k [->|Hk]%elem_of_cons; [by eauto|by apply Hcalls].
    + cbn. rewrite lookup_insert_ne; [done|]. intros Hn.
      destruct (ok_handed s Hs _ _ Hin) as (c & Hc & _). apply (ok_fresh s Hs) in Hc. lia.
  - assert (Hcl : closed (requests_map (world s)) = true)
      by (apply (ok_closed s Hs); by right).
    unfold RequestsMap_closed in Hc. by rewrite Hc in Hcl.
  - split; [split; [done|]|split; [done|]].
    + cbn. intros k H. apply Hcalls. rewrite Hk. apply elem_of_calls. by right.
    + cbn [world]. rewrite drop_sender_channels, decide_False; [done|].
      exact (not_in_handed s _ _ _ _ _ Hs Hk Hin).
  - destruct (Hcalls (Checked cid' ch')) as (? & ? & ?); [|done].
    rewrite Hk. apply elem_of_calls. by left.
Qed.

Lemma finished_steps s s' cid ch :
  system_ok s -> finished s -> (cid, ch) ∈ handed s -> rtc step s s' ->
  answer s' ch = answer s ch.
Proof.
  intros Hs Hf Hin Hsteps. induction Hsteps as [s|s1 s2 s3 Hstep _ IH]; [done|].
  destruct (finished_step s1 s2 cid ch Hs Hf Hin Hstep) as (Hf2 & Hin2 & Hch).
  rewrite IH; [|by eapply step_ok|done|done]. unfold answer. by rewrite Hch.
Qed.

(** After a panic of the task nothing is taken from the map any more: an entry stays
    until a call that was given the same id, when the ids have come round, replaces it. *)
Definition abandoned (s : system) (cid : Z) (ch : nat) : Prop :=
  status s = Panicked /\
  (dm_get cid (requests (requests_map (world s))) = Some ch \/
   ∃ ch', ch' <> ch /\ (cid, ch') ∈ handed s).

Lemma abandoned_step s s' cid ch :
  system_ok s -> abandoned s cid ch -> step s s' -> abandoned s' cid ch.
Proof.
  intros Hs [Hst Hcase] Hstep.
  destruct Hstep as [s w cid' ch' Hf|s cid' ch' b a Hk Hc|s cid' ch' b a Hk _|s cid' ch' b a Hk
    |s r w Hst' Hi|s p w Hst' Hi|s Hst'|s w Hst' Hw]; try by rewrite Hst in Hst'.
  - by injection Hf as <- <- <-.
  - done.
  - done.
  - split; [done|]. cbn [handed world]. destruct Hcase as [Hp|(c & Hne & Hin)].
    + destruct (put_world cid' ch' (world s)) as (-> & _). rewrite dm_get_insert.
      case_decide as He; [subst cid'|by left]. right. exists ch'. split; [|by left].
      intros ->. apply (ok_pending s Hs) in Hp as [Hp _].
      by apply (not_in_handed s _ _ _ _ _ Hs Hk Hp).
    + right. exists c. split; [done|by right].
Qed.

Lemma abandoned_steps s s' cid ch :
  system_ok s -> abandoned s cid ch -> rtc step s s' -> abandoned s' cid ch /\ system_ok s'.
Proof.
  intros Hs Ha Hsteps. induction Hsteps as [s|s1 s2 s3 Hstep _ IH]; [done|].
  apply IH; [by eapply step_ok|by eapply abandoned_step].
Qed.

(** When the task has panicked a receiver keeps what it holds, and one that waits waits
    for ever, but for the call that takes over its id. *)
Lemma answer_panicked s s' cid ch :
  system_ok s -> status s = Panicked -> (cid, ch) ∈ handed s -> rtc step s s' ->
  answer s' ch = answer s ch \/
  answer s ch = Waiting /\ ∃ ch', ch' <> ch /\ (cid, ch') ∈ handed s'.
Proof.
  intros Hs Hst Hin Hsteps.
  assert (Hdec : answer s ch = Waiting \/ answer s ch <> Waiting)
    by (destruct (answer s ch); by (left + right)).
  destruct Hdec as [Hw|Hw]; [|left; by eapply answer_steps].
  pose proof (answer_waiting _ _ _ (ok_handed s Hs _ _ Hin) Hw) as Hp.
  destruct (abandoned_steps s s' cid ch Hs) as [[_ [Hp'|Hr]] Hs']; [by split; [|left]|done| |].
  - left. rewrite Hw. by eapply answer_pending.
  - by right.
Qed.

End dispatcher.

#[global] Arguments requests_map {X DM MC T R} _.
#[global] Arguments correlation_id {X DM MC T R} _.
#[global] Arguments handler {X DM MC T R} _.
#[global] Arguments channels {X DM MC T R} _.
#[global] Arguments next_channel {X DM MC T R} _.
#[global] Arguments rest {X DM MC T R} _.
