(* ===== verification/Options.v ===== *)
(** * Options, metadata and messages of the client

    src/client/options.rs, the builders of src/environment.rs,
    src/byte_capacity.rs, src/client/metadata.rs, src/client/message.rs.

    A builder method takes the options and returns them changed; a Rust string
    is the list of its bytes. *)
From stdpp Require Import pretty.
From S2P Require Import Prelude Utf8 HashMaps Integers Codec Protocol.
From S2P Require Import Session Streams Producing Consuming.
From S2P Require Import AmqpCodes AmqpSimple AmqpValue AmqpMessage Messages Request Response.

(** ** src/environment.rs: TlsConfiguration *)

Record TlsConfiguration := {
  enabled : bool;
  trust_certificates : bool;
  root_certificates_path : bytes;
  client_certificates_path : bytes;
  client_keys_path : bytes;
}.

Definition TlsConfiguration_default : TlsConfiguration :=
  {| enabled := true; trust_certificates := false; root_certificates_path := [];
     client_certificates_path := []; client_keys_path := [] |}.

Definition TlsConfiguration_enable (b : bool) (t : TlsConfiguration) : TlsConfiguration :=
  {| enabled := b; trust_certificates := trust_certificates t;
     root_certificates_path := root_certificates_path t;
     client_certificates_path := client_certificates_path t;
     client_keys_path := client_keys_path t |}.
Definition TlsConfiguration_trust_certificates (b : bool) (t : TlsConfiguration) :=
  {| enabled := enabled t; trust_certificates := b;
     root_certificates_path := root_certificates_path t;
     client_certificates_path := client_certificates_path t;
     client_keys_path := client_keys_path t |}.
Definition TlsConfiguration_add_root_certificates (p : bytes) (t : TlsConfiguration) :=
  {| enabled := enabled t; trust_certificates := trust_certificates t;
     root_certificates_path := p;
     client_certificates_path := client_certificates_path t;
     client_keys_path := client_keys_path t |}.
Definition TlsConfiguration_add_client_certificates_keys (cert key : bytes)
    (t : TlsConfiguration) :=
  {| enabled := enabled t; trust_certificates := trust_certificates t;
     root_certificates_path := root_certificates_path t;
     client_certificates_path := cert; client_keys_path := key |}.

(** [TlsConfigurationBuilder]: the same on the configuration it holds. *)
Definition TlsConfigurationBuilder_enable := TlsConfiguration_enable.
Definition TlsConfigurationBuilder_trust_certificates := TlsConfiguration_trust_certificates.
Definition TlsConfigurationBuilder_add_root_certificates := TlsConfiguration_add_root_certificates.
Definition TlsConfigurationBuilder_add_client_certificates_keys :=
  TlsConfiguration_add_client_certificates_keys.

(** ** src/client/options.rs

    The metrics collector is the caller's; the client keeps what it reports. *)

Record ClientOptions := {
  host : bytes;
  port : Z;
  user : bytes;
  password : bytes;
  v_host : bytes;
  heartbeat : Z;
  max_frame_size : Z;
  load_balancer_mode : bool;
  tls : TlsConfiguration;
  client_provided_name : bytes;
}.

Definition ClientOptions_default : ClientOptions :=
  {| host := str "localhost"; port := 5552; user := str "guest"; password := str "guest";
     v_host := str "/"; heartbeat := 60; max_frame_size := 1048576;
     load_balancer_mode := false; tls := TlsConfiguration_enable false TlsConfiguration_default;
     client_provided_name := str "rust-stream" |}.

Definition with_host (x : bytes) (o : ClientOptions) : ClientOptions :=
  {| host := x; port := port o; user := user o; password := password o; v_host := v_host o;
     heartbeat := heartbeat o; max_frame_size := max_frame_size o;
     load_balancer_mode := load_balancer_mode o; tls := tls o;
     client_provided_name := client_provided_name o |}.
Definition with_port (x : Z) (o : ClientOptions) : ClientOptions :=
  {| host := host o; port := x; user := user o; password := password o; v_host := v_host o;
     heartbeat := heartbeat o; max_frame_size := max_frame_size o;
     load_balancer_mode := load_balancer_mode o; tls := tls o;
     client_provided_name := client_provided_name o |}.
Definition with_user (x : bytes) (o : ClientOptions) : ClientOptions :=
  {| host := host o; port := port o; user := x; password := password o; v_host := v_host o;
     heartbeat := heartbeat o; max_frame_size := max_frame_size o;
     load_balancer_mode := load_balancer_mode o; tls := tls o;
     client_provided_name := client_provided_name o |}.
Definition with_password (x : bytes) (o : ClientOptions) : ClientOptions :=
  {| host := host o; port := port o; user := user o; password := x; v_host := v_host o;
     heartbeat := heartbeat o; max_frame_size := max_frame_size o;
     load_balancer_mode := load_balancer_mode o; tls := tls o;
     client_provided_name := client_provided_name o |}.
Definition with_v_host (x : bytes) (o : ClientOptions) : ClientOptions :=
  {| host := host o; port := port o; user := user o; password := password o; v_host := x;
     heartbeat := heartbeat o; max_frame_size := max_frame_size o;
     load_balancer_mode := load_balancer_mode o; tls := tls o;
     client_provided_name := client_provided_name o |}.
Definition with_heartbeat (x : Z) (o : ClientOptions) : ClientOptions :=
  {| host := host o; port := port o; user := user o; password := password o; v_host := v_host o;
     heartbeat := x; max_frame_size := max_frame_size o;
     load_balancer_mode := load_balancer_mode o; tls := tls o;
     client_provided_name := client_provided_name o |}.
Definition with_max_frame_size (x : Z) (o : ClientOptions) : ClientOptions :=
  {| host := host o; port := port o; user := user o; password := password o; v_host := v_host o;
     heartbeat := heartbeat o; max_frame_size := x;
     load_balancer_mode := load_balancer_mode o; tls := tls o;
     client_provided_name := client_provided_name o |}.
Definition with_load_balancer_mode (x : bool) (o : ClientOptions) : ClientOptions :=
  {| host := host o; port := port o; user := user o; password := password o; v_host := v_host o;
     heartbeat := heartbeat o; max_frame_size := max_frame_size o;
     load_balancer_mode := x; tls := tls o;
     client_provided_name := client_provided_name o |}.
Definition with_tls (x : TlsConfiguration) (o : ClientOptions) : ClientOptions :=
  {| host := host o; port := port o; user := user o; password := password o; v_host := v_host o;
     heartbeat := heartbeat o; max_frame_size := max_frame_size o;
     load_balancer_mode := load_balancer_mode o; tls := x;
     client_provided_name := client_provided_name o |}.
Definition with_client_provided_name (x : bytes) (o : ClientOptions) : ClientOptions :=
  {| host := host o; port := port o; user := user o; password := password o; v_host := v_host o;
     heartbeat := heartbeat o; max_frame_size := max_frame_size o;
     load_balancer_mode := load_balancer_mode o; tls := tls o;
     client_provided_name := x |}.

(** The methods on the options themselves. *)
Definition ClientOptions_enable_tls (o : ClientOptions) : ClientOptions :=
  with_tls (TlsConfiguration_enable true (tls o)) o.
Definition ClientOptions_set_port : Z -> ClientOptions -> ClientOptions := with_port.
Definition ClientOptions_set_client_provided_name : bytes -> ClientOptions -> ClientOptions :=
  with_client_provided_name.

(** ** src/byte_capacity.rs

    [bytes] multiplies 64-bit integers: past the range a build with overflow
    checks panics, one without wraps. *)

Definition KILOBYTE : Z := 1000.
Definition MEGABYTE : Z := 1000 * KILOBYTE.
Definition GIGABYTE : Z := 1000 * MEGABYTE.
Definition TERABYTE : Z := 1000 * GIGABYTE.

Inductive ByteCapacity := B (x : Z) | KB (x : Z) | MB (x : Z) | GB (x : Z) | TB (x : Z).

Definition mul_u64 {E} (overflow_checks : bool) (x y : Z) : result E Z :=
  if overflow_checks && (2 ^ 64 <=? x * y) then Panic ExplicitPanic
  else Ok ((x * y) mod 2 ^ 64).

Definition ByteCapacity_bytes {E} (overflow_checks : bool) (c : ByteCapacity) : result E Z :=
  match c with
  | B x => Ok x
  | KB x => mul_u64 overflow_checks x KILOBYTE
  | MB x => mul_u64 overflow_checks x MEGABYTE
  | GB x => mul_u64 overflow_checks x GIGABYTE
  | TB x => mul_u64 overflow_checks x TERABYTE
  end.

(** The number a capacity stands for. *)
Definition ByteCapacity_value (c : ByteCapacity) : Z :=
  match c with
  | B x => x
  | KB x => x * 10 ^ 3
  | MB x => x * 10 ^ 6
  | GB x => x * 10 ^ 9
  | TB x => x * 10 ^ 12
  end.

(** [x.to_string()] of an unsigned integer. *)
Definition to_string (z : Z) : bytes := str (pretty (Z.to_N z)).

(** ** src/client/metadata.rs *)

Record ClientBroker := { broker_host : bytes; broker_port : Z }.

Record ClientStreamMetadata := {
  stream : bytes;
  response_code : ResponseCode;
  leader : ClientBroker;
  replicas : list ClientBroker;
}.

(** [iter().map(f).collect()] into a map: a later entry replaces an earlier one
    with the same key. *)
Definition hm_collect {K V} (eqb : K -> K -> bool) (es : list (K * V)) : list (K * V) :=
  hm_extend eqb es [].

Definition brokers_by_reference (response : metadata.MetadataResponse) : list (Z * ClientBroker) :=
  hm_collect Z.eqb
    (map (λ b, (metadata.reference b,
                {| broker_host := metadata.host b; broker_port := metadata.port b |}))
         (metadata.r_brokers response)).

Definition metadata_from_response (response : metadata.MetadataResponse) : list (bytes * ClientStreamMetadata) :=
  let brokers := brokers_by_reference response in
  hm_collect key_eqb
    (omap (λ md,
       leader ← hm_get Z.eqb (metadata.leader_reference md) brokers;
       Some (metadata.stream_name md,
             {| stream := metadata.stream_name md; response_code := metadata.code md;
                leader := leader;
                replicas := omap (λ r, hm_get Z.eqb r brokers) (metadata.replicas_references md) |}))
       (metadata.r_stream_metadata response)).

(** ** src/client/message.rs *)

Section messages.
Context {X : AmqpExt}.

Class BaseMessage (T : Type) := {
  base_publishing_id : T -> option Z;
  to_message : T -> Message;
  base_filter_value : T -> option bytes;
}.

#[global] Instance Message_base : BaseMessage Message := {
  base_publishing_id m := AmqpMessage.publishing_id m;
  to_message m := m;
  base_filter_value _ := None;
}.

Record ClientMessage := ClientMessage_new {
  cm_publishing_id : Z;
  cm_message : Message;
  cm_filter_value : option bytes;
}.

Definition filter_value_extract (f : Message -> bytes) (m : ClientMessage) : ClientMessage :=
  ClientMessage_new (cm_publishing_id m) (cm_message m) (Some (f (cm_message m))).

#[global] Instance ClientMessage_base : BaseMessage ClientMessage := {
  base_publishing_id m := Some (cm_publishing_id m);
  to_message := cm_message;
  base_filter_value := cm_filter_value;
}.

End messages.

(** ** Laws *)

Lemma mul_u64_exact {E} oc x y : 0 <= x * y < 2 ^ 64 -> mul_u64 (E:=E) oc x y = Ok (x * y).
Proof.
  intros H. unfold mul_u64. rewrite (proj2 (Z.leb_gt _ _)), andb_false_r by lia.
  by rewrite Z.mod_small.
Qed.

(** A capacity that fits 64 bits is what it says. *)
Lemma ByteCapacity_bytes_value {E} oc c :
  0 <= ByteCapacity_value c < 2 ^ 64 -> ByteCapacity_bytes (E:=E) oc c = Ok (ByteCapacity_value c).
Proof. intros H. destruct c as [x|x|x|x|x]; cbn [ByteCapacity_bytes]; [done|by apply mul_u64_exact..]. Qed.

(** One that does not is a panic, or another capacity. *)
Lemma ByteCapacity_bytes_overflow {E} c :
  0 <= match c with B x | KB x | MB x | GB x | TB x => x end < 2 ^ 64 ->
  2 ^ 64 <= ByteCapacity_value c ->
  ByteCapacity_bytes (E:=E) true c = Panic ExplicitPanic /\
  ByteCapacity_bytes (E:=E) false c = Ok (ByteCapacity_value c mod 2 ^ 64).
Proof.
  intros Hx H. destruct c as [x|x|x|x|x]; cbn [ByteCapacity_bytes];
    [cbn in H; lia|unfold mul_u64; change (x * KILOBYTE) with (ByteCapacity_value (KB x))
    |unfold mul_u64; change (x * MEGABYTE) with (ByteCapacity_value (MB x))
    |unfold mul_u64; change (x * GIGABYTE) with (ByteCapacity_value (GB x))
    |unfold mul_u64; change (x * TERABYTE) with (ByteCapacity_value (TB x))];
    by rewrite (proj2 (Z.leb_le _ _)) by done.
Qed.

Lemma to_string_inj a b : 0 <= a -> 0 <= b -> to_string a = to_string b -> a = b.
Proof.
  intros Ha Hb H. unfold to_string, str in H.
  assert (pretty (Z.to_N a) = pretty (Z.to_N b)) as Hp.
  { rewrite <- (String.string_of_list_byte_of_string (pretty (Z.to_N a))),
      <- (String.string_of_list_byte_of_string (pretty (Z.to_N b))). by rewrite H. }
  apply (inj pretty) in Hp. lia.
Qed.

(** The entry of a stream in a metadata response: its leader and the replicas
    that are known brokers, when the leader is known. *)
Definition stream_entry (brokers : list (Z * ClientBroker)) (md : metadata.StreamMetadata) :
    option ClientStreamMetadata :=
  leader ← hm_get Z.eqb (metadata.leader_reference md) brokers;
  Some {| stream := metadata.stream_name md; response_code := metadata.code md;
          leader := leader;
          replicas := omap (λ r, hm_get Z.eqb r brokers) (metadata.replicas_references md) |}.

Lemma metadata_lookup r md :
  NoDup (map metadata.stream_name (metadata.r_stream_metadata r)) ->
  md ∈ metadata.r_stream_metadata r ->
  hm_get key_eqb (metadata.stream_name md) (metadata_from_response r) =
  stream_entry (brokers_by_reference r) md.
Proof.
  intros Hnd Hin. unfold metadata_from_response, hm_collect.
  rewrite (hm_get_collect metadata.stream_name).
  - unfold stream_entry. by destruct (hm_get Z.eqb (metadata.leader_reference md) _).
  - intros a kv. destruct (hm_get Z.eqb (metadata.leader_reference a) _); [|done].
    by intros [= <-].
  - done.
  - done.
  - done.
Qed.
