(* ===== verification/Client.v ===== *)
(** * The client of one connection

    src/client/mod.rs, src/client/channel.rs.

    A [Client] is a handle: its state behind [Arc]s is the [World] of the
    dispatcher, extended with the sending half of the connection, the client
    state, the tune notifier and the publishing sequence.  The client is the
    handler of its dispatcher; the handler the caller installs ([UH]) runs in
    tasks of its own, which [spawned] lists.

    The connection itself (TCP or TLS under tokio's [Framed]) is an interface:
    sending a request yields the items the receiving half produces from then
    on.  The dispatcher's task runs whenever a call waits: [turns] bounds the
    number of items one call may wait for. *)
From S2P Require Import Prelude Utf8 HashMaps Integers Codec Protocol.
From S2P Require Import Session Streams Producing Consuming.
From S2P Require Import AmqpCodes AmqpSimple AmqpValue AmqpMessage Messages Request Response.
From S2P Require Import ClientCodec Effects Dispatcher Options.

(** What the receiving half yields: an item, or the end of the stream. *)
Class Transport {X : AmqpExt} := {
  conn : Type;
  conn_connect : ClientOptions -> result ClientError.t conn;
  conn_send : Request -> conn ->
    conn * result ClientError.t (list (option (result ClientError.t Response)));
  conn_close : conn ->
    conn * result ClientError.t (list (option (result ClientError.t Response)));
}.

Section client.
Context {X : AmqpExt} {DM : DashMap} {MC : Mpsc} {TR : Transport}.
Context {UH : Type} (turns : nat).

(** ** State *)

(** src/client/task.rs: the handle of a task that was spawned, [task] the place of
    the task among those of the client. *)
Record TaskHandle := TaskHandle_from { task : nat }.

(** A heartbeat task: the seconds between two heartbeats, and whether it was aborted. *)
Record HeartbeatTask := { interval : Z; aborted : bool }.
Definition abort (t : HeartbeatTask) : HeartbeatTask := {| interval := interval t; aborted := true |}.

Record ClientState := {
  server_properties : list (bytes * bytes);
  connection_properties : list (bytes * bytes);
  state_handler : option UH;
  state_heartbeat : Z;
  state_max_frame_size : Z;
  last_heatbeat : Z;
  heartbeat_task : option TaskHandle;
}.

(** The shared state of a client beside the dispatcher's; [clock] is the time
    [Instant::now()] reads, [collected] what the metrics collector was told,
    [heartbeats] the heartbeat tasks spawned so far. *)
Record Shared := {
  connection : conn;
  incoming : list (option (result ClientError.t Response));
  task_running : bool;
  channel_closed : bool;
  state : ClientState;
  tune_permit : bool;
  publish_sequence : Z;
  clock : Z;
  spawned : list (UH * MessageResult);
  collected : list Z;
  heartbeats : list HeartbeatTask;
}.

Record Client := {
  opts : ClientOptions;
  filtering_supported : bool;
  client_properties : list (bytes * bytes);
}.

Definition CW : Type := World Client Shared.

Definition set_connection (c : conn) (s : Shared) : Shared :=
  {| connection := c; incoming := incoming s; task_running := task_running s;
     channel_closed := channel_closed s; state := state s; tune_permit := tune_permit s;
     publish_sequence := publish_sequence s; clock := clock s; spawned := spawned s;
     collected := collected s;
     heartbeats := heartbeats s |}.
Definition set_incoming (l : list (option (result ClientError.t Response))) (s : Shared) :=
  {| connection := connection s; incoming := l; task_running := task_running s;
     channel_closed := channel_closed s; state := state s; tune_permit := tune_permit s;
     publish_sequence := publish_sequence s; clock := clock s; spawned := spawned s;
     collected := collected s;
     heartbeats := heartbeats s |}.
Definition stop_task (s : Shared) : Shared :=
  {| connection := connection s; incoming := []; task_running := false;
     channel_closed := channel_closed s; state := state s; tune_permit := tune_permit s;
     publish_sequence := publish_sequence s; clock := clock s; spawned := spawned s;
     collected := collected s;
     heartbeats := heartbeats s |}.
Definition set_channel_closed (s : Shared) : Shared :=
  {| connection := connection s; incoming := incoming s; task_running := task_running s;
     channel_closed := true; state := state s; tune_permit := tune_permit s;
     publish_sequence := publish_sequence s; clock := clock s; spawned := spawned s;
     collected := collected s;
     heartbeats := heartbeats s |}.
Definition set_state (cs : ClientState) (s : Shared) : Shared :=
  {| connection := connection s; incoming := incoming s; task_running := task_running s;
     channel_closed := channel_closed s; state := cs; tune_permit := tune_permit s;
     publish_sequence := publish_sequence s; clock := clock s; spawned := spawned s;
     collected := collected s;
     heartbeats := heartbeats s |}.
Definition set_tune_permit (b : bool) (s : Shared) : Shared :=
  {| connection := connection s; incoming := incoming s; task_running := task_running s;
     channel_closed := channel_closed s; state := state s; tune_permit := b;
     publish_sequence := publish_sequence s; clock := clock s; spawned := spawned s;
     collected := collected s;
     heartbeats := heartbeats s |}.
Definition set_publish_sequence (z : Z) (s : Shared) : Shared :=
  {| connection := connection s; incoming := incoming s; task_running := task_running s;
     channel_closed := channel_closed s; state := state s; tune_permit := tune_permit s;
     publish_sequence := z; clock := clock s; spawned := spawned s;
     collected := collected s;
     heartbeats := heartbeats s |}.
Definition add_spawned (h : UH) (m : MessageResult) (s : Shared) : Shared :=
  {| connection := connection s; incoming := incoming s; task_running := task_running s;
     channel_closed := channel_closed s; state := state s; tune_permit := tune_permit s;
     publish_sequence := publish_sequence s; clock := clock s; spawned := spawned s ++ [(h, m)];
     collected := collected s;
     heartbeats := heartbeats s |}.
Definition add_collected (n : Z) (s : Shared) : Shared :=
  {| connection := connection s; incoming := incoming s; task_running := task_running s;
     channel_closed := channel_closed s; state := state s; tune_permit := tune_permit s;
     publish_sequence := publish_sequence s; clock := clock s; spawned := spawned s;
     collected := collected s ++ [n];
     heartbeats := heartbeats s |}.

Definition set_heartbeats (l : list HeartbeatTask) (s : Shared) : Shared :=
  {| connection := connection s; incoming := incoming s; task_running := task_running s;
     channel_closed := channel_closed s; state := state s; tune_permit := tune_permit s;
     publish_sequence := publish_sequence s; clock := clock s; spawned := spawned s;
     collected := collected s; heartbeats := l |}.

Definition on_shared (f : Shared -> Shared) (w : CW) : CW := set_rest (f (rest w)) w.
Definition shared {E} (f : Shared -> Shared) : io CW E unit := modify (on_shared f).
Definition on_state (f : ClientState -> ClientState) (s : Shared) : Shared :=
  set_state (f (state s)) s.

Definition set_server_properties (p : list (bytes * bytes)) (s : ClientState) : ClientState :=
  {| server_properties := p; connection_properties := connection_properties s;
     state_handler := state_handler s; state_heartbeat := state_heartbeat s;
     state_max_frame_size := state_max_frame_size s; last_heatbeat := last_heatbeat s;
     heartbeat_task := heartbeat_task s |}.
Definition set_connection_properties (p : list (bytes * bytes)) (s : ClientState) :=
  {| server_properties := server_properties s; connection_properties := p;
     state_handler := state_handler s; state_heartbeat := state_heartbeat s;
     state_max_frame_size := state_max_frame_size s; last_heatbeat := last_heatbeat s;
     heartbeat_task := heartbeat_task s |}.
Definition set_state_handler (h : UH) (s : ClientState) : ClientState :=
  {| server_properties := server_properties s; connection_properties := connection_properties s;
     state_handler := Some h; state_heartbeat := state_heartbeat s;
     state_max_frame_size := state_max_frame_size s; last_heatbeat := last_heatbeat s;
     heartbeat_task := heartbeat_task s |}.
Definition set_tuning (hb size : Z) (s : ClientState) : ClientState :=
  {| server_properties := server_properties s; connection_properties := connection_properties s;
     state_handler := state_handler s; state_heartbeat := hb;
     state_max_frame_size := size; last_heatbeat := last_heatbeat s;
     heartbeat_task := heartbeat_task s |}.
Definition set_last_heatbeat (t : Z) (s : ClientState) : ClientState :=
  {| server_properties := server_properties s; connection_properties := connection_properties s;
     state_handler := state_handler s; state_heartbeat := state_heartbeat s;
     state_max_frame_size := state_max_frame_size s; last_heatbeat := t;
     heartbeat_task := heartbeat_task s |}.
Definition set_heartbeat_task (t : option TaskHandle) (s : ClientState) : ClientState :=
  {| server_properties := server_properties s; connection_properties := connection_properties s;
     state_handler := state_handler s; state_heartbeat := state_heartbeat s;
     state_max_frame_size := state_max_frame_size s; last_heatbeat := last_heatbeat s;
     heartbeat_task := t |}.

(** ** src/client/channel.rs *)

Definition ChannelSender_is_closed (w : CW) : bool := channel_closed (rest w).

(** What is sent may be answered: the items join those not read yet.  Nothing
    is read once the task is gone. *)
Definition receive_items (items : list (option (result ClientError.t Response))) (s : Shared) :=
  if task_running s then set_incoming (incoming s ++ items) s else s.

Definition ChannelSender_send (r : Request) : io CW ClientError.t unit := λ w,
  let '(c, sent) := conn_send r (connection (rest w)) in
  let w := on_shared (set_connection c) w in
  match sent with
  | Ok items => Returns (on_shared (receive_items items) w) tt
  | Err e => Throws w e
  | Panic p => Panics w p
  end.

Definition ChannelSender_close : io CW ClientError.t unit := λ w,
  let '(c, sent) := conn_close (connection (rest w)) in
  let w := on_shared (set_connection c) w in
  match sent with
  | Ok items => Returns (on_shared set_channel_closed (on_shared (receive_items items) w)) tt
  | Err e => Throws w e
  | Panic p => Panics w p
  end.

(** ** Heartbeat and tuning *)

Definition negotiate_value (client server : Z) : Z :=
  if (client =? 0) || (server =? 0) then Z.max client server else Z.min client server.

(** [impl Drop for TaskHandle] *)
Definition TaskHandle_drop (h : TaskHandle) (s : Shared) : Shared :=
  set_heartbeats (alter abort (task h) (heartbeats s)) s.

(** [state.heartbeat_task = t], and [state.heartbeat_task.take()] with [None]: the
    handle that was there is dropped. *)
Definition replace_heartbeat_task (t : option TaskHandle) (s : Shared) : Shared :=
  let s' := on_state (set_heartbeat_task t) s in
  match heartbeat_task (state s) with Some h => TaskHandle_drop h s' | None => s' end.

(** The task sends a heartbeat and sleeps, again and again: [heartbeat_tick] is one
    round of a task. *)
Definition start_hearbeat_task (s : Shared) : Shared :=
  if state_heartbeat (state s) =? 0 then s
  else
    let heartbeat_interval := Z.max (state_heartbeat (state s) / 2) 1 in
    let heartbeat_task := TaskHandle_from (length (heartbeats s)) in
    replace_heartbeat_task (Some heartbeat_task)
      (set_heartbeats (heartbeats s ++ [{| interval := heartbeat_interval; aborted := false |}]) s).

Definition heartbeat_tick (k : nat) : io CW ClientError.t unit :=
  t ← gets (λ w, heartbeats (rest w) !! k);
  match t with
  | Some {| aborted := false |} =>
      ignore (ChannelSender_send (Request_from heart_beat.HeartBeatCommand_new))
  | _ => mret tt
  end.

(** [if state.heartbeat_task.take().is_some() { self.start_hearbeat_task(..) }] *)
Definition restart_hearbeat_task (s : Shared) : Shared :=
  match heartbeat_task (state s) with
  | Some _ => start_hearbeat_task (replace_heartbeat_task None s)
  | None => replace_heartbeat_task None s
  end.

Definition handle_tune_command (c : Client) (tunes : tune.TunesCommand) :
    io CW ClientError.t unit :=
  let hb := negotiate_value (heartbeat (opts c)) (tune.heartbeat tunes) in
  let size := negotiate_value (max_frame_size (opts c)) (tune.max_frame_size tunes) in
  shared (λ s, restart_hearbeat_task (on_state (set_tuning hb size) s));;
  ignore (ChannelSender_send (Request_from (tune.TunesCommand_new size hb)));;
  shared (set_tune_permit true).

Definition handle_heart_beat_command : io CW ClientError.t unit :=
  shared (λ s, on_state (set_last_heatbeat (clock s)) s).

(** [tokio::task::spawn(async move { handler.handle_message(item).await })] *)
Definition spawn_handler (item : MessageResult) : io CW ClientError.t unit :=
  h ← gets (λ w, state_handler (state (rest w)));
  match h with
  | Some h => shared (add_spawned h item)
  | None => mret tt
  end.

#[export] Instance Client_handler : MessageHandler Client CW := λ c item,
  match item with
  | Some (Ok r) =>
      match kind r with
      | ResponseKind_Tunes tunes => handle_tune_command c tunes
      | ResponseKind_Heartbeat _ => handle_heart_beat_command
      | _ => spawn_handler item
      end
  | _ => spawn_handler item
  end.

(** ** Waiting *)

(** The loop of the dispatcher's task on one item: after the last one it closes
    the map and ends. *)
Definition task_item (item : option (result ClientError.t Response)) : io CW ClientError.t unit :=
  match item with
  | Some item =>
      continue ← handle_item item;
      if (continue : bool) then mret tt else close None;; shared stop_task
  | None => close None;; shared stop_task
  end.

(** One turn of the task: [false] when there is nothing to read.  A panic ends
    the task and nothing else: the map stays open, and nobody is told. *)
Definition task_turn : io CW ClientError.t bool := λ w,
  match incoming (rest w) with
  | [] => Returns w false
  | item :: items =>
      match task_item item (on_shared (set_incoming items) w) with
      | Returns w' _ | Throws w' _ => Returns w' true
      | Panics w' _ => Returns (on_shared stop_task w') true
      | Waits w' => Waits w'
      end
  end.

(** [receiver.recv().await]: [None] when the sender is gone. *)
Fixpoint recv_await (turns : nat) (rx : nat) : io CW ClientError.t (option Response) :=
  r ← receive rx;
  match r with
  | Received r => mret (Some r)
  | Disconnected => mret None
  | Waiting =>
      match turns with
      | O => crash OutOfFuel
      | S turns =>
          turned ← task_turn;
          if (turned : bool) then recv_await turns rx else await_forever
      end
  end.

(** [tune_notifier.notified().await] *)
Fixpoint notified_await (turns : nat) : io CW ClientError.t unit :=
  permit ← gets (λ w, tune_permit (rest w));
  if (permit : bool) then shared (set_tune_permit false)
  else match turns with
       | O => crash OutOfFuel
       | S turns =>
           turned ← task_turn;
           if (turned : bool) then notified_await turns else await_forever
       end.

(** ** Requests *)

Definition Client_handle_response {T} `{!FromResponse T} (r : Response) :
    io CW ClientError.t T := ok_or (Response_get r) ClientError.CastError.

Definition send_and_receive {T R} `{!FromResponse T, !Command R, !IntoRequestKind R}
    (msg_factory : Z -> R) : io CW ClientError.t T :=
  channel ← response_channel;
  match channel with
  | None => throw ClientError.ConnectionClosed
  | Some (cid, receiver) =>
      ChannelSender_send (Request_from (msg_factory cid));;
      response ← recv_await turns receiver;
      response ← ok_or response ClientError.ConnectionClosed;
      Client_handle_response response
  end.

Definition send {R} `{!Command R, !IntoRequestKind R} (msg : R) : io CW ClientError.t unit :=
  ChannelSender_send (Request_from msg).

Definition Client_close : io CW ClientError.t unit :=
  is_closed ← gets ChannelSender_is_closed;
  if (is_closed : bool) then throw ClientError.AlreadyClosed
  else
    _ ← send_and_receive (T:=close.CloseResponse)
          (λ cid, close.CloseRequest_new cid ResponseCode_Ok (str "Ok"));
    shared (replace_heartbeat_task None);;
    ChannelSender_close.

Definition Client_set_handler {E} (h : UH) : io CW E unit :=
  shared (on_state (set_state_handler h)).

Definition Client_server_properties {E} : io CW E (list (bytes * bytes)) :=
  gets (λ w, server_properties (state (rest w))).
Definition Client_connection_properties {E} : io CW E (list (bytes * bytes)) :=
  gets (λ w, connection_properties (state (rest w))).

Definition subscribe (subscription_id : Z) (stream : bytes)
    (offset_specification : subscribe.OffsetSpecification) (credit : Z)
    (properties : list (bytes * bytes)) : io CW ClientError.t generic.GenericResponse :=
  send_and_receive (λ cid, subscribe.SubscribeCommand_new cid subscription_id stream
                             offset_specification credit properties).

Definition unsubscribe (subscription_id : Z) : io CW ClientError.t generic.GenericResponse :=
  send_and_receive (λ cid, unsubscribe.UnSubscribeCommand_new cid subscription_id).

Definition partitions (super_stream : bytes) :
    io CW ClientError.t superstream_partitions.SuperStreamPartitionsResponse :=
  send_and_receive
    (λ cid, superstream_partitions.SuperStreamPartitionsRequest_new cid super_stream).

Definition route (routing_key super_stream : bytes) :
    io CW ClientError.t superstream_route.SuperStreamRouteResponse :=
  send_and_receive
    (λ cid, superstream_route.SuperStreamRouteRequest_new cid routing_key super_stream).

Definition create_stream (stream : bytes) (options : list (bytes * bytes)) :
    io CW ClientError.t generic.GenericResponse :=
  send_and_receive (λ cid, create_stream.CreateStreamCommand_new cid stream options).

Definition create_super_stream (super_stream : bytes) (partitions binding_keys : list bytes)
    (options : list (bytes * bytes)) : io CW ClientError.t generic.GenericResponse :=
  send_and_receive (λ cid, create_super_stream.CreateSuperStreamCommand_new cid super_stream
                             partitions binding_keys options).

Definition delete_stream (stream : bytes) : io CW ClientError.t generic.GenericResponse :=
  send_and_receive (λ cid, delete.Delete_new cid stream).

Definition delete_super_stream (super_stream : bytes) :
    io CW ClientError.t generic.GenericResponse :=
  send_and_receive (λ cid, delete_super_stream.DeleteSuperStreamCommand_new cid super_stream).

Definition credit (subscription_id credit : Z) : io CW ClientError.t unit :=
  send (credit.CreditCommand_new subscription_id credit).

Definition metadata (streams : list bytes) :
    io CW ClientError.t (list (bytes * ClientStreamMetadata)) :=
  response ← send_and_receive (λ cid, metadata.MetadataCommand_new cid streams);
  mret (metadata_from_response response).

Definition store_offset (reference stream : bytes) (offset : Z) : io CW ClientError.t unit :=
  send (store_offset.StoreOffset_new reference stream offset).

Definition query_offset (reference stream : bytes) : io CW ClientError.t Z :=
  response ← send_and_receive (T:=query_offset.QueryOffsetResponse)
               (λ cid, query_offset.QueryOffsetRequest_new cid reference stream);
  if negb (query_offset.QueryOffsetResponse_is_ok response)
  then throw (ClientError.RequestError (query_offset.r_response_code response))
  else mret (query_offset.r_offset response).

Definition declare_publisher (publisher_id : Z) (publisher_reference : option bytes)
    (stream : bytes) : io CW ClientError.t generic.GenericResponse :=
  send_and_receive (λ cid, declare_publisher.DeclarePublisherCommand_new cid publisher_id
                             publisher_reference stream).

Definition delete_publisher (publisher_id : Z) : io CW ClientError.t generic.GenericResponse :=
  send_and_receive (λ cid, delete_publisher.DeletePublisherCommand_new cid publisher_id).

(** [publish_sequence.fetch_add(1)] *)
Definition next_publishing_id {E} : io CW E Z :=
  n ← gets (λ w, publish_sequence (rest w));
  shared (set_publish_sequence ((n + 1) mod 2 ^ 64));;
  mret n.

Definition to_published {T} `{!BaseMessage T} (message : T) :
    io CW ClientError.t PublishedMessage :=
  publishing_id ← match base_publishing_id message with
                  | Some id => mret id
                  | None => next_publishing_id
                  end;
  mret (PublishedMessage_new publishing_id (to_message message) (base_filter_value message)).

Definition publish {T} `{!BaseMessage T} (publisher_id : Z) (messages : list T) (version : Z) :
    io CW ClientError.t (list Z) :=
  messages ← map_each to_published messages;
  send (publish.PublishCommand_new publisher_id messages version);;
  shared (add_collected (len messages));;
  mret (map published_message.publishing_id messages).

Definition query_publisher_sequence (reference stream : bytes) : io CW ClientError.t Z :=
  response ← send_and_receive (T:=query_publisher_sequence.QueryPublisherResponse)
               (λ cid, query_publisher_sequence.QueryPublisherRequest_new cid reference stream);
  mret (query_publisher_sequence.r_sequence response).

Definition exchange_command_versions :
    io CW ClientError.t exchange_command_versions.ExchangeCommandVersionsResponse :=
  send_and_receive (λ cid, exchange_command_versions.ExchangeCommandVersionsRequest_new cid []).

(** The correlation id of the request is the server's, not the one registered. *)
Definition consumer_update (correlation_id : Z)
    (offset_specification : subscribe.OffsetSpecification) :
    io CW ClientError.t generic.GenericResponse :=
  send_and_receive (λ _, consumer_update_request.ConsumerUpdateRequestCommand_new
                           correlation_id 1 offset_specification).

(** ** Connecting *)

Definition set_response_state {T} (task : io CW ClientError.t T)
    (updater : T -> ClientState -> ClientState) : io CW ClientError.t unit :=
  result ← task;
  shared (on_state (updater result)).

Definition peer_properties (c : Client) : io CW ClientError.t (list (bytes * bytes)) :=
  response ← send_and_receive (T:=peer_properties.PeerPropertiesResponse)
               (λ cid, peer_properties.PeerPropertiesCommand_new cid (client_properties c));
  mret (peer_properties.r_server_properties response).

Definition sasl_mechanism : io CW ClientError.t (list bytes) :=
  handshake ← send_and_receive (T:=sasl_handshake.SaslHandshakeResponse)
                sasl_handshake.SaslHandshakeCommand_new;
  mret (sasl_handshake.r_mechanisms handshake).

(** [format!("\u{0000}{}\u{0000}{}", user, password)] *)
Definition auth_data (o : ClientOptions) : bytes :=
  [Byte.x00] ++ user o ++ [Byte.x00] ++ password o.

Definition handle_authentication (c : Client) (_mechanism : list bytes) :
    io CW ClientError.t unit :=
  response ← send_and_receive (T:=generic.GenericResponse)
               (λ cid, sasl_authenticate.SaslAuthenticateCommand_new cid (str "PLAIN")
                         (auth_data (opts c)));
  if generic.GenericResponse_is_ok response then mret tt
  else throw (ClientError.RequestError (generic.code response)).

Definition authenticate (c : Client) : io CW ClientError.t unit :=
  mechanisms ← sasl_mechanism;
  handle_authentication c mechanisms.

Definition wait_for_tune_data : io CW ClientError.t unit := notified_await turns.

Definition open (c : Client) : io CW ClientError.t (list (bytes * bytes)) :=
  open ← send_and_receive (T:=open.OpenResponse)
           (λ cid, open.OpenCommand_new cid (v_host (opts c)));
  if open.OpenResponse_is_ok open then mret (open.r_connection_properties open)
  else throw (ClientError.RequestError (open.r_code open)).

Definition initialize (c : Client) : io CW ClientError.t unit :=
  modify (set_handler c);;
  set_response_state (peer_properties c) set_server_properties;;
  authenticate c;;
  wait_for_tune_data;;
  set_response_state (open c) set_connection_properties;;
  shared start_hearbeat_task.

Definition VERSION : bytes := str "0.7.0".

(** The properties the client presents itself with. *)
Definition client_properties_of (o : ClientOptions) : list (bytes * bytes) :=
  hm_collect key_eqb
    [(str "product", str "RabbitMQ");
     (str "version", VERSION);
     (str "platform", str "Rust");
     (str "copyright", str "Copyright (c) 2017-2023 Broadcom. All Rights Reserved. The term Broadcom refers to Broadcom Inc. and/or its subsidiaries.");
     (str "information", str "Licensed under the Apache 2.0 and MPL 2.0 licenses. See https://www.rabbitmq.com/");
     (str "connection_name", client_provided_name o)].

Definition ClientState_new (now : Z) (o : ClientOptions) : ClientState :=
  {| server_properties := []; connection_properties := []; state_handler := None;
     state_heartbeat := heartbeat o; state_max_frame_size := max_frame_size o;
     last_heatbeat := now; heartbeat_task := None |}.

(** The state of a connection that has just been opened. *)
Definition client_start (now : Z) (o : ClientOptions) (connection : conn) : CW :=
  Dispatcher_new
    {| connection := connection; incoming := []; task_running := true; channel_closed := false;
       state := ClientState_new now o; tune_permit := false; publish_sequence := 1;
       clock := now; spawned := []; collected := [];
       heartbeats := [] |}.

(** [Client::connect], once the connection is open. *)
Definition connect_on (o : ClientOptions) : io CW ClientError.t Client :=
  let client := {| opts := o; filtering_supported := false;
                   client_properties := client_properties_of o |} in
  initialize client;;
  command_versions ← exchange_command_versions;
  let '(_, max_version) := exchange_command_versions.key_version command_versions 2 in
  mret (if 2 <=? max_version
        then {| opts := o; filtering_supported := true;
                client_properties := client_properties client |}
        else client).

(** The state a new connection ends in, with what [connect] answers. *)
Definition Client_connect (now : Z) (o : ClientOptions) : outcome (option CW) ClientError.t Client :=
  match conn_connect o with
  | Err e => Throws None e
  | Panic p => Panics None p
  | Ok connection =>
      match connect_on o (client_start now o connection) with
      | Returns w client => Returns (Some w) client
      | Throws w e => Throws (Some w) e
      | Panics w p => Panics (Some w) p
      | Waits w => Waits (Some w)
      end
  end.

(** ** Laws *)

(** The dispatcher of the client [c] is open and its next correlation id is [n];
    [s] is the rest of the state. *)
Record ready (c : Client) (n : Z) (s : Shared) (w : CW) : Prop := {
  ready_open : closed (requests_map w) = false;
  ready_id : correlation_id w = n;
  ready_handler : handler w = Some c;
  ready_shared : rest w = s;
  ready_pending cid ch :
    dm_get cid (requests (requests_map w)) = Some ch -> (ch < next_channel w)%nat;
}.

(** A receiver whose response has not come yet. *)
Definition awaited (w : CW) (cid : Z) (rx : nat) : Prop :=
  dm_get cid (requests (requests_map w)) = Some rx /\
  ∃ ch, channels w !! rx = Some ch /\ mpsc_buffer ch = [] /\ mpsc_open ch = true /\
    mpsc_capacity ch = 1.

Lemma ready_shared_map c n s w f :
  ready c n s w -> ready c n (f s) (on_shared f w).
Proof. intros [Ho Hi Hh Hs Hp]. split; try done. cbn. by rewrite Hs. Qed.

Lemma awaited_shared w f cid rx : awaited w cid rx -> awaited (on_shared f w) cid rx.
Proof. done. Qed.

Lemma response_channel_ready {E} c n s w :
  ready c n s w -> ∃ w' rx,
    response_channel (E:=E) w = Returns w' (Some (n, rx)) /\
    ready c ((n + 1) mod 2 ^ 32) s w' /\ awaited w' n rx.
Proof.
  intros [Ho Hi Hh Hs Hp]. unfold response_channel, fetch_channel.
  rewrite Hi. set (w1 := Build_World _ _ _ _ _ _ _ _).
  exists (RequestsMap_put n (next_channel w) w1), (next_channel w).
  assert (Hch : channels (RequestsMap_put n (next_channel w) w1) !! next_channel w =
                Some (mpsc_channel 1)).
  { unfold RequestsMap_put. change (requests_map w1) with (requests_map w).
    destruct (dm_get n (requests (requests_map w))) as [old|] eqn:Eo; cbn.
    - apply Hp in Eo. rewrite lookup_alter_ne by lia. apply lookup_insert_eq.
    - apply lookup_insert_eq. }
  assert (Hw : let w' := RequestsMap_put n (next_channel w) w1 in
     requests (requests_map w') = dm_insert n (next_channel w) (requests (requests_map w)) /\
     closed (requests_map w') = false /\ correlation_id w' = (n + 1) mod 2 ^ 32 /\
     handler w' = Some c /\ rest w' = s /\ next_channel w' = S (next_channel w)).
  { cbn. unfold RequestsMap_put. rewrite <- Ho. by destruct (dm_get n _). }
  destruct Hw as (Hreq & Hcl & Hid & Hhd & Hr & Hn).
  split; [|split].
  - unfold RequestsMap_insert, RequestsMap_closed, gets, mbind, io_bind. cbn.
    change (requests_map w1) with (requests_map w). by rewrite Ho.
  - split; try done. intros cid ch. rewrite Hreq, dm_get_insert, Hn.
    case_decide; [intros [= <-]; lia|]. intros H'%Hp. lia.
  - split; [by rewrite Hreq, dm_get_insert, decide_True|].
    exists (mpsc_channel 1). rewrite Hch, mpsc_channel_buffer, mpsc_channel_open,
      mpsc_channel_capacity. done.
Qed.

Lemma receive_waiting {E} w cid rx :
  awaited w cid rx -> ∃ w',
    receive (E:=E) rx w = Returns w' Waiting /\ awaited w' cid rx /\
    ∀ c n s, ready c n s w -> ready c n s w'.
Proof.
  intros (Hp & ch & Hch & Hb & Ho & Hcap). unfold receive. rewrite Hch.
  eexists. split; [|split].
  - by rewrite mpsc_recv_value, Hb, Ho.
  - split; [done|]. exists (mpsc_recv ch).2. cbn.
    rewrite lookup_insert_eq, mpsc_recv_buffer, mpsc_recv_open, mpsc_recv_capacity, Hb. done.
  - intros c n s [? ? ? ? ?]. by split.
Qed.

Lemma dispatched_ready c n s w cid r :
  ready c n s w -> ready c n s (dispatched cid r w).
Proof.
  intros [Ho Hi Hh Hs Hp]. unfold dispatched.
  assert (Hpend : ∀ k ch, dm_get k (dm_remove cid (requests (requests_map w))) = Some ch ->
                    (ch < next_channel w)%nat).
  { intros k ch. rewrite dm_get_remove. case_decide; [done|]. apply Hp. }
  by destruct (dm_get cid (requests (requests_map w))); split.
Qed.

Lemma receive_dispatched {E} c n s w cid rx r :
  awaited w cid rx -> ready c n s w -> ∃ w',
    receive (E:=E) rx (dispatched cid r w) = Returns w' (Received r) /\ ready c n s w'.
Proof.
  intros (Hp & ch & Hch & Hb & Ho & Hcap) Hr.
  apply (dispatched_ready _ _ _ _ cid r) in Hr.
  assert (Hc : channels (dispatched cid r w) !! rx = Some (mpsc_drop_sender (mpsc_send r ch))).
  { unfold dispatched. rewrite Hp. cbn. by rewrite !lookup_alter_eq, Hch. }
  unfold receive. rewrite Hc, mpsc_recv_value, mpsc_drop_buffer, mpsc_send_buffer, Hb
    by (by rewrite Hb, Hcap).
  eexists. split; [reflexivity|]. destruct Hr as [? ? ? ? ?]. by split.
Qed.

(** The task reads the response of the call at its turn. *)
Lemma task_turn_dispatch c n s w cid r items :
  ready c n s w -> incoming s = Some (Ok r) :: items ->
  Response_correlation_id r = Some cid -> is_consumer_update r = false ->
  task_turn w = Returns (dispatched cid r (on_shared (set_incoming items) w)) true.
Proof.
  intros [Ho Hi Hh Hs Hp] Hin Hr Hcu. unfold task_turn. rewrite Hs, Hin. cbn [task_item].
  erewrite io_bind_returns; [|by apply handle_item_dispatch]. done.
Qed.

Lemma recv_await_reply k c n s w cid rx r items :
  ready c n s w -> awaited w cid rx -> incoming s = Some (Ok r) :: items ->
  Response_correlation_id r = Some cid -> is_consumer_update r = false ->
  ∃ w', recv_await (S k) rx w = Returns w' (Some r) /\ ready c n (set_incoming items s) w'.
Proof.
  intros Hw Ha Hin Hr Hcu. cbn [recv_await].
  destruct (receive_waiting (E:=ClientError.t) w cid rx Ha) as (w1 & Hrecv & Ha1 & Hw1).
  rewrite (io_bind_returns _ _ _ _ _ Hrecv). apply Hw1 in Hw.
  rewrite (io_bind_returns _ _ _ _ _ (task_turn_dispatch _ _ _ _ _ _ _ Hw Hin Hr Hcu)).
  cbv iota. set (w2 := on_shared (set_incoming items) w1).
  assert (Hw2 : ready c n (set_incoming items s) w2) by by apply ready_shared_map.
  assert (Ha2 : awaited w2 cid rx) by done.
  destruct (receive_dispatched (E:=ClientError.t) _ _ _ _ _ _ r Ha2 Hw2) as (w3 & H3 & Hw3).
  exists w3. split; [|done]. destruct k; cbn [recv_await]; by rewrite (io_bind_returns _ _ _ _ _ H3).
Qed.

Lemma ChannelSender_send_ok c n s w req k items :
  ready c n s w -> conn_send req (connection s) = (k, Ok items) ->
  ∃ w', ChannelSender_send req w = Returns w' tt /\
    ready c n (receive_items items (set_connection k s)) w' /\
    ∀ cid rx, awaited w cid rx -> awaited w' cid rx.
Proof.
  intros Hw Hs. unfold ChannelSender_send. rewrite (ready_shared _ _ _ _ Hw), Hs.
  eexists. split; [reflexivity|]. split; [|done].
  by apply ready_shared_map, ready_shared_map.
Qed.

(** A call whose response is the next thing to be read returns it, or fails with
    a cast error when it is not of the type expected. *)
Lemma send_and_receive_reply {T R} `{!FromResponse T, !Command R, !IntoRequestKind R}
    (f : Z -> R) k c n s w conn' r items :
  ready c n s w -> turns = S k -> task_running s = true -> incoming s = [] ->
  conn_send (Request_from (f n)) (connection s) = (conn', Ok (Some (Ok r) :: items)) ->
  Response_correlation_id r = Some n -> is_consumer_update r = false ->
  ∃ w', ready c ((n + 1) mod 2 ^ 32) (set_incoming items (set_connection conn' s)) w' /\
    send_and_receive (T:=T) f w =
      match Response_get r with
      | Some a => Returns w' a
      | None => Throws w' ClientError.CastError
      end.
Proof.
  intros Hw Hturns Hrun Hin Hsend Hr Hcu. unfold send_and_receive.
  destruct (response_channel_ready (E:=ClientError.t) _ _ _ _ Hw) as (w1 & rx & H1 & Hw1 & Ha1).
  rewrite (io_bind_returns _ _ _ _ _ H1).
  destruct (ChannelSender_send_ok _ _ _ _ _ _ _ Hw1 Hsend) as (w2 & H2 & Hw2 & Ha2).
  rewrite (io_bind_returns _ _ _ _ _ H2). apply Ha2 in Ha1.
  unfold receive_items in Hw2. cbn in Hw2. rewrite Hrun, Hin in Hw2. cbn in Hw2.
  destruct (recv_await_reply k _ _ _ _ _ _ r items Hw2 Ha1) as (w3 & H3 & Hw3); [done..|].
  rewrite Hturns, (io_bind_returns _ _ _ _ _ H3). exists w3. split; [exact Hw3|].
  unfold Client_handle_response. cbn. unfold mbind, io_bind. cbn.
  by destruct (Response_get r).
Qed.

(** A request that cannot be sent. *)
Lemma send_and_receive_unsent {T R} `{!FromResponse T, !Command R, !IntoRequestKind R}
    (f : Z -> R) c n s w conn' e :
  ready c n s w -> conn_send (Request_from (f n)) (connection s) = (conn', Err e) ->
  ∃ w', send_and_receive (T:=T) f w = Throws w' e.
Proof.
  intros Hw Hsend. unfold send_and_receive.
  destruct (response_channel_ready (E:=ClientError.t) _ _ _ _ Hw) as (w1 & rx & H1 & Hw1 & Ha1).
  rewrite (io_bind_returns _ _ _ _ _ H1). eexists. apply io_bind_throws.
  unfold ChannelSender_send. by rewrite (ready_shared _ _ _ _ Hw1), Hsend.
Qed.

(** After the dispatcher has closed its map no call is even sent. *)
Lemma send_and_receive_closed {T R} `{!FromResponse T, !Command R, !IntoRequestKind R}
    (f : Z -> R) w :
  closed (requests_map w) = true ->
  ∃ w', send_and_receive (T:=T) f w = Throws w' ClientError.ConnectionClosed /\
    rest w' = rest w.
Proof.
  intros Hc. unfold send_and_receive, response_channel, RequestsMap_insert, RequestsMap_closed,
    gets, mbind, io_bind. cbn. rewrite Hc. eexists. split; [reflexivity|done].
Qed.

(** What the end of the stream leaves of the rest of the state. *)
Definition hung_up (s : Shared) : Shared :=
  match state_handler (state s) with
  | Some h => stop_task (add_spawned h None s)
  | None => stop_task s
  end.

Lemma spawn_handler_eq item w :
  spawn_handler item w =
  Returns (match state_handler (state (rest w)) with
           | Some h => on_shared (add_spawned h item) w
           | None => w
           end) tt.
Proof.
  unfold spawn_handler, gets, mbind, io_bind. by destruct (state_handler (state (rest w))).
Qed.

Lemma notify_closed_eq {E} c w :
  handler w = Some c ->
  notify_closed (E:=E) None w =
  Returns (match state_handler (state (rest w)) with
           | Some h => on_shared (add_spawned h None) w
           | None => w
           end) tt.
Proof.
  intros Hc. unfold notify_closed. rewrite (io_bind_returns _ _ w w (Some c)) by (unfold gets; by rewrite Hc).
  rewrite (io_bind_returns _ _ w w tt) by done.
  unfold ignore, attempt, mbind, io_bind. cbn [handle_message].
  unfold handle_message, Client_handler. by rewrite spawn_handler_eq.
Qed.

Lemma close_ready c n s w :
  ready c n s w -> ∃ w',
    (close None;; shared stop_task : io CW ClientError.t unit) w = Returns w' tt /\
    closed (requests_map w') = true /\ rest w' = hung_up s /\
    ∀ cid rx, awaited w cid rx -> ∃ ch, channels w' !! rx = Some ch /\
      mpsc_buffer ch = [] /\ mpsc_open ch = false.
Proof.
  intros [Ho Hi Hh Hs Hp]. set (w1 := RequestsMap_close w).
  pose proof (drop_senders_rest (dm_iter (requests (requests_map w))) (RequestsMap_store_closed w))
    as (_ & Hhandler & Hmap & Hrest).
  assert (Hch := drop_senders_channels (dm_iter (requests (requests_map w)))
    (RequestsMap_store_closed w)).
  assert (H1 : handler w1 = Some c /\ rest w1 = s /\ closed (requests_map w1) = true).
  { cbn in *. by rewrite Hhandler, Hrest. }
  assert (Hc1 : ∀ cid rx, awaited w cid rx -> ∃ ch, channels w1 !! rx = Some ch /\
            mpsc_buffer ch = [] /\ mpsc_open ch = false).
  { intros cid rx (Hpend & ch & Hc & Hb & _). specialize (Hch rx). cbn in Hch.
    rewrite Hc in Hch. destruct Hch as (ch' & Hc' & Hb' & _ & Ho').
    exists ch'. split; [exact Hc'|]. rewrite Hb', Ho', decide_True; [done|].
    apply list_elem_of_fmap. exists (cid, rx). split; [done|]. by apply dm_iter_get. }
  clear Hch Hhandler Hmap Hrest. destruct H1 as (Hhd & Hrs & Hcl).
  rewrite (io_bind_returns _ _ w (match state_handler (state s) with
     | Some h => on_shared (add_spawned h None) w1 | None => w1 end) tt);
    [|unfold close; rewrite (io_bind_returns _ _ w w1 tt) by done;
      by rewrite (notify_closed_eq c), Hrs].
  eexists. split; [reflexivity|]. unfold hung_up. rewrite <- Hrs.
  by destruct (state_handler (state (rest w1))).
Qed.

Lemma task_turn_end c n s w items :
  ready c n s w -> incoming s = None :: items -> ∃ w',
    task_turn w = Returns w' true /\ closed (requests_map w') = true /\
    rest w' = hung_up (set_incoming items s) /\
    ∀ cid rx, awaited w cid rx -> ∃ ch, channels w' !! rx = Some ch /\
      mpsc_buffer ch = [] /\ mpsc_open ch = false.
Proof.
  intros Hw Hin. unfold task_turn. rewrite (ready_shared _ _ _ _ Hw), Hin. cbn [task_item].
  destruct (close_ready c n (set_incoming items s) (on_shared (set_incoming items) w))
    as (w' & -> & Hcl & Hr & Ha); [by apply ready_shared_map|].
  exists w'. split; [done|]. split; [done|]. split; [done|]. intros cid rx H. by apply (Ha cid rx).
Qed.

Lemma receive_disconnected {E} (w : CW) rx ch :
  channels w !! rx = Some ch -> mpsc_buffer ch = [] -> mpsc_open ch = false -> ∃ w',
    receive (E:=E) rx w = Returns w' Disconnected /\ requests_map w' = requests_map w /\
    rest w' = rest w.
Proof.
  intros Hc Hb Ho. unfold receive. rewrite Hc, mpsc_recv_value, Hb, Ho.
  eexists. split; [reflexivity|done].
Qed.

(** A call that is waiting when the connection ends is told so. *)
Lemma send_and_receive_hangup {T R} `{!FromResponse T, !Command R, !IntoRequestKind R}
    (f : Z -> R) k c n s w conn' items :
  ready c n s w -> turns = S k -> task_running s = true -> incoming s = [] ->
  conn_send (Request_from (f n)) (connection s) = (conn', Ok (None :: items)) ->
  ∃ w', send_and_receive (T:=T) f w = Throws w' ClientError.ConnectionClosed /\
    closed (requests_map w') = true /\
    rest w' = hung_up (set_incoming items (set_connection conn' s)).
Proof.
  intros Hw Hturns Hrun Hin Hsend. unfold send_and_receive.
  destruct (response_channel_ready (E:=ClientError.t) _ _ _ _ Hw) as (w1 & rx & H1 & Hw1 & Ha1).
  rewrite (io_bind_returns _ _ _ _ _ H1).
  destruct (ChannelSender_send_ok _ _ _ _ _ _ _ Hw1 Hsend) as (w2 & H2 & Hw2 & Ha2).
  rewrite (io_bind_returns _ _ _ _ _ H2). apply Ha2 in Ha1.
  unfold receive_items in Hw2. cbn in Hw2. rewrite Hrun, Hin in Hw2. cbn in Hw2.
  rewrite Hturns. cbn [recv_await].
  destruct (receive_waiting (E:=ClientError.t) _ _ _ Ha1) as (w3 & H3 & Ha3 & Hw3).
  apply Hw3 in Hw2.
  destruct (task_turn_end _ _ _ _ items Hw2) as (w4 & H4 & Hcl & Hr & Hch); [done|].
  destruct (Hch _ _ Ha3) as (ch & Hc & Hb & Ho).
  destruct (receive_disconnected (E:=ClientError.t) w4 rx ch Hc Hb Ho) as (w5 & H5 & Hm & Hr5).
  exists w5. rewrite Hm, Hr5. split; [|done].
  assert (recv_await k rx w4 = Returns w5 None) as Hk
    by (destruct k; cbn [recv_await]; by rewrite (io_bind_returns _ _ _ _ _ H5)).
  assert (recv_await (S k) rx w2 = Returns w5 None) as Hk2.
  { cbn [recv_await]. rewrite (io_bind_returns _ _ _ _ _ H3), (io_bind_returns _ _ _ _ _ H4). done. }
  cbn [recv_await] in Hk2. by rewrite (io_bind_returns _ _ _ _ _ Hk2).
Qed.

(** A frame that makes the decoder panic kills the task: the call never returns. *)
Lemma send_and_receive_dead_task {T R} `{!FromResponse T, !Command R, !IntoRequestKind R}
    (f : Z -> R) k c n s w conn' p items :
  ready c n s w -> turns = S (S k) -> task_running s = true -> incoming s = [] ->
  conn_send (Request_from (f n)) (connection s) = (conn', Ok (Some (Panic p) :: items)) ->
  ∃ w', send_and_receive (T:=T) f w = Waits w' /\
    closed (requests_map w') = false /\ task_running (rest w') = false.
Proof.
  intros Hw Hturns Hrun Hin Hsend. unfold send_and_receive.
  destruct (response_channel_ready (E:=ClientError.t) _ _ _ _ Hw) as (w1 & rx & H1 & Hw1 & Ha1).
  rewrite (io_bind_returns _ _ _ _ _ H1).
  destruct (ChannelSender_send_ok _ _ _ _ _ _ _ Hw1 Hsend) as (w2 & H2 & Hw2 & Ha2).
  rewrite (io_bind_returns _ _ _ _ _ H2). apply Ha2 in Ha1.
  unfold receive_items in Hw2. cbn in Hw2. rewrite Hrun, Hin in Hw2. cbn in Hw2.
  destruct (receive_waiting (E:=ClientError.t) _ _ _ Ha1) as (w3 & H3 & Ha3 & Hw3).
  apply Hw3 in Hw2. set (w4 := on_shared stop_task (on_shared (set_incoming items) w3)).
  assert (H4 : task_turn w3 = Returns w4 true)
    by (unfold task_turn; by rewrite (ready_shared _ _ _ _ Hw2)).
  assert (Ha4 : awaited w4 n rx) by done.
  destruct (receive_waiting (E:=ClientError.t) _ _ _ Ha4) as (w5 & H5 & _ & Hw5).
  assert (Hr5 : ready c ((n + 1) mod 2 ^ 32) (rest w4) w5).
  { apply Hw5. destruct Hw2 as [? ? ? ? ?]. by split. }
  exists w5. split; [|split; [apply Hr5|by rewrite (ready_shared _ _ _ _ Hr5)]].
  assert (Hk : recv_await (S (S k)) rx w2 = Waits w5); [|by rewrite Hturns, (io_bind_waits _ _ _ _ Hk)].
  cbn [recv_await]. rewrite (io_bind_returns _ _ _ _ _ H3), (io_bind_returns _ _ _ _ _ H4).
  cbv iota. rewrite (io_bind_returns _ _ _ _ _ H5).
  assert (H6 : task_turn w5 = Returns w5 false)
    by (unfold task_turn; by rewrite (ready_shared _ _ _ _ Hr5)).
  by rewrite (io_bind_returns _ _ _ _ _ H6).
Qed.

(** The state after a tune command: the values negotiated are kept, and sent. *)
Definition tuned (o : ClientOptions) (t : tune.TunesCommand) : tune.TunesCommand :=
  tune.TunesCommand_new (negotiate_value (max_frame_size o) (tune.max_frame_size t))
                        (negotiate_value (heartbeat o) (tune.heartbeat t)).

Definition after_tune (o : ClientOptions) (t : tune.TunesCommand) (s : Shared) : Shared :=
  let s' := restart_hearbeat_task
    (on_state (set_tuning (tune.heartbeat (tuned o t)) (tune.max_frame_size (tuned o t))) s) in
  set_heartbeats (heartbeats s') (set_state (state s') s).

Lemma restart_hearbeat_eq s :
  restart_hearbeat_task s =
  set_heartbeats (heartbeats (restart_hearbeat_task s)) (set_state (state (restart_hearbeat_task s)) s).
Proof.
  destruct s. unfold restart_hearbeat_task, replace_heartbeat_task, start_hearbeat_task. cbn.
  destruct (heartbeat_task _) as [h|]; cbn; [|done]. by destruct (_ =? 0).
Qed.

Lemma after_tune_eq o t s :
  restart_hearbeat_task
    (on_state (set_tuning (tune.heartbeat (tuned o t)) (tune.max_frame_size (tuned o t))) s) =
  after_tune o t s.
Proof. rewrite restart_hearbeat_eq. by destruct s. Qed.

Lemma handle_tune_ready c n s w t k items :
  ready c n s w ->
  conn_send (Request_from (tuned (opts c) t)) (connection s) = (k, Ok items) ->
  ∃ w', handle_tune_command c t w = Returns w' tt /\
    ready c n (set_tune_permit true
      (receive_items items (set_connection k (after_tune (opts c) t s)))) w'.
Proof.
  intros Hw Hsend. unfold handle_tune_command, shared.
  rewrite (io_bind_returns _ _ w (on_shared (after_tune (opts c) t) w) tt)
    by (unfold modify, on_shared; by rewrite <- after_tune_eq).
  apply (ready_shared_map _ _ _ _ (after_tune (opts c) t)) in Hw.
  destruct (ChannelSender_send_ok _ _ _ _ (Request_from (tuned (opts c) t)) k items Hw)
    as (w1 & H1 & Hw1 & _); [exact Hsend|].
  eexists. split.
  - rewrite (io_bind_returns _ _ _ _ _ (ignore_returns _ _ _ _ H1)). reflexivity.
  - by apply ready_shared_map.
Qed.

Lemma task_turn_tune c n s w h t k items rest :
  ready c n s w -> incoming s = Some (Ok (Response_new h (ResponseKind_Tunes t))) :: rest ->
  conn_send (Request_from (tuned (opts c) t)) (connection s) = (k, Ok items) ->
  ∃ w', task_turn w = Returns w' true /\
    ready c n (set_tune_permit true (receive_items items
      (set_connection k (after_tune (opts c) t (set_incoming rest s))))) w'.
Proof.
  intros Hw Hin Hsend. unfold task_turn. rewrite (ready_shared _ _ _ _ Hw), Hin. cbn [task_item].
  apply (ready_shared_map _ _ _ _ (set_incoming rest)) in Hw.
  set (w0 := on_shared (set_incoming rest) w) in *.
  destruct (handle_tune_ready c n _ w0 t k items Hw Hsend) as (w1 & H1 & Hw1).
  exists w1. split; [|exact Hw1].
  assert (Hn : notify (E:=ClientError.t) (Response_new h (ResponseKind_Tunes t)) w0 =
               Returns w1 tt).
  { unfold notify. rewrite (io_bind_returns _ _ w0 w0 (Some c))
      by (unfold gets; by rewrite (ready_handler _ _ _ _ Hw)).
    exact (ignore_returns _ _ _ _ H1). }
  assert (Hi : handle_item (E:=ClientError.t) (Ok (Response_new h (ResponseKind_Tunes t))) w0 =
               Returns w1 true).
  { cbn [handle_item]. unfold handle_item. cbn. by rewrite (io_bind_returns _ _ _ _ _ Hn). }
  by rewrite (io_bind_returns _ _ _ _ _ Hi).
Qed.

(** Waiting for the tune command that is the next item. *)
Lemma notified_await_tune k c n s w h t k' items rest :
  ready c n s w -> tune_permit s = false ->
  incoming s = Some (Ok (Response_new h (ResponseKind_Tunes t))) :: rest ->
  conn_send (Request_from (tuned (opts c) t)) (connection s) = (k', Ok items) ->
  ∃ w', notified_await (S k) w = Returns w' tt /\
    ready c n (set_tune_permit false (set_tune_permit true (receive_items items
      (set_connection k' (after_tune (opts c) t (set_incoming rest s)))))) w'.
Proof.
  intros Hw Hpermit Hin Hsend. cbn [notified_await].
  rewrite (io_bind_returns _ _ w w false)
    by (unfold gets; by rewrite (ready_shared _ _ _ _ Hw), Hpermit).
  destruct (task_turn_tune _ _ _ _ _ _ _ _ _ Hw Hin Hsend) as (w1 & H1 & Hw1).
  rewrite (io_bind_returns _ _ _ _ _ H1). cbv iota.
  exists (on_shared (set_tune_permit false) w1). split; [|by apply ready_shared_map].
  destruct k; cbn [notified_await];
    by rewrite (io_bind_returns _ _ w1 w1 true) by
      (unfold gets; by rewrite (ready_shared _ _ _ _ Hw1)).
Qed.

(** When nothing more comes before it, the wait never ends. *)
Lemma notified_await_nothing k c n s w :
  ready c n s w -> tune_permit s = false -> incoming s = [] ->
  notified_await (S k) w = Waits w.
Proof.
  intros Hw Hpermit Hin. cbn [notified_await].
  rewrite (io_bind_returns _ _ w w false)
    by (unfold gets; by rewrite (ready_shared _ _ _ _ Hw), Hpermit).
  rewrite (io_bind_returns _ _ w w false)
    by (unfold task_turn; by rewrite (ready_shared _ _ _ _ Hw), Hin).
  done.
Qed.

(** ** The opening of a connection *)

(** A frame of the server, whatever its header says. *)
Definition reply (h : Header) (k : ResponseKind) : option (result ClientError.t Response) :=
  Some (Ok (Response_new h k)).

Definition the_client (o : ClientOptions) (filtering : bool) : Client :=
  {| opts := o; filtering_supported := filtering; client_properties := client_properties_of o |}.

(** The server answers the opening requests one after the other; the answer to
    the credentials is [verdict], and [after] is what it sends right after it. *)
Inductive authenticated (o : ClientOptions) (server_props : list (bytes * bytes))
    (verdict : ResponseCode) (after : list (option (result ClientError.t Response)))
    (k0 k : conn) : Prop :=
  | Authenticated h k1 k2 code1 code2 mechanisms :
      conn_send (Request_from
        (peer_properties.PeerPropertiesCommand_new 0 (client_properties_of o))) k0 =
        (k1, Ok [reply h (ResponseKind_PeerProperties
          (peer_properties.PeerPropertiesResponse_new 0 code1 server_props))]) ->
      conn_send (Request_from (sasl_handshake.SaslHandshakeCommand_new 1)) k1 =
        (k2, Ok [reply h (ResponseKind_SaslHandshake
          (sasl_handshake.SaslHandshakeResponse_new 1 code2 mechanisms))]) ->
      conn_send (Request_from
        (sasl_authenticate.SaslAuthenticateCommand_new 2 (str "PLAIN") (auth_data o))) k2 =
        (k, Ok (reply h (ResponseKind_Generic (generic.GenericResponse_new 2 verdict))
                :: after)) ->
      authenticated o server_props verdict after k0 k.

Definition initial_shared (now : Z) (o : ClientOptions) (k : conn) : Shared :=
  rest (client_start now o k).

Lemma client_start_ready now o k c :
  ready c 0 (initial_shared now o k) (set_handler c (client_start now o k)).
Proof. split; try done. intros cid ch. cbn. by rewrite dm_get_new. Qed.

Lemma bind_assoc {S E A B C} (m : io S E A) (f : A -> io S E B) (g : B -> io S E C) s :
  ((m ≫= f) ≫= g) s = (m ≫= (λ a, f a ≫= g)) s.
Proof. unfold mbind, io_bind. by destruct (m s). Qed.

(** Peer properties and authentication. *)
Lemma connect_authenticated now o sp verdict after k0 k c j :
  authenticated o sp verdict after k0 k -> turns = S j -> c = the_client o false ->
  ∃ w, ready c 3 (set_incoming after (set_connection k
                    (on_state (set_server_properties sp) (initial_shared now o k0)))) w /\
    ∀ rest_of, (set_response_state (peer_properties c) set_server_properties;;
                authenticate c;; rest_of : io CW ClientError.t unit)
      (set_handler c (client_start now o k0)) =
      if bool_decide (verdict = ResponseCode_Ok) then rest_of w
      else Throws w (ClientError.RequestError verdict).
Proof.
  intros [h k1 k2 code1 code2 mechanisms H1 H2 H3] Hturns ->.
  set (c := the_client o false).
  destruct (send_and_receive_reply (T:=peer_properties.PeerPropertiesResponse)
    (λ cid, peer_properties.PeerPropertiesCommand_new cid (client_properties_of o)) j c 0
    (initial_shared now o k0) _ _ _ _ (client_start_ready now o k0 c) Hturns eq_refl eq_refl H1)
    as (w1 & Hw1 & E1); [done..|].
  apply (ready_shared_map _ _ _ _ (on_state (set_server_properties sp))) in Hw1.
  destruct (send_and_receive_reply (T:=sasl_handshake.SaslHandshakeResponse)
    sasl_handshake.SaslHandshakeCommand_new j c 1 _ _ _ _ _ Hw1 Hturns eq_refl eq_refl H2)
    as (w2 & Hw2 & E2); [done..|].
  destruct (send_and_receive_reply (T:=generic.GenericResponse)
    (λ cid, sasl_authenticate.SaslAuthenticateCommand_new cid (str "PLAIN") (auth_data o))
    j c 2 _ _ _ _ _ Hw2 Hturns eq_refl eq_refl H3) as (w3 & Hw3 & E3); [done..|].
  cbn in E1, E2, E3. exists w3. split; [exact Hw3|]. intros rest_of.
  unfold set_response_state, peer_properties, authenticate, sasl_mechanism, handle_authentication.
  rewrite ?bind_assoc. erewrite io_bind_returns; [|exact E1].
  rewrite ?bind_assoc. erewrite io_bind_returns; [|reflexivity].
  erewrite io_bind_returns; [|reflexivity].
  rewrite ?bind_assoc. erewrite io_bind_returns; [|exact E2].
  rewrite ?bind_assoc. erewrite io_bind_returns; [|reflexivity].
  rewrite ?bind_assoc. erewrite io_bind_returns; [|exact E3].
  unfold generic.GenericResponse_is_ok. cbn [generic.code].
  by destruct (bool_decide (verdict = ResponseCode_Ok)).
Qed.

(** The rest of the dialogue: the client answers the tune command with the
    values it has settled on, opens the virtual host and asks for the versions. *)
Inductive opened (o : ClientOptions) (t : tune.TunesCommand)
    (conn_props : list (bytes * bytes))
    (versions : list exchange_command_versions.ExchangeCommandVersion) (k k' : conn) : Prop :=
  | Opened h k1 k2 code :
      conn_send (Request_from (tuned o t)) k = (k1, Ok []) ->
      conn_send (Request_from (open.OpenCommand_new 3 (v_host o))) k1 =
        (k2, Ok [reply h (ResponseKind_Open
          (open.OpenResponse_new 3 ResponseCode_Ok conn_props))]) ->
      conn_send (Request_from
        (exchange_command_versions.ExchangeCommandVersionsRequest_new 4 [])) k2 =
        (k', Ok [reply h (ResponseKind_ExchangeCommandVersions
          (exchange_command_versions.ExchangeCommandVersionsResponse_new 4 code versions))]) ->
      opened o t conn_props versions k k'.

(** Of what client and server ask for, the smaller value, where 0 asks for nothing. *)
Definition settles_on (client server value : Z) : Prop :=
  (value = client \/ value = server) /\
  if bool_decide (client = 0 \/ server = 0) then client <= value /\ server <= value
  else value <= client /\ value <= server.

Lemma negotiate_settles client server : settles_on client server (negotiate_value client server).
Proof.
  unfold settles_on, negotiate_value. case_bool_decide as H; destruct (_ || _) eqn:E;
    rewrite ?orb_true_iff, ?orb_false_iff, ?Z.eqb_eq, ?Z.eqb_neq in E; lia.
Qed.

(** The state of a connection that is open and tuned. *)
Definition open_state (now : Z) (o : ClientOptions) (t : tune.TunesCommand)
    (server_props conn_props : list (bytes * bytes)) : ClientState :=
  {| server_properties := server_props; connection_properties := conn_props;
     state_handler := None; state_heartbeat := tune.heartbeat (tuned o t);
     state_max_frame_size := tune.max_frame_size (tuned o t); last_heatbeat := now;
     heartbeat_task := if tune.heartbeat (tuned o t) =? 0 then None else Some (TaskHandle_from 0) |}.

Definition open_shared (now : Z) (o : ClientOptions) (t : tune.TunesCommand)
    (server_props conn_props : list (bytes * bytes)) (k : conn) : Shared :=
  {| connection := k; incoming := []; task_running := true; channel_closed := false;
     state := open_state now o t server_props conn_props; tune_permit := false;
     publish_sequence := 1; clock := now; spawned := []; collected := [];
     heartbeats := if tune.heartbeat (tuned o t) =? 0 then []
                   else [{| interval := Z.max (tune.heartbeat (tuned o t) / 2) 1; aborted := false |}] |}.

Lemma start_hearbeat_open now o t sp cp k :
  start_hearbeat_task
    {| connection := k; incoming := []; task_running := true; channel_closed := false;
       state :=
         {| server_properties := sp; connection_properties := cp; state_handler := None;
            state_heartbeat := tune.heartbeat (tuned o t);
            state_max_frame_size := tune.max_frame_size (tuned o t);
            last_heatbeat := now; heartbeat_task := None |};
       tune_permit := false; publish_sequence := 1; clock := now; spawned := []; collected := [];
       heartbeats := [] |} = open_shared now o t sp cp k.
Proof.
  unfold start_hearbeat_task, open_shared, open_state. cbn.
  by destruct (negotiate_value (heartbeat o) (tune.heartbeat t) =? 0).
Qed.

Lemma connect_on_ok now o h sp cp t versions k0 k k' j :
  authenticated o sp ResponseCode_Ok [reply h (ResponseKind_Tunes t)] k0 k -> opened o t cp versions k k' ->
  turns = S j ->
  ∃ w, connect_on o (client_start now o k0) =
      Returns w (the_client o
        (2 <=? (exchange_command_versions.find_version 2 versions).2)) /\
    ready (the_client o false) 5 (open_shared now o t sp cp k') w.
Proof.
  intros Hauth [h' k1 k2 code H1 H2 H3] Hturns. set (c := the_client o false).
  destruct (connect_authenticated now o sp _ _ k0 k c j Hauth Hturns eq_refl) as (w0 & Hw0 & E0).
  destruct (notified_await_tune j c 3 _ w0 h t k1 [] [] Hw0 eq_refl eq_refl H1)
    as (w1 & E1 & Hw1).
  destruct (send_and_receive_reply (T:=open.OpenResponse)
    (λ cid, open.OpenCommand_new cid (v_host o)) j c 3 _ _ _ _ _ Hw1 Hturns eq_refl eq_refl H2)
    as (w2 & Hw2 & E2); [done..|]. cbn [Response_get] in E2.
  apply (ready_shared_map _ _ _ _ (on_state (set_connection_properties cp))) in Hw2.
  apply (ready_shared_map _ _ _ _ start_hearbeat_task) in Hw2.
  match type of Hw2 with
  | ready _ _ ?s _ => replace s with (open_shared now o t sp cp k2) in Hw2
      by (rewrite <- start_hearbeat_open; reflexivity)
  end.
  set (w3 := on_shared _ (on_shared _ w2)) in *.
  assert (Ei : initialize c (client_start now o k0) = Returns w3 tt).
  { unfold initialize. erewrite io_bind_returns; [|reflexivity]. rewrite E0.
    unfold wait_for_tune_data. rewrite Hturns, (io_bind_returns _ _ _ _ _ E1).
    unfold set_response_state, open. rewrite ?bind_assoc.
    erewrite io_bind_returns; [|exact E2]. reflexivity. }
  destruct (send_and_receive_reply (T:=exchange_command_versions.ExchangeCommandVersionsResponse)
    (λ cid, exchange_command_versions.ExchangeCommandVersionsRequest_new cid []) j c 4
    _ _ _ _ _ Hw2 Hturns eq_refl eq_refl H3) as (w4 & Hw4 & E4); [done..|].
  exists w4. split.
  - unfold connect_on. fold (the_client o false). fold c. rewrite (io_bind_returns _ _ _ _ _ Ei).
    unfold exchange_command_versions. erewrite io_bind_returns; [|exact E4].
    unfold exchange_command_versions.key_version. cbn.
    destruct (exchange_command_versions.find_version 2 versions) as [mn mx]. cbn.
    by destruct (2 <=? mx).
  - exact Hw4.
Qed.

(** Credentials that are refused. *)
Lemma connect_on_refused now o sp verdict after k0 k j :
  authenticated o sp verdict after k0 k -> verdict <> ResponseCode_Ok -> turns = S j ->
  ∃ w, connect_on o (client_start now o k0) = Throws w (ClientError.RequestError verdict).
Proof.
  intros Hauth Hv Hturns.
  destruct (connect_authenticated now o sp _ _ k0 k _ j Hauth Hturns eq_refl) as (w0 & _ & E0).
  exists w0. unfold connect_on. rewrite io_bind_throws with (s':=w0) (e:=ClientError.RequestError verdict);
    [done|].
  unfold initialize. erewrite io_bind_returns; [|reflexivity].
  etrans; [exact (E0 _)|]. by rewrite bool_decide_eq_false_2.
Qed.

Lemma notified_await_hangup j c n s w items :
  ready c n s w -> tune_permit s = false -> incoming s = None :: items ->
  ∃ w', notified_await (S (S j)) w = Waits w'.
Proof.
  intros Hw Hpermit Hin. cbn [notified_await].
  rewrite (io_bind_returns _ _ w w false)
    by (unfold gets; by rewrite (ready_shared _ _ _ _ Hw), Hpermit).
  destruct (task_turn_end _ _ _ _ _ Hw Hin) as (w1 & E1 & _ & Hr & _).
  rewrite (io_bind_returns _ _ _ _ _ E1). cbv iota.
  assert (Hr1 : tune_permit (rest w1) = false /\ incoming (rest w1) = []).
  { rewrite Hr. unfold hung_up. cbn. by destruct (state_handler (state s)). }
  destruct Hr1 as [Hp1 Hi1]. exists w1.
  rewrite (io_bind_returns _ _ w1 w1 false) by (unfold gets; by rewrite Hp1).
  rewrite (io_bind_returns _ _ w1 w1 false) by (unfold task_turn; by rewrite Hi1). done.
Qed.

(** The connection that ends between the verdict and the tune command: the
    client was told of the end, but the opening waits for the command only. *)
Lemma connect_on_untuned now o sp after k0 k j :
  authenticated o sp ResponseCode_Ok after k0 k -> (after = [] \/ ∃ items, after = None :: items) ->
  turns = S (S j) -> ∃ w, connect_on o (client_start now o k0) = Waits w.
Proof.
  intros Hauth Hafter Hturns.
  destruct (connect_authenticated now o sp _ _ k0 k _ (S j) Hauth Hturns eq_refl) as (w0 & Hw0 & E0).
  assert (∃ w, notified_await turns w0 = Waits w) as [w Hn].
  { rewrite Hturns. destruct Hafter as [->|[items ->]].
    - exists w0. by eapply notified_await_nothing.
    - by eapply notified_await_hangup. }
  exists w. unfold connect_on. apply io_bind_waits.
  unfold initialize. erewrite io_bind_returns; [|reflexivity].
  etrans; [exact (E0 _)|].
  unfold wait_for_tune_data. by rewrite (io_bind_waits _ _ _ _ Hn).
Qed.

(** ** Calls after the opening *)

(** No answer, no return. *)
Lemma send_and_receive_unanswered {T R} `{!FromResponse T, !Command R, !IntoRequestKind R}
    (f : Z -> R) k c n s w conn' :
  ready c n s w -> turns = S k -> task_running s = true -> incoming s = [] ->
  conn_send (Request_from (f n)) (connection s) = (conn', Ok []) ->
  ∃ w', send_and_receive (T:=T) f w = Waits w' /\
    ready c ((n + 1) mod 2 ^ 32) (set_connection conn' s) w'.
Proof.
  intros Hw Hturns Hrun Hin Hsend. unfold send_and_receive.
  destruct (response_channel_ready (E:=ClientError.t) _ _ _ _ Hw) as (w1 & rx & H1 & Hw1 & Ha1).
  rewrite (io_bind_returns _ _ _ _ _ H1).
  destruct (ChannelSender_send_ok _ _ _ _ _ _ _ Hw1 Hsend) as (w2 & H2 & Hw2 & Ha2).
  rewrite (io_bind_returns _ _ _ _ _ H2). apply Ha2 in Ha1.
  replace (receive_items [] (set_connection conn' s)) with (set_connection conn' s) in Hw2.
  2:{ unfold receive_items. cbn. rewrite Hrun, Hin. unfold set_incoming, set_connection. cbn.
      by rewrite Hin, Hrun. }
  destruct (receive_waiting (E:=ClientError.t) _ _ _ Ha1) as (w3 & H3 & Ha3 & Hw3).
  apply Hw3 in Hw2. exists w3. split; [|done].
  assert (Hk : recv_await turns rx w2 = Waits w3); [|by rewrite (io_bind_waits _ _ _ _ Hk)].
  rewrite Hturns. cbn [recv_await]. rewrite (io_bind_returns _ _ _ _ _ H3).
  assert (H6 : task_turn w3 = Returns w3 false)
    by (unfold task_turn; by rewrite (ready_shared _ _ _ _ Hw2); cbn; rewrite Hin).
  by rewrite (io_bind_returns _ _ _ _ _ H6).
Qed.

(** The ids of a batch: a message keeps its own, the others are numbered from
    the sequence of the client. *)
Fixpoint assign_ids (sequence : Z) (ids : list (option Z)) : list Z * Z :=
  match ids with
  | [] => ([], sequence)
  | Some id :: ids => let '(l, n) := assign_ids sequence ids in (id :: l, n)
  | None :: ids => let '(l, n) := assign_ids ((sequence + 1) mod 2 ^ 64) ids in (sequence :: l, n)
  end.

Definition published {T} `{!BaseMessage T} (id : Z) (m : T) : PublishedMessage :=
  PublishedMessage_new id (to_message m) (base_filter_value m).

Lemma map_each_to_published {T} `{!BaseMessage T} (messages : list T) c n s w :
  ready c n s w -> ∃ w',
    let '(ids, next) := assign_ids (publish_sequence s) (map base_publishing_id messages) in
    map_each to_published messages w = Returns w' (zip_with published ids messages) /\
    length ids = length messages /\
    ready c n (set_publish_sequence next s) w'.
Proof.
  revert s w. induction messages as [|m messages IH]; intros s w Hw; cbn [map_each map assign_ids].
  - exists w. split; [done|]. split; [done|]. by destruct s.
  - destruct (base_publishing_id m) as [id|] eqn:Eid.
    + destruct (IH s w Hw) as [w1 H1].
      destruct (assign_ids _ _) as [ids next]. destruct H1 as (E1 & Hl & Hw1).
      exists w1. split; [|split; [cbn; by rewrite Hl|done]].
      rewrite (io_bind_returns _ _ w w (published id m)) by (unfold to_published; by rewrite Eid).
      by rewrite (io_bind_returns _ _ _ _ _ E1).
    + set (next := (publish_sequence s + 1) mod 2 ^ 64).
      assert (Hw0 : ready c n (set_publish_sequence next s) (on_shared (set_publish_sequence next) w))
        by by apply ready_shared_map.
      destruct (IH _ _ Hw0) as [w1 H1]. cbn in H1.
      destruct (assign_ids _ _) as [ids next']. destruct H1 as (E1 & Hl & Hw1).
      exists w1. split; [|split; [cbn; by rewrite Hl|done]].
      assert (Et : to_published m w = Returns (on_shared (set_publish_sequence next) w)
                     (published (publish_sequence s) m)).
      { unfold to_published, next_publishing_id. rewrite Eid. rewrite bind_assoc.
        rewrite (io_bind_returns _ _ w w (publish_sequence s))
          by (by apply gets_returns; rewrite (ready_shared _ _ _ _ Hw)). done. }
      rewrite (io_bind_returns _ _ _ _ _ Et). by rewrite (io_bind_returns _ _ _ _ _ E1).
Qed.

(** [publish] sends one command with every message, in order. *)
Lemma publish_ok {T} `{!BaseMessage T} publisher_id (messages : list T) version c n s w k items :
  let '(ids, next) := assign_ids (publish_sequence s) (map base_publishing_id messages) in
  ready c n s w ->
  conn_send (Request_from (publish.PublishCommand_new publisher_id
    (zip_with published ids messages) version)) (connection s) = (k, Ok items) ->
  ∃ w', publish publisher_id messages version w = Returns w' ids /\
    ready c n (add_collected (len messages)
      (receive_items items (set_connection k (set_publish_sequence next s)))) w'.
Proof.
  destruct (assign_ids _ _) as [ids next] eqn:Ea. intros Hw Hsend.
  destruct (map_each_to_published messages _ _ _ _ Hw) as [w1 H1].
  rewrite Ea in H1. destruct H1 as (E1 & Hl & Hw1).
  destruct (ChannelSender_send_ok _ _ _ _ _ _ _ Hw1 Hsend) as (w2 & E2 & Hw2 & _).
  exists (on_shared (add_collected (len messages)) w2).
  split; [|by apply ready_shared_map].
  unfold publish. rewrite (io_bind_returns _ _ _ _ _ E1).
  rewrite (io_bind_returns _ _ _ _ _ E2). cbn.
  assert (Hids : map published_message.publishing_id (zip_with published ids messages) = ids).
  { clear -Hl. revert messages Hl. induction ids as [|i ids IH]; intros [|m messages] Hl;
      try done. injection Hl as Hl. cbn. by rewrite IH. }
  assert (Hlen : len (zip_with published ids messages) = len messages)
    by (unfold len; rewrite length_zip_with; lia).
  by rewrite Hids, Hlen.
Qed.

End client.
