(* ===== verification/Heartbeats.v ===== *)
(** * The heartbeat task

    The handle that aborts its task when it is dropped (src/client/task.rs), over the
    whole life of a client: however its calls, its dispatcher's task and its heartbeats
    follow each other, no heartbeat task is left behind. *)
From S2P Require Import Prelude Utf8 HashMaps Integers Codec Protocol.
From S2P Require Import Session Streams Producing Consuming.
From S2P Require Import AmqpCodes AmqpSimple AmqpValue AmqpMessage Messages Request Response.
From S2P Require Import ClientCodec Effects Dispatcher Options Client.

Section heartbeats.
Context {X : AmqpExt} {DM : DashMap} {MC : Mpsc} {TR : Transport}.
Context {UH : Type} (turns : nat).
Abbreviation CW := (CW (UH:=UH)).
Abbreviation Shared := (Shared (UH:=UH)).

(** ** The invariant *)

(** The task of the handle [h] is alive, and sends at the pace that was negotiated. *)
Definition paced (s : Shared) (h : TaskHandle) : Prop :=
  heartbeats s !! task h =
    Some {| interval := Z.max (state_heartbeat (state s) / 2) 1; aborted := false |} /\
  state_heartbeat (state s) <> 0.

(** A task that is alive is the one whose handle the client holds. *)
Definition held_alive (s : Shared) : Prop :=
  ∀ k t, heartbeats s !! k = Some t -> aborted t = false ->
    heartbeat_task (state s) = Some (TaskHandle_from k).

Record heartbeats_ok (s : Shared) : Prop := {
  hb_alive : held_alive s;
  hb_handle h : heartbeat_task (state s) = Some h -> paced s h;
}.

(** What the invariant speaks of. *)
Definition heartbeat_view (s : Shared) := (heartbeats s, heartbeat_task (state s), state_heartbeat (state s)).

Lemma heartbeats_ok_view s s' : heartbeat_view s' = heartbeat_view s -> heartbeats_ok s -> heartbeats_ok s'.
Proof.
  unfold heartbeat_view. intros [= H1 H2 H3] [Ha Hh]. split; unfold held_alive, paced in *.
  - intros k t. rewrite H1, H2. apply Ha.
  - intros h. rewrite H1, H2, H3. apply Hh.
Qed.

(** Dropping the handle aborts the only task there is. *)
Lemma replace_none_ok s : held_alive s -> heartbeats_ok (replace_heartbeat_task None s).
Proof.
  intros Ha. unfold replace_heartbeat_task.
  destruct (heartbeat_task (state s)) as [h|] eqn:Eh; split; try done.
  - intros k t. cbn. intros Hk Ht. exfalso. destruct (decide (k = task h)) as [->|Hne].
    + rewrite list_lookup_alter_eq in Hk. apply fmap_Some in Hk as (t0 & _ & ->). done.
    + rewrite list_lookup_alter_ne in Hk by done. pose proof (Ha k t Hk Ht) as H.
      rewrite Eh in H. injection H as ->. done.
  - intros k t Hk Ht. cbn in Hk. rewrite (Ha k t Hk Ht) in Eh. done.
Qed.

Lemma start_ok s : heartbeat_task (state s) = None -> held_alive s -> heartbeats_ok (start_hearbeat_task s).
Proof.
  intros Hn Ha. unfold start_hearbeat_task. destruct (Z.eqb_spec (state_heartbeat (state s)) 0) as [|Hz].
  { split; [done|]. intros h. by rewrite Hn. }
  unfold replace_heartbeat_task. cbn. rewrite Hn. split.
  - intros k t. cbn. rewrite lookup_app_Some. intros [Hk|[Hk H1]] Ht.
    + by rewrite (Ha k t Hk Ht) in Hn.
    + apply list_lookup_singleton_Some in H1 as [Hl _]. do 2 f_equal. lia.
  - intros h [= <-]. split; [|done]. cbn. by rewrite lookup_app_r, Nat.sub_diag by lia.
Qed.

Lemma restart_ok hb size s :
  heartbeats_ok s -> heartbeats_ok (restart_hearbeat_task (on_state (set_tuning hb size) s)).
Proof.
  intros [Ha _]. unfold restart_hearbeat_task. cbn.
  assert (Ha' : held_alive (on_state (set_tuning hb size) s)) by exact Ha.
  destruct (heartbeat_task (state s)) as [h|] eqn:Eh; [|by apply replace_none_ok].
  apply start_ok; [|by apply replace_none_ok].
  unfold replace_heartbeat_task. cbn. by rewrite Eh.
Qed.

(** No task is alive, and no handle is held: before the connection is open and after it
    was closed. *)
Definition silent (s : Shared) : Prop := heartbeat_task (state s) = None /\ held_alive s.

Lemma silent_view s s' : heartbeat_view s' = heartbeat_view s -> silent s -> silent s'.
Proof.
  unfold heartbeat_view, silent, held_alive. intros [= H1 H2 _] [Hn Ha]. rewrite H1, H2. by split.
Qed.

Lemma drop_silent s : held_alive s -> silent (replace_heartbeat_task None s).
Proof.
  intros Ha. split; [|by apply replace_none_ok]. unfold replace_heartbeat_task.
  by destruct (heartbeat_task (state s)).
Qed.

Lemma restart_silent hb size s :
  silent s -> silent (restart_hearbeat_task (on_state (set_tuning hb size) s)).
Proof.
  intros [Hn Ha]. unfold restart_hearbeat_task. cbn. rewrite Hn. by apply drop_silent.
Qed.

(** ** What the heartbeat operations keep, every call keeps *)

Section kept.
Context (P : Shared -> Prop).
Hypothesis P_view : ∀ s s', heartbeat_view s' = heartbeat_view s -> P s -> P s'.
Hypothesis P_restart : ∀ hb size s, P s -> P (restart_hearbeat_task (on_state (set_tuning hb size) s)).
Hypothesis P_drop : ∀ s, P s -> P (replace_heartbeat_task None s).

Definition ok (w : CW) : Prop := P (rest w).

Lemma keeps_shared {E} f : (∀ s, P s -> P (f s)) -> keeps ok (shared (E:=E) f).
Proof. intros Hf. apply keeps_modify. intros w. apply Hf. Qed.

Lemma keeps_shared_view {E} f :
  (∀ s, heartbeat_view (f s) = heartbeat_view s) -> keeps ok (shared (E:=E) f).
Proof. intros Hf. apply keeps_shared. intros s. by apply P_view. Qed.

Lemma keeps_rest {E} (f : CW -> CW) : (∀ w, rest (f w) = rest w) -> keeps ok (modify (E:=E) f).
Proof. intros Hf. apply keeps_modify. intros w. unfold ok. by rewrite Hf. Qed.

Lemma ok_rest (w w' : CW) : rest w' = rest w -> ok w -> ok w'.
Proof. unfold ok. by intros ->. Qed.

Lemma rest_put cid tx (w : CW) : rest (RequestsMap_put cid tx w) = rest w.
Proof. unfold RequestsMap_put. by destruct (dm_get cid (requests (requests_map w))). Qed.

Lemma rest_close (w : CW) : rest (RequestsMap_close w) = rest w.
Proof.
  unfold RequestsMap_close, RequestsMap_clear. cbn.
  change (rest w) with (rest (RequestsMap_store_closed w)).
  generalize (RequestsMap_store_closed w). intros w0.
  by induction (dm_iter (requests (requests_map w))).
Qed.

Lemma keeps_response_channel {E} : keeps ok (response_channel (E:=E)).
Proof.
  intros w Hw. unfold response_channel, fetch_channel.
  match goal with |- ok (outcome_state (?m ?s)) => refine ((_ : keeps ok m) s Hw) end.
  apply keeps_bind; [|intros b; apply keeps_ret]. unfold RequestsMap_insert.
  apply keeps_bind; [apply keeps_gets|].
  intros [|]; (apply keeps_bind; [apply keeps_rest|intros; apply keeps_ret]); [done|apply rest_put].
Qed.

Lemma keeps_receive {E} rx : keeps ok (receive (E:=E) rx).
Proof. intros w Hw. unfold receive. by destruct (channels w !! rx). Qed.

Lemma keeps_dispatch {E} cid r : keeps ok (dispatch (E:=E) cid r).
Proof.
  apply keeps_bind; [by intros w|]. intros [rcv|]; [by apply keeps_rest|apply keeps_ret].
Qed.

Lemma ok_receive_items items (w : CW) : ok w -> ok (on_shared (receive_items items) w).
Proof. apply P_view. unfold receive_items. cbn. by destruct (task_running (rest w)). Qed.

Lemma ok_connection c (w : CW) : ok w -> ok (on_shared (set_connection c) w).
Proof. by apply P_view. Qed.

Lemma keeps_send r : keeps ok (ChannelSender_send r).
Proof.
  intros w Hw. unfold ChannelSender_send. destruct (conn_send r _) as [c sent].
  apply (ok_connection c) in Hw. destruct sent; [by apply ok_receive_items|done..].
Qed.

Lemma keeps_channel_close : keeps ok ChannelSender_close.
Proof.
  intros w Hw. unfold ChannelSender_close. destruct (conn_close _) as [c sent].
  apply (ok_connection c) in Hw. destruct sent as [items|e|p]; [|done..].
  apply (ok_receive_items items) in Hw. revert Hw. by apply P_view.
Qed.

Lemma keeps_spawn_handler item : keeps ok (spawn_handler item).
Proof.
  apply keeps_bind; [apply keeps_gets|]. intros [h|]; [by apply keeps_shared_view|apply keeps_ret].
Qed.

Lemma keeps_handle_tune c t : keeps ok (handle_tune_command c t).
Proof.
  apply keeps_bind; [apply keeps_shared; intros s; apply P_restart|]. intros _.
  apply keeps_bind; [apply keeps_ignore, keeps_send|]. intros _. by apply keeps_shared_view.
Qed.

Lemma keeps_handle_message (c : Client) (m : MessageResult) :
  keeps ok (handle_message (S:=CW) c m).
Proof.
  destruct m as [[r|e|p]|]; try apply keeps_spawn_handler.
  unfold handle_message, Client_handler. destruct (kind r); try apply keeps_spawn_handler.
  - apply keeps_handle_tune.
  - by apply keeps_shared_view.
Qed.

Lemma keeps_notify {E} r : keeps ok (notify (E:=E) r).
Proof.
  apply keeps_bind; [apply keeps_gets|].
  intros [c|]; [apply keeps_ignore, keeps_handle_message|apply keeps_ret].
Qed.

Lemma keeps_close {E} : keeps ok (close (E:=E) None).
Proof.
  apply keeps_bind; [apply keeps_rest, rest_close|]. intros _.
  apply keeps_bind; [apply keeps_gets|]. intros [c|]; [|apply keeps_ret].
  apply keeps_bind; [apply keeps_ret|]. intros _. apply keeps_ignore, keeps_handle_message.
Qed.

Lemma keeps_handle_item {E} item : keeps ok (handle_item (E:=E) item).
Proof.
  destruct item as [r|e|p]; [|apply keeps_ret|apply keeps_crash]. cbn [handle_item].
  apply keeps_bind; [|intros _; apply keeps_ret].
  destruct (Response_correlation_id r) as [cid|]; [|apply keeps_notify].
  destruct (kind r); first [apply keeps_notify|apply keeps_dispatch].
Qed.

Lemma keeps_task_item item : keeps ok (task_item item).
Proof.
  assert (Hend : keeps ok (close (E:=ClientError.t) None;; shared stop_task)).
  { apply keeps_bind; [apply keeps_close|]. intros _. by apply keeps_shared_view. }
  destruct item as [item|]; [|exact Hend]. cbn [task_item].
  apply keeps_bind; [apply keeps_handle_item|]. intros [|]; [apply keeps_ret|exact Hend].
Qed.

Lemma keeps_task_turn : keeps ok task_turn.
Proof.
  intros w Hw. unfold task_turn. destruct (incoming (rest w)) as [|item items]; [done|].
  assert (Hi : ok (on_shared (set_incoming items) w)) by (revert Hw; by apply P_view).
  pose proof (keeps_task_item item _ Hi) as H. destruct (task_item _ _) as [w'|w'|w' p|w']; try done.
  revert H. by apply P_view.
Qed.

Lemma keeps_recv_await n rx : keeps ok (recv_await n rx).
Proof.
  induction n as [|n IH]; cbn [recv_await]; (apply keeps_bind; [apply keeps_receive|]);
    (intros [r| |]; try apply keeps_ret).
  - apply keeps_crash.
  - apply keeps_bind; [apply keeps_task_turn|]. intros [|]; [exact IH|apply keeps_wait].
Qed.

Lemma keeps_notified_await n : keeps ok (notified_await n).
Proof.
  induction n as [|n IH]; cbn [notified_await]; (apply keeps_bind; [apply keeps_gets|]);
    (intros [|]; [by apply keeps_shared_view|]).
  - apply keeps_crash.
  - apply keeps_bind; [apply keeps_task_turn|]. intros [|]; [exact IH|apply keeps_wait].
Qed.

Lemma keeps_call {T R} `{!FromResponse T, !Command R, !IntoRequestKind R} (f : Z -> R) :
  keeps ok (send_and_receive turns (T:=T) f).
Proof.
  apply keeps_bind; [apply keeps_response_channel|]. intros [[cid rx]|]; [|apply keeps_throw].
  apply keeps_bind; [apply keeps_send|]. intros _.
  apply keeps_bind; [apply keeps_recv_await|]. intros r.
  apply keeps_bind; [apply keeps_ok_or|]. intros r'. apply keeps_ok_or.
Qed.

Lemma keeps_publish {T} `{!BaseMessage T} publisher_id (messages : list T) version :
  keeps ok (publish publisher_id messages version).
Proof.
  apply keeps_bind.
  { apply keeps_map_each. intros m. apply keeps_bind; [|intros id; apply keeps_ret].
    destruct (base_publishing_id m); [apply keeps_ret|].
    apply keeps_bind; [apply keeps_gets|]. intros n.
    apply keeps_bind; [by apply keeps_shared_view|]. intros _. apply keeps_ret. }
  intros l. apply keeps_bind; [apply keeps_send|]. intros _.
  apply keeps_bind; [by apply keeps_shared_view|]. intros _. apply keeps_ret.
Qed.

Lemma keeps_client_close : keeps ok (Client_close turns).
Proof.
  apply keeps_bind; [apply keeps_gets|]. intros [|]; [apply keeps_throw|].
  apply keeps_bind; [apply keeps_call|]. intros _.
  apply keeps_bind; [|intros _; apply keeps_channel_close].
  apply keeps_shared, P_drop.
Qed.

Lemma keeps_heartbeat_tick k : keeps ok (heartbeat_tick k).
Proof.
  apply keeps_bind; [apply keeps_gets|].
  intros [[iv [|]]|]; [apply keeps_ret|apply keeps_ignore, keeps_send|apply keeps_ret].
Qed.

Lemma keeps_set_handler {E} h : keeps ok (Client_set_handler (E:=E) h).
Proof. by apply keeps_shared_view. Qed.

(** *** The opening, but for its last step *)

Lemma keeps_set_response_state {T} (m : io CW ClientError.t T) f :
  (∀ r cs, heartbeat_task (f r cs) = heartbeat_task cs /\ state_heartbeat (f r cs) = state_heartbeat cs) ->
  keeps ok m -> keeps ok (set_response_state m f).
Proof.
  intros Hf Hm. apply keeps_bind; [exact Hm|]. intros r. apply keeps_shared_view. intros s.
  unfold heartbeat_view. cbn. by destruct (Hf r (state s)) as [-> ->].
Qed.

(** *** The life of a client *)

Inductive client_step : CW -> CW -> Prop :=
  | client_calls T R `{!FromResponse T, !Command R, !IntoRequestKind R} (f : Z -> R) w :
      client_step w (outcome_state (send_and_receive turns (T:=T) f w))
  | client_sends r w : client_step w (outcome_state (ChannelSender_send r w))
  | client_publishes T `{!BaseMessage T} publisher_id (messages : list T) version w :
      client_step w (outcome_state (publish publisher_id messages version w))
  | client_closes w : client_step w (outcome_state (Client_close turns w))
  | client_handles h w : client_step w (outcome_state (Client_set_handler (E:=ClientError.t) h w))
  | client_turns w : client_step w (outcome_state (task_turn w))
  | client_beats k w : client_step w (outcome_state (heartbeat_tick k w)).

Lemma client_step_keeps w w' : client_step w w' -> ok w -> ok w'.
Proof.
  intros [T R ? ? ? f u|r u|T ? id l v u|u|h u|u|k u] Hu.
  - by apply keeps_call.
  - by apply keeps_send.
  - by apply keeps_publish.
  - by apply keeps_client_close.
  - by apply keeps_set_handler.
  - by apply keeps_task_turn.
  - by apply keeps_heartbeat_tick.
Qed.

Lemma client_run_keeps w w' : rtc client_step w w' -> ok w -> ok w'.
Proof. intros H. induction H as [|u v w' Hs _ IH]; [done|]. intros Hu. by apply IH, (client_step_keeps u). Qed.

End kept.

(** ** From the opening to the close *)

Lemma initialize_ok c (w w' : CW) :
  ok silent w -> initialize turns c w = Returns w' tt -> ok heartbeats_ok w'.
Proof.
  intros Hw H. unfold initialize in H.
  apply io_bind_returns_inv in H as (w1 & [] & E1 & H).
  apply (keeps_returns (ok silent)) in E1; [|by apply keeps_rest|exact Hw].
  apply io_bind_returns_inv in H as (w2 & [] & E2 & H).
  apply (keeps_returns (ok silent)) in E2; [| |exact E1].
  2: { apply keeps_set_response_state; [apply silent_view|done|].
       apply keeps_bind; [by apply keeps_call; [apply silent_view|apply restart_silent]|].
       intros r. apply keeps_ret. }
  apply io_bind_returns_inv in H as (w3 & [] & E3 & H).
  apply (keeps_returns (ok silent)) in E3; [| |exact E2].
  2: { apply keeps_bind.
       - apply keeps_bind; [by apply keeps_call; [apply silent_view|apply restart_silent]|].
         intros r. apply keeps_ret.
       - intros l. apply keeps_bind; [by apply keeps_call; [apply silent_view|apply restart_silent]|].
         intros r. destruct (generic.GenericResponse_is_ok r); [apply keeps_ret|apply keeps_throw]. }
  apply io_bind_returns_inv in H as (w4 & [] & E4 & H).
  apply (keeps_returns (ok silent)) in E4;
    [|apply keeps_notified_await; [apply silent_view|apply restart_silent]|exact E3].
  apply io_bind_returns_inv in H as (w5 & [] & E5 & H).
  apply (keeps_returns (ok silent)) in E5; [| |exact E4].
  2: { apply keeps_set_response_state; [apply silent_view|done|].
       apply keeps_bind; [by apply keeps_call; [apply silent_view|apply restart_silent]|].
       intros r. destruct (open.OpenResponse_is_ok r); [apply keeps_ret|apply keeps_throw]. }
  injection H as <-. destruct E5 as [Hn Ha]. by apply start_ok.
Qed.

Lemma connect_ok now o w c :
  Client_connect turns now o = Returns (Some w) c -> ok heartbeats_ok w.
Proof.
  unfold Client_connect. destruct (conn_connect o) as [k|e|p]; [|done..].
  destruct (connect_on turns o _) as [w1 c1| | |] eqn:E1; [|done..]. intros [= -> ->].
  unfold connect_on in E1. apply io_bind_returns_inv in E1 as (w1 & [] & Ei & E1).
  apply initialize_ok in Ei; [|by split].
  apply io_bind_returns_inv in E1 as (w2 & r & Ev & E1).
  apply (keeps_returns (ok heartbeats_ok)) in Ev;
    [|apply keeps_call; [apply heartbeats_ok_view|apply restart_ok]|exact Ei].
  destruct (exchange_command_versions.key_version r 2). by injection E1 as <-.
Qed.

Lemma close_silent w w' : ok heartbeats_ok w -> Client_close turns w = Returns w' tt -> ok silent w'.
Proof.
  intros Hw H. unfold Client_close in H.
  apply io_bind_returns_inv in H as (w1 & b & E1 & H). injection E1 as -> <-.
  destruct (ChannelSender_is_closed w1); [done|].
  apply io_bind_returns_inv in H as (w2 & r & E2 & H).
  apply (keeps_returns (ok heartbeats_ok)) in E2;
    [|apply keeps_call; [apply heartbeats_ok_view|apply restart_ok]|exact Hw].
  apply io_bind_returns_inv in H as (w3 & [] & E3 & H). injection E3 as <-.
  apply (keeps_returns (ok silent)) in H; [exact H|apply keeps_channel_close, silent_view|].
  apply drop_silent, E2.
Qed.

(** A task that is not alive does nothing any more. *)
Lemma silent_tick k (w : CW) : ok silent w -> heartbeat_tick k w = Returns w tt.
Proof.
  intros [Hn Ha]. unfold heartbeat_tick, gets, mbind, io_bind.
  destruct (heartbeats (rest w) !! k) as [[iv b]|] eqn:Ek; [|done].
  destruct b; [done|]. by rewrite (Ha _ _ Ek eq_refl) in Hn.
Qed.
End heartbeats.
