(* ===== verification/Connection.v ===== *)
(** * The connection over bytes

    src/client/mod.rs: [GenericTcpStream], [create_connection] and the certificates
    of a TLS connection; src/client/codec.rs under tokio's [Framed];
    src/client/channel.rs.

    What comes from outside (the sockets of tokio, the TLS of rustls, the file
    system) is the interface [Platform].  On it a connection is opened, the
    requests of the client are written as bytes, and the bytes that arrive are cut
    into responses: an instance of the interface [Transport] of the client. *)
From S2P Require Import Prelude Utf8 HashMaps Integers Codec Protocol.
From S2P Require Import Session Streams Producing Consuming.
From S2P Require Import AmqpCodes AmqpSimple AmqpValue AmqpMessage Messages Request Response.
From S2P Require Import ClientCodec Effects Dispatcher Options Client.

(** ** TLS configurations

    A [rustls::Certificate] and a [PrivateKey] are the bytes of a DER file. *)

(** Who the other side may be: one of the root certificates vouches for it, or
    anyone ([NoCertificateVerification]). *)
Inductive ServerCertVerifier :=
  | RootCertificates (roots : list bytes)
  | NoCertificateVerification.

Record ClientConfig := {
  verifier : ServerCertVerifier;
  client_auth_cert : option (list bytes * bytes);
}.

(** What arrives at a stream once something was written to it. *)
Inductive arrival :=
  | Arrived (bs : bytes)
  | EndOfStream
  | ReadError.

(** tokio, rustls, rustls_pemfile and the file system.  [fs_read] is what a file
    holds; a write gives the stream and all that arrives on it until the next
    write; [None] is an [io::Error]. *)
Class Platform := {
  TcpStream : Type;
  TlsStream : Type;
  ServerName : Type;
  tcp_connect : bytes -> Z -> option TcpStream;
  tcp_write : bytes -> TcpStream -> TcpStream * option (list arrival);
  tcp_shutdown : TcpStream -> TcpStream * option (list arrival);
  tls_connect : ClientConfig -> ServerName -> TcpStream -> option TlsStream;
  tls_write : bytes -> TlsStream -> TlsStream * option (list arrival);
  tls_shutdown : TlsStream -> TlsStream * option (list arrival);
  ServerName_try_from : bytes -> option ServerName;
  fs_read : bytes -> option bytes;
  pemfile_certs : bytes -> option (list bytes);
  pemfile_pkcs8_private_keys : bytes -> option (list bytes);
  root_accepted : bytes -> bool;
  client_auth_accepted : list bytes -> bytes -> bool;
}.

Section connection.
Context {X : AmqpExt} {PF : Platform}.

(** ** GenericTcpStream *)

Inductive GenericTcpStream :=
  | Tcp (stream : TcpStream)
  | SecureTcp (stream : TlsStream).

(** [poll_write] and [poll_flush], and what [poll_read] gives from then on. *)
Definition stream_write (bs : bytes) (s : GenericTcpStream) :
    GenericTcpStream * option (list arrival) :=
  match s with
  | Tcp s => let '(s, r) := tcp_write bs s in (Tcp s, r)
  | SecureTcp s => let '(s, r) := tls_write bs s in (SecureTcp s, r)
  end.

Definition stream_shutdown (s : GenericTcpStream) : GenericTcpStream * option (list arrival) :=
  match s with
  | Tcp s => let '(s, r) := tcp_shutdown s in (Tcp s, r)
  | SecureTcp s => let '(s, r) := tls_shutdown s in (SecureTcp s, r)
  end.

(** ** Certificates *)

Definition io_error {A} (r : option A) : result ClientError.t A :=
  match r with Some a => Ok a | None => Err ClientError.Io end.
Definition unwrap {E A} (r : option A) : result E A :=
  match r with Some a => Ok a | None => Panic UnwrapNone end.

(** [roots.add(cert).unwrap()] for each certificate of the file. *)
Fixpoint add_roots (roots certs : list bytes) : result ClientError.t (list bytes) :=
  match certs with
  | [] => Ok roots
  | cert :: certs =>
      if root_accepted cert then add_roots (roots ++ [cert]) certs else Panic UnwrapNone
  end.

Definition build_root_store (root_ca_cert : option bytes) : result ClientError.t (list bytes) :=
  path ← unwrap root_ca_cert;
  cert_bytes ← unwrap (fs_read path);
  root_cert_store ← unwrap (pemfile_certs cert_bytes);
  add_roots [] root_cert_store.

Definition build_client_certificates (client_cert : bytes) : result ClientError.t (list bytes) :=
  pem ← io_error (fs_read client_cert);
  io_error (pemfile_certs pem).

Definition build_client_private_keys (client_private_key : bytes) :
    result ClientError.t (list bytes) :=
  pem ← io_error (fs_read client_private_key);
  io_error (pemfile_pkcs8_private_keys pem).

Definition build_tls_client_configuration (client_certificate_path : bytes) (roots : list bytes)
    (broker : ClientOptions) : result ClientError.t ClientConfig :=
  match client_certificate_path with
  | [] => Ok {| verifier := RootCertificates roots; client_auth_cert := None |}
  | _ =>
      client_certs ← build_client_certificates (client_certificates_path (tls broker));
      client_keys ← build_client_private_keys (client_keys_path (tls broker));
      key ← unwrap (head client_keys);
      if client_auth_accepted client_certs key
      then Ok {| verifier := RootCertificates roots; client_auth_cert := Some (client_certs, key) |}
      else Panic UnwrapNone
  end.

Definition build_tls_client_configuration_untrusted : result ClientError.t ClientConfig :=
  Ok {| verifier := NoCertificateVerification; client_auth_cert := None |}.

(** The configuration of [create_connection]. *)
Definition tls_config (broker : ClientOptions) : result ClientError.t ClientConfig :=
  if negb (trust_certificates (tls broker))
  then
    roots ← build_root_store (Some (root_certificates_path (tls broker)));
    build_tls_client_configuration (client_certificates_path (tls broker)) roots broker
  else build_tls_client_configuration_untrusted.

(** ** Framed

    [write_buffer] holds what was encoded and not written yet, [read_buffer] the
    bytes of a frame that is not complete; [ended] after the end of the stream,
    an error, or a panic of the decoder. *)
Record Framed := {
  stream : GenericTcpStream;
  write_buffer : bytes;
  read_buffer : bytes;
  ended : bool;
}.

Definition Framed_new (s : GenericTcpStream) : Framed :=
  {| stream := s; write_buffer := []; read_buffer := []; ended := false |}.

Definition create_connection (broker : ClientOptions) : result ClientError.t Framed :=
  if enabled (tls broker)
  then
    stream ← io_error (tcp_connect (host broker) (port broker));
    config ← tls_config broker;
    domain ← unwrap (ServerName_try_from (host broker));
    conn ← io_error (tls_connect config domain stream);
    Ok (Framed_new (SecureTcp conn))
  else
    stream ← io_error (tcp_connect (host broker) (port broker));
    Ok (Framed_new (Tcp stream)).

Abbreviation item := (option (result ClientError.t Response)).

(** The responses in the buffer, one after the other; an error is the last item
    before the end. *)
Fixpoint read_frames (fuel : nat) (buf : bytes) : bytes * bool * list item :=
  match fuel with
  | O => (buf, true, [Some (Panic OutOfFuel)])
  | S fuel =>
      match codec_decode buf with
      | (buf, Ok (Some r)) =>
          let '(rest, e, items) := read_frames fuel buf in (rest, e, Some (Ok r) :: items)
      | (buf, Ok None) => (buf, false, [])
      | (buf, Err e) => (buf, true, [Some (Err e); None])
      | (buf, Panic p) => (buf, true, [Some (Panic p)])
      end
  end.

Definition set_read (st : bytes * bool) (f : Framed) : Framed :=
  {| stream := stream f; write_buffer := write_buffer f; read_buffer := st.1; ended := st.2 |}.
Definition set_stream (s : GenericTcpStream) (b : bytes) (f : Framed) : Framed :=
  {| stream := s; write_buffer := b; read_buffer := read_buffer f; ended := ended f |}.

(** One arrival.  At the end of the stream [decode_eof] finds the buffer empty, or
    bytes remaining, which is an error. *)
Definition read_arrival (f : Framed) (a : arrival) : Framed * list item :=
  if ended f then (f, [])
  else match a with
  | Arrived bs =>
      let buf := read_buffer f ++ bs in
      let '(rest, e, items) := read_frames (S (length buf)) buf in
      (set_read (rest, e) f, items)
  | EndOfStream =>
      (set_read (read_buffer f, true) f,
       match read_buffer f with [] => [None] | _ => [Some (Err ClientError.Io); None] end)
  | ReadError => (set_read (read_buffer f, true) f, [Some (Err ClientError.Io); None])
  end.

Fixpoint read_arrivals (f : Framed) (l : list arrival) : Framed * list item :=
  match l with
  | [] => (f, [])
  | a :: l =>
      let '(f, items) := read_arrival f a in
      let '(f, items') := read_arrivals f l in (f, items ++ items')
  end.

(** ** channel.rs on the two halves

    After writing (or shutting down, with nothing left to write): what could not be
    written stays in the buffer. *)
Definition after_write (f : Framed) (b : bytes) (w : GenericTcpStream * option (list arrival)) :
    Framed * result ClientError.t (list item) :=
  match w with
  | (s, Some l) => let '(f, items) := read_arrivals (set_stream s [] f) l in (f, Ok items)
  | (s, None) => (set_stream s b f, Err ClientError.Io)
  end.

(** [sink.send(item)]: encode into the buffer, write the buffer.  What cannot be
    encoded stays in the buffer as far as it was encoded. *)
Definition Framed_send (r : Request) (f : Framed) : Framed * result ClientError.t (list item) :=
  match codec_encode r (write_buffer f) with
  | (b, Ok _) => after_write f b (stream_write b (stream f))
  | (b, Err e) => (set_stream (stream f) b f, Err e)
  | (b, Panic p) => (set_stream (stream f) b f, Panic p)
  end.

(** [sink.close()]: write what is left and shut the stream down. *)
Definition Framed_close (f : Framed) : Framed * result ClientError.t (list item) :=
  let '(f, flushed) :=
    match write_buffer f with
    | [] => (f, Ok [])
    | b => after_write f b (stream_write b (stream f))
    end in
  match flushed with
  | Ok items =>
      let '(f, r) := after_write f [] (stream_shutdown (stream f)) in
      (f, items' ← r; Ok (items ++ items'))
  | Err e => (f, Err e)
  | Panic p => (f, Panic p)
  end.

(** The client on this connection. *)
#[export] Instance framed_transport : Transport := {|
  conn := Framed;
  conn_connect := create_connection;
  conn_send := Framed_send;
  conn_close := Framed_close;
|}.

(** ** Laws *)

Definition item_of (r : Response) : item := Some (Ok r).

Lemma read_frames_drain fuel buf rest rs :
  drain_fuel fuel buf = (rest, Ok rs) -> read_frames fuel buf = (rest, false, map item_of rs).
Proof.
  revert buf rest rs. induction fuel as [|fuel IH]; cbn; [done|]. intros buf rest rs.
  destruct (codec_decode buf) as [buf' [[r|]|e|p]]; [|by intros [= <- <-]|done|done].
  destruct (drain_fuel fuel buf') as [rest' [rs'|e|p]] eqn:E; [|done..].
  intros [= <- <-]. by rewrite (IH _ _ _ E).
Qed.

(** Any fuel above the length of the buffer reads the same. *)
Lemma read_frames_enough n m buf :
  (length buf < n)%nat -> (length buf < m)%nat -> read_frames n buf = read_frames m buf.
Proof.
  revert m buf. induction n as [|n IH]; intros [|m] buf Hn Hm; try lia. cbn [read_frames].
  destruct (codec_decode buf) as [buf' [[r|]|e|p]] eqn:Ed; try done.
  apply codec_decode_shrinks in Ed. rewrite (IH m buf'); [done|lia|lia].
Qed.

(** The frames in front of other bytes are read first. *)
Lemma read_frames_behind fs bs part fuel :
  Forall ServerFrame_wire fs -> emits (write_each ServerFrame_encode fs) bs ->
  (length (bs ++ part) < fuel)%nat ->
  read_frames fuel (bs ++ part) =
  let '(rest, e, items) := read_frames (S (length part)) part in
  (rest, e, map item_of (ServerFrame_received <$> fs) ++ items).
Proof.
  intros Hf. revert bs fuel. induction Hf as [|f fs Hw Hf IH]; intros bs fuel He Hn.
  - assert (bs = []) as -> by (eapply emits_unique; [exact He|apply emits_ret]). cbn [app] in *.
    rewrite (read_frames_enough _ (S (length part))) by lia.
    by destruct (read_frames _ part) as [[rest e] items].
  - destruct (ServerFrame_round_trip _ Hw) as (bf & Hbf & Hp).
    destruct (drain_server_frames fs Hf) as (bl & Hbl & _).
    assert (bs = bf ++ bl) as -> by (eapply emits_unique; [exact He|by apply emits_seq]).
    rewrite <- app_assoc in *.
    pose proof (proj2 (codec_decode_some _ _ _) (Hp (bl ++ part))) as Hd.
    pose proof (codec_decode_shrinks _ _ _ Hd). destruct fuel as [|fuel]; [lia|].
    specialize (IH bl fuel Hbl ltac:(lia)). destruct (read_frames (S (length part)) part) as [[rest e] items].
    cbn [read_frames]. by rewrite Hd, IH.
Qed.

(** A connection that is open for reading. *)
Definition reading (buf : bytes) (f : Framed) : Prop := read_buffer f = buf /\ ended f = false.

(** Chunks from which the codec reads the responses [rs]. *)
Lemma read_chunks buf f chunks rs0 rest rs :
  reading buf f -> fold_left feed chunks (buf, Ok rs0) = (rest, Ok rs) ->
  ∃ rs1, rs = rs0 ++ rs1 /\
    read_arrivals f (map Arrived chunks) = (set_read (rest, false) f, map item_of rs1).
Proof.
  revert buf f rs0. induction chunks as [|c chunks IH]; intros buf f rs0 [Hb He]; cbn [fold_left map].
  - intros [= <- <-]. exists []. split; [by rewrite app_nil_r|]. cbn. f_equal.
    destruct f; cbn in *. by subst.
  - cbn [feed]. destruct (drain (buf ++ c)) as [buf' [rs'|e|p]] eqn:Ed; cbn;
      [|by rewrite feed_stuck|by rewrite feed_dead].
    intros Hf. apply (IH _ (set_read (buf', false) f)) in Hf as (rs1 & -> & Hr); [|done].
    exists (rs' ++ rs1). split; [by rewrite app_assoc|].
    unfold read_arrival. rewrite He, Hb.
    apply read_frames_drain in Ed. rewrite Ed, Hr, map_app. done.
Qed.

(** A request that fits its encoding is written as one frame, which a server reads
    as that request; the responses of what arrives are the items of the stream. *)
Lemma Framed_send_ok r f :
  Request_wire r -> write_buffer f = [] -> reading [] f -> ∃ bs,
    emits (Request_encode r) bs /\ parses Request_decode bs (Request_received r) /\
    ∀ s chunks rest rs,
      stream_write bs (stream f) = (s, Some (map Arrived chunks)) ->
      feed_all chunks = (rest, Ok rs) ->
      Framed_send r f = (set_read (rest, false) (set_stream s [] f), Ok (map item_of rs)).
Proof.
  intros (bs & He & Hp)%Request_wire_received Hw Hr. exists bs. split; [exact He|]. split; [exact Hp|].
  intros s chunks rest rs Hs Hf. unfold Framed_send, codec_encode.
  rewrite (emits_map_werr _ _ _ He), Hw. cbn [app after_write]. rewrite Hs. cbn [after_write].
  destruct (read_chunks [] (set_stream s [] f) chunks [] rest rs Hr Hf) as (rs1 & -> & E).
  by rewrite E.
Qed.

(** ** Laws: TLS *)

(** Reading leaves the stream and what is to be written alone. *)
Lemma read_arrivals_keeps l f :
  stream (read_arrivals f l).1 = stream f /\ write_buffer (read_arrivals f l).1 = write_buffer f.
Proof.
  revert f. induction l as [|a l IH]; intros f; cbn; [done|].
  assert (stream (read_arrival f a).1 = stream f /\ write_buffer (read_arrival f a).1 = write_buffer f)
    as [H1 H2].
  { unfold read_arrival. destruct (ended f); [done|]. destruct a; [|done..].
    by destruct (read_frames _ _) as [[rest e] items]. }
  destruct (read_arrival f a) as [f1 items]. cbn in H1, H2. rewrite <- H1, <- H2.
  destruct (IH f1) as [H3 H4]. by destruct (read_arrivals f1 l).
Qed.

(** A request on a stream that takes what is written to it: whatever arrives, the
    bytes of the request are written and nothing is left to write. *)
Lemma Framed_send_written r f bs s arrivals :
  emits (Request_encode r) bs -> write_buffer f = [] ->
  stream_write bs (stream f) = (s, Some arrivals) ->
  ∃ f' items, Framed_send r f = (f', Ok items) /\ stream f' = s /\ write_buffer f' = [].
Proof.
  intros He Hb Hs. unfold Framed_send, codec_encode. rewrite (emits_map_werr _ _ _ He), Hb. cbn [app].
  rewrite Hs. cbn [after_write]. pose proof (read_arrivals_keeps arrivals (set_stream s [] f)) as [H1 H2].
  destruct (read_arrivals _ arrivals) as [f' items]. by exists f', items.
Qed.

(** A connection whose bytes go through TLS. *)
Definition secured (f : Framed) : Prop := ∃ s, stream f = SecureTcp s.

Lemma after_write_secured f b w :
  (∃ s, w.1 = SecureTcp s) -> secured (after_write f b w).1.
Proof.
  destruct w as [s [l|]]; intros [s' Hs]; cbn in Hs; subst; cbn [after_write]; [|by eexists].
  pose proof (read_arrivals_keeps l (set_stream (SecureTcp s') [] f)) as [Hl _].
  destruct (read_arrivals _ l) as [f' items]. by exists s'.
Qed.

Lemma stream_write_secured b s : ∃ s', (stream_write b (SecureTcp s)).1 = SecureTcp s'.
Proof. cbn. destruct (tls_write b s) as [s' r]. by exists s'. Qed.
Lemma stream_shutdown_secured s : ∃ s', (stream_shutdown (SecureTcp s)).1 = SecureTcp s'.
Proof. cbn. destruct (tls_shutdown s) as [s' r]. by exists s'. Qed.

Lemma Framed_send_secured r f : secured f -> secured (Framed_send r f).1.
Proof.
  intros [s Hs]. unfold Framed_send. destruct (codec_encode r (write_buffer f)) as [b [u|e|p]];
    [|by exists s|by exists s].
  apply after_write_secured. rewrite Hs. apply stream_write_secured.
Qed.

Lemma Framed_close_secured f : secured f -> secured (Framed_close f).1.
Proof.
  intros Hf. unfold Framed_close.
  assert (Hflush : ∀ b, secured (after_write f b (stream_write b (stream f))).1).
  { intros b. destruct Hf as [s ->]. apply after_write_secured, stream_write_secured. }
  assert (Hshut : ∀ g (items : list item), secured g ->
    secured (let '(f, r) := after_write g [] (stream_shutdown (stream g)) in
             (f, items' ← r; Ok (items ++ items'))).1).
  { intros g items [s ->]. pose proof (after_write_secured g [] _ (stream_shutdown_secured s)) as Hg.
    by destruct (after_write _ _ _). }
  destruct (write_buffer f) as [|x b]; [by apply Hshut|].
  specialize (Hflush (x :: b)). destruct (after_write _ _ _) as [g [items|e|p]]; [|done..].
  by apply Hshut.
Qed.

(** Certificates all accepted, in their order. *)
Lemma add_roots_ok roots certs :
  Forall (λ c, root_accepted c = true) certs -> add_roots roots certs = Ok (roots ++ certs).
Proof.
  revert roots. induction certs as [|c certs IH]; intros roots Hf; cbn; [by rewrite app_nil_r|].
  apply Forall_cons in Hf as [Hc Hf]. by rewrite Hc, IH, <- app_assoc.
Qed.
Lemma add_roots_inv roots certs l :
  add_roots roots certs = Ok l -> l = roots ++ certs /\ Forall (λ c, root_accepted c = true) certs.
Proof.
  revert roots. induction certs as [|c certs IH]; intros roots; cbn.
  { intros [= <-]. split; [by rewrite app_nil_r|constructor]. }
  destruct (root_accepted c) eqn:Hc; [|done]. intros [-> Hf]%IH. split; [by rewrite <- app_assoc|].
  by constructor.
Qed.

(** The roots are the certificates of the file the options name. *)
Definition roots_of (path : bytes) (roots : list bytes) : Prop :=
  ∃ pem, fs_read path = Some pem /\ pemfile_certs pem = Some roots /\
    Forall (λ c, root_accepted c = true) roots.
(** The certificates and the first key of the files the options name. *)
Definition client_auth_of (t : TlsConfiguration) (auth : option (list bytes * bytes)) : Prop :=
  match auth with
  | None => client_certificates_path t = []
  | Some (certs, key) => client_certificates_path t <> [] /\ ∃ pem kpem keys,
      fs_read (client_certificates_path t) = Some pem /\ pemfile_certs pem = Some certs /\
      fs_read (client_keys_path t) = Some kpem /\ pemfile_pkcs8_private_keys kpem = Some (key :: keys) /\
      client_auth_accepted certs key = true
  end.

Definition config_of (t : TlsConfiguration) (config : ClientConfig) : Prop :=
  if trust_certificates t
  then config = {| verifier := NoCertificateVerification; client_auth_cert := None |}
  else ∃ roots, verifier config = RootCertificates roots /\
    roots_of (root_certificates_path t) roots /\ client_auth_of t (client_auth_cert config).

Lemma build_root_store_inv path roots :
  build_root_store (Some path) = Ok roots -> roots_of path roots.
Proof.
  unfold build_root_store, roots_of. cbn. destruct (fs_read path) as [pem|]; [|done]. cbn.
  destruct (pemfile_certs pem) as [certs|] eqn:Ep; [|done]. cbn. intros [-> Hf]%add_roots_inv.
  by exists pem.
Qed.

Lemma tls_config_inv o config : tls_config o = Ok config -> config_of (tls o) config.
Proof.
  unfold tls_config, config_of. destruct (trust_certificates (tls o)); cbn [negb].
  { by intros [= <-]. }
  destruct (build_root_store _) as [roots|e|p] eqn:Er; [|done..]. apply build_root_store_inv in Er.
  cbn. unfold build_tls_client_configuration, build_client_certificates, build_client_private_keys.
  destruct (client_certificates_path (tls o)) as [|b path] eqn:Ec.
  { intros [= <-]. exists roots. by split. }
  destruct (fs_read (b :: path)) as [pem|] eqn:E1; [|done]. cbn.
  destruct (pemfile_certs pem) as [certs|] eqn:E2; [|done]. cbn.
  destruct (fs_read (client_keys_path (tls o))) as [kpem|] eqn:E3; [|done]. cbn.
  destruct (pemfile_pkcs8_private_keys kpem) as [[|key keys]|] eqn:E4; [done| |done]. cbn.
  destruct (client_auth_accepted certs key) eqn:E5; [|done]. intros [= <-]. exists roots.
  split; [done|]. split; [done|]. cbn. rewrite Ec. split; [done|]. by exists pem, kpem, keys.
Qed.

Lemma create_connection_tls o f :
  enabled (tls o) = true -> create_connection o = Ok f -> ∃ tcp domain config conn,
    tcp_connect (host o) (port o) = Some tcp /\ ServerName_try_from (host o) = Some domain /\
    config_of (tls o) config /\ tls_connect config domain tcp = Some conn /\
    f = Framed_new (SecureTcp conn).
Proof.
  intros He. unfold create_connection. rewrite He.
  destruct (tcp_connect _ _) as [tcp|]; [|done]. cbn.
  destruct (tls_config o) as [config|e|p] eqn:Ec; [|done..]. apply tls_config_inv in Ec. cbn.
  destruct (ServerName_try_from _) as [domain|]; [|done]. cbn.
  destruct (tls_connect _ _ _) as [conn|] eqn:Et; [|done]. intros [= <-].
  by exists tcp, domain, config, conn.
Qed.

(** A file or a certificate that cannot be used is a panic, not an error. *)
Lemma create_connection_no_root o tcp :
  enabled (tls o) = true -> trust_certificates (tls o) = false ->
  tcp_connect (host o) (port o) = Some tcp -> fs_read (root_certificates_path (tls o)) = None ->
  create_connection o = Panic UnwrapNone.
Proof.
  intros He Ht Htcp Hf. unfold create_connection, tls_config, build_root_store.
  by rewrite He, Htcp, Ht; cbn; rewrite Hf.
Qed.

End connection.
