(* ===== verification/Refinement.v ===== *)
(** * A client does not see what its connection is made of

    Two transports are alike when, from related connections, what is sent is
    answered with the same items and leaves related connections.  Then every method
    of a client behaves the same over both: it returns, fails, panics or waits
    alike, with the same value and with related states.

    [sim] is that judgement for methods, with one rule per construct of the monad
    and one lemma per operation of the dispatcher and of the client; the hint
    database [sim] holds them. *)
From S2P Require Import Prelude Utf8 HashMaps Integers Codec Protocol.
From S2P Require Import Session Streams Producing Consuming.
From S2P Require Import AmqpCodes AmqpSimple AmqpValue AmqpMessage Messages Request Response.
From S2P Require Import ClientCodec Effects Dispatcher Options Client.

(** The limits a client asks for, as a tune command can carry them. *)
Definition limits_ok (o : ClientOptions) : Prop :=
  u32_ok (heartbeat o) /\ u32_ok (max_frame_size o).

Definition result_rel {E A B} (R : A -> B -> Prop) (r1 : result E A) (r2 : result E B) : Prop :=
  match r1, r2 with
  | Ok a, Ok b => R a b
  | Err e, Err e' => e = e'
  | Panic p, Panic p' => p = p'
  | _, _ => False
  end.

(** [sendable] are the requests the relation speaks of, [readable] what may be
    read on these connections. *)
Class SameTransport {X : AmqpExt} (TR1 TR2 : Transport) := {
  same_conn : TR1.(conn) -> TR2.(conn) -> Prop;
  sendable : Request -> Prop;
  readable : option (result ClientError.t Response) -> Prop;
  same_connect o : result_rel same_conn (TR1.(conn_connect) o) (TR2.(conn_connect) o);
  same_send r k1 k2 : sendable r -> same_conn k1 k2 ->
    same_conn (conn_send r k1).1 (conn_send r k2).1 /\
    (conn_send r k1).2 = (conn_send r k2).2 /\
    ∀ items, (conn_send r k1).2 = Ok items -> Forall readable items;
  same_close k1 k2 : same_conn k1 k2 ->
    same_conn (conn_close k1).1 (conn_close k2).1 /\
    (conn_close k1).2 = (conn_close k2).2 /\
    ∀ items, (conn_close k1).2 = Ok items -> Forall readable items;
  same_tune o h t :
    readable (Some (Ok (Response_new h (ResponseKind_Tunes t)))) -> limits_ok o ->
    sendable (Request_from (tuned o t));
}.

(** Outcomes with the same result and related states. *)
Inductive outcome_rel {S1 S2 E A} (R : S1 -> S2 -> Prop) : outcome S1 E A -> outcome S2 E A -> Prop :=
  | rel_returns s1 s2 a : R s1 s2 -> outcome_rel R (Returns s1 a) (Returns s2 a)
  | rel_throws s1 s2 e : R s1 s2 -> outcome_rel R (Throws s1 e) (Throws s2 e)
  | rel_panics s1 s2 p : R s1 s2 -> outcome_rel R (Panics s1 p) (Panics s2 p)
  | rel_waits s1 s2 : R s1 s2 -> outcome_rel R (Waits s1) (Waits s2).

(** ** The judgement *)

Section judgement.
Context {S1 S2 : Type} (R : S1 -> S2 -> Prop).

Definition sim {E A} (m1 : io S1 E A) (m2 : io S2 E A) : Prop :=
  ∀ s1 s2, R s1 s2 -> outcome_rel R (m1 s1) (m2 s2).

Lemma sim_ret {E A} (a : A) : sim (E:=E) (mret a) (mret a).
Proof. intros s1 s2 H. by constructor. Qed.
Lemma sim_bind {E A B} m1 m2 (k1 : A -> io S1 E B) (k2 : A -> io S2 E B) :
  sim m1 m2 -> (∀ a, sim (k1 a) (k2 a)) -> sim (m1 ≫= k1) (m2 ≫= k2).
Proof.
  intros Hm Hk s1 s2 H. unfold mbind, io_bind. destruct (Hm s1 s2 H); try by constructor.
  by apply Hk.
Qed.
Lemma sim_throw {E A} (e : E) : sim (A:=A) (throw e) (throw e).
Proof. intros s1 s2 H. by constructor. Qed.
Lemma sim_crash {E A} p : sim (E:=E) (A:=A) (crash p) (crash p).
Proof. intros s1 s2 H. by constructor. Qed.
Lemma sim_wait {E A} : sim (E:=E) (A:=A) await_forever await_forever.
Proof. intros s1 s2 H. by constructor. Qed.
Lemma sim_gets {E A} (f1 : S1 -> A) (f2 : S2 -> A) :
  (∀ s1 s2, R s1 s2 -> f1 s1 = f2 s2) -> sim (E:=E) (gets f1) (gets f2).
Proof. intros Hf s1 s2 H. unfold gets. rewrite (Hf _ _ H). by constructor. Qed.
Lemma sim_modify {E} (f1 : S1 -> S1) (f2 : S2 -> S2) :
  (∀ s1 s2, R s1 s2 -> R (f1 s1) (f2 s2)) -> sim (E:=E) (modify f1) (modify f2).
Proof. intros Hf s1 s2 H. constructor. by apply Hf. Qed.
Lemma sim_ok_or {E A} (o : option A) (e : E) : sim (ok_or o e) (ok_or o e).
Proof. destruct o; [apply sim_ret|apply sim_throw]. Qed.
Lemma sim_attempt {E F A} (m1 : io S1 E A) (m2 : io S2 E A) :
  sim m1 m2 -> sim (attempt (F:=F) m1) (attempt m2).
Proof. intros Hm s1 s2 H. unfold attempt. by destruct (Hm s1 s2 H); constructor. Qed.
Lemma sim_ignore {E F A} (m1 : io S1 E A) (m2 : io S2 E A) :
  sim m1 m2 -> sim (ignore (F:=F) m1) (ignore m2).
Proof. intros Hm. apply sim_bind; [by apply sim_attempt|]. intros _. apply sim_ret. Qed.
Lemma sim_map_each {E A B} (b1 : A -> io S1 E B) (b2 : A -> io S2 E B) l :
  (∀ a, sim (b1 a) (b2 a)) -> sim (map_each b1 l) (map_each b2 l).
Proof.
  intros Hb. induction l as [|a l IH]; cbn; [apply sim_ret|].
  apply sim_bind; [apply Hb|]. intros b. apply sim_bind; [exact IH|]. intros bs. apply sim_ret.
Qed.

(** What a method returns from related states. *)
Definition yields {E A} (P : A -> Prop) (m : io S1 E A) : Prop :=
  ∀ s1 s2 s a, R s1 s2 -> m s1 = Returns s a -> P a.

Lemma sim_bind_yields {E A B} (P : A -> Prop) m1 m2 (k1 : A -> io S1 E B) (k2 : A -> io S2 E B) :
  sim m1 m2 -> yields P m1 -> (∀ a, P a -> sim (k1 a) (k2 a)) -> sim (m1 ≫= k1) (m2 ≫= k2).
Proof.
  intros Hm HP Hk s1 s2 H. unfold mbind, io_bind. pose proof (HP s1 s2) as Ha.
  destruct (Hm s1 s2 H); try by constructor. apply Hk; [by eapply Ha|done].
Qed.
Lemma yields_ret {E A} (P : A -> Prop) (a : A) : P a -> yields (E:=E) P (mret a).
Proof. by intros Ha s1 s2 s a' _ [= _ <-]. Qed.
Lemma yields_bind {E A B} (P : A -> Prop) (Q : B -> Prop) m1 m2 (k1 : A -> io S1 E B) :
  sim (E:=E) m1 m2 -> yields P m1 -> (∀ a, P a -> yields Q (k1 a)) -> yields Q (m1 ≫= k1).
Proof.
  intros Hm HP Hk s1 s2 s b H (s1' & a & E1 & E2)%io_bind_returns_inv.
  specialize (Hm s1 s2 H). specialize (HP _ _ _ _ H E1). rewrite E1 in Hm.
  inversion Hm; subst. by eapply Hk.
Qed.
Lemma yields_map_each {E A B} (P : A -> B -> Prop) (b1 : A -> io S1 E B) (b2 : A -> io S2 E B) l :
  (∀ a, sim (b1 a) (b2 a)) -> (∀ a, yields (P a) (b1 a)) -> yields (Forall2 P l) (map_each b1 l).
Proof.
  intros Hb HP. induction l as [|a l IH]; cbn; [by apply yields_ret|].
  eapply yields_bind; [apply Hb|apply HP|]. intros b Hab.
  eapply yields_bind; [by apply sim_map_each|exact IH|]. intros bs Hbs.
  apply yields_ret. by constructor.
Qed.
End judgement.

Create HintDb sim.
#[export] Hint Resolve sim_ret sim_bind sim_throw sim_crash sim_wait sim_ok_or sim_attempt
  sim_ignore sim_map_each : sim.

(** ** Clients over two transports *)

Section clients.
Context {X : AmqpExt} {DM : DashMap} {MC : Mpsc} {TR1 TR2 : Transport}.
Context {ST : SameTransport TR1 TR2} {UH : Type} (turns : nat).
Abbreviation CW1 := (CW (TR:=TR1) (UH:=UH)).
Abbreviation CW2 := (CW (TR:=TR2) (UH:=UH)).
Abbreviation Shared1 := (Shared (TR:=TR1) (UH:=UH)).
Abbreviation Shared2 := (Shared (TR:=TR2) (UH:=UH)).

(** The state of a client, on another connection. *)
Definition shared_on (k : TR2.(conn)) (s : Shared1) : Shared2 :=
  {| connection := k; incoming := incoming s; task_running := task_running s;
     channel_closed := channel_closed s; state := state s; tune_permit := tune_permit s;
     publish_sequence := publish_sequence s; clock := clock s; spawned := spawned s;
     collected := collected s; heartbeats := heartbeats s |}.
Definition world_on (k : TR2.(conn)) (w : CW1) : CW2 :=
  {| requests_map := requests_map w; correlation_id := correlation_id w; handler := handler w;
     channels := channels w; next_channel := next_channel w; rest := shared_on k (rest w) |}.

(** What the methods keep. *)
Definition shared_ok (s : Shared1) : Prop :=
  Forall readable (incoming s) /\ u64_ok (publish_sequence s).
Record client_ok (w : CW1) : Prop := {
  ck_id : u32_ok (correlation_id w);
  ck_limits c : handler w = Some c -> limits_ok (opts c);
  ck_shared : shared_ok (rest w);
}.

Definition same_world (w1 : CW1) (w2 : CW2) : Prop :=
  client_ok w1 /\ ∃ k, same_conn (connection (rest w1)) k /\ w2 = world_on k w1.

Abbreviation simc := (sim (S1:=CW1) (S2:=CW2) same_world).

(** A change that does not touch the connection. *)
Lemma same_world_modify (f1 : CW1 -> CW1) (f2 : CW2 -> CW2) :
  (∀ w, client_ok w -> client_ok (f1 w)) ->
  (∀ w, connection (rest (f1 w)) = connection (rest w)) ->
  (∀ w k, f2 (world_on k w) = world_on k (f1 w)) ->
  ∀ w1 w2, same_world w1 w2 -> same_world (f1 w1) (f2 w2).
Proof.
  intros H1 H2 H3 w1 w2 (Hok & k & Hk & ->). split; [by apply H1|]. exists k.
  by rewrite H2, H3.
Qed.

Lemma sim_shared {E} (f1 : Shared1 -> Shared1) (f2 : Shared2 -> Shared2) :
  (∀ s, shared_ok s -> shared_ok (f1 s)) ->
  (∀ s, connection (f1 s) = connection s) ->
  (∀ s k, f2 (shared_on k s) = shared_on k (f1 s)) ->
  simc (shared (E:=E) f1) (shared f2).
Proof.
  intros H1 H2 H3. apply sim_modify, same_world_modify.
  - intros w [? ? ?]. split; try done. by apply H1.
  - intros w. apply H2.
  - intros w k. unfold on_shared, world_on, set_rest. cbn. by rewrite H3.
Qed.

Lemma sim_gets_world {E A} (f1 : CW1 -> A) (f2 : CW2 -> A) :
  (∀ w k, f2 (world_on k w) = f1 w) -> simc (gets (E:=E) f1) (gets f2).
Proof. intros Hf. apply sim_gets. intros w1 w2 (_ & k & _ & ->). by rewrite Hf. Qed.

(** *** The dispatcher *)

Lemma drop_sender_on tx w k : drop_sender tx (world_on k w) = world_on k (drop_sender tx w).
Proof. done. Qed.

Lemma RequestsMap_put_on cid tx w k :
  RequestsMap_put cid tx (world_on k w) = world_on k (RequestsMap_put cid tx w).
Proof. unfold RequestsMap_put. cbn. by destruct (dm_get cid (requests (requests_map w))). Qed.

Lemma RequestsMap_close_on w k :
  RequestsMap_close (world_on k w) = world_on k (RequestsMap_close w).
Proof.
  unfold RequestsMap_close, RequestsMap_clear. cbn.
  assert (H : ∀ l (w0 : CW1),
    foldr (λ kv : Z * nat, drop_sender kv.2) (world_on k w0) l =
    world_on k (foldr (λ kv, drop_sender kv.2) w0 l)).
  { induction l as [|kv l IH]; intros w0; [done|]. cbn. by rewrite IH. }
  change (RequestsMap_store_closed (world_on k w)) with (world_on k (RequestsMap_store_closed w)).
  by rewrite H.
Qed.

(** A change of the dispatcher's part: [limits] and [incoming] stay. *)
Lemma client_ok_keep (f : CW1 -> CW1) :
  (∀ w, handler (f w) = handler w) -> (∀ w, rest (f w) = rest w) ->
  (∀ w, correlation_id (f w) = correlation_id w) ->
  ∀ w, client_ok w -> client_ok (f w).
Proof.
  intros H1 H2 H3 w [Hi Hl Hin]. split; rewrite ?H1, ?H2, ?H3; done.
Qed.

Lemma sim_dispatcher {E} (f1 : CW1 -> CW1) (f2 : CW2 -> CW2) :
  (∀ w, handler (f1 w) = handler w) -> (∀ w, rest (f1 w) = rest w) ->
  (∀ w, correlation_id (f1 w) = correlation_id w) ->
  (∀ w k, f2 (world_on k w) = world_on k (f1 w)) ->
  simc (modify (E:=E) f1) (modify f2).
Proof.
  intros H1 H2 H3 H4. apply sim_modify, same_world_modify; [by apply client_ok_keep| |done].
  intros w. by rewrite H2.
Qed.

Lemma put_keeps cid tx (w : CW1) :
  handler (RequestsMap_put cid tx w) = handler w /\ rest (RequestsMap_put cid tx w) = rest w /\
  correlation_id (RequestsMap_put cid tx w) = correlation_id w.
Proof. unfold RequestsMap_put. by destruct (dm_get cid (requests (requests_map w))). Qed.

Lemma close_keeps (w : CW1) :
  handler (RequestsMap_close w) = handler w /\ rest (RequestsMap_close w) = rest w /\
  correlation_id (RequestsMap_close w) = correlation_id w.
Proof.
  unfold RequestsMap_close, RequestsMap_clear. cbn.
  assert (H : ∀ l (w0 : CW1),
    handler (foldr (λ kv : Z * nat, drop_sender kv.2) w0 l) = handler w0 /\
    rest (foldr (λ kv : Z * nat, drop_sender kv.2) w0 l) = rest w0 /\
    correlation_id (foldr (λ kv : Z * nat, drop_sender kv.2) w0 l) = correlation_id w0)
    by (induction l; done).
  apply (H _ (RequestsMap_store_closed w)).
Qed.

Lemma sim_response_channel {E} : simc (response_channel (E:=E)) response_channel.
Proof.
  intros w1 w2 (Hok & k & Hk & ->). unfold response_channel, fetch_channel. cbn.
  match goal with |- outcome_rel _ ((?m ≫= ?g) ?a) ((?m' ≫= ?g') ?b) =>
    change (outcome_rel same_world ((m ≫= g) a) ((m' ≫= g') (world_on k a))) end.
  apply (sim_bind same_world).
  - unfold RequestsMap_insert. apply sim_bind; [by apply sim_gets_world|].
    intros [|]; (apply sim_bind; [apply sim_dispatcher|intros; apply sim_ret]); try done;
      intros; first [apply put_keeps|apply RequestsMap_put_on].
  - intros b. apply sim_ret.
  - split; [|by exists k]. destruct Hok as [_ Hl Hin]. split; try done.
    cbn. apply Z.mod_pos_bound. lia.
Qed.

Lemma sim_receive {E} rx : simc (receive (E:=E) rx) (receive rx).
Proof.
  intros w1 w2 (Hok & k & Hk & ->). unfold receive. cbn.
  destruct (channels w1 !! rx) as [c|]; constructor.
  - split; [by destruct Hok|]. by exists k.
  - split; [done|]. by exists k.
Qed.

Lemma sim_dispatch {E} cid r : simc (dispatch (E:=E) cid r) (dispatch cid r).
Proof.
  unfold dispatch. apply sim_bind.
  - intros w1 w2 (Hok & k & Hk & ->). unfold RequestsMap_remove. cbn. constructor.
    split; [by destruct Hok|]. by exists k.
  - intros [tx|]; [|apply sim_ret]. by apply sim_dispatcher.
Qed.

(** *** The client *)

(** What the connection answers is read from then on. *)
Lemma sim_answer k2 (w : CW1) f k res :
  client_ok w -> same_conn k k2 -> (∀ items, res = Ok items -> Forall readable items) ->
  (∀ s, shared_ok s -> shared_ok (f s)) -> (∀ s, connection (f s) = connection s) ->
  ∀ (f' : Shared2 -> Shared2), (∀ s k, f' (shared_on k s) = shared_on k (f s)) ->
  outcome_rel (E:=ClientError.t) same_world
    (match res with
     | Ok items => Returns (on_shared f (on_shared (receive_items items) (on_shared (set_connection k) w))) tt
     | Err e => Throws (on_shared (set_connection k) w) e
     | Panic p => Panics (on_shared (set_connection k) w) p
     end)
    (match res with
     | Ok items => Returns (on_shared f' (on_shared (receive_items items)
                     (on_shared (set_connection k2) (world_on k2 w)))) tt
     | Err e => Throws (on_shared (set_connection k2) (world_on k2 w)) e
     | Panic p => Panics (on_shared (set_connection k2) (world_on k2 w)) p
     end).
Proof.
  intros [Hi Hl Hin] Hk Hr Hf1 Hf2 f' Hf'.
  destruct res as [items|e|p]; constructor; [|split; [by split|by exists k2]..].
  split; [split; [done|done|]|exists k2; split].
  - apply Hf1. destruct Hin as [Hin Hs]. unfold receive_items. cbn.
    destruct (task_running (rest w)); split; cbn; try done.
    apply Forall_app. split; [done|by apply Hr].
  - cbn. rewrite Hf2. unfold receive_items. cbn. by destruct (task_running (rest w)).
  - unfold world_on, on_shared, set_rest. cbn. f_equal. rewrite <- Hf'. f_equal.
    unfold receive_items. cbn. by destruct (task_running (rest w)).
Qed.

Lemma sim_send r : sendable r -> simc (ChannelSender_send r) (ChannelSender_send r).
Proof.
  intros Hr w1 w2 (Hok & k & Hk & ->). unfold ChannelSender_send. cbn.
  pose proof (same_send r _ _ Hr Hk) as (Hc & Hres & Hread).
  destruct (conn_send r (connection (rest w1))) as [k1 res1], (conn_send r k) as [k2 res2].
  cbn in Hc, Hres, Hread. subst res2.
  change (on_shared (set_connection k2) (world_on k w1)) with
    (on_shared (set_connection k2) (world_on k2 w1)).
  exact (sim_answer k2 w1 (λ s, s) k1 res1 Hok Hc Hread (λ _ H, H) (λ _, eq_refl)
           (λ s, s) (λ _ _, eq_refl)).
Qed.

Lemma sim_channel_close : simc ChannelSender_close ChannelSender_close.
Proof.
  intros w1 w2 (Hok & k & Hk & ->). unfold ChannelSender_close. cbn.
  pose proof (same_close _ _ Hk) as (Hc & Hres & Hread).
  destruct (conn_close (connection (rest w1))) as [k1 res1], (conn_close k) as [k2 res2].
  cbn in Hc, Hres, Hread. subst res2.
  change (on_shared (set_connection k2) (world_on k w1)) with
    (on_shared (set_connection k2) (world_on k2 w1)).
  exact (sim_answer k2 w1 set_channel_closed k1 res1 Hok Hc Hread (λ _ H, H) (λ _, eq_refl)
           set_channel_closed (λ _ _, eq_refl)).
Qed.

Lemma sim_spawn_handler item : simc (spawn_handler item) (spawn_handler item).
Proof.
  unfold spawn_handler. apply sim_bind; [by apply sim_gets_world|].
  intros [h|]; [by apply sim_shared|apply sim_ret].
Qed.

(** The heartbeat tasks live in the shared state alone. *)
Ltac by_heartbeat_cases :=
  intros [? ? ? ? st ? ? ? ? ? ?]; intros;
  unfold restart_hearbeat_task, start_hearbeat_task, replace_heartbeat_task, shared_ok in *; cbn in *;
  destruct (heartbeat_task st); cbn; try (destruct (_ =? 0)); done.

Lemma sim_replace_heartbeat {E} t :
  simc (shared (E:=E) (replace_heartbeat_task t)) (shared (replace_heartbeat_task t)).
Proof. apply sim_shared; by_heartbeat_cases. Qed.
Lemma sim_start_heartbeat {E} : simc (shared (E:=E) start_hearbeat_task) (shared start_hearbeat_task).
Proof. apply sim_shared; by_heartbeat_cases. Qed.
Lemma sim_tuning {E} hb size :
  simc (shared (E:=E) (λ s, restart_hearbeat_task (on_state (set_tuning hb size) s)))
       (shared (λ s, restart_hearbeat_task (on_state (set_tuning hb size) s))).
Proof. apply sim_shared; by_heartbeat_cases. Qed.

Lemma sim_handle_tune c h t :
  limits_ok (opts c) -> readable (Some (Ok (Response_new h (ResponseKind_Tunes t)))) ->
  simc (handle_tune_command c t) (handle_tune_command c t).
Proof.
  intros Hc Ht. unfold handle_tune_command. apply sim_bind; [apply sim_tuning|]. intros _.
  apply sim_bind; [|intros _; by apply sim_shared].
  apply sim_ignore, sim_send. exact (same_tune _ _ _ Ht Hc).
Qed.

Lemma sim_handle_message c (m : MessageResult) :
  limits_ok (opts c) -> (∀ r, m = Some (Ok r) -> readable (Some (Ok r))) ->
  simc (handle_message c m) (handle_message c m).
Proof.
  intros Hc Hm. unfold handle_message, Client_handler.
  destruct m as [[r|e|p]|]; try apply sim_spawn_handler. specialize (Hm r eq_refl).
  destruct r as [h []]; cbn in *; try apply sim_spawn_handler.
  - by eapply sim_handle_tune.
  - unfold handle_heart_beat_command. by apply sim_shared.
Qed.

(** Whatever the handler of the connection is, it is within its limits. *)
Lemma sim_with_handler {E A} (m1 : option Client -> io CW1 E A) (m2 : option Client -> io CW2 E A) :
  (∀ h, (∀ c, h = Some c -> limits_ok (opts c)) -> simc (m1 h) (m2 h)) ->
  simc (h ← gets handler; m1 h) (h ← gets handler; m2 h).
Proof.
  intros Hm w1 w2 (Hok & k & Hk & ->).
  rewrite (io_bind_returns _ _ w1 w1 (handler w1)), (io_bind_returns _ _ (world_on k w1)
    (world_on k w1) (handler w1)) by done.
  apply Hm; [by destruct Hok|]. split; [done|by exists k].
Qed.

Lemma sim_notify {E} r : readable (Some (Ok r)) -> simc (notify (E:=E) r) (notify r).
Proof.
  intros Hr. unfold notify. apply sim_with_handler. intros [c|] Hc; [|apply sim_ret].
  apply sim_ignore, sim_handle_message; [by apply Hc|]. by intros r' [= <-].
Qed.

Lemma sim_close {E} : simc (close (E:=E) None) (close None).
Proof.
  unfold close. apply sim_bind.
  - apply sim_dispatcher; [apply close_keeps..|apply RequestsMap_close_on].
  - intros _. unfold notify_closed. apply sim_with_handler. intros [c|] Hc; [|apply sim_ret].
    apply sim_bind; [apply sim_ret|]. intros _. apply sim_ignore, sim_handle_message; [by apply Hc|done].
Qed.

Lemma sim_handle_item {E} item :
  readable (Some item) -> simc (handle_item (E:=E) item) (handle_item item).
Proof.
  intros Hi. unfold handle_item. destruct item as [r|e|p]; [|apply sim_ret|apply sim_crash].
  apply sim_bind; [|intros _; apply sim_ret].
  destruct (Response_correlation_id r); [|by apply sim_notify].
  destruct (kind r); try apply sim_dispatch. by apply sim_notify.
Qed.

Lemma sim_task_item item : readable item -> simc (task_item item) (task_item item).
Proof.
  intros Hi. assert (Hend : sim (E:=ClientError.t) same_world (close None;; shared stop_task)
                                                     (close None;; shared stop_task)).
  { apply sim_bind; [apply sim_close|]. intros _. apply sim_shared; [|done..]. intros s [_ Hs]. by split. }
  unfold task_item. destruct item as [item|]; [|exact Hend].
  apply sim_bind; [by apply sim_handle_item|]. intros [|]; [apply sim_ret|exact Hend].
Qed.

Lemma sim_task_turn : simc task_turn task_turn.
Proof.
  intros w1 w2 (Hok & k & Hk & ->). unfold task_turn. cbn.
  destruct (incoming (rest w1)) as [|item items] eqn:Hin.
  { constructor. split; [done|by exists k]. }
  destruct (ck_shared _ Hok) as [Hall Hseq]. rewrite Hin in Hall. apply Forall_cons in Hall as [Hi Hall].
  assert (Hw : same_world (on_shared (set_incoming items) w1)
                          (on_shared (set_incoming items) (world_on k w1)))
    by (split; [by destruct Hok|by exists k]).
  destruct (sim_task_item item Hi _ _ Hw) as [? ? ? H|? ? ? H|s1 s2 p H|? ? H]; constructor; try exact H.
  destruct H as (Hok' & k' & Hk' & ->). split; [|by exists k'].
  destruct Hok' as [? ? [_ ?]]. by split.
Qed.

Lemma sim_recv_await n rx : simc (recv_await n rx) (recv_await n rx).
Proof.
  induction n as [|n IH]; cbn [recv_await]; (apply sim_bind; [apply sim_receive|]);
    intros [r| |]; try apply sim_ret; [apply sim_crash|].
  apply sim_bind; [apply sim_task_turn|]. intros [|]; [exact IH|apply sim_wait].
Qed.

Lemma sim_notified_await n : simc (notified_await n) (notified_await n).
Proof.
  induction n as [|n IH]; cbn [notified_await]; (apply sim_bind; [by apply sim_gets_world|]);
    intros [|]; try (by apply sim_shared); [apply sim_crash|].
  apply sim_bind; [apply sim_task_turn|]. intros [|]; [exact IH|apply sim_wait].
Qed.

(** A call whose request may be sent under any correlation id. *)
Lemma sim_call {T R} `{!FromResponse T, !Command R, !IntoRequestKind R} (f : Z -> R) :
  (∀ cid, u32_ok cid -> sendable (Request_from (f cid))) ->
  simc (send_and_receive turns (T:=T) f) (send_and_receive turns (T:=T) f).
Proof.
  intros Hf. unfold send_and_receive.
  apply (sim_bind_yields _ (from_option (λ c, u32_ok c.1) True)); [apply sim_response_channel| |].
  - intros w1 w2 w a (Hok & _). unfold response_channel, fetch_channel, RequestsMap_insert, gets,
      mbind, io_bind. cbn. destruct (RequestsMap_closed _); cbn; intros [= _ <-]; [done|].
    by destruct Hok.
  - intros [[cid rx]|] Hid; [|apply sim_throw].
    apply sim_bind; [by apply sim_send, Hf|]. intros _. apply sim_bind; [apply sim_recv_await|].
    intros r. apply sim_bind; [apply sim_ok_or|]. intros r'. apply sim_ok_or.
Qed.

Lemma sim_send_message {R} `{!Command R, !IntoRequestKind R} (msg : R) :
  sendable (Request_from msg) -> simc (send msg) (send msg).
Proof. apply sim_send. Qed.

(** A message keeps its id or gets one of the sequence. *)
Definition numbers {T} `{!BaseMessage T} (m : T) (p : PublishedMessage) : Prop :=
  ∃ id, p = published id m /\ (base_publishing_id m = Some id \/ u64_ok id).

Lemma next_publishing_id_eq {E} {TR : Transport} (w : CW (TR:=TR) (UH:=UH)) :
  next_publishing_id (E:=E) w =
  Returns (on_shared (set_publish_sequence ((publish_sequence (rest w) + 1) mod 2 ^ 64)) w)
          (publish_sequence (rest w)).
Proof. done. Qed.

Lemma sim_to_published {T} `{!BaseMessage T} (m : T) :
  simc (to_published m) (to_published m) /\ yields same_world (numbers m) (to_published m).
Proof.
  unfold to_published, numbers. destruct (base_publishing_id m) as [id|].
  { split; [apply sim_ret|]. apply yields_ret. exists id. by split; [|left]. }
  assert (Hn : simc (next_publishing_id (E:=ClientError.t)) next_publishing_id).
  { intros w1 w2 (Hok & k & Hk & ->). rewrite !next_publishing_id_eq. constructor.
    split; [|by exists k]. destruct Hok as [? ? [? ?]]. split; try done. split; [done|].
    apply Z.mod_pos_bound. lia. }
  split; [apply sim_bind; [exact Hn|]; intros n; apply sim_ret|].
  apply (yields_bind _ u64_ok _ _ _ _ Hn).
  - intros w1 w2 w n (Hok & _). rewrite next_publishing_id_eq. intros [= _ <-].
    by destruct Hok as [_ _ [_ ?]].
  - intros n Hid. apply yields_ret. exists n. by split; [|right].
Qed.

Lemma sim_publish {T} `{!BaseMessage T} publisher_id (messages : list T) version :
  (∀ l, Forall2 numbers messages l ->
    sendable (Request_from (publish.PublishCommand_new publisher_id l version))) ->
  simc (publish publisher_id messages version) (publish publisher_id messages version).
Proof.
  intros Hs. unfold publish. apply (sim_bind_yields _ (Forall2 numbers messages)).
  - apply sim_map_each. apply sim_to_published.
  - apply (yields_map_each _ _ _ to_published); intros m; apply sim_to_published.
  - intros l Hl. apply sim_bind; [by apply sim_send_message, Hs|]. intros _.
    apply sim_bind; [by apply sim_shared|]. intros _. apply sim_ret.
Qed.

Lemma sim_client_close :
  (∀ cid, u32_ok cid -> sendable (Request_from (close.CloseRequest_new cid ResponseCode_Ok (str "Ok")))) ->
  simc (Client_close turns) (Client_close turns).
Proof.
  intros Hs. unfold Client_close. apply sim_bind; [by apply sim_gets_world|].
  intros [|]; [apply sim_throw|]. apply sim_bind; [by apply sim_call|]. intros _.
  apply sim_bind; [apply sim_replace_heartbeat|]. intros _. apply sim_channel_close.
Qed.

(** The requests of the opening. *)
Record opening_sendable (o : ClientOptions) : Prop := {
  os_limits : limits_ok o;
  os_peer cid : u32_ok cid -> sendable (Request_from
    (peer_properties.PeerPropertiesCommand_new cid (client_properties_of o)));
  os_handshake cid : u32_ok cid -> sendable (Request_from (sasl_handshake.SaslHandshakeCommand_new cid));
  os_credentials cid : u32_ok cid -> sendable (Request_from
    (sasl_authenticate.SaslAuthenticateCommand_new cid (str "PLAIN") (auth_data o)));
  os_open cid : u32_ok cid -> sendable (Request_from (open.OpenCommand_new cid (v_host o)));
  os_versions cid : u32_ok cid -> sendable (Request_from
    (exchange_command_versions.ExchangeCommandVersionsRequest_new cid []));
}.

Lemma sim_set_response_state {T} (m1 : io CW1 ClientError.t T) (m2 : io CW2 ClientError.t T) f :
  simc m1 m2 -> simc (set_response_state m1 f) (set_response_state m2 f).
Proof. intros Hm. apply sim_bind; [exact Hm|]. intros r. by apply sim_shared. Qed.

Lemma sim_initialize o :
  opening_sendable o -> simc (initialize turns (the_client o false)) (initialize turns (the_client o false)).
Proof.
  intros [Hl Hp Hh Hc Ho Hv]. unfold initialize. apply sim_bind.
  { apply sim_modify, same_world_modify; [|done..]. intros w [Hi _ Hin]. split; try done.
    by intros c [= <-]. }
  intros _. apply sim_bind.
  { apply sim_set_response_state. apply sim_bind; [by apply sim_call|]. intros r. apply sim_ret. }
  intros _. apply sim_bind.
  { apply sim_bind.
    - apply sim_bind; [by apply sim_call|]. intros r. apply sim_ret.
    - intros l. apply sim_bind; [by apply sim_call|]. intros r.
      destruct (generic.GenericResponse_is_ok r); [apply sim_ret|apply sim_throw]. }
  intros _. apply sim_bind; [apply sim_notified_await|]. intros _. apply sim_bind.
  { apply sim_set_response_state. apply sim_bind; [by apply sim_call|]. intros r.
    destruct (open.OpenResponse_is_ok r); [apply sim_ret|apply sim_throw]. }
  intros _. apply sim_start_heartbeat.
Qed.

Lemma sim_connect_on o :
  opening_sendable o -> simc (connect_on turns o) (connect_on turns o).
Proof.
  intros Ho. unfold connect_on. apply sim_bind; [by apply sim_initialize|]. intros _.
  apply sim_bind; [apply sim_call; by destruct Ho|]. intros r.
  destruct (exchange_command_versions.key_version r 2) as [mn mx]. apply sim_ret.
Qed.

(** A connection that is opened over either transport. *)
Lemma Client_connect_sim now o :
  opening_sendable o ->
  outcome_rel (option_Forall2 same_world)
    (Client_connect (TR:=TR1) (UH:=UH) turns now o) (Client_connect (TR:=TR2) (UH:=UH) turns now o).
Proof.
  intros Ho. unfold Client_connect. pose proof (same_connect o) as Hc.
  destruct (TR1.(conn_connect) o) as [k1|e1|p1], (TR2.(conn_connect) o) as [k2|e2|p2];
    cbn in Hc; try done; try (subst; constructor; constructor).
  assert (Hw : same_world (client_start now o k1) (client_start now o k2)).
  { split; [split; [done|done|split; [constructor|done]]|by exists k2]. }
  destruct (sim_connect_on o Ho _ _ Hw); constructor; by constructor.
Qed.

End clients.
