(* ===== verification/OverBytes.v ===== *)
(** * The client over bytes is the client over messages

    A [Server] takes requests and answers with frames, or refuses them.  [served] is the
    connection to it over messages; a stream that [Serves] it is a socket behind which
    it reads the bytes that are written and writes the bytes of its frames, which arrive
    in chunks of any size, with frames begun and not complete between two writes, until
    the connection ends, fails, or a chunk ends inside a string and panics the decoder.
    The connection of Connection.v over such a stream and [served] are alike in the
    sense of Refinement.v. *)
From S2P Require Import Prelude Utf8 HashMaps Integers Codec Protocol.
From S2P Require Import Session Streams Producing Consuming.
From S2P Require Import AmqpCodes AmqpSimple AmqpValue AmqpMessage Messages Request Response.
From S2P Require Import ClientCodec Effects Dispatcher Options Client Connection Refinement.

(** ** Servers *)

(** How what arrives after a write ends: with more to come; with the end of the
    connection; with an error of it, which its end inside a frame is too; with a panic
    of the decoder. *)
Inductive ending := GoesOn | HangsUp | Fails | Breaks (p : panic).

(** What arrives after a write: the frames that are complete by then, and the end. *)
Record answer {X : AmqpExt} := Answer { frames : list ServerFrame; ends : ending }.
Arguments Answer {X} _ _.

(** [None] when the write fails. *)
Class Server {X : AmqpExt} := {
  srv : Type;
  srv_connect : ClientOptions -> result ClientError.t srv;
  srv_step : Request -> srv -> srv * option answer;
  srv_close : srv -> srv * option answer;
  srv_step_wire r k a : (srv_step r k).2 = Some a -> Forall ServerFrame_wire (frames a);
  srv_close_wire k a : (srv_close k).2 = Some a -> Forall ServerFrame_wire (frames a);
}.

Section over_bytes.
Context {X : AmqpExt}.
Abbreviation item := (option (result ClientError.t Response)).

(** What a server reads from bytes: one request after the other, to the last byte. *)
Inductive reads_requests : bytes -> list Request -> Prop :=
  | reads_nil : reads_requests [] []
  | reads_cons bs rest r rs :
      Request_decode bs = Ok (rest, r) -> reads_requests rest rs -> reads_requests bs (r :: rs).

Lemma reads_requests_app b1 b2 rs1 r :
  reads_requests b1 rs1 -> parses Request_decode b2 r -> reads_requests (b1 ++ b2) (rs1 ++ [r]).
Proof.
  intros H1 H2. induction H1 as [|bs rest r1 rs Hd _ IH].
  - cbn. eapply (reads_cons _ []); [|constructor]. rewrite <- (app_nil_r b2). apply H2.
  - cbn. apply (reads_cons _ (rest ++ b2)); [|exact IH].
    pose proof (reads_stable (dec:=Request_decode) bs b2) as Hs. by rewrite Hd in Hs.
Qed.

(** *** Over messages *)

Definition ending_items (e : ending) : list item :=
  match e with
  | GoesOn => []
  | HangsUp => [None]
  | Fails => [Some (Err ClientError.Io); None]
  | Breaks p => [Some (Panic p)]
  end.

Definition answer_items (a : answer) : list item :=
  map item_of (ServerFrame_received <$> frames a) ++ ending_items (ends a).

(** A connection that is read from; one whose reading has ended; one that refuses what
    is written to it. *)
Inductive reading_state := Reading | Ended | Refusing.

Lemma decide_refusing (s : reading_state) : s = Refusing \/ s <> Refusing.
Proof. by destruct s; (left + right). Qed.

Definition served_answer {SV : Server} (k : srv * reading_state) (r : srv * option answer) :
    (srv * reading_state) * result ClientError.t (list item) :=
  match k.2, r.2 with
  | Refusing, _ | _, None => ((r.1, Refusing), Err ClientError.Io)
  | Ended, Some _ => ((r.1, Ended), Ok [])
  | Reading, Some a =>
      ((r.1, match ends a with GoesOn => Reading | _ => Ended end), Ok (answer_items a))
  end.

Definition served {SV : Server} : Transport := {|
  conn := srv * reading_state;
  conn_connect o := match srv_connect o with
                    | Ok k => Ok (k, Reading) | Err e => Err e | Panic p => Panic p
                    end;
  conn_send r k := served_answer k (srv_step (Request_received r) k.1);
  conn_close k := served_answer k (srv_close k.1);
|}.

(** *** Over bytes *)

(** [c] brings the bytes up to [part] of a frame, the frames [fs] being complete. *)
Definition completes (buf c : bytes) (fs : list ServerFrame) (part : bytes) : Prop :=
  Forall ServerFrame_wire fs /\ (∃ f, part_of f part) /\
  ∃ bs, emits (write_each ServerFrame_encode fs) bs /\ buf ++ c = bs ++ part.

(** What arrives, [buf] having arrived of a frame before: the answer it carries, and
    what has arrived of the next frame.  This describes arrivals, it does not restrict
    them: however frames are cut, one of the cases applies ([carries_total]). *)
Inductive carries : bytes -> list arrival -> answer -> bytes -> Prop :=
  | carries_nothing buf :
      (∃ f, part_of f buf) -> carries buf [] (Answer [] GoesOn) buf
  | carries_chunk buf c l fs part fs' e buf' :
      completes buf c fs part -> (∀ p, Response_decode part <> Panic p) ->
      carries part l (Answer fs' e) buf' ->
      carries buf (Arrived c :: l) (Answer (fs ++ fs') e) buf'
  | carries_panic buf c l fs part p :
      completes buf c fs part -> Response_decode part = Panic p ->
      carries buf (Arrived c :: l) (Answer fs (Breaks p)) part
  | carries_end l : carries [] (EndOfStream :: l) (Answer [] HangsUp) []
  | carries_cut buf l : buf <> [] -> carries buf (EndOfStream :: l) (Answer [] Fails) buf
  | carries_error buf l : carries buf (ReadError :: l) (Answer [] Fails) buf.

(** The bytes that arrive. *)
Definition arrived (l : list arrival) : bytes :=
  mjoin (map (λ a, match a with Arrived c => c | _ => [] end) l).

Lemma part_of_nothing : ∃ f, part_of f [].
Proof.
  set (f := {| sf_reply := false; sf_key := COMMAND_HEARTBEAT; sf_version := 1; sf_size := 4;
               sf_kind := ResponseKind_Heartbeat heart_beat.HeartbeatResponse_new |}).
  assert (Hf : ServerFrame_wire f) by by (split_and!; [by left|..]).
  destruct (ServerFrame_round_trip f Hf) as (bs & He & Hp). exists f. split; [exact Hf|].
  exists bs. split; [|exact He]. intros ->. by specialize (Hp []).
Qed.

(** However the bytes of a run of frames arrive, and however that ends, they carry an
    answer. *)
Lemma carries_total fs bs buf l more :
  Forall ServerFrame_wire fs -> emits (write_each ServerFrame_encode fs) bs ->
  bs = buf ++ arrived l ++ more -> (∃ f, part_of f buf) -> ∃ a buf', carries buf l a buf'.
Proof.
  revert fs bs buf. induction l as [|[c| |] l IH]; intros fs bs buf Hf He Hb Hpart.
  - do 2 eexists. by apply carries_nothing.
  - assert (∃ done later part, completes buf c done part /\ Forall ServerFrame_wire later /\
      emits (write_each ServerFrame_encode later) (part ++ arrived l ++ more))
      as (done & later & part & Hc & Hl & Hel).
    { change (arrived (Arrived c :: l)) with (c ++ arrived l) in Hb. rewrite <- app_assoc, app_assoc in Hb.
      destruct (decide (arrived l ++ more = [])) as [Hn|Hn].
      - rewrite Hn, app_nil_r in *. exists fs, [], []. subst bs.
        split; [|split; [constructor|apply emits_ret]].
        split; [done|]. split; [apply part_of_nothing|]. eexists. split; [exact He|by rewrite app_nil_r].
      - rewrite Hb in He. destruct (frames_cut _ _ _ Hf He Hn) as (done & f & later & b & part & -> & Hd & Hbc & Hp).
        apply Forall_app in Hf as [Hfd Hfl].
        exists done, (f :: later), part. split; [split; [done|split; [by exists f|by exists b]]|].
        split; [done|]. destruct (drain_server_frames _ Hfl) as (bl & Hbl & _).
        rewrite Hbc, <- app_assoc in He.
        pose proof (emits_weq _ _ _ (symmetry (write_each_app _ _ _)) (emits_seq _ _ _ _ Hd Hbl)) as He'.
        pose proof (emits_unique _ _ _ He He') as Heq. by apply app_inv_head in Heq as ->. }
    pose proof Hc as (_ & Hp & _).
    destruct (IH later _ part Hl Hel eq_refl Hp) as ([fs' e] & buf' & Hcar).
    destruct (Response_decode part) as [?|?|p] eqn:E; [..|do 2 eexists; by eapply carries_panic];
      (do 2 eexists; eapply carries_chunk; [exact Hc| |exact Hcar]; by rewrite E).
  - destruct buf as [|b buf]; do 2 eexists; [apply carries_end|by apply carries_cut].
  - do 2 eexists. apply carries_error.
Qed.

(** A stream behind which the server is; [serves s buf k] when [buf] has arrived of a
    frame.  A stream that has refused a write goes on refusing. *)
Class Serves (PF : Platform) (SV : Server) := {
  serves : GenericTcpStream -> bytes -> srv -> Prop;
  refuses : GenericTcpStream -> Prop;
  serves_connect o :
    result_rel (λ f k, ∃ s, f = Framed_new s /\ serves s [] k) (create_connection o) (srv_connect o);
  serves_write bs r s buf k : serves s buf k -> parses Request_decode bs r ->
    match (srv_step r k).2 with
    | Some a => ∃ s' l buf', stream_write bs s = (s', Some l) /\
        carries buf l a buf' /\ serves s' buf' (srv_step r k).1
    | None => ∃ s', stream_write bs s = (s', None) /\ refuses s'
    end;
  serves_shutdown s buf k : serves s buf k ->
    match (srv_close k).2 with
    | Some a => ∃ s' l buf', stream_shutdown s = (s', Some l) /\
        carries buf l a buf' /\ serves s' buf' (srv_close k).1
    | None => ∃ s', stream_shutdown s = (s', None) /\ refuses s'
    end;
  refuses_write bs s : refuses s -> ∃ s', stream_write bs s = (s', None) /\ refuses s';
  refuses_shutdown s : refuses s -> ∃ s', stream_shutdown s = (s', None) /\ refuses s';
}.

Context {PF : Platform} {SV : Server} {SS : Serves PF SV}.

Definition framed_rel (f : Framed) (k : srv * reading_state) : Prop :=
  match k.2 with
  | Reading => write_buffer f = [] /\ serves (stream f) (read_buffer f) k.1 /\ ended f = false
  | Ended => write_buffer f = [] /\ (∃ buf, serves (stream f) buf k.1) /\ ended f = true
  | Refusing => refuses (stream f)
  end.

(** Nothing is read from a connection that has ended. *)
Lemma read_arrivals_ended f l : ended f = true -> read_arrivals f l = (f, []).
Proof.
  intros He. induction l as [|a l IH]; cbn; [done|]. unfold read_arrival. by rewrite He, IH.
Qed.

(** The frames of a buffer are read first. *)
Lemma read_completed buf c fs part f :
  completes buf c fs part -> reading buf f ->
  read_arrival f (Arrived c) =
  (set_read (part, match Response_decode part with Panic _ => true | _ => false end) f,
   map item_of (ServerFrame_received <$> fs) ++
   match Response_decode part with Panic p => [Some (Panic p)] | _ => [] end).
Proof.
  intros (Hf & (g & Hp) & bs & He & Hb) [Hr Hn]. unfold read_arrival. rewrite Hn, Hr, Hb.
  rewrite (read_frames_behind fs bs part _ Hf He) by lia.
  pose proof (part_decode g part Hp) as Hd. cbn [read_frames]. unfold codec_decode.
  destruct (Response_decode part) as [[rest r]|e|x]; [done| |done]. by destruct e.
Qed.

(** What carries an answer is read as the items of that answer. *)
Lemma read_carried buf l a buf' f :
  carries buf l a buf' -> reading buf f ->
  read_arrivals f l =
  (set_read (buf', match ends a with GoesOn => false | _ => true end) f, answer_items a).
Proof.
  intros Hc. revert f. induction Hc as [buf Hp|buf c l fs part fs' e buf' Hc Hn _ IH
    |buf c l fs part p Hc Hn|l|buf l Hne|buf l]; intros f Hr; cbn [read_arrivals].
  - destruct Hr as [<- He]. destruct f; cbn in *. by subst.
  - rewrite (read_completed buf c fs part f Hc Hr).
    destruct (Response_decode part) as [?|?|x] eqn:E; [| |by destruct (Hn x)];
      rewrite (IH (set_read (part, false) f) ltac:(done)), app_nil_r; unfold answer_items; cbn [frames ends];
      by rewrite fmap_app, map_app, <- app_assoc.
  - rewrite (read_completed buf c fs part f Hc Hr), Hn, read_arrivals_ended by done.
    by rewrite app_nil_r.
  - destruct Hr as [Hb He]. unfold read_arrival. rewrite He, Hb. by rewrite read_arrivals_ended.
  - destruct Hr as [Hb He]. unfold read_arrival. rewrite He, Hb. destruct buf; [done|].
    by rewrite read_arrivals_ended.
  - destruct Hr as [Hb He]. unfold read_arrival. rewrite He, Hb. by rewrite read_arrivals_ended.
Qed.

(** After a write the two connections agree again. *)
Lemma answered_alike f b buf w (k : srv * reading_state) (r : srv * option answer) :
  framed_rel f k -> k.2 <> Refusing -> (k.2 = Reading -> buf = read_buffer f) ->
  match r.2 with
  | Some a => ∃ s' l buf', w = (s', Some l) /\ carries buf l a buf' /\ serves s' buf' r.1
  | None => ∃ s', w = (s', None) /\ refuses s'
  end ->
  framed_rel (after_write f b w).1 (served_answer k r).1 /\ (after_write f b w).2 = (served_answer k r).2.
Proof.
  intros Hf Hk Hb Hw. destruct k as [k st], r as [k' [a|]]; cbn [fst snd] in *.
  - destruct Hw as (s' & l & buf' & -> & Hc & Hs). destruct st; [| |done]; cbn [after_write].
    + destruct Hf as (_ & _ & He).
      rewrite (read_carried buf l a buf' _ Hc) by (by split; [rewrite Hb|]).
      split; [|done]. by destruct a as [fs [| | |p]]; split_and!; try done; exists buf'.
    + destruct Hf as (_ & _ & He). rewrite read_arrivals_ended by done. split; [|done].
      split_and!; try done. by exists buf'.
  - destruct Hw as (s' & -> & Hs). by destruct st.
Qed.

Lemma framed_send_alike r f k :
  Request_wire r -> framed_rel f k ->
  framed_rel (Framed_send r f).1 (served_answer k (srv_step (Request_received r) k.1)).1 /\
  (Framed_send r f).2 = (served_answer k (srv_step (Request_received r) k.1)).2.
Proof.
  intros (bs & He & Hp)%Request_wire_received Hk.
  unfold Framed_send, codec_encode. rewrite (emits_map_werr _ _ _ He).
  destruct k as [k st]. destruct (decide_refusing st) as [->|Hst].
  - destruct (refuses_write (write_buffer f ++ bs) _ Hk) as (s' & E & Hs). rewrite E.
    unfold served_answer. by destruct (srv_step _ _).
  - assert (Hw : write_buffer f = [] /\ ∃ buf, serves (stream f) buf k /\ (st = Reading -> buf = read_buffer f)).
    { destruct st; [| |done]; destruct Hk as (Hw & Hs & _); (split; [done|]).
      - by eexists.
      - destruct Hs as [buf Hs]. by exists buf. }
    destruct Hw as (Hw & buf & Hs & Hb). rewrite Hw. cbn [app].
    apply (answered_alike f bs buf); [done|done|done|]. exact (serves_write bs _ _ _ _ Hs Hp).
Qed.

Lemma framed_close_alike f k :
  framed_rel f k ->
  framed_rel (Framed_close f).1 (served_answer k (srv_close k.1)).1 /\
  (Framed_close f).2 = (served_answer k (srv_close k.1)).2.
Proof.
  intros Hk. unfold Framed_close. destruct k as [k st]. destruct (decide_refusing st) as [->|Hst].
  - unfold served_answer. cbn [fst snd framed_rel] in *.
    destruct (write_buffer f) as [|b bs].
    + destruct (refuses_shutdown _ Hk) as (s' & E & Hs). rewrite E. by destruct (srv_close k).
    + destruct (refuses_write (b :: bs) _ Hk) as (s' & E & Hs). rewrite E. by destruct (srv_close k).
  - assert (Hw : write_buffer f = [] /\ ∃ buf, serves (stream f) buf k /\ (st = Reading -> buf = read_buffer f)).
    { destruct st; [| |done]; destruct Hk as (Hw & Hs & _); (split; [done|]).
      - by eexists.
      - destruct Hs as [buf Hs]. by exists buf. }
    destruct Hw as (Hw & buf & Hs & Hb). rewrite Hw.
    destruct (answered_alike f [] buf (stream_shutdown (stream f)) (k, st) (srv_close k) Hk Hst Hb
      (serves_shutdown _ _ _ Hs)) as [H1 H2].
    destruct (after_write f [] (stream_shutdown (stream f))) as [f' r]. cbn in *.
    split; [exact H1|]. by destruct r.
Qed.

(** What may be read: the frames of a server, as they are received. *)
Definition from_server (i : option (result ClientError.t Response)) : Prop :=
  match i with
  | Some (Ok r) => ∃ f, ServerFrame_wire f /\ r = ServerFrame_received f
  | _ => True
  end.

Lemma answer_from_server k r items :
  (∀ a, r.2 = Some a -> Forall ServerFrame_wire (frames a)) -> (served_answer k r).2 = Ok items ->
  Forall from_server items.
Proof.
  intros Hf. unfold served_answer. destruct (k.2), (r.2) as [a|]; try done; intros [= <-]; [|constructor].
  apply Forall_app. split; [|by destruct (ends a); repeat constructor].
  apply Forall_fmap, Forall_fmap. eapply Forall_impl; [exact (Hf a eq_refl)|]. intros f Hw. by exists f.
Qed.

Lemma negotiate_u32 a b : u32_ok a -> u32_ok b -> u32_ok (negotiate_value a b).
Proof. unfold u32_ok, unsigned_ok, negotiate_value. intros. destruct (_ || _); lia. Qed.

#[export] Instance framed_served : SameTransport framed_transport served.
Proof.
  refine {| same_conn := framed_rel : framed_transport.(conn) -> served.(conn) -> Prop;
            sendable := Request_wire; readable := from_server |}.
  - intros o. pose proof (serves_connect o) as H. cbn.
    destruct (create_connection o) as [f|e|p], (srv_connect o) as [k|e'|p']; try done.
    destruct H as (s & -> & Hs). by split_and!.
  - intros r f k Hr Hk. destruct (framed_send_alike r f k Hr Hk) as [H1 H2]. split_and!; try done.
    intros items H. change ((Framed_send r f).2 = Ok items) in H. rewrite H2 in H.
    eapply answer_from_server; [intros a; apply srv_step_wire|exact H].
  - intros f k Hk. destruct (framed_close_alike f k Hk) as [H1 H2]. split_and!; try done.
    intros items H. change ((Framed_close f).2 = Ok items) in H. rewrite H2 in H.
    eapply answer_from_server; [intros a; apply srv_close_wire|exact H].
  - intros o h t (f & (_ & _ & _ & Hw) & Hf) [Hh Hm]. destruct f as [? ? ? ? kd]. cbn in *.
    destruct kd; cbn in Hf; try done. injection Hf as _ ->. cbn in Hw.
    apply Request_from_wire; [done|]. destruct Hw. by split; apply negotiate_u32.
Defined.

(** Options whose strings fit the requests of the opening. *)
Record options_wire (o : ClientOptions) : Prop := {
  ow_limits : limits_ok o;
  ow_v_host : wire_string (v_host o);
  ow_name : wire_string (client_provided_name o);
  ow_credentials : len (user o) + len (password o) + 2 < 2 ^ 31;
}.

Lemma client_properties_wire o :
  wire_string (client_provided_name o) -> wire_hashmap (client_properties_of o).
Proof.
  intros Hn. unfold client_properties_of, hm_collect, hm_extend. cbn -[str].
  split_and!; [|reflexivity|reflexivity].
  repeat (apply Forall_cons; split; [cbn [fst snd]; split; first [exact Hn|by split_and!]|]).
  constructor.
Qed.

Lemma options_sendable o : options_wire o -> opening_sendable (ST:=framed_served) o.
Proof.
  intros [Hl Hv Hn Hc]. split; [exact Hl|..]; intros cid Hid; (apply Request_from_wire; [done|]).
  - split; [exact Hid|by apply client_properties_wire].
  - exact Hid.
  - split; [exact Hid|]. split; [by split_and!|]. unfold auth_data, len in *.
    cbn [sasl_authenticate.sasl_data]. rewrite !length_app. cbn [length]. lia.
  - by split.
  - split; [exact Hid|]. by split.
Qed.

End over_bytes.
