(* ===== verification/ClientApi.v ===== *)
(** * The client as the rest of the crate sees it

    Environments, producers and consumers open connections and call methods of
    [Client].  [ClientApi] is that interface; [pool_api] implements it with the
    clients of Client.v, one state per connection opened so far. *)
From S2P Require Import Prelude Utf8 HashMaps Integers Codec Protocol.
From S2P Require Import Session Streams Producing Consuming.
From S2P Require Import AmqpCodes AmqpSimple AmqpValue AmqpMessage Messages Request Response.
From S2P Require Import ClientCodec Effects Dispatcher Options Client.

Class ClientApi {X : AmqpExt} (S C : Type) := {
  api_connect : ClientOptions -> io S ClientError.t C;
  api_close : C -> io S ClientError.t unit;
  api_connection_properties : C -> io S ClientError.t (list (bytes * bytes));
  api_filtering_supported : C -> bool;
  (** [set_handler]: from now on the messages of the connection are for the caller *)
  api_set_handler : C -> io S ClientError.t unit;
  (** the next message handed to the handler, when there is one *)
  api_message : C -> io S ClientError.t (option MessageResult);
  api_metadata : C -> list bytes -> io S ClientError.t (list (bytes * ClientStreamMetadata));
  api_subscribe : C -> Z -> bytes -> subscribe.OffsetSpecification -> Z ->
    list (bytes * bytes) -> io S ClientError.t generic.GenericResponse;
  api_unsubscribe : C -> Z -> io S ClientError.t generic.GenericResponse;
  api_credit : C -> Z -> Z -> io S ClientError.t unit;
  api_store_offset : C -> bytes -> bytes -> Z -> io S ClientError.t unit;
  api_query_offset : C -> bytes -> bytes -> io S ClientError.t Z;
  api_declare_publisher : C -> Z -> option bytes -> bytes ->
    io S ClientError.t generic.GenericResponse;
  api_delete_publisher : C -> Z -> io S ClientError.t generic.GenericResponse;
  api_publish : C -> Z -> list ClientMessage -> Z -> io S ClientError.t (list Z);
  api_query_publisher_sequence : C -> bytes -> bytes -> io S ClientError.t Z;
  api_create_stream : C -> bytes -> list (bytes * bytes) ->
    io S ClientError.t generic.GenericResponse;
  api_create_super_stream : C -> bytes -> list bytes -> list bytes -> list (bytes * bytes) ->
    io S ClientError.t generic.GenericResponse;
  api_delete_stream : C -> bytes -> io S ClientError.t generic.GenericResponse;
  api_delete_super_stream : C -> bytes -> io S ClientError.t generic.GenericResponse;
  api_partitions : C -> bytes ->
    io S ClientError.t superstream_partitions.SuperStreamPartitionsResponse;
  api_route : C -> bytes -> bytes ->
    io S ClientError.t superstream_route.SuperStreamRouteResponse;
  api_consumer_update : C -> Z -> subscribe.OffsetSpecification ->
    io S ClientError.t generic.GenericResponse;
}.

(** ** The connections of a process *)

Section pool.
Context {X : AmqpExt} {DM : DashMap} {MC : Mpsc} {TR : Transport}.
Context (turns : nat).

Record Pool := { pool_clients : list (CW (UH:=unit)); pool_now : Z }.

(** A client handle: its connection and the fields of its own. *)
Definition Handle : Type := nat * Client.

(** A connection is added to the pool even when the opening fails half-way. *)
Definition pool_connect (o : ClientOptions) : io Pool ClientError.t Handle := λ p,
  let add w := {| pool_clients := pool_clients p ++ [w]; pool_now := pool_now p |} in
  let add_opt (w : option (CW (UH:=unit))) := match w with Some w => add w | None => p end in
  match Client_connect turns (pool_now p) o with
  | Returns w c => Returns (add_opt w) (length (pool_clients p), c)
  | Throws w e => Throws (add_opt w) e
  | Panics w x => Panics (add_opt w) x
  | Waits w => Waits (add_opt w)
  end.

(** A method called on a handle works on the state of its connection. *)
Definition on_client {A} (h : Handle) (m : io (CW (UH:=unit)) ClientError.t A) :
    io Pool ClientError.t A := λ p,
  match pool_clients p !! h.1 with
  | None => Panics p UnwrapNone
  | Some w =>
      let put w := {| pool_clients := <[h.1 := w]> (pool_clients p); pool_now := pool_now p |} in
      match m w with
      | Returns w a => Returns (put w) a
      | Throws w e => Throws (put w) e
      | Panics w x => Panics (put w) x
      | Waits w => Waits (put w)
      end
  end.

(** The first task that was spawned for the handler; while there is none the
    dispatcher's task goes on. *)
Definition take_spawned : io (CW (UH:=unit)) ClientError.t (option MessageResult) := λ w,
  match spawned (rest w) with
  | [] => Returns w None
  | (_, m) :: l =>
      Returns (on_shared (λ s, {| connection := connection s; incoming := incoming s;
        task_running := task_running s; channel_closed := channel_closed s; state := state s;
        tune_permit := tune_permit s; publish_sequence := publish_sequence s; clock := clock s;
        spawned := l; collected := collected s; heartbeats := heartbeats s |}) w) (Some m)
  end.

Fixpoint next_message (k : nat) : io (CW (UH:=unit)) ClientError.t (option MessageResult) :=
  m ← take_spawned;
  match m with
  | Some m => mret (Some m)
  | None =>
      match k with
      | O => mret None
      | S k => turned ← task_turn; if (turned : bool) then next_message k else mret None
      end
  end.

#[export] Instance pool_api : ClientApi Pool Handle := {
  api_connect := pool_connect;
  api_close h := on_client h (Client_close turns);
  api_connection_properties h := on_client h Client_connection_properties;
  api_filtering_supported h := filtering_supported h.2;
  api_set_handler h := on_client h (Client_set_handler tt);
  api_message h := on_client h (next_message turns);
  api_metadata h streams := on_client h (metadata turns streams);
  api_subscribe h id stream offset n properties :=
    on_client h (subscribe turns id stream offset n properties);
  api_unsubscribe h id := on_client h (unsubscribe turns id);
  api_credit h id n := on_client h (credit id n);
  api_store_offset h reference stream offset := on_client h (store_offset reference stream offset);
  api_query_offset h reference stream := on_client h (query_offset turns reference stream);
  api_declare_publisher h id reference stream :=
    on_client h (declare_publisher turns id reference stream);
  api_delete_publisher h id := on_client h (delete_publisher turns id);
  api_publish h id messages version := on_client h (publish id messages version);
  api_query_publisher_sequence h reference stream :=
    on_client h (query_publisher_sequence turns reference stream);
  api_create_stream h stream options := on_client h (create_stream turns stream options);
  api_create_super_stream h s ps ks options :=
    on_client h (create_super_stream turns s ps ks options);
  api_delete_stream h stream := on_client h (delete_stream turns stream);
  api_delete_super_stream h s := on_client h (delete_super_stream turns s);
  api_partitions h s := on_client h (partitions turns s);
  api_route h key s := on_client h (route turns key s);
  api_consumer_update h cid offset := on_client h (consumer_update turns cid offset);
}.

(** ** Laws *)

Definition pool_put (i : nat) (w : CW (UH:=unit)) (p : Pool) : Pool :=
  {| pool_clients := <[i := w]> (pool_clients p); pool_now := pool_now p |}.

Lemma on_client_returns {A} i c (m : io (CW (UH:=unit)) ClientError.t A) p w w' a :
  pool_clients p !! i = Some w -> m w = Returns w' a ->
  on_client (i, c) m p = Returns (pool_put i w' p) a /\
  pool_clients (pool_put i w' p) !! i = Some w'.
Proof.
  intros Hi Hm. unfold on_client. cbn. rewrite Hi, Hm. split; [done|].
  apply list_lookup_insert_eq. by eapply lookup_lt_Some.
Qed.

(** A call works on its own connection, however it ends. *)
Lemma on_client_others {A} h (m : io (CW (UH:=unit)) ClientError.t A) p j :
  j <> h.1 -> pool_clients (outcome_state (on_client h m p)) !! j = pool_clients p !! j.
Proof.
  intros Hj. unfold on_client. destruct (pool_clients p !! h.1) as [w|]; [|done].
  by destruct (m w); cbn; apply list_lookup_insert_ne.
Qed.

(** What is published through a handle, as one command of the connection. *)
Definition publish_request (producer_id version : Z) (messages : list ClientMessage) : Request :=
  Request_from (publish.PublishCommand_new producer_id
    (map (λ m, PublishedMessage_new (cm_publishing_id m) (cm_message m) (cm_filter_value m))
         messages) version).

Lemma assign_own_ids n ids : assign_ids n (map Some ids) = (ids, n).
Proof. induction ids as [|i ids IH]; cbn; [done|]. by rewrite IH. Qed.

Lemma published_own (ms : list ClientMessage) :
  zip_with published (map cm_publishing_id ms) ms =
  map (λ m, PublishedMessage_new (cm_publishing_id m) (cm_message m) (cm_filter_value m)) ms.
Proof. induction ms as [|m ms IH]; cbn; [done|]. by rewrite IH. Qed.

Lemma api_publish_ok i h c n s p w id ms version k items :
  pool_clients p !! i = Some w -> ready c n s w ->
  conn_send (publish_request id version ms) (connection s) = (k, Ok items) ->
  ∃ w', api_publish (i, h) id ms version p =
      Returns (pool_put i w' p) (map cm_publishing_id ms) /\
    pool_clients (pool_put i w' p) !! i = Some w' /\
    ready c n (add_collected (len ms) (receive_items items (set_connection k s))) w'.
Proof.
  intros Hi Hw Hsend.
  pose proof (publish_ok id ms version c n s w k items) as Hp.
  assert (Hids : map base_publishing_id ms = map Some (map cm_publishing_id ms))
    by (by rewrite map_map).
  rewrite Hids, assign_own_ids, published_own in Hp.
  destruct (Hp Hw Hsend) as (w' & Hpub & Hw'). exists w'.
  destruct (on_client_returns i h _ _ _ _ _ Hi Hpub) as [E Hl].
  split; [exact E|]. split; [exact Hl|].
  by destruct s.
Qed.

(** The same by what it does to the connection. *)
Lemma api_publish_sends i h c n s p w id ms version k items :
  pool_clients p !! i = Some w -> ready c n s w ->
  conn_send (publish_request id version ms) (connection s) = (k, Ok items) ->
  ∃ p' w' s',
    api_publish (i, h) id ms version p = Returns p' (map cm_publishing_id ms) /\
    pool_clients p' !! i = Some w' /\ ready c n s' w' /\ connection s' = k.
Proof.
  intros Hi Hw Hsend.
  destruct (api_publish_ok i h c n s p w id ms version k items Hi Hw Hsend) as (w' & E & Hi' & Hw').
  do 3 eexists. split; [exact E|]. split; [exact Hi'|]. split; [exact Hw'|].
  unfold receive_items. by destruct (task_running _).
Qed.

(** Sending a credit. *)
Lemma api_credit_sends i h c n s p w id k credits items :
  pool_clients p !! i = Some w -> ready c n s w ->
  conn_send (Request_from (credit.CreditCommand_new id credits)) (connection s) = (k, Ok items) ->
  ∃ p' w',
    api_credit (i, h) id credits p = Returns p' tt /\
    pool_clients p' !! i = Some w' /\ ready c n (receive_items items (set_connection k s)) w'.
Proof.
  intros Hi Hw Hsend. destruct (ChannelSender_send_ok _ _ _ _ _ _ _ Hw Hsend) as (w' & E & Hw' & _).
  destruct (on_client_returns i h _ _ _ _ _ Hi E) as [E' Hl]. by exists (pool_put i w' p), w'.
Qed.

(** A response for the handler of the application: neither an answer nor of the
    connection itself. *)
Definition for_handler (r : Response) : Prop :=
  Response_correlation_id r = None /\
  match kind r with ResponseKind_Tunes _ | ResponseKind_Heartbeat _ => False | _ => True end.

(** The task reads it and spawns the handler. *)
Lemma task_turn_notify c n (s : Shared) w r items :
  ready c n s w -> incoming s = Some (Ok r) :: items -> state_handler (state s) = Some tt ->
  for_handler r ->
  ∃ w', task_turn w = Returns w' true /\
    ready c n (add_spawned tt (Some (Ok r)) (set_incoming items s)) w'.
Proof.
  intros Hw Hin Hh [Hc Hk]. unfold task_turn. rewrite (ready_shared _ _ _ _ Hw), Hin. cbn [task_item].
  set (w1 := on_shared (set_incoming items) w).
  assert (Hw1 : ready c n (set_incoming items s) w1) by by apply ready_shared_map.
  set (w2 := on_shared (add_spawned tt (Some (Ok r))) w1).
  assert (Hn : notify (E:=ClientError.t) r w1 = Returns w2 tt).
  { unfold notify. rewrite (io_bind_returns _ _ w1 w1 (Some c)) by (unfold gets; by rewrite (ready_handler _ _ _ _ Hw1)).
    apply (ignore_returns _ _ _ tt). unfold handle_message, Client_handler.
    destruct (kind r) eqn:Ek; try done; rewrite spawn_handler_eq;
      unfold w2; rewrite (ready_shared _ _ _ _ Hw1); cbn; by rewrite Hh. }
  rewrite (io_bind_returns _ _ w1 w2 true).
  - exists w2. split; [done|by apply ready_shared_map].
  - cbn [handle_item]. rewrite Hc. by rewrite (io_bind_returns _ _ _ _ _ Hn).
Qed.

(** What the handler of a client is given next. *)
Lemma next_message_reads c n (s : Shared) w r items t :
  ready c n s w -> incoming s = Some (Ok r) :: items -> state_handler (state s) = Some tt ->
  spawned s = [] -> for_handler r ->
  ∃ w', next_message (S t) w = Returns w' (Some (Some (Ok r))) /\ ready c n (set_incoming items s) w'.
Proof.
  intros Hw Hin Hh Hsp Hr. destruct (task_turn_notify c n s w r items Hw Hin Hh Hr) as (w1 & E1 & Hw1).
  cbn [next_message].
  rewrite (io_bind_returns _ _ w w None) by (unfold take_spawned; by rewrite (ready_shared _ _ _ _ Hw), Hsp).
  rewrite (io_bind_returns _ _ _ _ _ E1).
  set (s1 := add_spawned tt (Some (Ok r)) (set_incoming items s)) in *.
  assert (E2 : ∃ w2, take_spawned w1 = Returns w2 (Some (Some (Ok r))) /\
                     ready c n (set_incoming items s) w2).
  { unfold take_spawned. rewrite (ready_shared _ _ _ _ Hw1). cbn. rewrite Hsp. cbn.
    eexists. split; [reflexivity|]. destruct Hw1 as [Ho Hi Hha Hs Hp]. split; try done. cbn.
    rewrite Hs. destruct s. cbn in *. by rewrite Hsp. }
  destruct E2 as (w2 & E2 & Hw2). exists w2. split; [|exact Hw2].
  destruct t; cbn [next_message]; by rewrite (io_bind_returns _ _ _ _ _ E2).
Qed.

Lemma api_message_reads i h c n s p w r items t :
  turns = S t -> pool_clients p !! i = Some w -> ready c n s w ->
  incoming s = Some (Ok r) :: items -> state_handler (state s) = Some tt ->
  spawned s = [] -> for_handler r ->
  ∃ p' w', api_message (i, h) p = Returns p' (Some (Some (Ok r))) /\
    pool_clients p' !! i = Some w' /\ ready c n (set_incoming items s) w'.
Proof.
  intros Ht Hi Hw Hin Hh Hsp Hr.
  destruct (next_message_reads c n s w r items t Hw Hin Hh Hsp Hr) as (w' & E & Hw').
  destruct (on_client_returns i h _ _ _ _ _ Hi E) as [E' Hl]. exists (pool_put i w' p), w'.
  split; [|by split]. cbn [api_message pool_api]. by rewrite Ht.
Qed.

(** A connection of the pool on which nothing is under way. *)
Record idle (p : Pool) (i : nat) (c : Client) (n : Z) (s : Shared) : Prop := {
  idle_client : ∃ w, pool_clients p !! i = Some w /\ ready c n s w;
  idle_task : task_running s = true;
  idle_incoming : incoming s = [];
  idle_spawned : spawned s = [];
}.

Lemma api_set_handler_ok i h c n s p :
  idle p i c n s -> ∃ p', api_set_handler (i, h) p = Returns p' tt /\
    idle p' i c n (on_state (set_state_handler tt) s).
Proof.
  intros [(w & Hi & Hw) Ht Hin Hsp].
  destruct (on_client_returns i h (Client_set_handler (E:=ClientError.t) tt) p w _ tt Hi eq_refl) as [E Hl].
  exists (pool_put i (on_shared (on_state (set_state_handler tt)) w) p). split; [exact E|].
  split; [|done..]. eexists. split; [exact Hl|by apply ready_shared_map].
Qed.

(** A call whose answer is the first thing that comes; what comes behind it stays. *)
Lemma api_answered {T R} `{!FromResponse T, !Command R, !IntoRequestKind R} (f : Z -> R)
    j i h c n s p k r items (a : T) :
  turns = S j -> idle p i c n s ->
  conn_send (Request_from (f n)) (connection s) = (k, Ok (Some (Ok r) :: items)) ->
  Response_correlation_id r = Some n -> is_consumer_update r = false -> Response_get r = Some a ->
  ∃ p' w', on_client (i, h) (send_and_receive turns (T:=T) f) p = Returns p' a /\
    pool_clients p' !! i = Some w' /\
    ready c ((n + 1) mod 2 ^ 32) (set_incoming items (set_connection k s)) w'.
Proof.
  intros Ht [(w & Hi & Hw) Hrun Hin Hsp] Hsend Hr Hcu Ha.
  destruct (send_and_receive_reply turns (T:=T) f j c n s w k r items Hw Ht Hrun Hin Hsend Hr Hcu)
    as (w' & Hw' & E). rewrite Ha in E.
  destruct (on_client_returns i h _ _ _ _ _ Hi E) as [E' Hl]. by exists (pool_put i w' p), w'.
Qed.

End pool.
