(* ===== verification/Errors.v ===== *)
(** * The errors of the public API

    src/error.rs.  Each enum that wraps a [ClientError] is built from one with
    [From]: the constructor [Client]. *)
From S2P Require Import Prelude Utf8 HashMaps Integers Codec Protocol.
From S2P Require Import Session Streams Producing Consuming.
From S2P Require Import AmqpCodes AmqpSimple AmqpValue AmqpMessage Messages Request Response.
From S2P Require Import ClientCodec.

Module ConsumerStoreOffsetError.
Inductive t := NameMissing | Client (e : ClientError.t).
End ConsumerStoreOffsetError.

Module StreamCreateError.
Inductive t := Create (stream : bytes) (status : ResponseCode) | Client (e : ClientError.t).
End StreamCreateError.

Module StreamDeleteError.
Inductive t := Delete (stream : bytes) (status : ResponseCode) | Client (e : ClientError.t).
End StreamDeleteError.

Module ProducerCreateError.
Inductive t :=
  | Create (stream : bytes) (status : ResponseCode)
  | StreamDoesNotExist (stream : bytes)
  | Client (e : ClientError.t)
  | FilteringNotSupport.
End ProducerCreateError.

Module ProducerPublishError.
Inductive t :=
  | Create (stream : bytes) (publisher_id : Z) (status : ResponseCode)
  | Batch (stream : bytes)
  | Closed
  | Confirmation (stream : bytes)
  | Client (e : ClientError.t).
End ProducerPublishError.

Module SuperStreamProducerPublishError.
Inductive t := ProducerPublishError | ProducerCreateError.
End SuperStreamProducerPublishError.

(** [From<ProducerPublishError>] and [From<ProducerCreateError>]. *)
Definition super_stream_error_of_publish (_ : ProducerPublishError.t) :
    SuperStreamProducerPublishError.t := SuperStreamProducerPublishError.ProducerPublishError.
Definition super_stream_error_of_create (_ : ProducerCreateError.t) :
    SuperStreamProducerPublishError.t := SuperStreamProducerPublishError.ProducerCreateError.

Module ProducerCloseError.
Inductive t :=
  | Close (stream : bytes) (status : ResponseCode)
  | AlreadyClosed
  | Client (e : ClientError.t).
End ProducerCloseError.

Module ConsumerCreateError.
Inductive t :=
  | Create (stream : bytes) (status : ResponseCode)
  | StreamDoesNotExist (stream : bytes)
  | Client (e : ClientError.t)
  | FilteringNotSupport
  | SingleActiveConsumerNotSupported.
End ConsumerCreateError.

Module ConsumerDeliveryError.
Inductive t :=
  | Credit (stream : bytes) (status : ResponseCode)
  | Client (e : ClientError.t).
End ConsumerDeliveryError.

Module ConsumerCloseError.
Inductive t :=
  | Close (stream : bytes) (status : ResponseCode)
  | AlreadyClosed
  | Client (e : ClientError.t).
End ConsumerCloseError.
