(* ===== verification/Environment.v ===== *)
(** * Environments and the creation of streams

    src/environment.rs, src/stream_creator.rs, over the client interface. *)
From S2P Require Import Prelude Utf8 HashMaps Integers Codec Protocol.
From S2P Require Import Session Streams Producing Consuming.
From S2P Require Import AmqpCodes AmqpSimple AmqpValue AmqpMessage Messages Request Response.
From S2P Require Import ClientCodec Effects Dispatcher Options Client ClientApi Errors.

(** rand: [choose] picks an element of a slice, when there is one. *)
Class Random := {
  choose {A} : list A -> option A;
  choose_in {A} (l : list A) a : choose l = Some a -> a ∈ l;
  choose_none {A} (l : list A) : choose l = None <-> l = [];
}.

#[global] Instance first_choice : Random.
Proof.
  refine {| choose := λ A l, head l |}.
  - intros A [|b l] a; [done|]. intros [= ->]. by left.
  - intros A [|b l]; by split.
Defined.

(** ** src/environment.rs *)

Record EnvironmentOptions := { client_options : ClientOptions }.
Record Environment := { options : EnvironmentOptions }.

Definition EnvironmentOptions_default : EnvironmentOptions :=
  {| client_options := ClientOptions_default |}.
Definition Environment_builder : EnvironmentOptions := EnvironmentOptions_default.

(** The setters of [EnvironmentBuilder] change one field of the client options. *)
Definition EnvironmentBuilder_with (f : ClientOptions -> ClientOptions) (b : EnvironmentOptions) :
    EnvironmentOptions := {| client_options := f (client_options b) |}.

(** [x as u16] *)
Definition as_u16 (x : Z) : Z := x mod 2 ^ 16.

Section environment.
Context {X : AmqpExt} {RD : Random} {St C : Type} {API : ClientApi St C}.
Context (attempts : nat).

Definition producer_client {A} (m : io St ClientError.t A) : io St ProducerCreateError.t A :=
  map_throws ProducerCreateError.Client m.
Definition consumer_client {A} (m : io St ClientError.t A) : io St ConsumerCreateError.t A :=
  map_throws ConsumerCreateError.Client m.

(** [Environment::boostrap] *)
Definition boostrap (o : EnvironmentOptions) : io St ClientError.t Environment :=
  client ← api_connect (client_options o);
  api_close client;;
  mret {| options := o |}.

(** The loop of the load balancer mode: connect until the node on the other side
    is the one wanted.  The code has no bound; [attempts] is the model's. *)
Fixpoint find_node (attempts : nat) (o : ClientOptions) (wanted : bytes) :
    io St ClientError.t C :=
  match attempts with
  | O => crash OutOfFuel
  | S attempts =>
      temp_client ← api_connect o;
      mapping ← api_connection_properties temp_client;
      if bool_decide (hm_get key_eqb (str "advertised_host") mapping = Some wanted)
      then mret temp_client
      else api_close temp_client;; find_node attempts o wanted
  end.

Definition create_producer_client (env : Environment) (stream name : bytes) :
    io St ProducerCreateError.t C :=
  let opts := client_options (options env) in
  let opt_with_client_provided_name := with_client_provided_name name opts in
  client ← producer_client (api_connect opt_with_client_provided_name);
  streams ← producer_client (api_metadata client [stream]);
  match hm_get key_eqb stream streams with
  | Some md =>
      if load_balancer_mode opts
      then
        temp_client ← producer_client (find_node attempts opts (broker_host (leader md)));
        producer_client (api_close client);;
        mret temp_client
      else
        producer_client (api_close client);;
        producer_client (api_connect
          (with_host (broker_host (leader md))
            (with_port (as_u16 (broker_port (leader md))) opt_with_client_provided_name)))
  | None => throw (ProducerCreateError.StreamDoesNotExist stream)
  end.

Definition create_consumer_client (env : Environment) (stream name : bytes) :
    io St ConsumerCreateError.t C :=
  let opts := client_options (options env) in
  let opt_with_client_provided_name := with_client_provided_name name opts in
  client ← consumer_client (api_connect opt_with_client_provided_name);
  streams ← consumer_client (api_metadata client [stream]);
  match hm_get key_eqb stream streams with
  | Some md =>
      match choose (replicas md) with
      | Some replica =>
          if load_balancer_mode opts
          then
            temp_client ← consumer_client (find_node attempts opts (broker_host replica));
            consumer_client (api_close client);;
            mret temp_client
          else
            consumer_client (api_close client);;
            consumer_client (api_connect
              (with_host (broker_host replica) (with_port (as_u16 (broker_port replica)) opts)))
      | None => mret client
      end
  | None => throw (ConsumerCreateError.StreamDoesNotExist stream)
  end.

Definition create_client (env : Environment) : io St ClientError.t C :=
  api_connect (client_options (options env)).

Definition env_delete_stream (env : Environment) (stream : bytes) :
    io St StreamDeleteError.t unit :=
  client ← map_throws StreamDeleteError.Client (create_client env);
  response ← map_throws StreamDeleteError.Client (api_delete_stream client stream);
  map_throws StreamDeleteError.Client (api_close client);;
  if generic.GenericResponse_is_ok response then mret tt
  else throw (StreamDeleteError.Delete stream (generic.code response)).

Definition env_delete_super_stream (env : Environment) (super_stream : bytes) :
    io St StreamDeleteError.t unit :=
  client ← map_throws StreamDeleteError.Client (create_client env);
  response ← map_throws StreamDeleteError.Client (api_delete_super_stream client super_stream);
  map_throws StreamDeleteError.Client (api_close client);;
  if generic.GenericResponse_is_ok response then mret tt
  else throw (StreamDeleteError.Delete super_stream (generic.code response)).

(** ** src/stream_creator.rs *)

Record StreamCreator := { sc_env : Environment; sc_options : list (bytes * bytes) }.

Inductive LeaderLocator := ClientLocal | Random_ | LeastLeaders.

Definition LeaderLocator_as_ref (l : LeaderLocator) : bytes :=
  match l with
  | ClientLocal => str "client-local"
  | Random_ => str "random"
  | LeastLeaders => str "least-leaders"
  end.

Definition sc_insert (k v : bytes) (sc : StreamCreator) : StreamCreator :=
  {| sc_env := sc_env sc; sc_options := hm_insert key_eqb k v (sc_options sc) |}.

(** [Duration::as_secs] of [max_age] is the argument. *)
Definition max_age (secs : Z) : StreamCreator -> StreamCreator :=
  sc_insert (str "max-age") (to_string secs ++ str "s").
Definition leader_locator (l : LeaderLocator) : StreamCreator -> StreamCreator :=
  sc_insert (str "queue-leader-locator") (LeaderLocator_as_ref l).
Definition max_length {E} (overflow_checks : bool) (c : ByteCapacity) (sc : StreamCreator) :
    result E StreamCreator :=
  n ← ByteCapacity_bytes overflow_checks c;
  mret (sc_insert (str "max-length-bytes") (to_string n) sc).
Definition max_segment_size {E} (overflow_checks : bool) (c : ByteCapacity) (sc : StreamCreator) :
    result E StreamCreator :=
  n ← ByteCapacity_bytes overflow_checks c;
  mret (sc_insert (str "stream-max-segment-size-bytes") (to_string n) sc).

Definition StreamCreator_new (env : Environment) : StreamCreator :=
  leader_locator LeastLeaders {| sc_env := env; sc_options := [] |}.

Definition create (sc : StreamCreator) (stream : bytes) : io St StreamCreateError.t unit :=
  client ← map_throws StreamCreateError.Client (create_client (sc_env sc));
  response ← map_throws StreamCreateError.Client (api_create_stream client stream (sc_options sc));
  map_throws StreamCreateError.Client (api_close client);;
  if generic.GenericResponse_is_ok response then mret tt
  else throw (StreamCreateError.Create stream (generic.code response)).

(** The names of the partitions and their binding keys. *)
Definition partition_names (super_stream : bytes) (number_of_partitions : nat)
    (binding_keys : option (list bytes)) : list bytes * list bytes :=
  match binding_keys with
  | None =>
      let keys := map (λ i, to_string (Z.of_nat i)) (seq 0 number_of_partitions) in
      (map (λ k, super_stream ++ str "-" ++ k) keys, keys)
  | Some keys => (map (λ k, super_stream ++ str "-" ++ k) keys, keys)
  end.

Definition sc_create_super_stream (sc : StreamCreator) (super_stream : bytes)
    (number_of_partitions : nat) (binding_keys : option (list bytes)) :
    io St StreamCreateError.t unit :=
  let '(partitions_names, keys) :=
    partition_names super_stream number_of_partitions binding_keys in
  client ← map_throws StreamCreateError.Client (create_client (sc_env sc));
  response ← map_throws StreamCreateError.Client
    (api_create_super_stream client super_stream partitions_names keys (sc_options sc));
  map_throws StreamCreateError.Client (api_close client);;
  if generic.GenericResponse_is_ok response then mret tt
  else throw (StreamCreateError.Create super_stream (generic.code response)).

(** ** Laws *)

Lemma producer_client_returns {A} (m : io St ClientError.t A) s s' a :
  m s = Returns s' a -> producer_client m s = Returns s' a.
Proof. unfold producer_client, map_throws. by intros ->. Qed.
Lemma consumer_client_returns {A} (m : io St ClientError.t A) s s' a :
  m s = Returns s' a -> consumer_client m s = Returns s' a.
Proof. unfold consumer_client, map_throws. by intros ->. Qed.

(** A node found through the load balancer is the one wanted. *)
Lemma find_node_found k o wanted s s' c :
  find_node k o wanted s = Returns s' c -> ∃ s0 s1 mapping,
    api_connect o s0 = Returns s1 c /\ api_connection_properties c s1 = Returns s' mapping /\
    hm_get key_eqb (str "advertised_host") mapping = Some wanted.
Proof.
  revert s. induction k as [|k IH]; intros s H; [done|]. cbn in H.
  apply io_bind_returns_inv in H as (s1 & c1 & H1 & H).
  apply io_bind_returns_inv in H as (s2 & mapping & H2 & H).
  case_bool_decide as Hm.
  - injection H as <- <-. by exists s, s1, mapping.
  - apply io_bind_returns_inv in H as (s3 & [] & _ & H). by apply (IH s3).
Qed.

(** Outside the load balancer mode a producer ends on the leader of its stream,
    connected with its own name. *)
Lemma create_producer_client_leader env stream name s s1 c1 s2 streams md s3 :
  let o := client_options (options env) in
  load_balancer_mode o = false ->
  api_connect (with_client_provided_name name o) s = Returns s1 c1 ->
  api_metadata c1 [stream] s1 = Returns s2 streams ->
  hm_get key_eqb stream streams = Some md ->
  api_close c1 s2 = Returns s3 tt ->
  create_producer_client env stream name s =
    producer_client (api_connect
      (with_host (broker_host (leader md)) (with_port (as_u16 (broker_port (leader md)))
        (with_client_provided_name name o)))) s3.
Proof.
  intros o Hlb Hc Hm Hmd Hcl. unfold create_producer_client.
  rewrite (io_bind_returns _ _ _ _ _ (producer_client_returns _ _ _ _ Hc)).
  rewrite (io_bind_returns _ _ _ _ _ (producer_client_returns _ _ _ _ Hm)).
  rewrite Hmd. fold o. rewrite Hlb.
  by rewrite (io_bind_returns _ _ _ _ _ (producer_client_returns _ _ _ _ Hcl)).
Qed.

(** A stream the server does not know: the connection opened to ask stays open. *)
Lemma create_producer_client_missing env stream name s s1 c1 s2 streams :
  api_connect (with_client_provided_name name (client_options (options env))) s = Returns s1 c1 ->
  api_metadata c1 [stream] s1 = Returns s2 streams ->
  hm_get key_eqb stream streams = None ->
  create_producer_client env stream name s =
    Throws s2 (ProducerCreateError.StreamDoesNotExist stream).
Proof.
  intros Hc Hm Hmd. unfold create_producer_client.
  rewrite (io_bind_returns _ _ _ _ _ (producer_client_returns _ _ _ _ Hc)).
  rewrite (io_bind_returns _ _ _ _ _ (producer_client_returns _ _ _ _ Hm)).
  by rewrite Hmd.
Qed.

(** A consumer ends on a replica of its stream, connected with the name of the
    environment. *)
Lemma create_consumer_client_replica env stream name s s1 c1 s2 streams md replica s3 :
  let o := client_options (options env) in
  load_balancer_mode o = false ->
  api_connect (with_client_provided_name name o) s = Returns s1 c1 ->
  api_metadata c1 [stream] s1 = Returns s2 streams ->
  hm_get key_eqb stream streams = Some md ->
  choose (replicas md) = Some replica ->
  api_close c1 s2 = Returns s3 tt ->
  create_consumer_client env stream name s =
    consumer_client (api_connect
      (with_host (broker_host replica) (with_port (as_u16 (broker_port replica)) o))) s3.
Proof.
  intros o Hlb Hc Hm Hmd Hr Hcl. unfold create_consumer_client.
  rewrite (io_bind_returns _ _ _ _ _ (consumer_client_returns _ _ _ _ Hc)).
  rewrite (io_bind_returns _ _ _ _ _ (consumer_client_returns _ _ _ _ Hm)).
  rewrite Hmd, Hr. fold o. rewrite Hlb.
  by rewrite (io_bind_returns _ _ _ _ _ (consumer_client_returns _ _ _ _ Hcl)).
Qed.

(** Without replicas it stays where it asked. *)
Lemma create_consumer_client_alone env stream name s s1 c1 s2 streams md :
  api_connect (with_client_provided_name name (client_options (options env))) s = Returns s1 c1 ->
  api_metadata c1 [stream] s1 = Returns s2 streams ->
  hm_get key_eqb stream streams = Some md -> replicas md = [] ->
  create_consumer_client env stream name s = Returns s2 c1.
Proof.
  intros Hc Hm Hmd Hr. unfold create_consumer_client.
  rewrite (io_bind_returns _ _ _ _ _ (consumer_client_returns _ _ _ _ Hc)).
  rewrite (io_bind_returns _ _ _ _ _ (consumer_client_returns _ _ _ _ Hm)).
  rewrite Hmd, Hr. by rewrite (proj2 (choose_none [])).
Qed.

Lemma producer_client_inv {A} (m : io St ClientError.t A) s s' a :
  producer_client m s = Returns s' a -> m s = Returns s' a.
Proof. unfold producer_client, map_throws. destruct (m s); [by intros [= <- <-]|done..]. Qed.
Lemma consumer_client_inv {A} (m : io St ClientError.t A) s s' a :
  consumer_client m s = Returns s' a -> m s = Returns s' a.
Proof. unfold consumer_client, map_throws. destruct (m s); [by intros [= <- <-]|done..]. Qed.

(** How the connection [c] to the node [b] was opened: with the address of the
    node, or through the load balancer until it was that node. *)
Inductive connected_to (lb : bool) (asked o : ClientOptions) (b : ClientBroker) (s' : St) (c : C) : Prop :=
  | Direct s :
      lb = false ->
      api_connect (with_host (broker_host b) (with_port (as_u16 (broker_port b)) o)) s =
        Returns s' c -> connected_to lb asked o b s' c
  | Balanced s0 s1 s2 mapping :
      lb = true -> api_connect asked s0 = Returns s1 c ->
      api_connection_properties c s1 = Returns s2 mapping ->
      hm_get key_eqb (str "advertised_host") mapping = Some (broker_host b) ->
      connected_to lb asked o b s' c.

(** Whenever a producer gets a connection, it is one to the leader of its stream. *)
Lemma create_producer_client_inv env stream name s s' c :
  let o := client_options (options env) in
  create_producer_client env stream name s = Returns s' c -> ∃ s1 c1 s2 streams md,
    api_connect (with_client_provided_name name o) s = Returns s1 c1 /\
    api_metadata c1 [stream] s1 = Returns s2 streams /\
    hm_get key_eqb stream streams = Some md /\
    connected_to (load_balancer_mode o) o (with_client_provided_name name o) (leader md) s' c.
Proof.
  intros o H. unfold create_producer_client in H. fold o in H.
  apply io_bind_returns_inv in H as (s1 & c1 & H1%producer_client_inv & H).
  apply io_bind_returns_inv in H as (s2 & streams & H2%producer_client_inv & H).
  exists s1, c1, s2, streams. destruct (hm_get key_eqb stream streams) as [md|]; [|done].
  exists md. split; [done|]. split; [done|]. split; [done|].
  destruct (load_balancer_mode o) eqn:Elb.
  - apply io_bind_returns_inv in H as (s3 & c2 & H3%producer_client_inv & H).
    apply io_bind_returns_inv in H as (s4 & [] & _ & H). injection H as <- <-.
    apply find_node_found in H3 as (t0 & t1 & mapping & Hc & Hp & Hm).
    by eapply Balanced.
  - apply io_bind_returns_inv in H as (s3 & [] & _ & H%producer_client_inv). by eapply Direct.
Qed.

(** Whenever a consumer gets a connection, it is one to a replica of its stream,
    or, when there is no replica, the one that was opened to ask. *)
Lemma create_consumer_client_inv env stream name s s' c :
  let o := client_options (options env) in
  create_consumer_client env stream name s = Returns s' c -> ∃ s1 c1 s2 streams md,
    api_connect (with_client_provided_name name o) s = Returns s1 c1 /\
    api_metadata c1 [stream] s1 = Returns s2 streams /\
    hm_get key_eqb stream streams = Some md /\
    ((replicas md = [] /\ c = c1 /\ s' = s2) \/
     ∃ b, b ∈ replicas md /\ connected_to (load_balancer_mode o) o o b s' c).
Proof.
  intros o H. unfold create_consumer_client in H. fold o in H.
  apply io_bind_returns_inv in H as (s1 & c1 & H1%consumer_client_inv & H).
  apply io_bind_returns_inv in H as (s2 & streams & H2%consumer_client_inv & H).
  exists s1, c1, s2, streams. destruct (hm_get key_eqb stream streams) as [md|]; [|done].
  exists md. split; [done|]. split; [done|]. split; [done|].
  destruct (choose (replicas md)) as [b|] eqn:Eb.
  - right. exists b. split; [by apply choose_in|].
    destruct (load_balancer_mode o) eqn:Elb.
    + apply io_bind_returns_inv in H as (s3 & c2 & H3%consumer_client_inv & H).
      apply io_bind_returns_inv in H as (s4 & [] & _ & H). injection H as <- <-.
      apply find_node_found in H3 as (t0 & t1 & mapping & Hc & Hp & Hm).
      by eapply Balanced.
    + apply io_bind_returns_inv in H as (s3 & [] & _ & H%consumer_client_inv). by eapply Direct.
  - left. injection H as <- <-. split; [exact (proj1 (choose_none _) Eb)|done].
Qed.

(** The partitions of a super stream: one per key, all different when numbered. *)
Lemma partition_names_spec super_stream n keys :
  let '(names, ks) := partition_names super_stream n keys in
  names = map (λ k, super_stream ++ str "-" ++ k) ks /\
  ks = default (map (λ i, to_string (Z.of_nat i)) (seq 0 n)) keys.
Proof. by destruct keys. Qed.

Lemma partition_names_distinct super_stream n :
  NoDup (partition_names super_stream n None).1 /\
  length (partition_names super_stream n None).1 = n.
Proof.
  cbn. rewrite !length_map, length_seq. split; [|done].
  apply (NoDup_fmap_2_strong (λ k, super_stream ++ str "-" ++ k)).
  - intros a b _ _ H. by apply app_inv_head, app_inv_head in H.
  - apply (NoDup_fmap_2_strong (λ i, to_string (Z.of_nat i))); [|apply NoDup_seq].
    intros a b _ _ H. apply to_string_inj in H; lia.
Qed.

End environment.
