(* ===== verification/Producer.v ===== *)
(** * Producers

    src/producer.rs, over the client interface.

    A producer numbers its messages, remembers a waiter for every message until
    the server confirms or refuses it, and collects messages in an accumulator
    that is sent when it is full or when a timer fires.

    [ProducerInternal] are the fields that never change, [PState] the ones behind
    atomics, the map and the channel.  A callback is a number: [called] lists the
    calls that were made, with what each was told.  The types [NoDedup] and
    [Dedup] only say which methods take [&mut self]. *)
From S2P Require Import Prelude Utf8 HashMaps Integers Codec Protocol.
From S2P Require Import Session Streams Producing Consuming.
From S2P Require Import AmqpCodes AmqpSimple AmqpValue AmqpMessage Messages Request Response.
From S2P Require Import ClientCodec Effects Dispatcher Options Client ClientApi Errors Environment.

Section producer.
Context {X : AmqpExt} {DM : DashMap} {MC : Mpsc} {RD : Random}.
Context {St C : Type} {API : ClientApi St C} (attempts : nat).

Record ConfirmationStatus := {
  cs_publishing_id : Z;
  confirmed : bool;
  status : ResponseCode;
  cs_message : Message;
}.

Record ProducerMessageWaiter := { cb : nat; msg : Message }.

(** ** MessageAccumulator

    [batch_size] is a [usize], 64 bits wide; [mpsc::channel(0)] panics. *)

Record MessageAccumulator := {
  acc_channel : mpsc ClientMessage;
  acc_capacity : Z;
  message_count : Z;
}.

Definition MessageAccumulator_new {S E} (batch_size : Z) : io S E MessageAccumulator :=
  if batch_size =? 0 then crash ExplicitPanic
  else mret {| acc_channel := mpsc_channel batch_size; acc_capacity := batch_size;
               message_count := 0 |}.

(** [self.sender.send(message)]: [None] when there is no room. *)
Definition acc_send (m : ClientMessage) (a : MessageAccumulator) : option MessageAccumulator :=
  if len (mpsc_buffer (acc_channel a)) <? mpsc_capacity (acc_channel a)
  then Some {| acc_channel := mpsc_send m (acc_channel a); acc_capacity := acc_capacity a;
               message_count := message_count a |}
  else None.

(** [message_count.fetch_add(1)], then [val + 1 == self.capacity]; the addition
    of the comparison is the one of the build: checked or wrapping. *)
Definition acc_count {E} (overflow_checks : bool) (a : MessageAccumulator) :
    MessageAccumulator * result E bool :=
  let val := message_count a in
  ({| acc_channel := acc_channel a; acc_capacity := acc_capacity a;
      message_count := (val + 1) mod 2 ^ 64 |},
   if overflow_checks && (2 ^ 64 <=? val + 1) then Panic ExplicitPanic
   else Ok ((val + 1) mod 2 ^ 64 =? acc_capacity a)).

(** The loop of [get]: [try_recv] until the batch is full or nothing is there. *)
Fixpoint acc_drain (n : nat) (c : mpsc ClientMessage) : mpsc ClientMessage * list ClientMessage :=
  match n with
  | O => (c, [])
  | Datatypes.S n =>
      match mpsc_recv c with
      | (Received m, c) => let '(c, l) := acc_drain n c in (c, m :: l)
      | (_, c) => (c, [])
      end
  end.

Definition acc_receive (batch_size : Z) (a : MessageAccumulator) :
    MessageAccumulator * list ClientMessage :=
  let '(c, l) := acc_drain (Z.to_nat batch_size) (acc_channel a) in
  ({| acc_channel := c; acc_capacity := acc_capacity a; message_count := message_count a |}, l).

(** [message_count.fetch_sub(messages.len())] *)
Definition acc_discount (n : Z) (a : MessageAccumulator) : MessageAccumulator :=
  {| acc_channel := acc_channel a; acc_capacity := acc_capacity a;
     message_count := (message_count a - n) mod 2 ^ 64 |}.

Definition MessageAccumulator_get (batch_size : Z) (a : MessageAccumulator) :
    MessageAccumulator * list ClientMessage :=
  let '(a, l) := acc_receive batch_size a in (acc_discount (len l) a, l).

(** ** State *)

Record ProducerInternal := {
  client : C;
  p_stream : bytes;
  producer_id : Z;
  p_batch_size : Z;
  publish_version : Z;
  p_filter_value_extractor : option (Message -> bytes);
}.

Record PState := {
  p_publish_sequence : Z;
  waiting_confirmations : dashmap ProducerMessageWaiter;
  p_closed : bool;
  accumulator : MessageAccumulator;
  next_cb : nat;
  called : list (nat * result ProducerPublishError.t ConfirmationStatus);
  p_collected : list Z;
}.

(** The state of the connections and the state of one producer. *)
Record PW := { base : St; pstate : PState }.

Definition set_base (s : St) (w : PW) : PW := {| base := s; pstate := pstate w |}.
Definition on_pstate (f : PState -> PState) (w : PW) : PW :=
  {| base := base w; pstate := f (pstate w) |}.
Definition pmodify {E} (f : PState -> PState) : io PW E unit := modify (on_pstate f).
Definition pgets {E A} (f : PState -> A) : io PW E A := gets (λ w, f (pstate w)).

Definition set_sequence (z : Z) (p : PState) : PState :=
  {| p_publish_sequence := z; waiting_confirmations := waiting_confirmations p;
     p_closed := p_closed p; accumulator := accumulator p; next_cb := next_cb p;
     called := called p; p_collected := p_collected p |}.
Definition set_waiting (m : dashmap ProducerMessageWaiter) (p : PState) : PState :=
  {| p_publish_sequence := p_publish_sequence p; waiting_confirmations := m;
     p_closed := p_closed p; accumulator := accumulator p; next_cb := next_cb p;
     called := called p; p_collected := p_collected p |}.
Definition set_closed (p : PState) : PState :=
  {| p_publish_sequence := p_publish_sequence p;
     waiting_confirmations := waiting_confirmations p;
     p_closed := true; accumulator := accumulator p; next_cb := next_cb p;
     called := called p; p_collected := p_collected p |}.
Definition set_accumulator (a : MessageAccumulator) (p : PState) : PState :=
  {| p_publish_sequence := p_publish_sequence p;
     waiting_confirmations := waiting_confirmations p;
     p_closed := p_closed p; accumulator := a; next_cb := next_cb p;
     called := called p; p_collected := p_collected p |}.
Definition new_cb (p : PState) : PState :=
  {| p_publish_sequence := p_publish_sequence p;
     waiting_confirmations := waiting_confirmations p;
     p_closed := p_closed p; accumulator := accumulator p; next_cb := Datatypes.S (next_cb p);
     called := called p; p_collected := p_collected p |}.
Definition add_call (k : nat) (r : result ProducerPublishError.t ConfirmationStatus)
    (p : PState) : PState :=
  {| p_publish_sequence := p_publish_sequence p;
     waiting_confirmations := waiting_confirmations p;
     p_closed := p_closed p; accumulator := accumulator p; next_cb := next_cb p;
     called := called p ++ [(k, r)]; p_collected := p_collected p |}.
Definition collect_confirms (n : Z) (p : PState) : PState :=
  {| p_publish_sequence := p_publish_sequence p;
     waiting_confirmations := waiting_confirmations p;
     p_closed := p_closed p; accumulator := accumulator p; next_cb := next_cb p;
     called := called p; p_collected := p_collected p ++ [n] |}.

(** A call of the client. *)
Definition on_base {A} (m : io St ClientError.t A) : io PW ClientError.t A :=
  zoom base set_base m.
Definition client_call {A} (m : io St ClientError.t A) : io PW ProducerPublishError.t A :=
  map_throws ProducerPublishError.Client (on_base m).

(** ** ProducerConfirmHandler *)

Definition handle_confirm (publishing_id : Z) (w : ProducerMessageWaiter) : PState -> PState :=
  add_call (cb w) (Ok {| cs_publishing_id := publishing_id; confirmed := true;
                         status := ResponseCode_Ok; cs_message := msg w |}).

Definition handle_error (publishing_id : Z) (code : ResponseCode) (w : ProducerMessageWaiter) :
    PState -> PState :=
  add_call (cb w) (Ok {| cs_publishing_id := publishing_id; confirmed := false;
                         status := code; cs_message := msg w |}).

(** [todo!()] when the id is unknown. *)
Definition with_waiter {E} (publishing_id : Z) (k : ProducerMessageWaiter -> PState -> PState) :
    io PW E unit :=
  waiting ← pgets waiting_confirmations;
  match dm_get publishing_id waiting with
  | Some w =>
      pmodify (set_waiting (dm_remove publishing_id waiting));;
      pmodify (k w)
  | None => crash ExplicitPanic
  end.

Definition confirm_handler {E} (item : MessageResult) : io PW E unit :=
  match item with
  | Some (Ok response) =>
      match kind response with
      | ResponseKind_PublishConfirm confirm =>
          each (λ id, with_waiter id (handle_confirm id)) (publish_confirm.publishing_ids confirm);;
          pmodify (collect_confirms (len (publish_confirm.publishing_ids confirm)))
      | ResponseKind_PublishError error =>
          each (λ err, with_waiter (PublishingErrors.publishing_id err)
                         (handle_error (PublishingErrors.publishing_id err)
                                       (PublishingErrors.error_code err)))
               (publish_error.publishing_errors error)
      | _ => mret tt
      end
  | _ => mret tt
  end.

(** ** Sending *)

Section sending.
Context (overflow_checks : bool) (p : ProducerInternal).

(** [ProducerInternal::batch_send]; the timer of [schedule_batch_send] calls it
    again and again and drops its errors: [batch_tick]. *)
Definition p_batch_send : io PW ProducerPublishError.t unit :=
  acc ← pgets accumulator;
  let '(acc, messages) := MessageAccumulator_get (p_batch_size p) acc in
  pmodify (set_accumulator acc);;
  match messages with
  | [] => mret tt
  | _ => client_call (api_publish (client p) (producer_id p) messages (publish_version p));;
         mret tt
  end.

Definition batch_tick {E} : io PW E unit := ignore p_batch_send.

(** [self.sender.send(message).await] of [add]: while there is no room the timer
    goes on, and its next tick takes all that is queued. *)
Definition accumulator_push (m : ClientMessage) : io PW ProducerPublishError.t unit :=
  acc ← pgets accumulator;
  match acc_send m acc with
  | Some acc => pmodify (set_accumulator acc)
  | None =>
      batch_tick;;
      acc ← pgets accumulator;
      match acc_send m acc with
      | Some acc => pmodify (set_accumulator acc)
      | None => await_forever
      end
  end.

(** [self.accumulator.add(msg)]: does the caller send the batch? *)
Definition accumulator_add (m : ClientMessage) : io PW ProducerPublishError.t bool :=
  accumulator_push m;;
  acc ← pgets accumulator;
  let '(acc, full) := acc_count overflow_checks acc in
  pmodify (set_accumulator acc);;
  of_result full.

(** The id of the message, or the next of the sequence. *)
Definition publishing_id_of {E} (message : Message) : io PW E Z :=
  match AmqpMessage.publishing_id message with
  | Some id => mret id
  | None =>
      n ← pgets p_publish_sequence;
      pmodify (set_sequence ((n + 1) mod 2 ^ 64));;
      mret n
  end.

Definition client_message (id : Z) (message : Message) : ClientMessage :=
  match p_filter_value_extractor p with
  | Some f => filter_value_extract f (ClientMessage_new id message None)
  | None => ClientMessage_new id message None
  end.

Definition add_waiter (id : Z) (w : ProducerMessageWaiter) (s : PState) : PState :=
  set_waiting (dm_insert id w (waiting_confirmations s)) s.

Definition internal_send (message : Message) (callback : nat) :
    io PW ProducerPublishError.t unit :=
  is_closed ← pgets p_closed;
  if (is_closed : bool) then throw ProducerPublishError.Closed
  else
    id ← publishing_id_of message;
    pmodify (add_waiter id {| cb := callback; msg := message |});;
    full ← accumulator_add (client_message id message);
    if (full : bool) then p_batch_send else mret tt.

Definition internal_batch_send (messages : list Message) (callback : nat) :
    io PW ProducerPublishError.t unit :=
  is_closed ← pgets p_closed;
  if (is_closed : bool) then throw ProducerPublishError.Closed
  else
    wrapped ← map_each (λ message,
      id ← publishing_id_of message;
      pmodify (add_waiter id {| cb := callback; msg := message |});;
      mret (client_message id message)) messages;
    client_call (api_publish (client p) (producer_id p) wrapped (publish_version p));;
    mret tt.

(** ** Waiting for confirmations

    The channel of [send_with_confirm] is held by its callback, and the callback
    by the waiters in the map: it is closed when no waiter is left. *)
Definition fresh_cb : io PW ProducerPublishError.t nat :=
  n ← pgets next_cb; pmodify new_cb;; mret n.

Definition calls_of (callback : nat) (s : PState) :
    list (result ProducerPublishError.t ConfirmationStatus) :=
  omap (λ '(k, r), if decide (k = callback) then Some r else None) (called s).
Definition held (callback : nat) (s : PState) : bool :=
  existsb (λ kv, (cb kv.2 =? callback)%nat) (dm_iter (waiting_confirmations s)).

(** One turn of everything else: the timer, and a message for the handler. *)
Definition others {E} : io PW E bool :=
  batch_tick;;
  m ← attempt (on_base (api_message (client p)));
  match m with
  | inr (Some m) => detached (E:=E) (confirm_handler m);; mret true
  | _ => mret false
  end.

Fixpoint await_call (turns : nat) (callback nth : nat) :
    io PW ProducerPublishError.t (option (result ProducerPublishError.t ConfirmationStatus)) :=
  call ← pgets (λ s, calls_of callback s !! nth);
  match call with
  | Some r => mret (Some r)
  | None =>
      is_held ← pgets (held callback);
      if negb is_held then mret None
      else match turns with
           | O => crash OutOfFuel
           | Datatypes.S turns =>
               turned ← others;
               if (turned : bool) then await_call turns callback nth else await_forever
           end
  end.

Definition wrap_publish_error (_ : ProducerPublishError.t) : ProducerPublishError.t :=
  ProducerPublishError.Client ClientError.GenericError.

Definition do_send_with_confirm (turns : nat) (message : Message) :
    io PW ProducerPublishError.t ConfirmationStatus :=
  callback ← fresh_cb;
  internal_send message callback;;
  r ← await_call turns callback 0;
  r ← ok_or r (ProducerPublishError.Confirmation (p_stream p));
  map_throws wrap_publish_error (of_result r).

(** [while let Some(confirmation) = rx.recv().await]: [n] more may come. *)
Fixpoint await_calls (turns n : nat) (callback nth : nat) :
    io PW ProducerPublishError.t (list ConfirmationStatus) :=
  match n with
  | O => mret []
  | Datatypes.S n =>
      r ← await_call turns callback nth;
      match r with
      | None => mret []
      | Some r =>
          c ← of_result r;
          cs ← await_calls turns n callback (Datatypes.S nth);
          mret (c :: cs)
      end
  end.

(** [channel(messages_len)] panics on an empty batch. *)
Definition do_batch_send_with_confirm (turns : nat) (messages : list Message) :
    io PW ProducerPublishError.t (list ConfirmationStatus) :=
  match messages with
  | [] => crash ExplicitPanic
  | _ =>
      callback ← fresh_cb;
      internal_batch_send messages callback;;
      await_calls turns (Datatypes.S (length messages)) callback 0
  end.

Definition do_send (message : Message) (callback : nat) : io PW ProducerPublishError.t unit :=
  internal_send message callback;; mret tt.
Definition do_batch_send (messages : list Message) (callback : nat) :
    io PW ProducerPublishError.t unit :=
  internal_batch_send messages callback;; mret tt.

(** The public methods of a producer, with and without deduplication. *)
Definition Producer_send_with_confirm := do_send_with_confirm.
Definition Producer_batch_send_with_confirm := do_batch_send_with_confirm.
Definition Producer_batch_send := do_batch_send.
Definition Producer_send := do_send.

(** ** Closing *)

Definition close_call {A} (m : io St ClientError.t A) : io PW ProducerCloseError.t A :=
  map_throws ProducerCloseError.Client (on_base m).

Definition Producer_close : io PW ProducerCloseError.t unit :=
  is_closed ← pgets p_closed;
  if (is_closed : bool) then throw ProducerCloseError.AlreadyClosed
  else
    pmodify set_closed;;
    response ← close_call (api_delete_publisher (client p) (producer_id p));
    if generic.GenericResponse_is_ok response
    then close_call (api_close (client p));; mret tt
    else throw (ProducerCloseError.Close (p_stream p) (generic.code response)).

End sending.

(** ** Building *)

Record ProducerBuilder := {
  environment : Environment;
  pb_name : option bytes;
  pb_batch_size : Z;
  batch_publishing_delay : Z;
  pb_filter_value_extractor : option (Message -> bytes);
  pb_client_provided_name : bytes;
}.

(** [Environment::producer]; the delay is in milliseconds. *)
Definition Environment_producer (env : Environment) : ProducerBuilder :=
  {| environment := env; pb_name := None; pb_batch_size := 100; batch_publishing_delay := 100;
     pb_filter_value_extractor := None; pb_client_provided_name := str "rust-stream-producer" |}.

Definition pb_set_batch_size (n : Z) (b : ProducerBuilder) : ProducerBuilder :=
  {| environment := environment b; pb_name := pb_name b; pb_batch_size := n;
     batch_publishing_delay := batch_publishing_delay b;
     pb_filter_value_extractor := pb_filter_value_extractor b;
     pb_client_provided_name := pb_client_provided_name b |}.
Definition pb_set_batch_delay (n : Z) (b : ProducerBuilder) : ProducerBuilder :=
  {| environment := environment b; pb_name := pb_name b; pb_batch_size := pb_batch_size b;
     batch_publishing_delay := n;
     pb_filter_value_extractor := pb_filter_value_extractor b;
     pb_client_provided_name := pb_client_provided_name b |}.
Definition pb_set_client_provided_name (n : bytes) (b : ProducerBuilder) : ProducerBuilder :=
  {| environment := environment b; pb_name := pb_name b; pb_batch_size := pb_batch_size b;
     batch_publishing_delay := batch_publishing_delay b;
     pb_filter_value_extractor := pb_filter_value_extractor b;
     pb_client_provided_name := n |}.
Definition pb_set_filter_value_extractor_arc (f : option (Message -> bytes)) (b : ProducerBuilder) :
    ProducerBuilder :=
  {| environment := environment b; pb_name := pb_name b; pb_batch_size := pb_batch_size b;
     batch_publishing_delay := batch_publishing_delay b;
     pb_filter_value_extractor := f;
     pb_client_provided_name := pb_client_provided_name b |}.

Definition pb_set_filter_value_extractor (f : Message -> bytes) (b : ProducerBuilder) :
    ProducerBuilder :=
  pb_set_filter_value_extractor_arc (Some f) b.

(** [name]: the builder it returns has neither the extractor nor the client name
    of the one it is called on. *)
Definition pb_set_name (n : bytes) (b : ProducerBuilder) : ProducerBuilder :=
  {| environment := environment b; pb_name := Some n; pb_batch_size := pb_batch_size b;
     batch_publishing_delay := batch_publishing_delay b;
     pb_filter_value_extractor := None;
     pb_client_provided_name := str "rust-stream-producer" |}.

(** The first id of a producer whose last confirmed one the server knows; the
    addition of [u64]s as the build does it. *)
Definition first_sequence {E} (overflow_checks : bool) (sequence : Z) : result E Z :=
  if sequence =? 0 then Ok 0
  else if overflow_checks && (2 ^ 64 <=? sequence + 1) then Panic ExplicitPanic
  else Ok ((sequence + 1) mod 2 ^ 64).

Definition PState_new (sequence : Z) (acc : MessageAccumulator) : PState :=
  {| p_publish_sequence := sequence; waiting_confirmations := dm_new; p_closed := false;
     accumulator := acc; next_cb := 0; called := []; p_collected := [] |}.

Definition ProducerBuilder_build (overflow_checks : bool) (b : ProducerBuilder) (stream : bytes) :
    io St ProducerCreateError.t (ProducerInternal * PState) :=
  c ← create_producer_client attempts (environment b) stream (pb_client_provided_name b);
  publish_version ←
    match pb_filter_value_extractor b with
    | Some _ => if api_filtering_supported c then mret 2
                else throw ProducerCreateError.FilteringNotSupport
    | None => mret 1
    end;
  producer_client (api_set_handler c);;
  let producer_id := 1 in
  response ← producer_client (api_declare_publisher c producer_id (pb_name b) stream);
  publish_sequence ←
    match pb_name b with
    | Some name =>
        sequence ← producer_client (api_query_publisher_sequence c name stream);
        of_result (first_sequence overflow_checks sequence)
    | None => mret 0
    end;
  if generic.GenericResponse_is_ok response
  then
    acc ← MessageAccumulator_new (pb_batch_size b);
    mret ({| client := c; p_stream := stream; producer_id := producer_id;
             p_batch_size := pb_batch_size b; publish_version := publish_version;
             p_filter_value_extractor := pb_filter_value_extractor b |},
          PState_new publish_sequence acc)
  else throw (ProducerCreateError.Create stream (generic.code response)).

(** ** Laws: the accumulator *)

Definition acc_queue (a : MessageAccumulator) : list ClientMessage :=
  mpsc_buffer (acc_channel a).

(** At rest the counter is the number of messages in the channel. *)
Record acc_ok (a : MessageAccumulator) : Prop := {
  acc_ok_capacity : mpsc_capacity (acc_channel a) = acc_capacity a;
  acc_ok_range : 0 < acc_capacity a < 2 ^ 64;
  acc_ok_count : message_count a = len (acc_queue a);
  acc_ok_bound : len (acc_queue a) <= acc_capacity a;
}.

Lemma acc_drain_spec n c :
  let '(c', l) := acc_drain n c in
  l = take n (mpsc_buffer c) /\ mpsc_buffer c' = drop n (mpsc_buffer c) /\
  mpsc_capacity c' = mpsc_capacity c.
Proof.
  revert c. induction n as [|n IH]; intros c; cbn; [done|].
  pose proof (mpsc_recv_value c) as Hv. pose proof (mpsc_recv_buffer c) as Hb.
  pose proof (mpsc_recv_capacity c) as Hc. destruct (mpsc_recv c) as [v c1]. cbn in *.
  destruct (mpsc_buffer c) as [|m q] eqn:Eb; cbn in *.
  - by destruct (mpsc_open c); subst v.
  - subst v. specialize (IH c1). destruct (acc_drain n c1) as [c2 l].
    destruct IH as (-> & -> & ->). by rewrite Hb.
Qed.

Lemma acc_new_ok {S E} n (s : S) :
  0 < n < 2 ^ 64 -> ∃ a, MessageAccumulator_new (E:=E) n s = Returns s a /\
    acc_ok a /\ acc_queue a = [] /\ acc_capacity a = n.
Proof.
  intros Hn. unfold MessageAccumulator_new. rewrite (proj2 (Z.eqb_neq _ _)) by lia.
  eexists. split; [reflexivity|]. unfold acc_queue. cbn.
  split; [split; unfold acc_queue; cbn|]; rewrite ?mpsc_channel_buffer, ?mpsc_channel_capacity;
    try done. unfold len. cbn. lia.
Qed.

(** [get] takes the whole queue. *)
Lemma acc_get_all a :
  acc_ok a -> ∃ a', MessageAccumulator_get (acc_capacity a) a = (a', acc_queue a) /\
    acc_ok a' /\ acc_queue a' = [] /\ acc_capacity a' = acc_capacity a.
Proof.
  intros [Hc Hr Hn Hbound]. unfold MessageAccumulator_get, acc_receive, acc_queue in *.
  pose proof (acc_drain_spec (Z.to_nat (acc_capacity a)) (acc_channel a)) as Hd.
  destruct (acc_drain _ _) as [c l]. destruct Hd as (-> & Hb & Hcap).
  assert (Hlen : (length (mpsc_buffer (acc_channel a)) <= Z.to_nat (acc_capacity a))%nat)
    by (unfold len in Hbound; lia).
  rewrite take_ge, drop_ge in * by lia.
  eexists. split; [reflexivity|]. split; [split; unfold acc_queue; cbn|done].
  - by rewrite Hcap.
  - done.
  - by rewrite Hb, Hn, Z.sub_diag.
  - rewrite Hb. unfold len. cbn. lia.
Qed.

(** [add] when there is room: the message joins the queue, and the caller learns
    whether it is now full. *)
Lemma acc_add_spec {E} overflow_checks m a :
  acc_ok a -> len (acc_queue a) < acc_capacity a -> ∃ a1 a2, acc_send m a = Some a1 /\
    acc_count (E:=E) overflow_checks a1 =
      (a2, Ok (len (acc_queue a) + 1 =? acc_capacity a)) /\
    acc_ok a2 /\ acc_queue a2 = acc_queue a ++ [m] /\ acc_capacity a2 = acc_capacity a.
Proof.
  intros [Hc Hr Hn Hbound] Hroom. unfold acc_send, acc_queue in *.
  rewrite (proj2 (Z.ltb_lt _ _)) by lia. do 2 eexists. split; [reflexivity|].
  assert (0 <= len (mpsc_buffer (acc_channel a))) by (unfold len; lia).
  assert (Hq : mpsc_buffer (mpsc_send m (acc_channel a)) = mpsc_buffer (acc_channel a) ++ [m])
    by (apply mpsc_send_buffer; lia).
  assert (Hl : len (mpsc_buffer (acc_channel a) ++ [m]) = len (mpsc_buffer (acc_channel a)) + 1)
    by (unfold len; rewrite length_app; cbn; lia).
  unfold acc_count. cbn. rewrite Hn, Z.mod_small by lia.
  rewrite (proj2 (Z.leb_gt _ _)) by lia. rewrite andb_false_r.
  split; [reflexivity|]. split; [split; unfold acc_queue; cbn|done].
  - by rewrite mpsc_send_capacity.
  - done.
  - by rewrite Hq, Hl.
  - rewrite Hq, Hl. lia.
Qed.

(** ** Laws: sending *)

Section sending_laws.
Context (overflow_checks : bool) (p : ProducerInternal).

(** A producer at rest: its accumulator has room for a message. *)
Record producer_ok (s : PState) : Prop := {
  po_acc : acc_ok (accumulator s);
  po_capacity : acc_capacity (accumulator s) = p_batch_size p;
  po_room : len (acc_queue (accumulator s)) < p_batch_size p;
}.

Definition pending (s : PState) : list ClientMessage := acc_queue (accumulator s).

(** The id the next message gets. *)
Definition id_of (message : Message) (s : PState) : Z :=
  default (p_publish_sequence s) (AmqpMessage.publishing_id message).
Definition sequence_after (message : Message) (s : PState) : Z :=
  match AmqpMessage.publishing_id message with
  | Some _ => p_publish_sequence s
  | None => (p_publish_sequence s + 1) mod 2 ^ 64
  end.

(** The state after [internal_send] has queued the message. *)
Definition queued (message : Message) (callback : nat) (acc : MessageAccumulator) (s : PState) :
    PState :=
  set_accumulator acc
    (add_waiter (id_of message s) {| cb := callback; msg := message |}
      (set_sequence (sequence_after message s) s)).

Lemma publishing_id_of_eq {E} message (w : PW) :
  publishing_id_of (E:=E) message w =
  Returns (on_pstate (set_sequence (sequence_after message (pstate w))) w) (id_of message (pstate w)).
Proof.
  unfold publishing_id_of, id_of, sequence_after. destruct w as [b s].
  destruct (AmqpMessage.publishing_id message) as [id|]; [by destruct s|done].
Qed.

Lemma accumulator_add_eq m (w : PW) :
  producer_ok (pstate w) -> ∃ acc,
    accumulator_add overflow_checks p m w =
      Returns (on_pstate (set_accumulator acc) w)
              (len (pending (pstate w)) + 1 =? p_batch_size p) /\
    acc_ok acc /\ acc_queue acc = pending (pstate w) ++ [m] /\
    acc_capacity acc = p_batch_size p.
Proof.
  intros [Hacc Hcap Hroom].
  destruct (acc_add_spec (E:=ProducerPublishError.t) overflow_checks m _ Hacc)
    as (a1 & a2 & Es & Ec & Ha & Hq & Hc); [by rewrite Hcap|].
  exists a2. split; [|by rewrite Hc].
  unfold accumulator_add, accumulator_push.
  rewrite (io_bind_returns _ _ w (on_pstate (set_accumulator a1) w) tt)
    by (rewrite (io_bind_returns _ _ w w (accumulator (pstate w))) by done; by rewrite Es).
  rewrite (io_bind_returns _ _ _ (on_pstate (set_accumulator a1) w) a1) by done.
  rewrite Ec. rewrite (io_bind_returns _ _ _ (on_pstate (set_accumulator a2) w) tt) by done.
  by rewrite Hcap.
Qed.

(** [p_batch_send] with something to send is one publish of all of it; the queue
    is empty afterwards, whatever the outcome. *)
Lemma p_batch_send_eq (w : PW) :
  acc_ok (accumulator (pstate w)) -> acc_capacity (accumulator (pstate w)) = p_batch_size p ->
  ∃ acc, acc_ok acc /\ acc_queue acc = [] /\ acc_capacity acc = p_batch_size p /\
    p_batch_send p w =
      match pending (pstate w) with
      | [] => Returns (on_pstate (set_accumulator acc) w) tt
      | m :: l =>
          (client_call (api_publish (client p) (producer_id p) (m :: l) (publish_version p));;
           mret tt) (on_pstate (set_accumulator acc) w)
      end.
Proof.
  intros Hacc Hcap. destruct (acc_get_all _ Hacc) as (acc & Eg & Ha & Hq & Hc).
  exists acc. split; [done|]. split; [done|]. split; [by rewrite Hc|].
  unfold p_batch_send. rewrite (io_bind_returns _ _ w w (accumulator (pstate w))) by done.
  rewrite <- Hcap, Eg. rewrite (io_bind_returns _ _ _ (on_pstate (set_accumulator acc) w) tt) by done.
  unfold pending. by destruct (acc_queue (accumulator (pstate w))).
Qed.

(** Below the batch size a message is only queued. *)
Lemma internal_send_queues message callback (w : PW) :
  producer_ok (pstate w) -> p_closed (pstate w) = false ->
  len (pending (pstate w)) + 1 < p_batch_size p -> ∃ acc,
    internal_send overflow_checks p message callback w =
      Returns (on_pstate (queued message callback acc) w) tt /\
    producer_ok (queued message callback acc (pstate w)) /\
    acc_queue acc = pending (pstate w) ++ [client_message p (id_of message (pstate w)) message].
Proof.
  intros Hok Hopen Hlen. set (m := client_message p (id_of message (pstate w)) message).
  set (w1 := on_pstate (set_sequence (sequence_after message (pstate w))) w).
  set (w2 := on_pstate (add_waiter (id_of message (pstate w)) {| cb := callback; msg := message |}) w1).
  assert (Hok2 : producer_ok (pstate w2)) by (destruct Hok; by split).
  destruct (accumulator_add_eq m w2 Hok2) as (acc & Ea & Ha & Hq & Hc).
  exists acc. split; [|split; [split|]].
  - unfold internal_send. rewrite (io_bind_returns _ _ w w false) by (by apply gets_returns).
    cbv iota. rewrite (io_bind_returns _ _ _ _ _ (publishing_id_of_eq message w)).
    rewrite (io_bind_returns _ _ _ w2 tt) by done.
    rewrite (io_bind_returns _ _ _ _ _ Ea).
    change (pending (pstate w2)) with (pending (pstate w)).
    by rewrite (proj2 (Z.eqb_neq _ _)) by lia.
  - done.
  - done.
  - cbn. rewrite Hq. change (pending (pstate w2)) with (pending (pstate w)).
    unfold len in *. rewrite length_app. cbn. lia.
  - done.
Qed.

(** At the batch size the whole queue is published, in the order of the sends. *)
Lemma internal_send_flushes message callback (w : PW) :
  producer_ok (pstate w) -> p_closed (pstate w) = false ->
  len (pending (pstate w)) + 1 = p_batch_size p -> ∃ acc,
    internal_send overflow_checks p message callback w =
      (client_call (api_publish (client p) (producer_id p)
         (pending (pstate w) ++ [client_message p (id_of message (pstate w)) message])
         (publish_version p));; mret tt)
      (on_pstate (queued message callback acc) w) /\
    producer_ok (queued message callback acc (pstate w)) /\ acc_queue acc = [].
Proof.
  intros Hok Hopen Hlen. set (m := client_message p (id_of message (pstate w)) message).
  set (w1 := on_pstate (set_sequence (sequence_after message (pstate w))) w).
  set (w2 := on_pstate (add_waiter (id_of message (pstate w)) {| cb := callback; msg := message |}) w1).
  assert (Hok2 : producer_ok (pstate w2)) by (destruct Hok; by split).
  destruct (accumulator_add_eq m w2 Hok2) as (acc & Ea & Ha & Hq & Hc).
  destruct (p_batch_send_eq (on_pstate (set_accumulator acc) w2)) as (acc' & Ha' & Hq' & Hc' & Eb);
    [done|done|].
  exists acc'. split; [|split; [split|done]].
  - unfold internal_send. rewrite (io_bind_returns _ _ w w false) by (by apply gets_returns).
    cbv iota. rewrite (io_bind_returns _ _ _ _ _ (publishing_id_of_eq message w)).
    rewrite (io_bind_returns _ _ _ w2 tt) by done.
    rewrite (io_bind_returns _ _ _ _ _ Ea).
    change (pending (pstate w2)) with (pending (pstate w)).
    rewrite (proj2 (Z.eqb_eq _ _)) by lia. rewrite Eb.
    change (pending (pstate (on_pstate (set_accumulator acc) w2))) with (acc_queue acc).
    rewrite Hq. change (pending (pstate w2)) with (pending (pstate w)).
    by destruct (pending (pstate w)).
  - done.
  - done.
  - change (len (acc_queue acc') < p_batch_size p). rewrite Hq'. unfold len in *. cbn. lia.
Qed.

(** *** Batching, against its specification

    [batches n queue l]: the messages [l] join the queue one by one; when it has
    [n] messages it is a batch. *)
Fixpoint batches {A} (n : nat) (queue l : list A) : list (list A) * list A :=
  match l with
  | [] => ([], queue)
  | m :: l =>
      let q := queue ++ [m] in
      if (length q =? n)%nat then let '(bs, r) := batches n [] l in (q :: bs, r)
      else batches n q l
  end.

(** Nothing is lost, repeated or reordered; every batch is full, the rest is not. *)
Lemma batches_spec {A} n (queue l : list A) :
  (0 < n)%nat -> (length queue < n)%nat ->
  let '(bs, r) := batches n queue l in
  mjoin bs ++ r = queue ++ l /\ Forall (λ b, length b = n) bs /\ (length r < n)%nat.
Proof.
  intros Hn. revert queue. induction l as [|m l IH]; intros queue Hq; cbn [batches].
  - by rewrite app_nil_r.
  - destruct (Nat.eqb_spec (length (queue ++ [m])) n) as [He|He].
    + specialize (IH [] Hn). destruct (batches n [] l) as [bs r]. destruct IH as (Hj & Hb & Hr).
      split; [|by split; [constructor|]]. change (mjoin ((queue ++ [m]) :: bs)) with ((queue ++ [m]) ++ mjoin bs).
      rewrite <- app_assoc, Hj. by rewrite <- app_assoc.
    + specialize (IH (queue ++ [m])). destruct (batches n (queue ++ [m]) l) as [bs r].
      destruct IH as (Hj & Hb & Hr); [rewrite length_app in *; cbn in *; lia|].
      by rewrite Hj, <- app_assoc.
Qed.

(** The messages as they are sent: with their ids, and the filter value. *)
Definition to_send (s : PState) (l : list Message) : list ClientMessage :=
  zip_with (client_message p)
    (assign_ids (p_publish_sequence s) (map AmqpMessage.publishing_id l)).1 l.

Lemma to_send_cons s s' m l :
  p_publish_sequence s' = sequence_after m s ->
  to_send s (m :: l) = client_message p (id_of m s) m :: to_send s' l.
Proof.
  intros Hs. unfold to_send, id_of, sequence_after in *. rewrite Hs. cbn.
  destruct (AmqpMessage.publishing_id m) as [id|]; cbn; by destruct (assign_ids _ _).
Qed.

(** A connection that takes full batches of [good] messages; [after bs] says that it
    has taken the batches [bs] since. *)
Context (good : ClientMessage -> Prop) (after : list (list ClientMessage) -> St -> Prop).
Hypothesis publish_succeeds : ∀ bs ms s, after bs s -> Forall good ms ->
  length ms = Z.to_nat (p_batch_size p) -> ∃ s' ids,
  api_publish (client p) (producer_id p) ms (publish_version p) s = Returns s' ids /\
  after (bs ++ [ms]) s'.

Lemma client_publish_returns bs ms (w : PW) :
  after bs (base w) -> Forall good ms -> length ms = Z.to_nat (p_batch_size p) -> ∃ s',
  (client_call (api_publish (client p) (producer_id p) ms (publish_version p));; mret tt) w =
    Returns {| base := s'; pstate := pstate w |} tt /\ after (bs ++ [ms]) s'.
Proof.
  intros Ha Hg Hn. destruct (publish_succeeds bs ms (base w) Ha Hg Hn) as (s' & ids & Hp & Hl).
  exists s'. split; [|done].
  rewrite (io_bind_returns _ _ w {| base := s'; pstate := pstate w |} ids); [done|].
  unfold client_call, map_throws, on_base, zoom. by rewrite Hp.
Qed.

Definition send_all (l : list (Message * nat)) : io PW ProducerPublishError.t unit :=
  each (λ mc, internal_send overflow_checks p mc.1 mc.2) l.

(** While the connection takes what is published, a run of sends publishes the
    full batches and keeps the rest. *)
Lemma send_all_batches l taken (w : PW) :
  producer_ok (pstate w) -> p_closed (pstate w) = false -> after taken (base w) ->
  Forall good (pending (pstate w)) -> Forall good (to_send (pstate w) (map fst l)) ->
  ∃ w', send_all l w = Returns w' tt /\ producer_ok (pstate w') /\
    let '(bs, r) := batches (Z.to_nat (p_batch_size p)) (pending (pstate w))
                      (to_send (pstate w) (map fst l)) in
    after (taken ++ bs) (base w') /\ pending (pstate w') = r.
Proof.
  revert taken w. induction l as [|[m k] l IH]; intros taken w Hok Hopen Ha Hg Hgl.
  - exists w. split; [done|]. split; [done|]. unfold to_send. cbn. by rewrite app_nil_r.
  - assert (Hlen : len (pending (pstate w)) + 1 <= p_batch_size p)
      by (destruct Hok as [_ _ Hroom]; unfold pending in *; lia).
    set (cm := client_message p (id_of m (pstate w)) m).
    assert (Hsize : length (pending (pstate w) ++ [cm]) = Z.to_nat (len (pending (pstate w)) + 1))
      by (rewrite length_app; unfold len; cbn; lia).
    cbn [map fst] in Hgl |- *. rewrite (to_send_cons _ (set_sequence (sequence_after m (pstate w))
      (pstate w))) in Hgl by done. fold cm in Hgl. apply Forall_cons in Hgl as [Hcm Hgl].
    assert (Hgq : Forall good (pending (pstate w) ++ [cm]))
      by (apply Forall_app; split; [done|by apply Forall_singleton]).
    destruct (decide (len (pending (pstate w)) + 1 = p_batch_size p)) as [He|He].
    + destruct (internal_send_flushes m k w Hok Hopen He) as (acc & Ei & Hok' & Hq). fold cm in Ei.
      destruct (client_publish_returns taken (pending (pstate w) ++ [cm])
        (on_pstate (queued m k acc) w) Ha Hgq) as (s' & Ep & Ha'); [by rewrite Hsize, He|].
      set (w1 := {| base := s'; pstate := pstate (on_pstate (queued m k acc) w) |}) in *.
      destruct (IH (taken ++ [pending (pstate w) ++ [cm]]) w1 Hok' Hopen Ha')
        as (w2 & E2 & Hok2 & Hspec); [|exact Hgl|].
      { change (pending (pstate w1)) with (acc_queue acc). rewrite Hq. constructor. }
      exists w2. split; [|split; [done|]].
      * unfold send_all. cbn [each fst snd]. rewrite (io_bind_returns _ _ _ w1 tt); [exact E2|by rewrite Ei].
      * rewrite (to_send_cons _ (pstate w1)) by done. cbn [batches]. fold cm.
        rewrite Hsize, He, Nat.eqb_refl. change (pending (pstate w1)) with (acc_queue acc) in Hspec.
        rewrite Hq in Hspec. destruct (batches _ [] _) as [bs r].
        by rewrite <- app_assoc in Hspec.
    + destruct (internal_send_queues m k w Hok Hopen) as (acc & Ei & Hok' & Hq); [lia|].
      fold cm in Hq. set (w1 := on_pstate (queued m k acc) w) in *.
      destruct (IH taken w1 Hok' Hopen Ha) as (w2 & E2 & Hok2 & Hspec); [|exact Hgl|].
      { change (pending (pstate w1)) with (acc_queue acc). by rewrite Hq. }
      exists w2. split; [|split; [done|]].
      * unfold send_all. cbn [each fst snd]. by rewrite (io_bind_returns _ _ _ w1 tt).
      * rewrite (to_send_cons _ (pstate w1)) by done. cbn [batches]. fold cm.
        rewrite Hsize. rewrite (proj2 (Nat.eqb_neq _ _)) by (unfold len in *; lia).
        change (pending (pstate w1)) with (acc_queue acc) in Hspec. by rewrite Hq in Hspec.
Qed.

End sending_laws.

(** ** Laws: confirmations *)

Definition waiter_of (s : PState) (id : Z) : option ProducerMessageWaiter :=
  dm_get id (waiting_confirmations s).

Definition confirmation (id : Z) (ok : bool) (code : ResponseCode) (w : ProducerMessageWaiter) :
    nat * result ProducerPublishError.t ConfirmationStatus :=
  (cb w, Ok {| cs_publishing_id := id; confirmed := ok; status := code; cs_message := msg w |}).

(** What the ids of a frame settle: for each the call of its waiter, in order. *)
Definition settle_calls {A} (id : A -> Z) (ok : bool) (code : A -> ResponseCode) (s : PState)
    (l : list A) : list (nat * result ProducerPublishError.t ConfirmationStatus) :=
  omap (λ a, confirmation (id a) ok (code a) <$> waiter_of s (id a)) l.

(** The state [s'] is [s] after the waiters of [ids] were called and removed. *)
Record settled_by {A} (id : A -> Z) (ok : bool) (code : A -> ResponseCode) (l : list A)
    (s s' : PState) : Prop := {
  sb_calls : called s' = called s ++ settle_calls id ok code s l;
  sb_waiting k : waiter_of s' k = if decide (k ∈ map id l) then None else waiter_of s k;
  sb_sequence : p_publish_sequence s' = p_publish_sequence s;
  sb_closed : p_closed s' = p_closed s;
  sb_accumulator : accumulator s' = accumulator s;
}.

Definition settle_step {A} (id : A -> Z) (ok : bool) (code : A -> ResponseCode) (a : A) :
    ProducerMessageWaiter -> PState -> PState :=
  λ w, add_call (cb w) (confirmation (id a) ok (code a) w).2.

Lemma with_waiter_known {E} id k (w : PW) wt :
  waiter_of (pstate w) id = Some wt ->
  with_waiter (E:=E) id k w =
  Returns (on_pstate (λ s, k wt (set_waiting (dm_remove id (waiting_confirmations s)) s)) w) tt.
Proof.
  unfold waiter_of. intros H. unfold with_waiter.
  rewrite (io_bind_returns _ _ w w (waiting_confirmations (pstate w))) by done. by rewrite H.
Qed.

Lemma with_waiter_unknown {E} id k (w : PW) :
  waiter_of (pstate w) id = None -> with_waiter (E:=E) id k w = Panics w ExplicitPanic.
Proof.
  unfold waiter_of. intros H. unfold with_waiter.
  rewrite (io_bind_returns _ _ w w (waiting_confirmations (pstate w))) by done. by rewrite H.
Qed.

Lemma settle_calls_ext {A} (id : A -> Z) ok code s s' l :
  (∀ a, a ∈ l -> waiter_of s (id a) = waiter_of s' (id a)) ->
  settle_calls id ok code s l = settle_calls id ok code s' l.
Proof.
  intros H. unfold settle_calls. induction l as [|a l IH]; [done|]. cbn.
  rewrite H by by left. rewrite IH; [done|]. intros b Hb. apply H. by right.
Qed.

(** The handler on a list of ids that all have a waiter. *)
Lemma settle_all {A E} (id : A -> Z) ok code (l : list A) (w : PW) :
  NoDup (map id l) -> (∀ a, a ∈ l -> is_Some (waiter_of (pstate w) (id a))) ->
  ∃ s', each (λ a, with_waiter (E:=E) (id a) (settle_step id ok code a)) l w =
      Returns {| base := base w; pstate := s' |} tt /\
    settled_by id ok code l (pstate w) s'.
Proof.
  revert w. induction l as [|a l IH]; intros w Hnd Hall; cbn.
  - exists (pstate w). split; [by destruct w|]. split; try done. by rewrite app_nil_r.
  - apply NoDup_cons in Hnd as [Ha Hnd].
    destruct (Hall a) as [wt Hwt]; [by left|].
    rewrite (io_bind_returns _ _ _ _ _ (with_waiter_known _ _ _ _ Hwt)).
    set (w1 := on_pstate _ w).
    assert (H1 : ∀ k, waiter_of (pstate w1) k =
              if decide (id a = k) then None else waiter_of (pstate w) k).
    { intros k. unfold waiter_of. cbn. apply dm_get_remove. }
    assert (Hl : ∀ b, b ∈ l -> waiter_of (pstate w1) (id b) = waiter_of (pstate w) (id b)).
    { intros b Hb. rewrite H1, decide_False; [done|]. intros Heq. apply Ha.
      rewrite Heq. apply list_elem_of_fmap. by exists b. }
    destruct (IH w1 Hnd) as (s' & E1 & [Hc Hw Hs Hcl Hacc]).
    { intros b Hb. rewrite Hl by done. apply Hall. by right. }
    exists s'. split; [exact E1|]. split; try done.
    + rewrite Hc. cbn. rewrite Hwt. cbn. rewrite <- app_assoc. cbn. f_equal. f_equal.
      by apply settle_calls_ext.
    + intros k. rewrite Hw, H1. cbn [map].
      destruct (decide (k ∈ map id l)) as [Hin|Hin], (decide (id a = k)) as [He|He],
        (decide (k ∈ id a :: map id l)) as [Hk|Hk]; try done; exfalso;
        rewrite elem_of_cons in Hk; intuition congruence.
Qed.

(** ... and on one whose id has none: the waiters before it were called, those
    after it are not. *)
Lemma settle_unknown {A E} (id : A -> Z) ok code before after (a : A) (w : PW) :
  NoDup (map id before) -> id a ∉ map id before ->
  (∀ b, b ∈ before -> is_Some (waiter_of (pstate w) (id b))) ->
  waiter_of (pstate w) (id a) = None ->
  ∃ s', each (λ a, with_waiter (E:=E) (id a) (settle_step id ok code a)) (before ++ a :: after) w =
      Panics {| base := base w; pstate := s' |} ExplicitPanic /\
    settled_by id ok code before (pstate w) s'.
Proof.
  intros Hnd Ha Hall Hnone.
  destruct (settle_all (E:=E) id ok code before w Hnd Hall) as (s' & E1 & Hs).
  exists s'. split; [|done].
  assert (Happ : ∀ (body : A -> io PW E unit) l1 l2 s s1,
    each body l1 s = Returns s1 tt -> each body (l1 ++ l2) s = each body l2 s1).
  { intros body l1 l2. induction l1 as [|x l1 IH]; cbn; intros s s1 H; [by injection H as <-|].
    apply io_bind_returns_inv in H as (s2 & [] & Hx & H).
    rewrite (io_bind_returns _ _ _ _ _ Hx). by apply IH. }
  rewrite (Happ _ _ _ _ _ E1). cbn. unfold mbind, io_bind.
  rewrite with_waiter_unknown; [done|]. cbn.
  rewrite (sb_waiting _ _ _ _ _ _ Hs), decide_False; done.
Qed.

(** ** The counter, when [add] and [get] interleave

    [add] queues the message before it counts it, and [get] discounts what it
    took: a [get] in between takes the counter below zero. *)

Inductive acc_step : MessageAccumulator * list ClientMessage ->
    MessageAccumulator * list ClientMessage -> Prop :=
  | acc_step_send a l m a' :
      acc_send m a = Some a' -> acc_step (a, l) (a', m :: l)
  | acc_step_count a before m after :
      acc_step (a, before ++ m :: after)
               ((acc_count (E:=ProducerPublishError.t) false a).1, before ++ after)
  | acc_step_get a l :
      acc_step (a, l) ((MessageAccumulator_get (acc_capacity a) a).1, l).

(** The messages queued and not yet counted are in the second component: counter
    and queue differ by their number, modulo 2^64. *)
Definition acc_balanced (s : MessageAccumulator * list ClientMessage) : Prop :=
  let '(a, uncounted) := s in
  mpsc_capacity (acc_channel a) = acc_capacity a /\ 0 < acc_capacity a < 2 ^ 64 /\
  len (acc_queue a) <= acc_capacity a /\
  message_count a = (len (acc_queue a) - len uncounted) mod 2 ^ 64.

Lemma acc_step_balanced s s' : acc_balanced s -> acc_step s s' -> acc_balanced s'.
Proof.
  intros Hb Hstep. destruct Hstep as [a l m a' Hsend|a before m after|a l].
  - destruct Hb as (Hc & Hr & Hle & Hn). unfold acc_send in Hsend.
    destruct (len (mpsc_buffer (acc_channel a)) <? mpsc_capacity (acc_channel a)) eqn:Hlt;
      [|done]. injection Hsend as <-. apply Z.ltb_lt in Hlt.
    unfold acc_balanced, acc_queue in *. cbn.
    rewrite mpsc_send_capacity, mpsc_send_buffer by done.
    assert (Hl : len (mpsc_buffer (acc_channel a) ++ [m]) = len (mpsc_buffer (acc_channel a)) + 1)
      by (unfold len; rewrite length_app; cbn; lia).
    assert (Hl' : len (m :: l) = len l + 1) by (unfold len; cbn; lia).
    rewrite Hl, Hl', Hn. split; [done|]. split; [done|]. split; [lia|].
    f_equal. lia.
  - destruct Hb as (Hc & Hr & Hle & Hn). unfold acc_balanced, acc_queue in *. cbn.
    split; [done|]. split; [done|]. split; [done|]. rewrite Hn, Zplus_mod_idemp_l. f_equal.
    unfold len. rewrite !length_app. cbn. lia.
  - destruct Hb as (Hc & Hr & Hle & Hn).
    unfold MessageAccumulator_get, acc_receive, acc_balanced, acc_queue in *.
    pose proof (acc_drain_spec (Z.to_nat (acc_capacity a)) (acc_channel a)) as Hd.
    destruct (acc_drain _ _) as [c q]. destruct Hd as (-> & Hb & Hcap). cbn.
    rewrite Hcap, Hb. assert (Hlen : (length (mpsc_buffer (acc_channel a)) <=
      Z.to_nat (acc_capacity a))%nat) by (unfold len in Hle; lia).
    rewrite take_ge, drop_ge by lia. split; [done|]. split; [done|].
    split; [unfold len; cbn; lia|]. rewrite Hn, Zminus_mod_idemp_l. f_equal.
    unfold len. cbn. lia.
Qed.

(** The get that comes between the two halves of an add of an empty accumulator
    leaves the counter at the largest [usize]: the addition of the other half
    overflows. *)
Lemma acc_get_before_count m a :
  acc_ok a -> acc_queue a = [] -> ∃ a1 a2,
    acc_send m a = Some a1 /\ MessageAccumulator_get (acc_capacity a1) a1 = (a2, [m]) /\
    acc_queue a2 = [] /\ message_count a2 = 2 ^ 64 - 1 /\
    (acc_count (E:=ProducerPublishError.t) true a2).2 = Panic ExplicitPanic /\
    (acc_count (E:=ProducerPublishError.t) false a2).2 = Ok false.
Proof.
  intros [Hcap Hr Hn Hb] Hq. assert (Hlen : len (mpsc_buffer (acc_channel a)) = 0)
    by (unfold acc_queue in Hq; by rewrite Hq).
  set (a1 := {| acc_channel := mpsc_send m (acc_channel a); acc_capacity := acc_capacity a;
                message_count := message_count a |}).
  assert (Hq1 : mpsc_buffer (acc_channel a1) = [m]).
  { cbn. rewrite mpsc_send_buffer by (rewrite Hlen; lia). unfold acc_queue in Hq. by rewrite Hq. }
  pose proof (acc_drain_spec (Z.to_nat (acc_capacity a1)) (acc_channel a1)) as Hd.
  destruct (acc_drain (Z.to_nat (acc_capacity a1)) (acc_channel a1)) as [c l] eqn:Ed.
  destruct Hd as (Hl & Hb' & _). change (acc_capacity a1) with (acc_capacity a) in *.
  rewrite Hq1, take_ge in Hl by (cbn; lia). rewrite Hq1, drop_ge in Hb' by (cbn; lia). subst l.
  assert (Hmax : (message_count a1 - len [m]) mod 2 ^ 64 = 2 ^ 64 - 1)
    by (cbn [message_count a1]; rewrite Hn; unfold acc_queue; rewrite Hlen; done).
  exists a1. eexists. split; [|split; [|split; [|split; [|split]]]].
  - unfold acc_send. by rewrite (proj2 (Z.ltb_lt _ _)) by (rewrite Hlen; lia).
  - unfold MessageAccumulator_get, acc_receive. change (acc_capacity a1) with (acc_capacity a).
    rewrite Ed. reflexivity.
  - exact Hb'.
  - exact Hmax.
  - unfold acc_count, acc_discount. cbn [message_count snd]. by rewrite Hmax.
  - unfold acc_count, acc_discount. cbn [message_count acc_capacity snd]. rewrite Hmax.
    cbn [andb]. f_equal. apply Z.eqb_neq. change ((2 ^ 64 - 1 + 1) mod 2 ^ 64) with 0. lia.
Qed.

(** ** Laws: closing *)

(** A call of the connection leaves the state of the producer. *)
Lemma close_call_pstate {A} (m : io St ClientError.t A) (w : PW) :
  pstate (outcome_state (close_call m w)) = pstate w.
Proof. unfold close_call, map_throws, on_base, zoom. by destruct (m (base w)). Qed.

(** However closing ends, the producer is closed, and nothing else has changed. *)
Lemma Producer_close_pstate p (w : PW) :
  p_closed (pstate w) = false ->
  pstate (outcome_state (Producer_close p w)) = set_closed (pstate w).
Proof.
  intros Hopen. unfold Producer_close.
  rewrite (io_bind_returns _ _ w w false) by (by apply gets_returns). cbv iota.
  rewrite (io_bind_returns _ _ w (on_pstate set_closed w) tt) by done.
  pose proof (close_call_pstate (api_delete_publisher (client p) (producer_id p))
    (on_pstate set_closed w)) as H. unfold mbind, io_bind.
  destruct (close_call (api_delete_publisher (client p) (producer_id p)) _) as [w1 r|w1 e|w1 x|w1];
    cbn in H |- *; try exact H.
  destruct (generic.GenericResponse_is_ok r); [|exact H].
  pose proof (close_call_pstate (api_close (client p)) w1) as H1.
  destruct (close_call (api_close (client p)) w1); cbn in *; by rewrite H1.
Qed.

Lemma Producer_close_again p (w : PW) :
  p_closed (pstate w) = true -> Producer_close p w = Throws w ProducerCloseError.AlreadyClosed.
Proof.
  intros H. unfold Producer_close. rewrite (io_bind_returns _ _ w w true); [done|].
  by apply gets_returns.
Qed.

Lemma closed_send overflow_checks p message callback (w : PW) :
  p_closed (pstate w) = true ->
  internal_send overflow_checks p message callback w = Throws w ProducerPublishError.Closed.
Proof.
  intros H. unfold internal_send. rewrite (io_bind_returns _ _ w w true); [done|].
  by apply gets_returns.
Qed.

(** What closing does, for the two answers of the server; the queue stays. *)
Lemma Producer_close_eq p (w : PW) r s1 :
  p_closed (pstate w) = false ->
  api_delete_publisher (client p) (producer_id p) (base w) = Returns s1 r ->
  Producer_close p w =
    (if generic.GenericResponse_is_ok r
     then close_call (api_close (client p));; mret tt
     else throw (ProducerCloseError.Close (p_stream p) (generic.code r)))
    {| base := s1; pstate := set_closed (pstate w) |}.
Proof.
  intros Hopen Hdel. unfold Producer_close.
  rewrite (io_bind_returns _ _ w w false) by (by apply gets_returns).
  cbv iota. rewrite (io_bind_returns _ _ w (on_pstate set_closed w) tt) by done.
  rewrite (io_bind_returns _ _ (on_pstate set_closed w)
    {| base := s1; pstate := set_closed (pstate w) |} r); [done|].
  unfold close_call, map_throws, on_base, zoom. cbn. by rewrite Hdel.
Qed.

(** ** Laws: building *)

Lemma first_sequence_next {E} overflow_checks n :
  0 < n < 2 ^ 64 - 1 -> first_sequence (E:=E) overflow_checks n = Ok (n + 1).
Proof.
  intros Hn. unfold first_sequence. rewrite (proj2 (Z.eqb_neq _ _)) by lia.
  rewrite (proj2 (Z.leb_gt _ _)) by lia. rewrite andb_false_r, Z.mod_small by lia. done.
Qed.

(** A named producer goes on after the last id the server has. *)
Lemma build_named overflow_checks b name stream s1 s2 s3 s4 (c : C) r n acc :
  pb_name b = Some name -> pb_filter_value_extractor b = None ->
  0 < pb_batch_size b ->
  ∀ s, create_producer_client attempts (environment b) stream (pb_client_provided_name b) s =
    Returns s1 c ->
  api_set_handler c s1 = Returns s2 tt ->
  api_declare_publisher c 1 (Some name) stream s2 = Returns s3 r ->
  api_query_publisher_sequence c name stream s3 = Returns s4 n ->
  generic.GenericResponse_is_ok r = true ->
  first_sequence (E:=ProducerCreateError.t) overflow_checks n = Ok acc ->
  ∃ p st, ProducerBuilder_build overflow_checks b stream s = Returns s4 (p, st) /\
    p_publish_sequence st = acc /\ client p = c /\ publish_version p = 1 /\
    p_batch_size p = pb_batch_size b /\ pending st = [].
Proof.
  intros Hname Hfilter Hsize s Hc Hh Hd Hq Hok Hf. unfold ProducerBuilder_build.
  rewrite (io_bind_returns _ _ _ _ _ Hc), Hfilter.
  rewrite (io_bind_returns _ _ s1 s1 1) by done.
  rewrite (io_bind_returns _ _ s1 s2 tt) by (unfold producer_client, map_throws; by rewrite Hh).
  rewrite Hname.
  rewrite (io_bind_returns _ _ s2 s3 r) by (unfold producer_client, map_throws; by rewrite Hd).
  rewrite (io_bind_returns _ _ s3 s4 acc).
  2:{ rewrite (io_bind_returns _ _ s3 s4 n) by (unfold producer_client, map_throws; by rewrite Hq).
      unfold of_result. by rewrite Hf. }
  rewrite Hok. unfold MessageAccumulator_new. rewrite (proj2 (Z.eqb_neq _ _)) by lia.
  do 2 eexists. split; [reflexivity|]. repeat split; try done.
  unfold pending, acc_queue. cbn. apply mpsc_channel_buffer.
Qed.

(** A producer without a name and without a filter. *)
Definition built_producer (b : ProducerBuilder) (stream : bytes) (c : C) : ProducerInternal :=
  {| client := c; p_stream := stream; producer_id := 1; p_batch_size := pb_batch_size b;
     publish_version := 1; p_filter_value_extractor := None |}.

Lemma build_unnamed overflow_checks b stream s s1 s2 s3 (c : C) r :
  pb_name b = None -> pb_filter_value_extractor b = None -> 0 < pb_batch_size b < 2 ^ 64 ->
  create_producer_client attempts (environment b) stream (pb_client_provided_name b) s =
    Returns s1 c ->
  api_set_handler c s1 = Returns s2 tt ->
  api_declare_publisher c 1 None stream s2 = Returns s3 r ->
  generic.GenericResponse_is_ok r = true ->
  ∃ st, ProducerBuilder_build overflow_checks b stream s = Returns s3 (built_producer b stream c, st) /\
    producer_ok (built_producer b stream c) st /\ p_closed st = false /\ pending st = [] /\
    p_publish_sequence st = 0.
Proof.
  intros Hname Hfilter Hsize Hc Hh Hd Hok. unfold ProducerBuilder_build.
  rewrite (io_bind_returns _ _ _ _ _ Hc), Hfilter.
  rewrite (io_bind_returns _ _ s1 s1 1) by done.
  rewrite (io_bind_returns _ _ s1 s2 tt) by (unfold producer_client, map_throws; by rewrite Hh).
  rewrite Hname.
  rewrite (io_bind_returns _ _ s2 s3 r) by (unfold producer_client, map_throws; by rewrite Hd).
  rewrite (io_bind_returns _ _ s3 s3 0) by done. rewrite Hok.
  destruct (acc_new_ok (E:=ProducerCreateError.t) (pb_batch_size b) s3 Hsize) as (a & Ea & Ha & Hq & Hcap).
  rewrite (io_bind_returns _ _ _ _ _ Ea). eexists. split; [reflexivity|].
  split; [|done]. split; cbn; [done|done|]. rewrite Hq. unfold len. cbn. lia.
Qed.

(** What is sent are the messages of the application. *)
Lemma to_send_messages p s l : map cm_message (to_send p s l) = l.
Proof.
  unfold to_send. generalize (p_publish_sequence s). induction l as [|m l IH]; intros n; [done|].
  cbn [map assign_ids].
  destruct (AmqpMessage.publishing_id m) as [id|];
    [specialize (IH n)|specialize (IH ((n + 1) mod 2 ^ 64))];
    destruct (assign_ids _ _) as [ids n']; cbn in *; rewrite IH;
    unfold client_message; by destruct (p_filter_value_extractor p).
Qed.

End producer.
