(* ===== verification/ProducerRuns.v ===== *)
(** * Runs of a producer

    A producer is used by its application (sends, batches, closing), by the timer
    that sends the batches, and by the handlers of the connection's messages, one
    task for each.  Here they interleave in any order, whatever the outcome of each:
    a step relation on the state of the producer and the messages it has accepted so
    far.  A frame of confirmations may be handled as a whole ([step_message]) or id
    by id among those of other frames ([step_confirmed], [step_refused]).

    [core] is the part of the state that says who waits, who was called and what
    the next id is. *)
From S2P Require Import Prelude Utf8 HashMaps Integers Codec Protocol.
From S2P Require Import Session Streams Producing Consuming.
From S2P Require Import AmqpCodes AmqpSimple AmqpValue AmqpMessage Messages Request Response.
From S2P Require Import ClientCodec Effects Dispatcher Options Client ClientApi Errors Environment.
From S2P Require Import Producer.

Section runs.
Context {X : AmqpExt} {DM : DashMap} {MC : Mpsc} {RD : Random}.
Context {St C : Type} {API : ClientApi St C} (overflow_checks : bool) (p : ProducerInternal (C:=C)).
Abbreviation PW := (PW (St:=St)).

(** A message the producer has accepted: its id, the callback, the message. *)
Record accepted := { a_id : Z; a_callback : nat; a_message : Message }.

Definition a_waiter (a : accepted) : ProducerMessageWaiter :=
  {| cb := a_callback a; msg := a_message a |}.

(** What a call of the application adds to them. *)
Definition accepts_send (m : Message) (k : nat) (s : PState) : list accepted :=
  if p_closed s then []
  else [{| a_id := id_of m s; a_callback := k; a_message := m |}].
Definition accepts_batch (l : list Message) (k : nat) (s : PState) : list accepted :=
  if p_closed s then []
  else zip_with (λ id m, {| a_id := id; a_callback := k; a_message := m |})
         (assign_ids (p_publish_sequence s) (map AmqpMessage.publishing_id l)).1 l.

Inductive producer_step : PW * list accepted -> PW * list accepted -> Prop :=
  | step_send w l m k :
      producer_step (w, l) (outcome_state (internal_send overflow_checks p m k w),
                            l ++ accepts_send m k (pstate w))
  | step_batch w l ms k :
      producer_step (w, l) (outcome_state (internal_batch_send p ms k w),
                            l ++ accepts_batch ms k (pstate w))
  | step_tick w l :
      producer_step (w, l) (outcome_state (batch_tick (E:=Empty_set) p w), l)
  | step_message w l item :
      producer_step (w, l) (outcome_state (confirm_handler (E:=ClientError.t) item w), l)
  | step_confirmed w l id :
      producer_step (w, l)
        (outcome_state (with_waiter (E:=ClientError.t) id (handle_confirm id) w), l)
  | step_refused w l id code :
      producer_step (w, l)
        (outcome_state (with_waiter (E:=ClientError.t) id (handle_error id code) w), l)
  | step_close w l :
      producer_step (w, l) (outcome_state (Producer_close p w), l).

(** ** Who waits, who was called, the next id *)

Abbreviation call := (nat * result ProducerPublishError.t ConfirmationStatus)%type.

Definition core (w : PW) : dashmap ProducerMessageWaiter * list call * Z :=
  (waiting_confirmations (pstate w), called (pstate w), p_publish_sequence (pstate w)).

(** A method that leaves them alone. *)
Abbreviation same_core c := (λ w : PW, core w = c).

Lemma keeps_on_base {A} c (m : io St ClientError.t A) : keeps (same_core c) (on_base m).
Proof. intros w Hw. unfold on_base, zoom. by destruct (m (base w)). Qed.
Lemma keeps_set_accumulator {E} c a : keeps (same_core c) (pmodify (E:=E) (set_accumulator a)).
Proof. by intros w Hw. Qed.
Lemma keeps_client_call {A} c (m : io St ClientError.t A) : keeps (same_core c) (client_call m).
Proof. apply keeps_map_throws, keeps_on_base. Qed.

Lemma keeps_batch_send c : keeps (same_core c) (p_batch_send p).
Proof.
  unfold p_batch_send. apply keeps_bind; [apply keeps_gets|]. intros acc.
  destruct (MessageAccumulator_get _ _) as [acc' l].
  apply keeps_bind; [apply keeps_set_accumulator|]. intros _.
  destruct l; [apply keeps_ret|]. apply keeps_bind; [apply keeps_client_call|]. intros _. apply keeps_ret.
Qed.

Lemma keeps_accumulator_add c m : keeps (same_core c) (accumulator_add overflow_checks p m).
Proof.
  unfold accumulator_add, accumulator_push. apply keeps_bind.
  - apply keeps_bind; [apply keeps_gets|]. intros acc. destruct (acc_send m acc) as [acc'|].
    { apply keeps_set_accumulator. }
    apply keeps_bind; [apply keeps_ignore, keeps_batch_send|]. intros _.
    apply keeps_bind; [apply keeps_gets|]. intros acc'.
    destruct (acc_send m acc'); [apply keeps_set_accumulator|apply keeps_wait].
  - intros _. apply keeps_bind; [apply keeps_gets|]. intros acc.
    destruct (acc_count overflow_checks acc) as [acc' full].
    apply keeps_bind; [apply keeps_set_accumulator|]. intros _. apply keeps_of_result.
Qed.

(** What one accepted message does to the core. *)
Definition next_id (n : Z) (a : accepted) : Z :=
  match AmqpMessage.publishing_id (a_message a) with
  | Some _ => n
  | None => (n + 1) mod 2 ^ 64
  end.
Definition wait_for (c : dashmap ProducerMessageWaiter * list call * Z) (a : accepted) :=
  (dm_insert (a_id a) (a_waiter a) c.1.1, c.1.2, next_id c.2 a).

(** A message with the id of one that still waits takes its place: nothing is left
    that would call the callback of the first. *)
Lemma accepted_overwrites c a b :
  a_id b = a_id a -> dm_get (a_id a) (wait_for (wait_for c a) b).1.1 = Some (a_waiter b).
Proof. intros E. cbn. by rewrite dm_get_insert, decide_True. Qed.

Lemma internal_send_core m k (w : PW) :
  core (outcome_state (internal_send overflow_checks p m k w)) =
  fold_left wait_for (accepts_send m k (pstate w)) (core w).
Proof.
  unfold accepts_send, internal_send.
  rewrite (io_bind_returns _ _ w w (p_closed (pstate w))) by done.
  destruct (p_closed (pstate w)); [done|].
  rewrite (io_bind_returns _ _ _ _ _ (publishing_id_of_eq m w)).
  set (w1 := on_pstate (add_waiter (id_of m (pstate w)) {| cb := k; msg := m |})
    (on_pstate (set_sequence (sequence_after m (pstate w))) w)).
  rewrite (io_bind_returns _ _ _ w1 tt) by done.
  change (fold_left wait_for _ _) with (core w1). revert w1. intros w1.
  apply (keeps_bind (same_core (core w1))); [apply keeps_accumulator_add| |reflexivity].
  intros [|]; [apply keeps_batch_send|apply keeps_ret].
Qed.

Lemma wrap_messages_core l k (w : PW) : ∃ w' cms,
  map_each (λ message,
    id ← publishing_id_of message;
    pmodify (add_waiter id {| cb := k; msg := message |});;
    mret (client_message p id message)) l w = Returns (E:=ProducerPublishError.t) w' cms /\
  core w' = fold_left wait_for
    (zip_with (λ id m, {| a_id := id; a_callback := k; a_message := m |})
      (assign_ids (p_publish_sequence (pstate w)) (map AmqpMessage.publishing_id l)).1 l) (core w).
Proof.
  revert w. induction l as [|m l IH]; intros w; cbn [map_each]; [by exists w, []|].
  set (w1 := on_pstate (add_waiter (id_of m (pstate w)) {| cb := k; msg := m |})
    (on_pstate (set_sequence (sequence_after m (pstate w))) w)).
  destruct (IH w1) as (w' & cms & E & Hc). do 2 eexists. split.
  - rewrite (io_bind_returns _ _ w w1 (client_message p (id_of m (pstate w)) m))
      by (by rewrite (io_bind_returns _ _ _ _ _ (publishing_id_of_eq m w))).
    by rewrite (io_bind_returns _ _ _ _ _ E).
  - rewrite Hc. clear. unfold w1, sequence_after, id_of. cbn.
    destruct (AmqpMessage.publishing_id m) as [id|] eqn:Em; cbn;
      match goal with |- context[assign_ids ?n ?ids] => destruct (assign_ids n ids) end;
      cbn; unfold wait_for, next_id, core; cbn; by rewrite Em.
Qed.

Lemma internal_batch_core l k (w : PW) :
  core (outcome_state (internal_batch_send p l k w)) =
  fold_left wait_for (accepts_batch l k (pstate w)) (core w).
Proof.
  unfold accepts_batch, internal_batch_send.
  rewrite (io_bind_returns _ _ w w (p_closed (pstate w))) by done.
  destruct (p_closed (pstate w)); [done|].
  destruct (wrap_messages_core l k w) as (w' & cms & E & Hc).
  rewrite (io_bind_returns _ _ _ _ _ E). rewrite <- Hc.
  apply (keeps_bind (same_core (core w'))); [apply keeps_client_call| |reflexivity].
  intros _. apply keeps_ret.
Qed.

Lemma Producer_close_core w : core (outcome_state (Producer_close p w)) = core w.
Proof.
  unfold core. destruct (p_closed (pstate w)) eqn:Ec.
  - by rewrite Producer_close_again.
  - by rewrite Producer_close_pstate.
Qed.

(** ** Every accepted message is accounted for *)

Definition call_id (c : call) : option Z :=
  match c.2 with Ok cs => Some (cs_publishing_id cs) | _ => None end.
Definition calls_for (id : Z) (l : list call) : list call :=
  filter (λ c, call_id c = Some id) l.
#[local] Arguments calls_for : simpl never.

(** The one call of the callback of an accepted message: confirmed or refused. *)
Definition settled (a : accepted) (l : list call) : Prop :=
  ∃ ok code, l = [(a_callback a, Ok {| cs_publishing_id := a_id a; confirmed := ok;
                                       status := code; cs_message := a_message a |})].

Record accounted (c : dashmap ProducerMessageWaiter * list call * Z) (l : list accepted) : Prop := {
  acc_accepted a : a ∈ l ->
    (dm_get (a_id a) c.1.1 = Some (a_waiter a) /\ calls_for (a_id a) c.1.2 = []) \/
    (dm_get (a_id a) c.1.1 = None /\ settled a (calls_for (a_id a) c.1.2));
  acc_other id : id ∉ map a_id l -> dm_get id c.1.1 = None /\ calls_for id c.1.2 = [];
  acc_ids k r : (k, r) ∈ c.1.2 -> is_Some (call_id (k, r));
}.

Lemma accounted_accept c l a :
  a_id a ∉ map a_id l -> accounted c l -> accounted (wait_for c a) (l ++ [a]).
Proof.
  intros Hnew [Ha Ho Hi]. split; cbn.
  - intros b Hb. rewrite dm_get_insert. apply elem_of_app in Hb as [Hb|Hb].
    + rewrite decide_False; [by apply Ha|]. intros E. apply Hnew. rewrite E.
      by apply list_elem_of_fmap_2.
    + apply list_elem_of_singleton in Hb as ->. rewrite decide_True by done. left.
      split; [done|by apply Ho].
  - intros id Hid. rewrite map_app, elem_of_app in Hid. rewrite dm_get_insert, decide_False.
    + apply Ho. tauto.
    + intros E. apply Hid. right. cbn. rewrite E. by left.
  - exact Hi.
Qed.

Lemma accounted_accepts c l new :
  NoDup (map a_id (l ++ new)) -> accounted c l ->
  accounted (fold_left wait_for new c) (l ++ new).
Proof.
  revert c l. induction new as [|a new IH]; intros c l Hnd Hacc; cbn; [by rewrite app_nil_r|].
  rewrite (app_assoc l [a] new : l ++ a :: new = _) in Hnd |- *. apply IH; [done|].
  apply accounted_accept; [|done].
  rewrite map_app, map_app in Hnd. apply NoDup_app in Hnd as (Hnd & _ & _).
  apply NoDup_app in Hnd as (_ & Hnd & _). intros Hin. apply (Hnd _ Hin). by left.
Qed.

(** A verdict of the server on an id. *)
Lemma accounted_settle {E} l id ok code :
  keeps (λ w, accounted (core w) l)
    (with_waiter (E:=E) id (settle_step (A:=unit) (λ _, id) ok (λ _, code) tt)).
Proof.
  intros w Hw. destruct (waiter_of (pstate w) id) as [wt|] eqn:Hwt;
    [|by rewrite with_waiter_unknown].
  rewrite (with_waiter_known _ _ _ _ Hwt). cbn [outcome_state].
  destruct Hw as [Ha Ho Hi]. unfold waiter_of in Hwt.
  assert (Hf : ∀ i, calls_for i (called (pstate w) ++ [(cb wt, Ok {| cs_publishing_id := id;
      confirmed := ok; status := code; cs_message := msg wt |})]) =
    calls_for i (called (pstate w)) ++ if decide (id = i) then [(cb wt, Ok {| cs_publishing_id := id;
      confirmed := ok; status := code; cs_message := msg wt |})] else []).
  { intros i. unfold calls_for. rewrite filter_app. f_equal.
    destruct (decide (id = i)) as [->|Hne]; [by rewrite filter_cons_True|].
    rewrite filter_cons_False; [done|]. cbn. congruence. }
  cbn in Ha, Ho, Hi. split; cbn.
  - intros a Hin. rewrite dm_get_remove, Hf. destruct (decide (id = a_id a)) as [->|Hne].
    + right. split; [done|].
      destruct (Ha a Hin) as [[Hg Hc]|[Hg _]]; [|congruence].
      rewrite Hc. assert (wt = a_waiter a) as -> by congruence. by exists ok, code.
    + rewrite app_nil_r. by apply Ha.
  - intros i Hin. rewrite dm_get_remove, Hf. destruct (Ho i Hin) as [Hg Hc].
    destruct (decide (id = i)) as [->|Hne]; [congruence|].
    by rewrite app_nil_r.
  - intros k r Hin. apply elem_of_app in Hin as [Hin|Hin]; [by eapply Hi|].
    apply list_elem_of_singleton in Hin. injection Hin as -> ->. by eexists.
Qed.

Lemma accounted_message {E} l item :
  keeps (λ w, accounted (core w) l) (confirm_handler (E:=E) item).
Proof.
  unfold confirm_handler. destruct item as [[r|e|x]|]; try apply keeps_ret.
  destruct (kind r); try apply keeps_ret.
  - apply keeps_bind; [apply keeps_each; intros id; apply (accounted_settle l id true ResponseCode_Ok)|].
    intros _. by apply keeps_modify.
  - apply keeps_each. intros err. apply (accounted_settle l _ false).
Qed.

Lemma producer_step_accepts s s' :
  producer_step s s' -> ∃ new, s'.2 = s.2 ++ new.
Proof. destruct 1; cbn; try (by exists []; rewrite app_nil_r); by eexists. Qed.

(** A run only adds to the accepted messages. *)
Lemma run_accepts s s' : rtc producer_step s s' -> ∃ new, s'.2 = s.2 ++ new.
Proof.
  induction 1 as [s|s1 s2 s3 H12 _ [new IH]]; [by exists []; rewrite app_nil_r|].
  apply producer_step_accepts in H12 as [new' E]. exists (new' ++ new). by rewrite IH, E, app_assoc.
Qed.

Lemma step_accounted s s' :
  producer_step s s' -> NoDup (map a_id s'.2) -> accounted (core s.1) s.2 ->
  accounted (core s'.1) s'.2.
Proof.
  intros Hs Hnd Hacc. destruct Hs; cbn in *.
  - rewrite internal_send_core. by apply accounted_accepts.
  - rewrite internal_batch_core. by apply accounted_accepts.
  - by rewrite (keeps_ignore _ _ (keeps_batch_send (core w)) w).
  - by apply accounted_message.
  - by apply (accounted_settle l id true ResponseCode_Ok).
  - by apply (accounted_settle l id false code).
  - by rewrite Producer_close_core.
Qed.

Lemma run_accounted s s' :
  rtc producer_step s s' -> NoDup (map a_id s'.2) -> accounted (core s.1) s.2 ->
  accounted (core s'.1) s'.2.
Proof.
  intros Hs. induction Hs as [s|s1 s2 s3 H12 H23 IH]; [done|]. intros Hnd Hacc.
  apply IH; [exact Hnd|]. eapply step_accounted; [exact H12| |exact Hacc].
  apply run_accepts in H23 as [new E]. rewrite E, map_app in Hnd.
  by apply NoDup_app in Hnd as (? & _ & _).
Qed.

Lemma fresh_accounted b n acc : accounted (core {| base := b; pstate := PState_new n acc |}) [].
Proof.
  split; cbn.
  - intros a Ha. by apply elem_of_nil in Ha.
  - intros id _. by rewrite dm_get_new.
  - intros k r Hr. by apply elem_of_nil in Hr.
Qed.

(** ** The ids a producer gives *)

(** Where no message brings an id, the ids count up from the first of the producer. *)
Definition counted (n : Z) (l : nat) : list Z :=
  map (λ i, (n + i) mod 2 ^ 64) (seqZ 0 (Z.of_nat l)).

Lemma counted_snoc n l : counted n (S l) = counted n l ++ [(n + Z.of_nat l) mod 2 ^ 64].
Proof.
  unfold counted. by rewrite seqZ_S, map_app.
Qed.

Lemma counted_distinct n l : Z.of_nat l <= 2 ^ 64 -> NoDup (counted n l).
Proof.
  intros Hl. unfold counted. apply NoDup_fmap_2_strong; [|apply NoDup_seqZ].
  intros i j Hi Hj E. rewrite elem_of_seqZ in Hi, Hj.
  assert (H : (n + i - (n + j)) mod 2 ^ 64 = 0) by (rewrite Zminus_mod, E, Z.sub_diag; done).
  apply Z.mod_divide in H as [q Hq]; lia.
Qed.

Definition unnumbered (a : accepted) : Prop := AmqpMessage.publishing_id (a_message a) = None.

Record numbered (n : Z) (c : dashmap ProducerMessageWaiter * list call * Z) (l : list accepted) :
    Prop := {
  num_ids : map a_id l = counted n (length l);
  num_next : c.2 = (n + len l) mod 2 ^ 64;
}.

(** The ids a list of accepted messages is given from a sequence number. *)
Fixpoint ids_from (seq : Z) (l : list accepted) : Prop :=
  match l with
  | [] => True
  | a :: l =>
      a_id a = default seq (AmqpMessage.publishing_id (a_message a)) /\ ids_from (next_id seq a) l
  end.

Lemma accepts_send_ids m k s : ids_from (p_publish_sequence s) (accepts_send m k s).
Proof. unfold accepts_send. by destruct (p_closed s). Qed.

Lemma accepts_batch_ids l k s : ids_from (p_publish_sequence s) (accepts_batch l k s).
Proof.
  unfold accepts_batch. destruct (p_closed s); [done|]. generalize (p_publish_sequence s).
  induction l as [|m l IH]; intros n; [done|]. cbn [map assign_ids].
  destruct (AmqpMessage.publishing_id m) as [id|] eqn:Em.
  - specialize (IH n). destruct (assign_ids _ _) as [ids n']. cbn. unfold next_id. cbn.
    by rewrite Em.
  - specialize (IH ((n + 1) mod 2 ^ 64)). destruct (assign_ids _ _) as [ids n']. cbn.
    unfold next_id. cbn. by rewrite Em.
Qed.

Lemma numbered_accepts n c l new :
  Forall unnumbered new -> ids_from c.2 new -> numbered n c l ->
  numbered n (fold_left wait_for new c) (l ++ new).
Proof.
  revert c l. induction new as [|a new IH]; intros c l Hf Hids Hn; cbn; [by rewrite app_nil_r|].
  apply Forall_cons in Hf as [Ha Hf]. destruct Hids as [Hid Hids], Hn as [Hl Hs].
  unfold unnumbered in Ha. rewrite Ha in Hid. cbn in Hid.
  rewrite (app_assoc l [a] new : l ++ a :: new = _). apply IH; [done|done|]. split.
  - rewrite length_app, map_app, Nat.add_1_r, counted_snoc, Hl.
    rewrite Hs in Hid. cbn. by rewrite Hid.
  - cbn. unfold next_id. rewrite Ha, Hs, Zplus_mod_idemp_l. f_equal. unfold len.
    rewrite length_app. cbn. lia.
Qed.

Lemma settle_sequence {E} n id ok code :
  keeps (λ w : PW, (core w).2 = n)
    (with_waiter (E:=E) id (settle_step (A:=unit) (λ _, id) ok (λ _, code) tt)).
Proof.
  intros w Hn. destruct (waiter_of (pstate w) id) as [wt|] eqn:Hwt;
    [by rewrite (with_waiter_known _ _ _ _ Hwt)|by rewrite with_waiter_unknown].
Qed.

Lemma keeps_sequence {E} n item :
  keeps (λ w : PW, (core w).2 = n) (confirm_handler (E:=E) item).
Proof.
  unfold confirm_handler. destruct item as [[r|e|x]|]; try apply keeps_ret.
  destruct (kind r); try apply keeps_ret.
  - apply keeps_bind; [apply keeps_each; intros id; apply (settle_sequence n id true ResponseCode_Ok)|].
    intros _. by apply keeps_modify.
  - apply keeps_each. intros err. apply (settle_sequence n _ false).
Qed.

Lemma same_sequence w w' n l : (core w').2 = (core w).2 -> numbered n (core w) l -> numbered n (core w') l.
Proof. intros Hw [Hi Hq]. split; [exact Hi|]. by rewrite Hw. Qed.

Lemma step_numbered n s s' :
  producer_step s s' -> Forall unnumbered s'.2 -> numbered n (core s.1) s.2 ->
  numbered n (core s'.1) s'.2.
Proof.
  intros Hs Hf Hn. destruct Hs; cbn [fst snd] in *.
  - apply Forall_app in Hf as [_ Hf]. rewrite internal_send_core.
    apply numbered_accepts; [done|apply accepts_send_ids|done].
  - apply Forall_app in Hf as [_ Hf]. rewrite internal_batch_core.
    apply numbered_accepts; [done|apply accepts_batch_ids|done].
  - by rewrite (keeps_ignore _ _ (keeps_batch_send (core w)) w).
  - apply (same_sequence w); [|done]. by apply (keeps_sequence (E:=ClientError.t) (core w).2).
  - apply (same_sequence w); [|done]. by apply (settle_sequence (core w).2 id true ResponseCode_Ok).
  - apply (same_sequence w); [|done]. by apply (settle_sequence (core w).2 id false code).
  - by rewrite Producer_close_core.
Qed.

Lemma run_numbered n s s' :
  rtc producer_step s s' -> Forall unnumbered s'.2 -> numbered n (core s.1) s.2 ->
  numbered n (core s'.1) s'.2.
Proof.
  intros Hs. induction Hs as [s|s1 s2 s3 H12 H23 IH]; [done|]. intros Hf Hn.
  apply IH; [exact Hf|]. eapply step_numbered; [exact H12| |exact Hn].
  apply run_accepts in H23 as [new E]. rewrite E in Hf. by apply Forall_app in Hf as [? _].
Qed.

Lemma fresh_numbered b n acc :
  0 <= n < 2 ^ 64 -> numbered n (core {| base := b; pstate := PState_new n acc |}) [].
Proof. intros Hn. split; [done|]. cbn. by rewrite Z.add_0_r, Z.mod_small. Qed.

(** ** Waiting for a confirmation *)

(** What the server may say of an accepted message. *)
Definition verdict_on (a : accepted) (r : result ProducerPublishError.t ConfirmationStatus) : Prop :=
  ∃ ok code, r = Ok {| cs_publishing_id := a_id a; confirmed := ok; status := code;
                       cs_message := a_message a |}.

Lemma elem_of_calls_of k r (s : PState) : r ∈ calls_of k s <-> (k, r) ∈ called s.
Proof.
  unfold calls_of. rewrite list_elem_of_omap. split.
  - intros ([k' r'] & Hin & H). destruct (decide (k' = k)) as [->|]; by simplify_eq.
  - intros Hin. exists (k, r). split; [done|]. by rewrite decide_True.
Qed.

(** The one accepted message with a callback: every call of it is its verdict, and
    there is one when no waiter holds it. *)
Section one_callback.
Context (l : list accepted) (a : accepted) (Ha : a ∈ l).
Context (Hone : ∀ b, b ∈ l -> a_callback b = a_callback a -> b = a).

Lemma own_calls w r :
  accounted (core w) l -> r ∈ calls_of (a_callback a) (pstate w) ->
  verdict_on a r /\ calls_for (a_id a) (called (pstate w)) = [(a_callback a, r)].
Proof.
  intros [Hacc Ho Hi] Hr%elem_of_calls_of. destruct (Hi _ _ Hr) as [id Hid].
  assert (Hfor : (a_callback a, r) ∈ calls_for id (called (pstate w)))
    by by apply list_elem_of_filter.
  destruct (decide (id ∈ map a_id l)) as [(b & -> & Hb)%list_elem_of_fmap|Hnot].
  - destruct (Hacc b Hb) as [[_ Hc]|[_ (ok & code & Hs)]]; cbn in Hc || cbn in Hs.
    { rewrite Hc in Hfor. by apply elem_of_nil in Hfor. }
    rewrite Hs in Hfor. apply list_elem_of_singleton in Hfor. injection Hfor as Hk ->.
    assert (b = a) as -> by by apply Hone. split; [by exists ok, code|]. exact Hs.
  - destruct (Ho id Hnot) as [_ Hc]. cbn in Hc. rewrite Hc in Hfor. by apply elem_of_nil in Hfor.
Qed.

Lemma own_called w :
  accounted (core w) l -> held (a_callback a) (pstate w) = false ->
  is_Some (calls_of (a_callback a) (pstate w) !! 0%nat).
Proof.
  intros [Hacc _ _] Hh. destruct (Hacc a Ha) as [[Hw _]|[_ (ok & code & Hs)]]; cbn in Hw || cbn in Hs.
  - apply dm_iter_get in Hw. exfalso. unfold held in Hh.
    assert (Ht : existsb (λ kv, (cb kv.2 =? a_callback a)%nat)
      (dm_iter (waiting_confirmations (pstate w))) = true); [|congruence].
    apply existsb_exists. eexists. split; [by apply list_elem_of_In, Hw|]. by apply Nat.eqb_refl.
  - assert (Hin : (a_callback a, Ok {| cs_publishing_id := a_id a; confirmed := ok; status := code;
      cs_message := a_message a |}) ∈ called (pstate w)).
    { assert (H : (a_callback a, Ok {| cs_publishing_id := a_id a; confirmed := ok; status := code;
        cs_message := a_message a |}) ∈ calls_for (a_id a) (called (pstate w))) by (rewrite Hs; by left).
      by apply list_elem_of_filter in H as [_ ?]. }
    apply elem_of_calls_of in Hin. destruct (calls_of (a_callback a) (pstate w)); [by apply elem_of_nil in Hin|].
    by eexists.
Qed.

Lemma keeps_others {E} : keeps (λ w, accounted (core w) l) (others (E:=E) p).
Proof.
  unfold others. apply keeps_bind.
  { intros w Hw. by rewrite (keeps_ignore _ _ (keeps_batch_send (core w)) w). }
  intros _. apply keeps_bind.
  { apply keeps_attempt. intros w Hw. by rewrite (keeps_on_base (core w) _ w). }
  intros [e|[m|]]; try apply keeps_ret. apply keeps_bind; [|intros _; apply keeps_ret].
  apply keeps_detached, accounted_message.
Qed.

Lemma others_throws {E} w w' (e : E) : others p w <> Throws w' e.
Proof.
  unfold others, batch_tick, ignore, attempt, detached, mbind, io_bind.
  destruct (p_batch_send p w) as [w1 []|w1 e1|w1 x|w1]; cbn; try done;
    (destruct (on_base (api_message (client p)) w1) as [w2 [m|]| | |]; cbn; try done;
     by destruct (confirm_handler m w2)).
Qed.

(** What the wait gives is the verdict; it is never the end of the channel. *)
Lemma await_own turns w :
  accounted (core w) l ->
  match await_call p turns (a_callback a) 0 w with
  | Returns _ o => ∃ r, o = Some r /\ verdict_on a r
  | Throws _ _ => False
  | _ => True
  end.
Proof.
  revert w. induction turns as [|turns IH]; intros w Hw; cbn [await_call]; unfold mbind at 1, io_bind, pgets, gets.
  all: destruct (calls_of (a_callback a) (pstate w) !! 0%nat) as [r|] eqn:Er.
  1, 3: exists r; split; [done|]; apply (own_calls w); [done|]; by eapply list_elem_of_lookup_2.
  all: unfold mbind at 1, io_bind; destruct (held (a_callback a) (pstate w)) eqn:Eh; cbn [negb];
    [|by destruct (own_called w Hw Eh); simplify_eq].
  - done.
  - pose proof (keeps_others (E:=ProducerPublishError.t) w Hw) as Ho. unfold mbind, io_bind.
    destruct (others p w) as [w1 [|]|w1 e| |] eqn:Eo; try done; [by apply IH|].
    by apply others_throws in Eo.
Qed.

End one_callback.

Definition next_accepted (m : Message) (s : PState) : accepted :=
  {| a_id := id_of m s; a_callback := next_cb s; a_message := m |}.

(** The sending part of [send_with_confirm], and what it leaves. *)
Definition sending (m : Message) : io PW ProducerPublishError.t unit := λ w,
  internal_send overflow_checks p m (next_cb (pstate w)) (on_pstate new_cb w).

Lemma sending_accounted m (w : PW) l w1 :
  let a := next_accepted m (pstate w) in
  accounted (core w) l -> a_id a ∉ map a_id l -> sending m w = Returns w1 tt ->
  accounted (core w1) (l ++ [a]).
Proof.
  intros a Hacc Hid E.
  pose proof (internal_send_core m (next_cb (pstate w)) (on_pstate new_cb w)) as Hc.
  unfold sending in E. rewrite E in Hc. cbn [outcome_state] in Hc. rewrite Hc. unfold accepts_send. cbn [pstate on_pstate].
  destruct (p_closed (new_cb (pstate w))) eqn:Ec.
  - exfalso. unfold internal_send in E. rewrite (io_bind_returns _ _ _ (on_pstate new_cb w) true) in E; [done|].
    unfold pgets, gets. cbn. cbn in Ec. by rewrite Ec.
  - by apply accounted_accept.
Qed.

Lemma send_with_confirm_eq turns m (w : PW) :
  do_send_with_confirm overflow_checks p turns m w =
  (sending m;;
   r ← await_call p turns (next_cb (pstate w)) 0;
   r ← ok_or r (ProducerPublishError.Confirmation (p_stream p));
   map_throws wrap_publish_error (of_result r)) w.
Proof. done. Qed.

Lemma new_callback (l : list accepted) a :
  (∀ b, b ∈ l -> a_callback b <> a_callback a) ->
  ∀ b, b ∈ l ++ [a] -> a_callback b = a_callback a -> b = a.
Proof.
  intros Hl b [Hb|Hb]%elem_of_app He; [by destruct (Hl b Hb)|by apply list_elem_of_singleton in Hb].
Qed.

(** [send_with_confirm] gives the verdict on the message it sent, or the error of
    the sending, whatever else the producer is told. *)
Lemma send_with_confirm_own turns m (w : PW) l :
  let a := next_accepted m (pstate w) in
  accounted (core w) l -> a_id a ∉ map a_id l ->
  (∀ b, b ∈ l -> a_callback b <> a_callback a) ->
  match do_send_with_confirm overflow_checks p turns m w with
  | Returns _ cs => cs_publishing_id cs = a_id a /\ cs_message cs = m
  | Throws w' e => sending m w = Throws w' e
  | _ => True
  end.
Proof.
  intros a Hacc Hid Hcb. rewrite send_with_confirm_eq.
  destruct (sending m w) as [w1 []|w1 e|w1 x|w1] eqn:E; unfold mbind at 1, io_bind; rewrite E; [|done..].
  pose proof (sending_accounted m w l w1 Hacc Hid E) as Hw1. fold a in Hw1.
  assert (Ha : a ∈ l ++ [a]) by (apply elem_of_app; right; by left).
  pose proof (await_own (l ++ [a]) a Ha (new_callback l a Hcb) turns w1 Hw1) as Ho.
  change (a_callback a) with (next_cb (pstate w)) in Ho.
  unfold mbind, io_bind. destruct (await_call p turns (next_cb (pstate w)) 0 w1) as [w2 o|w2 e| |]; try done.
  by destruct Ho as (r & -> & ok & code & ->).
Qed.

(** *** The verdicts of a frame *)

Record verdict := { v_id : Z; v_confirmed : bool; v_status : ResponseCode }.

Definition verdicts (item : MessageResult) : list verdict :=
  match item with
  | Some (Ok response) =>
      match kind response with
      | ResponseKind_PublishConfirm c =>
          map (λ id, {| v_id := id; v_confirmed := true; v_status := ResponseCode_Ok |})
            (publish_confirm.publishing_ids c)
      | ResponseKind_PublishError e =>
          map (λ err, {| v_id := PublishingErrors.publishing_id err; v_confirmed := false;
                         v_status := PublishingErrors.error_code err |})
            (publish_error.publishing_errors e)
      | _ => []
      end
  | _ => []
  end.

Definition status_of (m : Message) (v : verdict) : ConfirmationStatus :=
  {| cs_publishing_id := v_id v; confirmed := v_confirmed v; status := v_status v;
     cs_message := m |}.

Lemma settle_calls_in {A} (id : A -> Z) ok code s x wt l :
  x ∈ l -> waiter_of s (id x) = Some wt ->
  confirmation (id x) ok (code x) wt ∈ settle_calls id ok code s l.
Proof. intros Hx Hw. apply list_elem_of_omap. exists x. by rewrite Hw. Qed.

(** A frame whose ids all wait calls the callback of each with its verdict. *)
Lemma frame_calls {E} item (w : PW) v wt :
  NoDup (map v_id (verdicts item)) ->
  (∀ u, u ∈ verdicts item -> is_Some (waiter_of (pstate w) (v_id u))) ->
  v ∈ verdicts item -> waiter_of (pstate w) (v_id v) = Some wt ->
  ∃ w', confirm_handler (E:=E) item w = Returns w' tt /\
    Ok (status_of (msg wt) v) ∈ calls_of (cb wt) (pstate w').
Proof.
  intros Hnd Hall Hv Hwt. destruct item as [[r|e|x]|]; try by apply elem_of_nil in Hv.
  cbn [verdicts confirm_handler] in *. destruct (kind r); try by apply elem_of_nil in Hv.
  - apply list_elem_of_fmap in Hv as (id & -> & Hv). rewrite map_map in Hnd.
    destruct (settle_all (E:=E) (λ id, id) true (λ _, ResponseCode_Ok)
      (publish_confirm.publishing_ids response) w Hnd) as (s & E1 & Hs).
    { intros i Hi. apply (Hall {| v_id := i; v_confirmed := true; v_status := ResponseCode_Ok |}).
      apply list_elem_of_fmap. by exists i. }
    rewrite (io_bind_returns _ _ _ _ _ E1). eexists. split; [reflexivity|].
    apply elem_of_calls_of. cbn. rewrite (sb_calls _ _ _ _ _ _ Hs). apply elem_of_app. right.
    exact (settle_calls_in (λ id, id) true (λ _, ResponseCode_Ok) _ _ _ _ Hv Hwt).
  - apply list_elem_of_fmap in Hv as (err & -> & Hv). rewrite map_map in Hnd.
    destruct (settle_all (E:=E) PublishingErrors.publishing_id false PublishingErrors.error_code
      (publish_error.publishing_errors response) w Hnd) as (s & E1 & Hs).
    { intros i Hi. apply (Hall {| v_id := PublishingErrors.publishing_id i; v_confirmed := false;
        v_status := PublishingErrors.error_code i |}).
      apply list_elem_of_fmap. by exists i. }
    eexists. split; [exact E1|].
    apply elem_of_calls_of. cbn. rewrite (sb_calls _ _ _ _ _ _ Hs). apply elem_of_app. right.
    exact (settle_calls_in PublishingErrors.publishing_id false PublishingErrors.error_code
      _ _ _ _ Hv Hwt).
Qed.

(** One turn of the timer and the handler, when a frame of verdicts comes. *)
Lemma others_frame {E} (w w2 : PW) s3 item w4 :
  batch_tick (E:=E) p w = Returns w2 tt ->
  api_message (client p) (base w2) = Returns s3 (Some item) ->
  confirm_handler (E:=E) item (set_base s3 w2) = Returns w4 tt ->
  others (E:=E) p w = Returns w4 true.
Proof.
  intros E1 E2 E3. unfold others. rewrite (io_bind_returns _ _ _ _ _ E1).
  rewrite (io_bind_returns _ _ w2 (set_base s3 w2) (inr (Some item)))
    by (unfold attempt, on_base, zoom; by rewrite E2).
  rewrite (io_bind_returns _ _ (set_base s3 w2) w4 tt) by (unfold detached; by rewrite E3).
  done.
Qed.

(** The wait, with the verdict in the next frame. *)
Lemma await_frame turns (w w2 : PW) l a s3 item v :
  a ∈ l -> (∀ b, b ∈ l -> a_callback b = a_callback a -> b = a) -> accounted (core w) l ->
  batch_tick (E:=ProducerPublishError.t) p w = Returns w2 tt ->
  api_message (client p) (base w2) = Returns s3 (Some item) ->
  NoDup (map v_id (verdicts item)) ->
  (∀ u, u ∈ verdicts item -> is_Some (waiter_of (pstate w2) (v_id u))) ->
  v ∈ verdicts item -> v_id v = a_id a ->
  ∃ w', await_call p (S turns) (a_callback a) 0 w =
    Returns w' (Some (Ok (status_of (a_message a) v))).
Proof.
  intros Ha Hone Hacc E1 E2 Hnd Hall Hv Hid.
  assert (Hcore : core w2 = core w).
  { pose proof (keeps_ignore (F:=ProducerPublishError.t) _ _ (keeps_batch_send (core w)) w eq_refl) as H.
    unfold batch_tick in E1. by rewrite E1 in H. }
  assert (Hacc2 : accounted (core w2) l) by by rewrite Hcore.
  destruct (Hall v Hv) as [wt Hwt]. rewrite Hid in Hwt.
  destruct (acc_accepted _ _ Hacc2 a Ha) as [[Hw Hnone]|[Hw _]]; cbn in Hw, Hnone || cbn in Hw;
    [|unfold waiter_of in Hwt; congruence].
  assert (wt = a_waiter a) as -> by (unfold waiter_of in Hwt; congruence).
  destruct (frame_calls (E:=ProducerPublishError.t) item (set_base s3 w2) v (a_waiter a) Hnd Hall Hv)
    as (w4 & E3 & Hin); [by rewrite Hid|]. cbn [msg cb a_waiter] in Hin.
  pose proof (accounted_message (E:=ProducerPublishError.t) l item (set_base s3 w2) Hacc2) as Hacc4.
  rewrite E3 in Hacc4. cbn [outcome_state] in Hacc4.
  destruct (own_calls l a Hone w4 _ Hacc4 Hin) as [_ Hone4].
  assert (Hnow : calls_of (a_callback a) (pstate w) !! 0%nat = None).
  { destruct (calls_of (a_callback a) (pstate w)) as [|r rs] eqn:Er; [done|]. exfalso.
    destruct (own_calls l a Hone w r Hacc) as [_ H]; [rewrite Er; by left|].
    change (called (pstate w)) with (core w).1.2 in H. rewrite <- Hcore in H. cbn in H. congruence. }
  assert (Hheld : held (a_callback a) (pstate w) = true).
  { apply existsb_exists. exists (a_id a, a_waiter a). split; [|apply Nat.eqb_refl].
    apply list_elem_of_In, dm_iter_get. change (waiting_confirmations (pstate w)) with (core w).1.1.
    rewrite <- Hcore. exact Hw. }
  exists w4. cbn [await_call]. unfold mbind at 1, io_bind, pgets, gets. rewrite Hnow.
  unfold mbind at 1, io_bind. rewrite Hheld. cbn [negb].
  rewrite (io_bind_returns _ _ _ _ _ (others_frame _ _ _ _ _ E1 E2 E3)).
  assert (Hlast : calls_of (a_callback a) (pstate w4) !! 0%nat = Some (Ok (status_of (a_message a) v))).
  { destruct (calls_of (a_callback a) (pstate w4)) as [|r rs] eqn:Er; [by apply elem_of_nil in Hin|].
    destruct (own_calls l a Hone w4 r Hacc4) as [_ H]; [rewrite Er; by left|].
    cbn. congruence. }
  destruct turns; cbn [await_call]; unfold mbind at 1, io_bind, pgets, gets; by rewrite Hlast.
Qed.

Lemma send_with_confirm_settled turns m (w w1 w2 : PW) l s3 item v :
  let a := next_accepted m (pstate w) in
  accounted (core w) l -> a_id a ∉ map a_id l ->
  (∀ b, b ∈ l -> a_callback b <> a_callback a) ->
  sending m w = Returns w1 tt ->
  batch_tick (E:=ProducerPublishError.t) p w1 = Returns w2 tt ->
  api_message (client p) (base w2) = Returns s3 (Some item) ->
  NoDup (map v_id (verdicts item)) ->
  (∀ u, u ∈ verdicts item -> is_Some (waiter_of (pstate w2) (v_id u))) ->
  v ∈ verdicts item -> v_id v = a_id a ->
  ∃ w', do_send_with_confirm overflow_checks p (S turns) m w = Returns w' (status_of m v).
Proof.
  intros a Hacc Hid Hcb E E1 E2 Hnd Hall Hv Hva.
  pose proof (sending_accounted m w l w1 Hacc Hid E) as Hw1. fold a in Hw1.
  assert (Ha : a ∈ l ++ [a]) by (apply elem_of_app; right; by left).
  destruct (await_frame turns w1 w2 (l ++ [a]) a s3 item v Ha (new_callback l a Hcb) Hw1 E1 E2
    Hnd Hall Hv Hva) as (w' & Ew).
  exists w'. rewrite send_with_confirm_eq, (io_bind_returns _ _ _ _ _ E).
  change (a_callback a) with (next_cb (pstate w)) in Ew.
  by rewrite (io_bind_returns _ _ _ _ _ Ew).
Qed.

End runs.
