(* ===== verification/Consumer.v ===== *)
(** * Consumers

    src/consumer.rs, over the client interface.

    The handler of a consumer turns every chunk the server delivers into
    deliveries on a channel the application polls, and grants the server one more
    credit per chunk.  [ConsumerInternal] are the fields that never change,
    [CState] the channel, the closed flag and the waker. *)
From S2P Require Import Prelude Utf8 HashMaps Integers Codec Protocol.
From S2P Require Import Session Streams Producing Consuming.
From S2P Require Import AmqpCodes AmqpSimple AmqpValue AmqpMessage Messages Request Response.
From S2P Require Import ClientCodec Effects Dispatcher Options Client ClientApi Errors Environment.

Section consumer.
Context {X : AmqpExt} {MC : Mpsc} {RD : Random}.
Context {St C : Type} {API : ClientApi St C} (attempts : nat).

Record FilterConfiguration := {
  filter_values : list bytes;
  predicate : option (Message -> bool);
  match_unfiltered : bool;
}.

Definition FilterConfiguration_new (filter_values : list bytes) (match_unfiltered : bool) :=
  {| filter_values := filter_values; predicate := None; match_unfiltered := match_unfiltered |}.
Definition post_filter (f : Message -> bool) (c : FilterConfiguration) : FilterConfiguration :=
  {| filter_values := filter_values c; predicate := Some f;
     match_unfiltered := match_unfiltered c |}.

Record MessageContext := { mc_name : bytes; mc_stream : bytes; mc_client : C }.

(** The listener of the application may call the client; it never fails. *)
Definition ConsumerUpdateListener : Type :=
  Z -> MessageContext -> io St Empty_set subscribe.OffsetSpecification.

Record Delivery := {
  d_name : option bytes;
  d_stream : bytes;
  d_subscription_id : Z;
  d_message : Message;
  d_offset : Z;
}.

Record ConsumerInternal := {
  c_name : option bytes;
  c_client : C;
  c_stream : bytes;
  c_offset_specification : subscribe.OffsetSpecification;
  c_subscription_id : Z;
  c_filter_configuration : option FilterConfiguration;
  c_consumer_update_listener : option ConsumerUpdateListener;
}.

Record CState := {
  c_channel : mpsc (result ConsumerDeliveryError.t Delivery);
  c_closed : bool;
  c_wakes : Z;
  c_collected : list Z;
}.

Record KW := { cbase : St; cstate : CState }.

Definition set_cbase (s : St) (w : KW) : KW := {| cbase := s; cstate := cstate w |}.
Definition cmodify {E} (f : CState -> CState) : io KW E unit :=
  modify (λ w, {| cbase := cbase w; cstate := f (cstate w) |}).
Definition cgets {E A} (f : CState -> A) : io KW E A := gets (λ w, f (cstate w)).

Definition set_channel (c : mpsc (result ConsumerDeliveryError.t Delivery)) (s : CState) : CState :=
  {| c_channel := c; c_closed := c_closed s; c_wakes := c_wakes s; c_collected := c_collected s |}.
Definition set_cclosed (s : CState) : CState :=
  {| c_channel := c_channel s; c_closed := true; c_wakes := c_wakes s;
     c_collected := c_collected s |}.
Definition wake (s : CState) : CState :=
  {| c_channel := c_channel s; c_closed := c_closed s; c_wakes := c_wakes s + 1;
     c_collected := c_collected s |}.
Definition collect_consumed (n : Z) (s : CState) : CState :=
  {| c_channel := c_channel s; c_closed := c_closed s; c_wakes := c_wakes s;
     c_collected := c_collected s ++ [n] |}.

Definition on_cbase {E A} (m : io St E A) : io KW E A := zoom cbase set_cbase m.

(** ** ConsumerMessageHandler *)

Section handler.
Context (overflow_checks : bool) (c : ConsumerInternal).

(** [self.0.sender.send(x).await], whose result is ignored: it waits while the
    channel is full. *)
Definition send_delivery {E} (d : result ConsumerDeliveryError.t Delivery) : io KW E unit :=
  ch ← cgets c_channel;
  if len (mpsc_buffer ch) <? mpsc_capacity ch
  then cmodify (set_channel (mpsc_send d ch))
  else await_forever.

(** [offset += 1] on a [u64]. *)
Definition add_u64 {E} (x y : Z) : result E Z :=
  if overflow_checks && (2 ^ 64 <=? x + y) then Panic ExplicitPanic else Ok ((x + y) mod 2 ^ 64).

Definition client_filter (messages : list Message) : list Message :=
  match c_filter_configuration c with
  | Some filter_input =>
      match predicate filter_input with
      | Some f => List.filter f messages
      | None => messages
      end
  | None => messages
  end.

Definition delivery (message : Message) (offset : Z) : Delivery :=
  {| d_name := c_name c; d_stream := c_stream c; d_subscription_id := c_subscription_id c;
     d_message := message; d_offset := offset |}.

Definition skipped (offset : Z) : bool :=
  match c_offset_specification c with
  | subscribe.Offset offset_ => offset <? offset_
  | _ => false
  end.

Fixpoint deliver_messages {E} (messages : list Message) (offset : Z) : io KW E unit :=
  match messages with
  | [] => mret tt
  | message :: messages =>
      (if skipped offset then mret tt else send_delivery (Ok (delivery message offset)));;
      offset ← of_result (add_u64 offset 1);
      deliver_messages messages offset
  end.

(** The context of the listener needs the name of the consumer. *)
Definition update_listener (l : ConsumerUpdateListener) (active : Z) :
    io KW ClientError.t subscribe.OffsetSpecification :=
  match c_name c with
  | None => crash UnwrapNone
  | Some name =>
      map_throws (λ e : Empty_set, match e with end)
        (on_cbase (l active {| mc_name := name; mc_stream := c_stream c;
                               mc_client := c_client c |}))
  end.

Definition consumer_handler (item : MessageResult) : io KW ClientError.t unit :=
  match item with
  | Some (Ok response) =>
      match kind response with
      | ResponseKind_Deliver delivery =>
          deliver_messages (client_filter (deliver.messages delivery))
                           (deliver.chunk_first_offset delivery);;
          ignore (E:=ClientError.t) (on_cbase (api_credit (c_client c) (c_subscription_id c) 1));;
          cmodify (collect_consumed (len (deliver.messages delivery)))
      | ResponseKind_ConsumerUpdate u =>
          offset_specification ←
            match c_consumer_update_listener c with
            | None => mret subscribe.Next
            | Some l => update_listener l (consumer_update.active u)
            end;
          ignore (E:=ClientError.t) (on_cbase (api_consumer_update (c_client c)
            (consumer_update.correlation_id u) offset_specification))
      | _ => mret tt
      end
  | Some (Err err) => send_delivery (Err (ConsumerDeliveryError.Client err))
  | Some (Panic p) => crash p
  | None => cmodify set_cclosed;; cmodify wake
  end.

End handler.

(** ** Consumer *)

(** [poll_next]: what polling the stream answers. *)
Inductive poll (A : Type) := Ready (a : A) | Pending.
Arguments Ready {A} _.
Arguments Pending {A}.

Definition poll_recv (ch : mpsc (result ConsumerDeliveryError.t Delivery)) :
    mpsc (result ConsumerDeliveryError.t Delivery) *
    poll (option (result ConsumerDeliveryError.t Delivery)) :=
  let '(r, ch) := mpsc_recv ch in
  (ch, match r with
       | Received d => Ready (Some d)
       | Disconnected => Ready None
       | Waiting => Pending
       end).

(** [match (self.is_closed(), poll.is_ready())] *)
Definition poll_closed {A} (is_closed : bool) (p : poll (option A)) : poll (option A) :=
  match is_closed, p with
  | true, Pending => Ready None
  | _, _ => p
  end.

Definition poll_next {E} : io KW E (poll (option (result ConsumerDeliveryError.t Delivery))) := λ w,
  let '(ch, p) := poll_recv (c_channel (cstate w)) in
  Returns {| cbase := cbase w; cstate := set_channel ch (cstate w) |}
          (poll_closed (c_closed (cstate w)) p).

Definition store_call {A} (m : io St ClientError.t A) : io KW ConsumerStoreOffsetError.t A :=
  map_throws ConsumerStoreOffsetError.Client (on_cbase m).

Definition c_store_offset (c : ConsumerInternal) (offset : Z) :
    io KW ConsumerStoreOffsetError.t unit :=
  match c_name c with
  | Some name => store_call (api_store_offset (c_client c) name (c_stream c) offset)
  | None => throw ConsumerStoreOffsetError.NameMissing
  end.

Definition c_query_offset (c : ConsumerInternal) : io KW ConsumerStoreOffsetError.t Z :=
  match c_name c with
  | Some name => store_call (api_query_offset (c_client c) name (c_stream c))
  | None => throw ConsumerStoreOffsetError.NameMissing
  end.

Definition cclose_call {A} (m : io St ClientError.t A) : io KW ConsumerCloseError.t A :=
  map_throws ConsumerCloseError.Client (on_cbase m).

Definition internal_close (c : ConsumerInternal) : io KW ConsumerCloseError.t unit :=
  is_closed ← cgets c_closed;
  if (is_closed : bool) then throw ConsumerCloseError.AlreadyClosed
  else
    cmodify set_cclosed;;
    response ← cclose_call (api_unsubscribe (c_client c) (c_subscription_id c));
    if generic.GenericResponse_is_ok response
    then cmodify wake;; cclose_call (api_close (c_client c));; mret tt
    else throw (ConsumerCloseError.Close (c_stream c) (generic.code response)).

(** ** ConsumerBuilder *)

Record ConsumerBuilder := {
  consumer_name : option bytes;
  cb_environment : Environment;
  cb_offset_specification : subscribe.OffsetSpecification;
  cb_filter_configuration : option FilterConfiguration;
  cb_consumer_update_listener : option ConsumerUpdateListener;
  cb_client_provided_name : bytes;
  cb_properties : list (bytes * bytes);
  is_single_active_consumer : bool;
}.

(** [Environment::consumer] *)
Definition Environment_consumer (env : Environment) : ConsumerBuilder :=
  {| consumer_name := None; cb_environment := env; cb_offset_specification := subscribe.Next;
     cb_filter_configuration := None; cb_consumer_update_listener := None;
     cb_client_provided_name := str "rust-stream-consumer"; cb_properties := [];
     is_single_active_consumer := false |}.

(** The setters of the builder. *)
Definition cb_set_offset (o : subscribe.OffsetSpecification) (b : ConsumerBuilder) : ConsumerBuilder :=
  {| consumer_name := consumer_name b; cb_environment := cb_environment b;
     cb_offset_specification := o; cb_filter_configuration := cb_filter_configuration b;
     cb_consumer_update_listener := cb_consumer_update_listener b;
     cb_client_provided_name := cb_client_provided_name b; cb_properties := cb_properties b;
     is_single_active_consumer := is_single_active_consumer b |}.
Definition cb_set_client_provided_name (n : bytes) (b : ConsumerBuilder) : ConsumerBuilder :=
  {| consumer_name := consumer_name b; cb_environment := cb_environment b;
     cb_offset_specification := cb_offset_specification b;
     cb_filter_configuration := cb_filter_configuration b;
     cb_consumer_update_listener := cb_consumer_update_listener b; cb_client_provided_name := n;
     cb_properties := cb_properties b;
     is_single_active_consumer := is_single_active_consumer b |}.
Definition cb_set_name_optional (n : option bytes) (b : ConsumerBuilder) : ConsumerBuilder :=
  {| consumer_name := n; cb_environment := cb_environment b;
     cb_offset_specification := cb_offset_specification b;
     cb_filter_configuration := cb_filter_configuration b;
     cb_consumer_update_listener := cb_consumer_update_listener b;
     cb_client_provided_name := cb_client_provided_name b; cb_properties := cb_properties b;
     is_single_active_consumer := is_single_active_consumer b |}.
Definition cb_set_name (n : bytes) (b : ConsumerBuilder) : ConsumerBuilder :=
  cb_set_name_optional (Some n) b.
Definition cb_enable_single_active_consumer (x : bool) (b : ConsumerBuilder) : ConsumerBuilder :=
  {| consumer_name := consumer_name b; cb_environment := cb_environment b;
     cb_offset_specification := cb_offset_specification b;
     cb_filter_configuration := cb_filter_configuration b;
     cb_consumer_update_listener := cb_consumer_update_listener b;
     cb_client_provided_name := cb_client_provided_name b; cb_properties := cb_properties b;
     is_single_active_consumer := x |}.
Definition cb_set_filter_input (f : option FilterConfiguration) (b : ConsumerBuilder) : ConsumerBuilder :=
  {| consumer_name := consumer_name b; cb_environment := cb_environment b;
     cb_offset_specification := cb_offset_specification b; cb_filter_configuration := f;
     cb_consumer_update_listener := cb_consumer_update_listener b;
     cb_client_provided_name := cb_client_provided_name b; cb_properties := cb_properties b;
     is_single_active_consumer := is_single_active_consumer b |}.
Definition cb_set_consumer_update_arc (l : option ConsumerUpdateListener) (b : ConsumerBuilder) : ConsumerBuilder :=
  {| consumer_name := consumer_name b; cb_environment := cb_environment b;
     cb_offset_specification := cb_offset_specification b;
     cb_filter_configuration := cb_filter_configuration b; cb_consumer_update_listener := l;
     cb_client_provided_name := cb_client_provided_name b; cb_properties := cb_properties b;
     is_single_active_consumer := is_single_active_consumer b |}.
Definition cb_set_consumer_update (l : ConsumerUpdateListener) (b : ConsumerBuilder) : ConsumerBuilder :=
  cb_set_consumer_update_arc (Some l) b.
Definition cb_set_properties (m : list (bytes * bytes)) (b : ConsumerBuilder) : ConsumerBuilder :=
  {| consumer_name := consumer_name b; cb_environment := cb_environment b;
     cb_offset_specification := cb_offset_specification b;
     cb_filter_configuration := cb_filter_configuration b;
     cb_consumer_update_listener := cb_consumer_update_listener b;
     cb_client_provided_name := cb_client_provided_name b; cb_properties := m;
     is_single_active_consumer := is_single_active_consumer b |}.

Definition bool_to_string (b : bool) : bytes := if b then str "true" else str "false".

(** [enumerate()] over the filter values. *)
Fixpoint filter_properties (index : Z) (values : list bytes) (m : list (bytes * bytes)) :
    list (bytes * bytes) :=
  match values with
  | [] => m
  | item :: values =>
      filter_properties (index + 1) values
        (hm_insert key_eqb (str "filter." ++ to_string index) item m)
  end.

(** The properties of the subscription: those of the application, the filter and
    the single active consumer, in this order. *)
Definition subscription_properties (b : ConsumerBuilder) (name : bytes) : list (bytes * bytes) :=
  let m := cb_properties b in
  let m := match cb_filter_configuration b with
           | Some f =>
               hm_insert key_eqb (str "match-unfiltered") (bool_to_string (match_unfiltered f))
                 (filter_properties 0 (filter_values f) m)
           | None => m
           end in
  if is_single_active_consumer b
  then hm_insert key_eqb (str "name") name
         (hm_insert key_eqb (str "single-active-consumer") (str "true") m)
  else m.

(** [mpsc::channel(10000)] *)
Definition CState_new : CState :=
  {| c_channel := mpsc_channel 10000; c_closed := false; c_wakes := 0; c_collected := [] |}.

Definition single_active_without_name (b : ConsumerBuilder) : bool :=
  (is_single_active_consumer b ||
     match hm_get key_eqb (str "single-active-consumer") (cb_properties b) with
     | Some _ => true | None => false
     end) && match consumer_name b with None => true | Some _ => false end.

Definition ConsumerBuilder_build (b : ConsumerBuilder) (stream : bytes) :
    io St ConsumerCreateError.t (ConsumerInternal * CState) :=
  if single_active_without_name b
  then throw ConsumerCreateError.SingleActiveConsumerNotSupported
  else
    c ← create_consumer_client attempts (cb_environment b) stream (cb_client_provided_name b);
    let subscription_id := 1 in
    let consumer :=
      {| c_name := consumer_name b; c_client := c; c_stream := stream;
         c_offset_specification := cb_offset_specification b;
         c_subscription_id := subscription_id;
         c_filter_configuration := cb_filter_configuration b;
         c_consumer_update_listener := cb_consumer_update_listener b |} in
    consumer_client (api_set_handler c);;
    match cb_filter_configuration b with
    | Some _ => if api_filtering_supported c then mret tt
                else throw ConsumerCreateError.FilteringNotSupport
    | None => mret tt
    end;;
    name ← match is_single_active_consumer b, consumer_name b with
           | true, None => crash UnwrapNone
           | _, name => mret (default [] name)
           end;
    response ← consumer_client (api_subscribe c subscription_id stream
                 (cb_offset_specification b) 1 (subscription_properties b name));
    if generic.GenericResponse_is_ok response then mret (consumer, CState_new)
    else throw (ConsumerCreateError.Create stream (generic.code response)).

(** ** Laws: deliveries *)

Section deliver_laws.
Context (overflow_checks : bool) (c : ConsumerInternal).

Definition queue_of (w : KW) : list (result ConsumerDeliveryError.t Delivery) :=
  mpsc_buffer (c_channel (cstate w)).
Definition room_of (w : KW) : Z :=
  mpsc_capacity (c_channel (cstate w)) - len (queue_of w).

(** The deliveries of a chunk: consecutive offsets from [offset] on, those below
    the offset the consumer asked for left out. *)
Fixpoint numbered (messages : list Message) (offset : Z) : list Delivery :=
  match messages with
  | [] => []
  | m :: messages =>
      (if skipped c offset then [] else [delivery c m offset]) ++ numbered messages (offset + 1)
  end.

(** Nothing but the channel changes when deliveries are queued. *)
Record delivers (l : list Delivery) (w w' : KW) : Prop := {
  dl_base : cbase w' = cbase w;
  dl_queue : queue_of w' = queue_of w ++ map Ok l;
  dl_capacity : mpsc_capacity (c_channel (cstate w')) = mpsc_capacity (c_channel (cstate w));
  dl_closed : c_closed (cstate w') = c_closed (cstate w);
  dl_collected : c_collected (cstate w') = c_collected (cstate w);
}.

Lemma send_delivery_ok {E} d (w : KW) :
  0 < room_of w -> ∃ w', send_delivery (E:=E) (Ok d) w = Returns w' tt /\ delivers [d] w w'.
Proof.
  intros Hroom. unfold room_of, queue_of in Hroom. unfold send_delivery.
  rewrite (io_bind_returns _ _ w w (c_channel (cstate w))) by done.
  rewrite (proj2 (Z.ltb_lt _ _)) by lia. eexists. split; [reflexivity|].
  split; try done; unfold queue_of; cbn.
  - apply mpsc_send_buffer. lia.
  - apply mpsc_send_capacity.
Qed.

Lemma deliver_messages_ok {E} messages offset (w : KW) :
  0 <= offset -> offset + len messages < 2 ^ 64 -> len messages <= room_of w ->
  ∃ w', deliver_messages overflow_checks c (E:=E) messages offset w = Returns w' tt /\
    delivers (numbered messages offset) w w'.
Proof.
  revert offset w. induction messages as [|m messages IH]; intros offset w Ho Hmax Hroom.
  - exists w. split; [done|]. split; try done. cbn. by rewrite app_nil_r.
  - assert (Hlen : len (m :: messages) = len messages + 1) by (unfold len; cbn; lia).
    assert (0 <= len messages) by (unfold len; lia). rewrite Hlen in *.
    assert (Hadd : add_u64 overflow_checks (E:=E) offset 1 = Ok (offset + 1)).
    { unfold add_u64. rewrite (proj2 (Z.leb_gt _ _)), andb_false_r, Z.mod_small by lia. done. }
    cbn [deliver_messages numbered].
    assert (∃ w1, (if skipped c offset then mret tt
                   else send_delivery (E:=E) (Ok (delivery c m offset))) w = Returns w1 tt /\
              delivers (if skipped c offset then [] else [delivery c m offset]) w w1)
      as (w1 & E1 & [Hb Hq Hcap Hcl Hcol]).
    { destruct (skipped c offset); [|apply send_delivery_ok; lia].
      exists w. split; [done|]. split; try done. cbn. by rewrite app_nil_r. }
    rewrite (io_bind_returns _ _ _ _ _ E1).
    rewrite (io_bind_returns _ _ w1 w1 (offset + 1)) by (unfold of_result; by rewrite Hadd).
    destruct (IH (offset + 1) w1) as (w2 & E2 & [Hb2 Hq2 Hcap2 Hcl2 Hcol2]); [lia|lia| |].
    { unfold room_of. rewrite Hcap, Hq. unfold room_of, len in *.
      rewrite length_app, length_map. destruct (skipped c offset); cbn; lia. }
    exists w2. split; [exact E2|]. split; try congruence.
    rewrite Hq2, Hq, map_app, app_assoc. done.
Qed.

(** The first offset the application is to see. *)
Definition start_offset (first : Z) : Z :=
  match c_offset_specification c with
  | subscribe.Offset o => Z.max first o
  | _ => first
  end.

Lemma numbered_imap messages offset :
  (∀ k, offset <= k -> skipped c k = false) ->
  numbered messages offset = imap (λ i m, delivery c m (offset + Z.of_nat i)) messages.
Proof.
  revert offset. induction messages as [|m messages IH]; intros offset Hs; [done|].
  cbn. rewrite Hs by lia. cbn. f_equal; [f_equal; lia|].
  rewrite IH by (intros k Hk; apply Hs; lia). apply imap_ext. intros i x _. cbn. f_equal. lia.
Qed.

Lemma numbered_app l1 l2 offset :
  numbered (l1 ++ l2) offset = numbered l1 offset ++ numbered l2 (offset + len l1).
Proof.
  revert offset. induction l1 as [|m l1 IH]; intros offset; cbn [app numbered].
  - by rewrite Z.add_0_r.
  - rewrite IH, <- app_assoc. do 3 f_equal. unfold len. cbn. lia.
Qed.

Lemma numbered_start messages first :
  numbered messages first =
  imap (λ i m, delivery c m (start_offset first + Z.of_nat i))
       (drop (Z.to_nat (start_offset first - first)) messages).
Proof.
  unfold start_offset, skipped. destruct (c_offset_specification c) as [| | |o|t] eqn:Eo;
    try (rewrite Z.sub_diag, drop_0; apply numbered_imap; intros k _; unfold skipped; by rewrite Eo).
  assert (Hskip : ∀ k, skipped c k = (k <? o)) by (intros k; unfold skipped; by rewrite Eo).
  revert first. induction messages as [|m messages IH]; intros first.
  - by rewrite drop_nil.
  - destruct (Z.ltb_spec first o) as [Hlt|Hge].
    + cbn [numbered]. rewrite Hskip, (proj2 (Z.ltb_lt _ _)) by lia. cbn [app].
      rewrite IH, !Z.max_r by lia.
      by replace (Z.to_nat (o - first)) with (Datatypes.S (Z.to_nat (o - (first + 1)))) by lia.
    + rewrite Z.max_l, Z.sub_diag, drop_0 by lia. apply numbered_imap.
      intros k Hk. rewrite Hskip. apply Z.ltb_ge. lia.
Qed.

(** A chunk: its deliveries are queued, one credit is granted, and the messages
    of the chunk are counted, kept or not. *)
Lemma consumer_handler_chunk h d (w : KW) s1 :
  let kept := client_filter c (deliver.messages d) in
  0 <= deliver.chunk_first_offset d ->
  deliver.chunk_first_offset d + len kept < 2 ^ 64 -> len kept <= room_of w ->
  api_credit (c_client c) (c_subscription_id c) 1 (cbase w) = Returns s1 tt ->
  ∃ w', consumer_handler overflow_checks c
      (Some (Ok (Response_new h (ResponseKind_Deliver d)))) w = Returns w' tt /\
    cbase w' = s1 /\
    queue_of w' = queue_of w ++ map Ok (numbered kept (deliver.chunk_first_offset d)) /\
    c_collected (cstate w') = c_collected (cstate w) ++ [len (deliver.messages d)].
Proof.
  intros kept Ho Hmax Hroom Hcredit. cbn [consumer_handler kind].
  destruct (deliver_messages_ok (E:=ClientError.t) kept (deliver.chunk_first_offset d) w Ho Hmax
    Hroom) as (w1 & E1 & [Hb Hq Hcap Hcl Hcol]).
  fold kept. rewrite (io_bind_returns _ _ _ _ _ E1).
  assert (E2 : on_cbase (api_credit (c_client c) (c_subscription_id c) 1) w1 =
               Returns (set_cbase s1 w1) tt)
    by (unfold on_cbase, zoom; by rewrite Hb, Hcredit).
  rewrite (io_bind_returns _ _ _ _ _ (ignore_returns _ _ _ _ E2)).
  eexists. split; [reflexivity|]. unfold queue_of in *. cbn. by rewrite Hq, Hcol.
Qed.

End deliver_laws.

(** ** Laws: the properties of a subscription *)

Lemma filter_key_inj i j : 0 <= i -> 0 <= j ->
  str "filter." ++ to_string i = str "filter." ++ to_string j -> i = j.
Proof. intros Hi Hj H. apply app_inv_head in H. by apply to_string_inj. Qed.

Lemma filter_properties_other values index m k :
  0 <= index -> (∀ i, index <= i -> k <> str "filter." ++ to_string i) ->
  hm_get key_eqb k (filter_properties index values m) = hm_get key_eqb k m.
Proof.
  revert index m. induction values as [|v values IH]; intros index m H0 Hk; cbn; [done|].
  rewrite IH; [|lia|intros i Hi; apply Hk; lia].
  rewrite hm_get_insert, decide_False; [done|]. intros He. by apply (Hk index); [lia|].
Qed.

Lemma filter_properties_get values index m i v :
  0 <= index -> values !! i = Some v ->
  hm_get key_eqb (str "filter." ++ to_string (index + Z.of_nat i))
    (filter_properties index values m) = Some v.
Proof.
  revert index m i. induction values as [|x values IH]; intros index m i H0 Hi; [done|].
  destruct i as [|i]; cbn [filter_properties].
  - injection Hi as ->. rewrite Z.add_0_r, filter_properties_other.
    + by rewrite hm_get_insert, decide_True.
    + lia.
    + intros j Hj He. apply filter_key_inj in He; lia.
  - replace (index + Z.of_nat (Datatypes.S i)) with (index + 1 + Z.of_nat i) by lia.
    apply IH; [lia|done].
Qed.

Lemma filter_key_not (k : bytes) i : take 7 k <> str "filter." -> k <> str "filter." ++ to_string i.
Proof. intros Hk ->. by apply Hk. Qed.

(** A subscription with a filter and a single active consumer says so. *)
Lemma subscription_properties_filter b name f i v :
  cb_filter_configuration b = Some f -> filter_values f !! i = Some v ->
  hm_get key_eqb (str "filter." ++ to_string (Z.of_nat i)) (subscription_properties b name) =
    Some v /\
  hm_get key_eqb (str "match-unfiltered") (subscription_properties b name) =
    Some (bool_to_string (match_unfiltered f)).
Proof.
  intros Hf Hi. unfold subscription_properties. rewrite Hf.
  pose proof (filter_properties_get (filter_values f) 0 (cb_properties b) i v ltac:(lia) Hi) as Hget.
  rewrite Z.add_0_l in Hget.
  assert (∀ k : bytes, take 7 k <> str "filter." -> k <> str "filter." ++ to_string (Z.of_nat i))
    as Hk by (intros; by apply filter_key_not).
  destruct (is_single_active_consumer b);
    rewrite ?hm_get_insert, ?decide_False by (by apply Hk);
    rewrite ?decide_True by done; done.
Qed.

Lemma subscription_properties_single b name :
  is_single_active_consumer b = true ->
  hm_get key_eqb (str "single-active-consumer") (subscription_properties b name) =
    Some (str "true") /\
  hm_get key_eqb (str "name") (subscription_properties b name) = Some name.
Proof.
  intros Hs. unfold subscription_properties. rewrite Hs.
  by rewrite !hm_get_insert, decide_False, !decide_True.
Qed.

(** ** Laws: building *)

(** The consumer [build] makes on a connection. *)
Definition built_consumer (b : ConsumerBuilder) (stream : bytes) (c : C) : ConsumerInternal :=
  {| c_name := consumer_name b; c_client := c; c_stream := stream;
     c_offset_specification := cb_offset_specification b; c_subscription_id := 1;
     c_filter_configuration := cb_filter_configuration b;
     c_consumer_update_listener := cb_consumer_update_listener b |}.

(** A filter the server does not understand. *)
Definition filter_refused (b : ConsumerBuilder) (c : C) : bool :=
  match cb_filter_configuration b with
  | Some _ => negb (api_filtering_supported c)
  | None => false
  end.

Lemma build_without_name b stream s :
  single_active_without_name b = true ->
  ConsumerBuilder_build b stream s = Throws s ConsumerCreateError.SingleActiveConsumerNotSupported.
Proof. intros H. unfold ConsumerBuilder_build. by rewrite H. Qed.

Section connected.
Context (b : ConsumerBuilder) (stream : bytes) (s s1 s2 : St) (c : C).
Context (Hname : single_active_without_name b = false).
Context (Hc : create_consumer_client attempts (cb_environment b) stream (cb_client_provided_name b) s =
              Returns s1 c).
Context (Hh : api_set_handler c s1 = Returns s2 tt).

Lemma build_filter_refused :
  filter_refused b c = true ->
  ConsumerBuilder_build b stream s = Throws s2 ConsumerCreateError.FilteringNotSupport.
Proof using Hname Hc Hh.
  intros Hf. unfold ConsumerBuilder_build. rewrite Hname, (io_bind_returns _ _ _ _ _ Hc).
  rewrite (io_bind_returns _ _ s1 s2 tt) by (unfold consumer_client, map_throws; by rewrite Hh).
  unfold filter_refused in Hf. destruct (cb_filter_configuration b); [|done].
  apply negb_true_iff in Hf. by rewrite Hf.
Qed.

Lemma build_subscribes s3 r :
  filter_refused b c = false ->
  api_subscribe c 1 stream (cb_offset_specification b) 1
    (subscription_properties b (default [] (consumer_name b))) s2 = Returns s3 r ->
  ConsumerBuilder_build b stream s =
  if generic.GenericResponse_is_ok r then Returns s3 (built_consumer b stream c, CState_new)
  else Throws s3 (ConsumerCreateError.Create stream (generic.code r)).
Proof using Hname Hc Hh.
  intros Hf Hs. unfold ConsumerBuilder_build. rewrite Hname, (io_bind_returns _ _ _ _ _ Hc).
  rewrite (io_bind_returns _ _ s1 s2 tt) by (unfold consumer_client, map_throws; by rewrite Hh).
  rewrite (io_bind_returns _ _ s2 s2 tt).
  2:{ unfold filter_refused in Hf. destruct (cb_filter_configuration b); [|done].
      apply negb_false_iff in Hf. by rewrite Hf. }
  rewrite (io_bind_returns _ _ s2 s2 (default [] (consumer_name b))).
  2:{ unfold single_active_without_name in Hname. destruct (is_single_active_consumer b); [|done].
      by destruct (consumer_name b). }
  rewrite (io_bind_returns _ _ s2 s3 r) by (unfold consumer_client, map_throws; by rewrite Hs).
  by destruct (generic.GenericResponse_is_ok r).
Qed.

End connected.

(** ** Laws: polling and closing *)

Lemma poll_next_queued {E} (w : KW) d q :
  queue_of w = d :: q -> ∃ w', poll_next (E:=E) w = Returns w' (Ready (Some d)) /\ queue_of w' = q.
Proof.
  unfold queue_of, poll_next, poll_recv. intros Hq.
  pose proof (mpsc_recv_value (c_channel (cstate w))) as Hv.
  pose proof (mpsc_recv_buffer (c_channel (cstate w))) as Hb.
  destruct (mpsc_recv (c_channel (cstate w))) as [r ch]. cbn in *. rewrite Hq in Hv, Hb. subst r.
  eexists. split; [by destruct (c_closed (cstate w))|done].
Qed.

Lemma poll_next_empty {E} (w : KW) :
  queue_of w = [] -> mpsc_open (c_channel (cstate w)) = true -> ∃ w',
    poll_next (E:=E) w =
      Returns w' (if c_closed (cstate w) then Ready None else Pending) /\
    queue_of w' = [] /\ c_closed (cstate w') = c_closed (cstate w).
Proof.
  unfold queue_of, poll_next, poll_recv. intros Hq Ho.
  pose proof (mpsc_recv_value (c_channel (cstate w))) as Hv.
  pose proof (mpsc_recv_buffer (c_channel (cstate w))) as Hb.
  destruct (mpsc_recv (c_channel (cstate w))) as [r ch]. cbn in *.
  rewrite Hq, Ho in Hv. rewrite Hq in Hb. subst r.
  eexists. split; [by destruct (c_closed (cstate w))|done].
Qed.

(** What polling a channel answers, with the flag of its consumer. *)
Definition polled_value (p : poll (option (result ConsumerDeliveryError.t Delivery))) :
    list (result ConsumerDeliveryError.t Delivery) :=
  match p with Ready (Some d) => [d] | _ => [] end.

(** A poll takes the head of the queue; it ends the stream when the queue is empty and
    the consumer is closed, or no sender is left. *)
Lemma poll_recv_result ch ch' p is_closed :
  poll_recv ch = (ch', p) ->
  mpsc_buffer ch = polled_value (poll_closed is_closed p) ++ mpsc_buffer ch' /\
  mpsc_capacity ch' = mpsc_capacity ch /\ mpsc_open ch' = mpsc_open ch /\
  (poll_closed is_closed p = Ready None <->
   mpsc_buffer ch = [] /\ (is_closed = true \/ mpsc_open ch = false)).
Proof.
  unfold poll_recv. intros E.
  pose proof (mpsc_recv_value ch) as Hv. pose proof (mpsc_recv_buffer ch) as Hb.
  pose proof (mpsc_recv_capacity ch) as Hc. pose proof (mpsc_recv_open ch) as Hop.
  destruct (mpsc_recv ch) as [r ch1]. cbn in *. injection E as -> <-. subst r.
  assert (Hn : ∀ c o, c = true \/ o = false <-> negb c && o = false) by
    (intros [] []; cbn; split; auto; by intros [|]).
  rewrite Hn. destruct (mpsc_buffer ch) as [|d q], is_closed, (mpsc_open ch);
    cbn; rewrite Hb; split_and!; try done; by split; [|intros []].
Qed.

Lemma poll_recv_answer ch ch' p is_closed :
  poll_recv ch = (ch', p) -> mpsc_open ch = true ->
  mpsc_buffer ch = polled_value (poll_closed is_closed p) ++ mpsc_buffer ch' /\
  mpsc_capacity ch' = mpsc_capacity ch /\ mpsc_open ch' = true /\
  (poll_closed is_closed p = Ready None -> mpsc_buffer ch = [] /\ is_closed = true).
Proof.
  intros E Ho. destruct (poll_recv_result ch ch' p is_closed E) as (Hb & Hc & Ho' & Hn).
  split; [exact Hb|]. split; [exact Hc|]. rewrite Ho', Ho. split; [done|].
  rewrite Hn, Ho. by intros [? [?|?]].
Qed.

Lemma poll_state {E} (w w' : KW) p :
  poll_next (E:=E) w = Returns w' p ->
  cstate w' = set_channel (mpsc_recv (c_channel (cstate w))).2 (cstate w).
Proof.
  unfold poll_next, poll_recv. destruct (mpsc_recv (c_channel (cstate w))) as [r ch].
  by intros [= <- _].
Qed.
Lemma poll_open {E} (w w' : KW) p :
  poll_next (E:=E) w = Returns w' p -> mpsc_open (c_channel (cstate w)) = true ->
  mpsc_open (c_channel (cstate w')) = true.
Proof. intros ->%poll_state <-. apply mpsc_recv_open. Qed.
Lemma poll_closed_flag {E} (w w' : KW) p :
  poll_next (E:=E) w = Returns w' p -> c_closed (cstate w') = c_closed (cstate w).
Proof. by intros ->%poll_state. Qed.

(** Polling until the queue is empty gives what is in it, in order. *)
Lemma poll_all {E} (w : KW) k :
  mpsc_open (c_channel (cstate w)) = true -> ∃ w',
    map_each (λ _ : unit, poll_next (E:=E)) (replicate (length (queue_of w) + k) tt) w =
    Returns w' (map (λ d, Ready (Some d)) (queue_of w) ++
                replicate k (if c_closed (cstate w) then Ready None else Pending)) /\
    queue_of w' = [].
Proof.
  remember (queue_of w) as q eqn:Hq. symmetry in Hq. revert w Hq.
  induction q as [|d q IH]; intros w Hq Ho.
  - cbn. revert w Hq Ho. induction k as [|k IHk]; intros w Hq Ho; [by exists w|].
    destruct (poll_next_empty (E:=E) w Hq Ho) as (w1 & E1 & Hq1 & Hc1).
    assert (Ho1 : mpsc_open (c_channel (cstate w1)) = true) 
      by exact (poll_open _ _ _ E1 Ho).
    destruct (IHk w1 Hq1 Ho1) as (w2 & E2 & Hq2). exists w2. split; [|done].
    cbn [replicate map_each]. rewrite (io_bind_returns _ _ _ _ _ E1).
    rewrite (io_bind_returns _ _ _ _ _ E2). by rewrite Hc1.
  - destruct (poll_next_queued (E:=E) w d q Hq) as (w1 & E1 & Hq1).
    assert (Ho1 : mpsc_open (c_channel (cstate w1)) = true) 
      by exact (poll_open _ _ _ E1 Ho).
    assert (Hc1 : c_closed (cstate w1) = c_closed (cstate w)) 
      by exact (poll_closed_flag _ _ _ E1).
    destruct (IH w1 Hq1 Ho1) as (w2 & E2 & Hq2). exists w2. split; [|done].
    cbn [length Nat.add replicate map_each]. rewrite (io_bind_returns _ _ _ _ _ E1).
    rewrite (io_bind_returns _ _ _ _ _ E2). by rewrite Hc1.
Qed.

Lemma internal_close_again c (w : KW) :
  c_closed (cstate w) = true -> internal_close c w = Throws w ConsumerCloseError.AlreadyClosed.
Proof.
  intros H. unfold internal_close. rewrite (io_bind_returns _ _ w w true); [done|].
  by apply gets_returns.
Qed.

(** A close the server refuses leaves the consumer closed, and wakes nobody. *)
Lemma internal_close_refused c (w : KW) s1 r :
  c_closed (cstate w) = false ->
  api_unsubscribe (c_client c) (c_subscription_id c) (cbase w) = Returns s1 r ->
  generic.GenericResponse_is_ok r = false ->
  internal_close c w =
  Throws {| cbase := s1; cstate := set_cclosed (cstate w) |}
         (ConsumerCloseError.Close (c_stream c) (generic.code r)).
Proof.
  intros Hc Hu Hr. unfold internal_close.
  rewrite (io_bind_returns _ _ w w false) by by apply gets_returns.
  set (w1 := {| cbase := cbase w; cstate := set_cclosed (cstate w) |}).
  rewrite (io_bind_returns _ _ w w1 tt) by done.
  rewrite (io_bind_returns _ _ w1 (set_cbase s1 w1) r)
    by (unfold cclose_call, map_throws, on_cbase, zoom; cbn [cbase w1]; by rewrite Hu).
  by rewrite Hr.
Qed.

End consumer.

#[global] Arguments Ready {A} _.
#[global] Arguments Pending {A}.
