(* ===== verification/ConsumerRuns.v ===== *)
(** * Runs of a consumer

    A consumer is worked on by many tasks: the client spawns one for every message
    of the connection, which runs the handler of the consumer, sends deliveries on
    its channel and waits while that is full; and the application polls the other
    end and closes the consumer.  Here they interleave at every send: a step
    relation on the state of the consumer, what the handlers have in hand, what they
    were handed and what the application has polled.

    The server sends a chunk against a credit; the subscription grants one, and a
    handler grants the next when its chunk is sent ([run_credit]).

    [handler_run] says that the handler as it is written makes these steps. *)
From S2P Require Import Prelude Utf8 HashMaps Integers Codec Protocol.
From S2P Require Import Session Streams Producing Consuming.
From S2P Require Import AmqpCodes AmqpSimple AmqpValue AmqpMessage Messages Request Response.
From S2P Require Import ClientCodec Effects Dispatcher Options Client ClientApi Errors Environment.
From S2P Require Import Consumer.

Section runs.
Context {X : AmqpExt} {MC : Mpsc}.
Context {St C : Type} {API : ClientApi St C} (overflow_checks : bool).
Context (c : ConsumerInternal (St:=St) (C:=C)).
Abbreviation KW := (KW (St:=St)).
Abbreviation delivered := (result ConsumerDeliveryError.t Delivery).

(** ** The handler in two parts: what it sends, and what it does behind *)

Definition sends_of (item : MessageResult) : list delivered :=
  match item with
  | Some (Ok response) =>
      match kind response with
      | ResponseKind_Deliver d =>
          map Ok (numbered c (client_filter c (deliver.messages d)) (deliver.chunk_first_offset d))
      | _ => []
      end
  | Some (Err err) => [Err (ConsumerDeliveryError.Client err)]
  | _ => []
  end.

Definition after_sends (item : MessageResult) : io KW ClientError.t unit :=
  match item with
  | Some (Ok response) =>
      match kind response with
      | ResponseKind_Deliver d =>
          ignore (E:=ClientError.t) (on_cbase (api_credit (c_client c) (c_subscription_id c) 1));;
          cmodify (collect_consumed (len (deliver.messages d)))
      | _ => consumer_handler overflow_checks c item
      end
  | Some (Err _) => mret tt
  | _ => consumer_handler overflow_checks c item
  end.

(** The offsets of a chunk are offsets: none is 2^64 or more. *)
Definition offsets_fit (item : MessageResult) : Prop :=
  match item with
  | Some (Ok response) =>
      match kind response with
      | ResponseKind_Deliver d =>
          0 <= deliver.chunk_first_offset d /\
          deliver.chunk_first_offset d + len (deliver.messages d) < 2 ^ 64
      | _ => True
      end
  | _ => True
  end.

Lemma deliver_messages_each {E} messages offset (w : KW) :
  0 <= offset -> offset + len messages < 2 ^ 64 ->
  deliver_messages overflow_checks c (E:=E) messages offset w =
  each send_delivery (map Ok (numbered c messages offset)) w.
Proof.
  revert offset w. induction messages as [|m messages IH]; intros offset w Ho Hmax; [done|].
  assert (Hlen : len (m :: messages) = len messages + 1) by (unfold len; cbn; lia).
  assert (0 <= len messages) by (unfold len; lia). rewrite Hlen in Hmax.
  cbn [deliver_messages numbered]. unfold of_result, add_u64.
  rewrite (proj2 (Z.leb_gt _ _)), andb_false_r, Z.mod_small by lia.
  destruct (skipped c offset); cbn [app map each]; unfold mbind, io_bind.
  - apply IH; lia.
  - destruct (send_delivery (Ok (delivery c m offset)) w) as [w1 []| | |]; [|done..].
    apply IH; lia.
Qed.

Lemma client_filter_len messages : len (client_filter c messages) <= len messages.
Proof.
  unfold client_filter, len. apply inj_le.
  destruct (c_filter_configuration c) as [f|]; [destruct (predicate f)|]; try done.
  apply List.filter_length_le.
Qed.

Lemma handler_sends item (w : KW) :
  offsets_fit item ->
  consumer_handler overflow_checks c item w =
  (each send_delivery (sends_of item);; after_sends item) w.
Proof.
  intros Hfit. destruct item as [[r|e|x]|]; try done.
  - cbn [consumer_handler sends_of after_sends offsets_fit] in *. destruct (kind r) eqn:Ek; try done.
    unfold mbind, io_bind at 1. rewrite deliver_messages_each; [done|lia|].
    pose proof (client_filter_len (deliver.messages response)). lia.
  - cbn [consumer_handler sends_of after_sends each]. unfold mbind, io_bind.
    by destruct (send_delivery _ w) as [w1 []| | |].
Qed.

(** ** The steps *)

Definition is_chunk (item : MessageResult) : bool :=
  match item with
  | Some (Ok response) =>
      match kind response with ResponseKind_Deliver _ => true | _ => false end
  | _ => false
  end.
Definition chunk_credit (item : MessageResult) : Z := if is_chunk item then 1 else 0.

(** [run_hands]: a message per handler, and what that has still to send. *)
Record run := Run {
  run_world : KW;
  run_hands : list (MessageResult * list delivered);
  run_credit : Z;
  run_read : list MessageResult;
  run_polled : list delivered;
}.

Inductive consumer_step : run -> run -> Prop :=
  | step_read w hs cr rd pl item :
      offsets_fit item -> chunk_credit item <= cr ->
      consumer_step (Run w hs cr rd pl)
        (Run w (hs ++ [(item, sends_of item)]) (cr - chunk_credit item) (rd ++ [item]) pl)
  | step_deliver w w' hs1 item d l hs2 cr rd pl :
      send_delivery (E:=ClientError.t) d w = Returns w' tt ->
      consumer_step (Run w (hs1 ++ (item, d :: l) :: hs2) cr rd pl)
        (Run w' (hs1 ++ (item, l) :: hs2) cr rd pl)
  | step_finish w hs1 item hs2 cr rd pl :
      consumer_step (Run w (hs1 ++ (item, []) :: hs2) cr rd pl)
        (Run (outcome_state (after_sends item w)) (hs1 ++ hs2) (cr + chunk_credit item) rd pl)
  | step_poll w w' hs cr rd pl p :
      poll_next (E:=Empty_set) w = Returns w' p ->
      consumer_step (Run w hs cr rd pl) (Run w' hs cr rd (pl ++ polled_value p))
  | step_close_consumer w hs cr rd pl :
      consumer_step (Run w hs cr rd pl) (Run (outcome_state (internal_close c w)) hs cr rd pl)
  | step_elsewhere w s hs cr rd pl :
      consumer_step (Run w hs cr rd pl) (Run (set_cbase s w) hs cr rd pl).

(** The handler, run to its end, makes these steps. *)
Lemma sends_run hs item l w w' cr rd pl :
  each (E:=ClientError.t) send_delivery l w = Returns w' tt ->
  rtc consumer_step (Run w (hs ++ [(item, l)]) cr rd pl) (Run w' (hs ++ [(item, [])]) cr rd pl).
Proof.
  revert w. induction l as [|d l IH]; intros w E; cbn [each] in E.
  { injection E as <-. apply rtc_refl. }
  apply io_bind_returns_inv in E as (w1 & [] & E1 & E2).
  eapply rtc_l; [by apply step_deliver|by apply IH].
Qed.

Lemma handler_run item (w w' : KW) hs cr rd pl :
  offsets_fit item -> chunk_credit item <= cr ->
  consumer_handler overflow_checks c item w = Returns w' tt ->
  rtc consumer_step (Run w hs cr rd pl) (Run w' hs cr (rd ++ [item]) pl).
Proof.
  intros Hfit Hcr E. rewrite handler_sends in E by done.
  apply io_bind_returns_inv in E as (w1 & [] & E1 & E2).
  eapply rtc_l; [by apply step_read|]. etrans; [by eapply sends_run|].
  pose proof (step_finish w1 hs item [] (cr - chunk_credit item) (rd ++ [item]) pl) as Hs.
  rewrite E2, app_nil_r, Z.sub_add in Hs. by apply rtc_once.
Qed.

(** ** What the application gets *)

Definition in_hands (hs : list (MessageResult * list delivered)) : list delivered :=
  mjoin (map snd hs).
Definition sent_by (rd : list MessageResult) : list delivered := mjoin (map sends_of rd).
(** The deliveries of chunks, without the errors of the connection. *)
Definition messages_of (l : list delivered) : list Delivery :=
  omap (λ d, match d with Ok d => Some d | _ => None end) l.
Definition chunks (hs : list (MessageResult * list delivered)) : Z :=
  len (filter (λ h, is_chunk h.1 = true) hs).

#[local] Arguments in_hands : simpl never.
#[local] Arguments sent_by : simpl never.
#[local] Arguments messages_of : simpl never.
#[local] Arguments chunks : simpl never.

Lemma in_hands_app hs1 hs2 : in_hands (hs1 ++ hs2) = in_hands hs1 ++ in_hands hs2.
Proof. unfold in_hands. by rewrite map_app, join_app. Qed.
Lemma in_hands_cons item l hs : in_hands ((item, l) :: hs) = l ++ in_hands hs.
Proof. done. Qed.
Lemma in_hands_nil : in_hands [] = [].
Proof. done. Qed.
Lemma sent_by_snoc rd item : sent_by (rd ++ [item]) = sent_by rd ++ sends_of item.
Proof. unfold sent_by. rewrite map_app, join_app. cbn. by rewrite app_nil_r. Qed.
Lemma messages_of_app l1 l2 : messages_of (l1 ++ l2) = messages_of l1 ++ messages_of l2.
Proof. apply omap_app. Qed.
Lemma chunks_app hs1 hs2 : chunks (hs1 ++ hs2) = chunks hs1 + chunks hs2.
Proof. unfold chunks, len. rewrite filter_app, length_app. lia. Qed.
Lemma chunks_cons item l hs : chunks ((item, l) :: hs) = chunk_credit item + chunks hs.
Proof.
  unfold chunks, chunk_credit, len. destruct (is_chunk item) eqn:E.
  - rewrite filter_cons_True by done. cbn. lia.
  - rewrite filter_cons_False by (cbn; congruence). done.
Qed.
Lemma chunks_pos hs : 0 <= chunks hs.
Proof. unfold chunks, len. lia. Qed.

(** Only a chunk holds messages. *)
Definition plain (h : MessageResult * list delivered) : Prop :=
  is_chunk h.1 = false -> messages_of h.2 = [].

Lemma sends_plain item : plain (item, sends_of item).
Proof.
  intros H. destruct item as [[r|e|x]|]; try done. cbn in *. by destruct (kind r).
Qed.

Lemma no_chunks hs : Forall plain hs -> chunks hs = 0 -> messages_of (in_hands hs) = [].
Proof.
  induction 1 as [|[item l] hs Hp Hf IH]; [done|]. rewrite chunks_cons, in_hands_cons, messages_of_app.
  pose proof (chunks_pos hs). unfold chunk_credit. destruct (is_chunk item) eqn:E; [lia|].
  intros H0. rewrite IH by lia. specialize (Hp E). cbn in Hp. by rewrite Hp.
Qed.

(** Nothing handed over is lost or repeated, the messages of chunks come in order,
    the channel holds its capacity, and one chunk is in hand at a time. *)
Record in_order (n : Z) (r : run) : Prop := {
  io_all : run_polled r ++ queue_of (run_world r) ++ in_hands (run_hands r) ≡ₚ sent_by (run_read r);
  io_messages :
    messages_of (run_polled r ++ queue_of (run_world r) ++ in_hands (run_hands r)) =
    messages_of (sent_by (run_read r));
  io_plain : Forall plain (run_hands r);
  io_credit : 0 <= run_credit r /\ run_credit r + chunks (run_hands r) = 1;
  io_room : len (queue_of (run_world r)) <= n;
  io_capacity : mpsc_capacity (c_channel (cstate (run_world r))) = n;
  io_open : mpsc_open (c_channel (cstate (run_world r))) = true;
}.

Lemma keeps_channel_on_cbase {A} ch (m : io St ClientError.t A) :
  keeps (λ w : KW, c_channel (cstate w) = ch) (on_cbase m).
Proof. intros w Hw. unfold on_cbase, zoom. by destruct (m (cbase w)). Qed.

Lemma after_sends_channel ch item :
  keeps (λ w : KW, c_channel (cstate w) = ch) (after_sends item).
Proof.
  destruct item as [[r|e|x]|]; cbn [after_sends consumer_handler].
  - destruct (kind r); try apply keeps_ret.
    + apply keeps_bind; [apply keeps_ignore, keeps_channel_on_cbase|]. intros _. by apply keeps_modify.
    + apply keeps_bind.
      { destruct (c_consumer_update_listener c) as [l|]; [|apply keeps_ret].
        unfold update_listener. destruct (c_name c); [|apply keeps_crash].
        apply keeps_map_throws. intros w Hw. unfold on_cbase, zoom. by destruct (l _ _ (cbase w)). }
      intros o. apply keeps_ignore, keeps_channel_on_cbase.
  - apply keeps_ret.
  - apply keeps_crash.
  - apply keeps_bind; [by apply keeps_modify|]. intros _. by apply keeps_modify.
Qed.

Lemma internal_close_channel ch :
  keeps (λ w : KW, c_channel (cstate w) = ch) (internal_close c).
Proof.
  unfold internal_close, cclose_call. apply keeps_bind; [apply keeps_gets|]. intros [|].
  { apply keeps_throw. }
  apply keeps_bind; [by apply keeps_modify|]. intros _.
  apply keeps_bind; [apply keeps_map_throws, keeps_channel_on_cbase|]. intros r.
  destruct (generic.GenericResponse_is_ok r); [|apply keeps_throw].
  apply keeps_bind; [by apply keeps_modify|]. intros _.
  apply keeps_bind; [apply keeps_map_throws, keeps_channel_on_cbase|]. intros _. apply keeps_ret.
Qed.

(** A step that leaves the channel alone. *)
Lemma in_order_same n w w' hs cr rd pl :
  c_channel (cstate w') = c_channel (cstate w) ->
  in_order n (Run w hs cr rd pl) -> in_order n (Run w' hs cr rd pl).
Proof.
  intros Hc [Ha Hm Hp Hcr Hr Hcap Ho]. unfold queue_of in *. cbn in *.
  split; cbn; unfold queue_of; rewrite ?Hc; done.
Qed.

Lemma send_delivery_returns {E} d (w w' : KW) :
  send_delivery (E:=E) d w = Returns w' tt ->
  len (queue_of w) < mpsc_capacity (c_channel (cstate w)) /\
  cstate w' = set_channel (mpsc_send d (c_channel (cstate w))) (cstate w).
Proof.
  unfold send_delivery. intros H. apply io_bind_returns_inv in H as (w1 & ch & Hg & H).
  injection Hg as <- <-. destruct (Z.ltb_spec (len (queue_of w)) (mpsc_capacity (c_channel (cstate w))))
    as [Hlt|]; unfold queue_of in *.
  - rewrite (proj2 (Z.ltb_lt _ _) Hlt) in H. by injection H as <-.
  - by rewrite (proj2 (Z.ltb_ge _ _)) in H.
Qed.

Lemma poll_next_answer {E} (w w' : KW) p :
  poll_next (E:=E) w = Returns w' p -> mpsc_open (c_channel (cstate w)) = true ->
  queue_of w = polled_value p ++ queue_of w' /\
  (p = Ready None -> queue_of w = [] /\ c_closed (cstate w) = true).
Proof.
  unfold poll_next, queue_of. intros E1 Ho.
  destruct (poll_recv (c_channel (cstate w))) as [ch q] eqn:Er. injection E1 as <- <-.
  destruct (poll_recv_answer _ _ _ (c_closed (cstate w)) Er Ho) as (Hb & _ & _ & Hn).
  split; [exact Hb|exact Hn].
Qed.

Lemma read_in_order n w hs cr rd pl item :
  chunk_credit item <= cr -> in_order n (Run w hs cr rd pl) ->
  in_order n (Run w (hs ++ [(item, sends_of item)]) (cr - chunk_credit item) (rd ++ [item]) pl).
Proof.
  intros Hcr [Ha Hm Hp [Hc1 Hc2] Hr Hcap Ho]. cbn in *. pose proof (chunks_pos hs).
  assert (He : in_hands (hs ++ [(item, sends_of item)]) = in_hands hs ++ sends_of item)
    by by rewrite in_hands_app, in_hands_cons, in_hands_nil, app_nil_r.
  split; cbn; try done.
  - by rewrite sent_by_snoc, <- Ha, He, <- !app_assoc.
  - by rewrite sent_by_snoc, (messages_of_app (sent_by rd)), <- Hm, He, <- messages_of_app, <- !app_assoc.
  - apply Forall_app. split; [done|]. constructor; [apply sends_plain|done].
  - rewrite chunks_app, chunks_cons. change (chunks []) with 0. lia.
Qed.

Lemma deliver_in_order n w w' hs1 item d l hs2 cr rd pl :
  send_delivery (E:=ClientError.t) d w = Returns w' tt ->
  in_order n (Run w (hs1 ++ (item, d :: l) :: hs2) cr rd pl) ->
  in_order n (Run w' (hs1 ++ (item, l) :: hs2) cr rd pl).
Proof.
  intros [Hlt Hw]%send_delivery_returns [Ha Hm Hp [Hc1 Hc2] Hr Hcap Ho]. unfold queue_of in *.
  cbn in Ha, Hm, Hp, Hc1, Hc2, Hr, Hcap, Ho.
  rewrite in_hands_app, in_hands_cons in Ha, Hm.
  apply Forall_app in Hp as [Hp1 Hp2]. apply Forall_cons in Hp2 as [Hpi Hp2].
  assert (Hq : mpsc_buffer (c_channel (cstate w')) = mpsc_buffer (c_channel (cstate w)) ++ [d])
    by (rewrite Hw; cbn; by apply mpsc_send_buffer).
  split; cbn [run_world run_polled run_hands run_read run_credit]; unfold queue_of;
    rewrite ?Hq, ?in_hands_app, ?in_hands_cons.
  - rewrite <- Ha. rewrite <- !app_assoc. apply Permutation_app_head, Permutation_app_head.
    cbn. by apply Permutation_middle.
  - rewrite <- Hm, !messages_of_app. f_equal. rewrite <- !app_assoc. f_equal.
    change (d :: l) with ([d] ++ l). rewrite messages_of_app. destruct (is_chunk item) eqn:Ei.
    + assert (H1 : chunks hs1 = 0).
      { rewrite chunks_app, chunks_cons in Hc2. unfold chunk_credit in Hc2. rewrite Ei in Hc2.
        pose proof (chunks_pos hs1). pose proof (chunks_pos hs2). lia. }
      rewrite (no_chunks _ Hp1 H1). cbn [app]. by rewrite <- ?app_assoc.
    + specialize (Hpi Ei). cbn [snd] in Hpi. change (d :: l) with ([d] ++ l) in Hpi.
      rewrite messages_of_app in Hpi. by apply app_nil in Hpi as [-> _].
  - apply Forall_app. split; [done|]. apply Forall_cons. split; [|done].
    intros Ei. specialize (Hpi Ei). cbn [snd] in *. change (d :: l) with ([d] ++ l) in Hpi.
    rewrite messages_of_app in Hpi. by apply app_nil in Hpi as [_ ->].
  - rewrite chunks_app, chunks_cons in *. lia.
  - unfold len in *. rewrite length_app. cbn. lia.
  - rewrite Hw. cbn. by rewrite mpsc_send_capacity.
  - rewrite Hw. cbn. by rewrite mpsc_send_open.
Qed.

Lemma finish_in_order n w w' hs1 item hs2 cr rd pl :
  c_channel (cstate w') = c_channel (cstate w) ->
  in_order n (Run w (hs1 ++ (item, []) :: hs2) cr rd pl) ->
  in_order n (Run w' (hs1 ++ hs2) (cr + chunk_credit item) rd pl).
Proof.
  intros Hw [Ha Hm Hp [Hc1 Hc2] Hr Hcap Ho]. unfold queue_of in *. cbn in Ha, Hm, Hp, Hc1, Hc2, Hr, Hcap, Ho.
  apply Forall_app in Hp as [Hp1 Hp2]. apply Forall_cons in Hp2 as [_ Hp2].
  rewrite in_hands_app, in_hands_cons in Ha, Hm. cbn [app] in Ha, Hm.
  rewrite chunks_app, chunks_cons in Hc2.
  split; cbn [run_world run_polled run_hands run_read run_credit]; unfold queue_of;
    rewrite ?Hw, ?in_hands_app; try done.
  - by apply Forall_app.
  - rewrite chunks_app. unfold chunk_credit in *. destruct (is_chunk item); lia.
Qed.

Lemma poll_in_order n w w' hs cr rd pl p :
  poll_next (E:=Empty_set) w = Returns w' p -> in_order n (Run w hs cr rd pl) ->
  in_order n (Run w' hs cr rd (pl ++ polled_value p)).
Proof.
  intros E [Ha Hm Hp Hcr Hr Hcap Ho].
  cbn [run_world run_polled run_hands run_read run_credit] in *.
  destruct (poll_next_answer w w' p E Ho) as [Hq _]. pose proof (poll_state _ _ _ E) as Hw.
  split; cbn [run_world run_polled run_hands run_read run_credit]; try done.
  - rewrite Hq, <- app_assoc in Ha. by rewrite <- app_assoc.
  - rewrite Hq, <- app_assoc in Hm. by rewrite <- app_assoc.
  - rewrite Hq in Hr. unfold len in *. rewrite length_app in Hr. lia.
  - rewrite Hw. cbn. by rewrite mpsc_recv_capacity.
  - by eapply poll_open.
Qed.

Lemma step_in_order n r r' : consumer_step r r' -> in_order n r -> in_order n r'.
Proof.
  intros Hs Hr. destruct Hs.
  - by apply read_in_order.
  - by eapply deliver_in_order.
  - eapply finish_in_order; [|exact Hr]. by apply after_sends_channel.
  - by eapply poll_in_order.
  - eapply in_order_same; [|exact Hr]. by apply internal_close_channel.
  - by eapply in_order_same; [|exact Hr].
Qed.

Lemma run_in_order n r r' : rtc consumer_step r r' -> in_order n r -> in_order n r'.
Proof. induction 1 as [|r1 r2 r3 H12 _ IH]; [done|]. intros H. by eapply IH, step_in_order. Qed.

Lemma built_in_order s : in_order 10000 (Run {| cbase := s; cstate := CState_new |} [] 1 [] []).
Proof.
  assert (Hq : mpsc_buffer (c_channel CState_new) = []) by apply mpsc_channel_buffer.
  split; cbn [run_world run_polled run_hands run_read run_credit]; unfold queue_of; cbn [cstate];
    rewrite ?Hq; try done.
  - apply mpsc_channel_capacity.
  - apply mpsc_channel_open.
Qed.

(** ** Nothing handed over is stuck while the application polls *)

Lemma poll_step (w : KW) hs cr rd pl d q :
  queue_of w = d :: q -> ∃ w', queue_of w' = q /\
    consumer_step (Run w hs cr rd pl) (Run w' hs cr rd (pl ++ [d])).
Proof.
  intros Hq. destruct (poll_next_queued (E:=Empty_set) w d q Hq) as (w' & E & Hq').
  exists w'. split; [done|]. exact (step_poll w w' hs cr rd pl _ E).
Qed.

Lemma drain_queue w hs cr rd pl : ∃ w',
  rtc consumer_step (Run w hs cr rd pl) (Run w' hs cr rd (pl ++ queue_of w)) /\ queue_of w' = [].
Proof.
  remember (queue_of w) as q eqn:Hq. symmetry in Hq. revert w pl Hq.
  induction q as [|d q IH]; intros w pl Hq.
  { exists w. by rewrite app_nil_r. }
  destruct (poll_step w hs cr rd pl d q Hq) as (w1 & Hq1 & Hs).
  destruct (IH w1 (pl ++ [d]) Hq1) as (w2 & Hr & Hq2).
  exists w2. split; [|done]. eapply rtc_l; [exact Hs|]. by rewrite <- app_assoc in Hr.
Qed.

Lemma send_empty d (w : KW) :
  queue_of w = [] -> 0 < mpsc_capacity (c_channel (cstate w)) ->
  ∃ w', send_delivery (E:=ClientError.t) d w = Returns w' tt.
Proof.
  unfold queue_of, send_delivery. intros Hq Hn.
  rewrite (io_bind_returns _ _ w w (c_channel (cstate w))) by done.
  rewrite Hq, (proj2 (Z.ltb_lt _ _)) by done. by eexists.
Qed.

(** Handlers with something to send: one of them, or none. *)
Lemma hands_cases hs :
  in_hands hs = [] \/ ∃ hs1 item d l hs2, hs = hs1 ++ (item, d :: l) :: hs2.
Proof.
  induction hs as [|[item [|d l]] hs [IH|(hs1 & item' & d' & l' & hs2 & ->)]]; [by left|by left| | |].
  - right. by exists ((item, []) :: hs1), item', d', l', hs2.
  - right. by exists [], item, d, l, hs.
  - right. by eexists [], item, d, l, _.
Qed.

Lemma drain_hands n r :
  0 < n -> in_order n r -> ∃ r', rtc consumer_step r r' /\ run_read r' = run_read r /\
    in_order n r' /\ in_hands (run_hands r') = [] /\ queue_of (run_world r') = [].
Proof.
  intros Hn. remember (length (in_hands (run_hands r))) as k eqn:Hk. symmetry in Hk.
  revert r Hk. induction k as [|k IH]; intros [w hs cr rd pl] Hk Hr; cbn [run_hands] in Hk;
    destruct (drain_queue w hs cr rd pl) as (w1 & Hd & Hq1); pose proof (run_in_order n _ _ Hd Hr) as Hr1.
  - apply nil_length_inv in Hk. eexists. by split; [exact Hd|].
  - destruct (hands_cases hs) as [H0|(hs1 & item & d & l & hs2 & ->)]; [by rewrite H0 in Hk|].
    pose proof (io_capacity _ _ Hr1) as Hcap. cbn in Hcap.
    destruct (send_empty d w1 Hq1) as [w2 E]; [lia|].
    pose proof (step_deliver w1 w2 hs1 item d l hs2 cr rd (pl ++ queue_of w) E) as Hs.
    destruct (IH (Run w2 (hs1 ++ (item, l) :: hs2) cr rd (pl ++ queue_of w))) as (r' & Hd' & H).
    { cbn [run_hands]. rewrite in_hands_app, in_hands_cons, !length_app in *. cbn [length] in Hk. lia. }
    { by eapply step_in_order. }
    exists r'. split; [|exact H]. etrans; [exact Hd|]. by eapply rtc_l.
Qed.

End runs.
