(* ===== verification/Receiving.v ===== *)
(** * A consumer on a connection

    A consumer whose connection delivers a chunk for every credit: its handler is
    given the chunk, queues the deliveries and grants the next credit, the
    application polls what is queued, and so on ([consume]).  The server is what the
    connection gives when a credit is sent. *)
From S2P Require Import Prelude Utf8 HashMaps Integers Codec Protocol.
From S2P Require Import Session Streams Producing Consuming.
From S2P Require Import AmqpCodes AmqpSimple AmqpValue AmqpMessage Messages Request Response.
From S2P Require Import ClientCodec Effects Dispatcher Options Client ClientApi Errors Environment.
From S2P Require Import Consumer.

Section receiving.
Context {X : AmqpExt} {DM : DashMap} {MC : Mpsc} {TR : Transport} (turns : nat).
#[local] Existing Instance pool_api.
Context (overflow_checks : bool) (c : ConsumerInternal (St:=Pool) (C:=Handle)).
Abbreviation KW := (KW (St:=Pool)).
Abbreviation polled := (poll (option (result ConsumerDeliveryError.t Delivery))).

(** ** The handler and the application, chunk by chunk *)

(** The handler is given the next message of the connection. *)
Definition handle_next : io KW ClientError.t unit :=
  m ← on_cbase (api_message (ClientApi:=pool_api turns) (c_client c));
  match m with
  | Some m => consumer_handler (API:=pool_api turns) overflow_checks c m
  | None => mret tt
  end.

(** The application polls what is queued. *)
Definition poll_queued : io KW ClientError.t (list polled) := λ w,
  map_each (λ _ : unit, poll_next) (replicate (length (queue_of w)) tt) w.

Fixpoint consume (n : nat) : io KW ClientError.t (list polled) :=
  match n with
  | O => mret []
  | S n => handle_next;; l ← poll_queued; l' ← consume n; mret (l ++ l')
  end.

(** ** The channel of the consumer stays open, with its capacity *)

Definition channel_ok (n : Z) (w : KW) : Prop :=
  mpsc_capacity (c_channel (cstate w)) = n /\ mpsc_open (c_channel (cstate w)) = true.

Lemma keeps_send_delivery {E} n d : keeps (channel_ok n) (send_delivery (E:=E) d).
Proof.
  unfold send_delivery. intros w [Hc Ho]. rewrite (io_bind_returns _ _ w w (c_channel (cstate w))) by done.
  destruct (len (mpsc_buffer (c_channel (cstate w))) <? mpsc_capacity (c_channel (cstate w))); [|done].
  split; cbn; [by rewrite mpsc_send_capacity|by rewrite mpsc_send_open].
Qed.

Lemma keeps_deliver_messages {E} n messages offset :
  keeps (channel_ok n) (deliver_messages overflow_checks c (E:=E) messages offset).
Proof.
  revert offset. induction messages as [|m messages IH]; intros offset; [apply keeps_ret|].
  cbn [deliver_messages]. apply keeps_bind.
  { destruct (skipped c offset); [apply keeps_ret|apply keeps_send_delivery]. }
  intros _. apply keeps_bind; [apply keeps_of_result|by intros o].
Qed.

Lemma keeps_on_cbase {E A} n (m : io Pool E A) : keeps (channel_ok n) (on_cbase m).
Proof. intros w Hw. unfold on_cbase, zoom. by destruct (m (cbase w)). Qed.

Lemma on_cbase_returns {E A} (m : io Pool E A) (w : KW) p a :
  m (cbase w) = Returns p a -> on_cbase m w = Returns (set_cbase p w) a.
Proof. intros H. unfold on_cbase, zoom. by rewrite H. Qed.

Lemma keeps_chunk n h d :
  keeps (channel_ok n) (consumer_handler (API:=pool_api turns) overflow_checks c
    (Some (Ok (Response_new h (ResponseKind_Deliver d))))).
Proof.
  cbn [consumer_handler kind]. apply keeps_bind; [apply keeps_deliver_messages|]. intros _.
  apply keeps_bind; [apply keeps_ignore, keeps_on_cbase|]. intros _. by apply keeps_modify.
Qed.

Lemma keeps_poll_next {E} n : keeps (channel_ok n) (poll_next (St:=Pool) (E:=E)).
Proof.
  intros w [Hc Ho]. unfold poll_next, poll_recv.
  pose proof (mpsc_recv_capacity (c_channel (cstate w))). pose proof (mpsc_recv_open (c_channel (cstate w))).
  destruct (mpsc_recv (c_channel (cstate w))) as [r ch]. split; cbn in *; congruence.
Qed.

Lemma keeps_poll_base {E} b : keeps (λ w : KW, cbase w = b) (poll_next (E:=E)).
Proof. intros w Hw. unfold poll_next. by destruct (poll_recv _). Qed.

Lemma poll_queued_all n (w : KW) :
  channel_ok n w -> ∃ w', poll_queued w = Returns w' (map (λ d, Ready (Some d)) (queue_of w)) /\
    queue_of w' = [] /\ cbase w' = cbase w /\ channel_ok n w'.
Proof.
  intros Hw. destruct (poll_all (E:=ClientError.t) w 0 (proj2 Hw)) as (w' & E & Hq).
  rewrite Nat.add_0_r, app_nil_r in E. exists w'. split; [exact E|]. split; [exact Hq|].
  pose proof (keeps_map_each _ _ (replicate (length (queue_of w)) tt)
    (λ _ : unit, keeps_poll_base (E:=ClientError.t) (cbase w)) w eq_refl) as Hb.
  pose proof (keeps_map_each _ _ (replicate (length (queue_of w)) tt)
    (λ _ : unit, keeps_poll_next (E:=ClientError.t) n) w Hw) as Hc.
  rewrite E in Hb, Hc. by split.
Qed.

(** ** A chunk for every credit *)

Context (i : nat) (h cl : Client) (n : Z) (Hclient : c_client c = (i, h)).
Context (chunk : nat -> deliver.DeliverCommand) (header_of : nat -> Header).
Context (at_chunk : nat -> conn -> Prop).

Definition chunk_response (k : nat) : Response :=
  Response_new (header_of k) (ResponseKind_Deliver (chunk k)).

Hypothesis credit_answered : ∀ k con, at_chunk k con -> ∃ con',
  conn_send (Request_from (credit.CreditCommand_new (c_subscription_id c) 1)) con =
    (con', Ok [Some (Ok (chunk_response k))]) /\ at_chunk (S k) con'.
Hypothesis chunk_fits : ∀ k,
  0 <= deliver.chunk_first_offset (chunk k) /\
  deliver.chunk_first_offset (chunk k) + len (deliver.messages (chunk k)) < 2 ^ 64 /\
  len (deliver.messages (chunk k)) <= 10000.

(** The chunk [k] has been read from the connection, and nothing is queued. *)
Record waiting_for (k : nat) (w : KW) : Prop := {
  wf_channel : channel_ok 10000 w;
  wf_queue : queue_of w = [];
  wf_client : ∃ cw (s : Shared (UH:=unit)), pool_clients (cbase w) !! i = Some cw /\ ready cl n s cw /\
    task_running s = true /\ spawned s = [] /\ state_handler (state s) = Some tt /\
    incoming s = [Some (Ok (chunk_response k))] /\ at_chunk (S k) (connection s);
}.

Definition chunk_deliveries (k : nat) : list Delivery :=
  numbered c (client_filter c (deliver.messages (chunk k))) (deliver.chunk_first_offset (chunk k)).

Lemma filtered_len k : len (client_filter c (deliver.messages (chunk k))) <= len (deliver.messages (chunk k)).
Proof.
  unfold client_filter, len. apply inj_le.
  destruct (c_filter_configuration c) as [f|]; [destruct (predicate f)|]; try done.
  apply List.filter_length_le.
Qed.

Lemma handle_next_chunk k t (w : KW) :
  turns = S t -> waiting_for k w ->
  ∃ w', handle_next w = Returns w' tt /\ queue_of w' = map Ok (chunk_deliveries k) /\
    channel_ok 10000 w' /\ ∀ w2, cbase w2 = cbase w' -> channel_ok 10000 w2 -> queue_of w2 = [] ->
      waiting_for (S k) w2.
Proof.
  intros Ht [Hch Hq (cw & s & Hi & Hw & Hrun & Hsp & Hh & Hin & Hat)].
  destruct (api_message_reads turns i h cl n s (cbase w) cw (chunk_response k) [] t Ht Hi Hw Hin Hh Hsp)
    as (p1 & cw1 & E1 & Hi1 & Hw1); [by split|].
  set (w1 := set_cbase p1 w).
  destruct (credit_answered (S k) _ Hat) as (con' & Es & Hat').
  destruct (api_credit_sends turns i h cl n _ p1 cw1 _ con' 1 _ Hi1 Hw1 Es) as (p2 & cw2 & E2 & Hi2 & Hw2).
  destruct (chunk_fits k) as (Ho & Hmax & Hlen). pose proof (filtered_len k) as Hf.
  assert (Hroom : room_of w1 = 10000).
  { unfold room_of, w1. destruct Hch as [Hcap _]. unfold queue_of in *. cbn. rewrite Hcap, Hq. done. }
  destruct (consumer_handler_chunk (API:=pool_api turns) overflow_checks c (header_of k) (chunk k) w1 p2)
    as (w' & E3 & Hb & Hqueue & _); [done|lia|lia|by rewrite Hclient|].
  exists w'. split; [|split; [|split]].
  - unfold handle_next. etrans; [|exact E3].
    refine (io_bind_returns _ _ w w1 (Some (Some (Ok (chunk_response k)))) _).
    rewrite Hclient. by apply on_cbase_returns.
  - rewrite Hqueue. unfold queue_of in *. cbn. by rewrite Hq.
  - pose proof (keeps_chunk 10000 (header_of k) (chunk k) w1 Hch) as Hk. by rewrite E3 in Hk.
  - intros w2 Hb2 Hch2 Hq2. split; [done|done|]. exists cw2. eexists. rewrite Hb2, Hb.
    split; [exact Hi2|]. split; [exact Hw2|]. unfold receive_items. cbn. rewrite Hrun. cbn.
    by split_and!.
Qed.

(** Consuming [m] chunks polls their deliveries, in order. *)
Lemma consume_chunks m k t (w : KW) :
  turns = S t -> waiting_for k w ->
  ∃ w', consume m w =
      Returns w' (map (λ d, Ready (Some (Ok d))) (mjoin (map chunk_deliveries (seq k m)))) /\
    waiting_for (k + m) w'.
Proof.
  intros Ht. revert k w. induction m as [|m IH]; intros k w Hw; cbn [consume].
  { exists w. by rewrite Nat.add_0_r. }
  destruct (handle_next_chunk k t w Ht Hw) as (w1 & E1 & Hq1 & Hch1 & Hnext).
  destruct (poll_queued_all 10000 w1 Hch1) as (w2 & E2 & Hq2 & Hb2 & Hch2).
  destruct (IH (S k) w2 (Hnext w2 Hb2 Hch2 Hq2)) as (w3 & E3 & Hw3).
  exists w3. split; [|by rewrite Nat.add_succ_r].
  rewrite (io_bind_returns _ _ _ _ _ E1), (io_bind_returns _ _ _ _ _ E2), (io_bind_returns _ _ _ _ _ E3).
  cbn [seq map]. rewrite Hq1, map_map. cbn [mjoin list_join]. by rewrite map_app.
Qed.

End receiving.

(** ** From the builder on *)

Section built.
Context {X : AmqpExt} {DM : DashMap} {MC : Mpsc} {TR : Transport} {RD : Random} (turns attempts : nat).
#[local] Existing Instance pool_api.
Context (b : ConsumerBuilder (St:=Pool) (C:=Handle)) (stream : bytes).

(** The request with which a consumer subscribes. *)
Definition subscription (n : Z) : Request :=
  Request_from (subscribe.SubscribeCommand_new n 1 stream (cb_offset_specification b) 1
    (subscription_properties b (default [] (consumer_name b)))).

(** A consumer whose subscription is granted and answered with the first chunk is
    built, and waits for that chunk. *)
Lemma built_waits i h cl n s p p1 k t header chunk header_of at_chunk :
  turns = S t -> single_active_without_name b = false -> filter_refused (API:=pool_api turns) b (i, h) = false ->
  create_consumer_client (API:=pool_api turns) attempts (cb_environment b) stream
    (cb_client_provided_name b) p = Returns p1 (i, h) ->
  idle p1 i cl n s ->
  conn_send (subscription n) (connection s) = (k, Ok
    [Some (Ok (Response_new header (ResponseKind_Generic (generic.GenericResponse_new n ResponseCode_Ok))));
     Some (Ok (chunk_response chunk header_of 0))]) ->
  at_chunk 1%nat k ->
  ∃ p', ConsumerBuilder_build (API:=pool_api turns) attempts b stream p =
      Returns p' (built_consumer b stream (i, h), CState_new) /\
    waiting_for i cl ((n + 1) mod 2 ^ 32) chunk header_of at_chunk 0
      {| cbase := p'; cstate := CState_new |}.
Proof.
  intros Ht Hname Hf Hc Hidle Hsend Hat.
  destruct (api_set_handler_ok turns i h cl n s p1 Hidle) as (p2 & Eh & Hidle2).
  destruct (api_answered turns (T:=generic.GenericResponse)
    (λ cid, subscribe.SubscribeCommand_new cid 1 stream (cb_offset_specification b) 1
       (subscription_properties b (default [] (consumer_name b)))) t i h cl n _ p2 k _
    [Some (Ok (chunk_response chunk header_of 0))] _ Ht Hidle2 Hsend eq_refl eq_refl eq_refl)
    as (p' & w' & Es & Hi & Hw).
  exists p'. split.
  - by apply (build_subscribes (API:=pool_api turns) attempts b stream p p1 p2 (i, h) Hname Hc Eh p'
      (generic.GenericResponse_new n ResponseCode_Ok) Hf).
  - destruct Hidle2 as [_ Hrun _ Hsp]. split; [|by unfold queue_of; cbn; rewrite mpsc_channel_buffer|].
    + split; cbn; [by rewrite mpsc_channel_capacity|by rewrite mpsc_channel_open].
    + exists w'. eexists. split; [exact Hi|]. split; [exact Hw|]. by split_and!.
Qed.

End built.
