(* ===== verification/SuperStream.v ===== *)
(** * Super streams

    src/superstream.rs, src/superstream_producer.rs, src/superstream_consumer.rs.

    A super stream is a set of partitions.  Its metadata (partitions and routes)
    are asked for once and kept; a producer sends every message to the streams its
    routing strategy names, over one producer per stream; a consumer runs one
    consumer per partition.  The hash of the routing key is murmur3's. *)
From S2P Require Import Prelude Utf8 HashMaps Integers Codec Protocol.
From S2P Require Import Session Streams Producing Consuming.
From S2P Require Import AmqpCodes AmqpSimple AmqpValue AmqpMessage Messages Request Response.
From S2P Require Import ClientCodec Effects Dispatcher Options Client ClientApi Errors Environment.
From S2P Require Import Producer Consumer.

(** murmur3: [murmur3_32(&mut Cursor::new(key), seed)], which reads the whole key
    and cannot fail on a cursor. *)
Class Murmur := {
  murmur3_32 : bytes -> Z -> Z;
  murmur3_32_range key seed : 0 <= murmur3_32 key seed < 2 ^ 32;
}.

Section superstream.
Context {X : AmqpExt} {DM : DashMap} {MC : Mpsc} {RD : Random} {MH : Murmur}.
Context {St C : Type} {API : ClientApi St C} (attempts : nat).

(** ** DefaultSuperStreamMetadata *)

Record DefaultSuperStreamMetadata := {
  super_stream : bytes;
  ss_client : C;
  ss_partitions : list bytes;
  ss_routes : list (bytes * list bytes);
}.

(** The connections and the metadata of a super stream. *)
Record SW := { sbase : St; smeta : DefaultSuperStreamMetadata }.

Definition set_sbase (s : St) (w : SW) : SW := {| sbase := s; smeta := smeta w |}.
Definition set_partitions (l : list bytes) (m : DefaultSuperStreamMetadata) :=
  {| super_stream := super_stream m; ss_client := ss_client m; ss_partitions := l;
     ss_routes := ss_routes m |}.
Definition set_routes (l : list (bytes * list bytes)) (m : DefaultSuperStreamMetadata) :=
  {| super_stream := super_stream m; ss_client := ss_client m;
     ss_partitions := ss_partitions m; ss_routes := l |}.
Definition on_meta {E} (f : DefaultSuperStreamMetadata -> DefaultSuperStreamMetadata) :
    io SW E unit := modify (λ w, {| sbase := sbase w; smeta := f (smeta w) |}).

(** [response.unwrap()] *)
Definition unwrap_call {E A} (m : io St ClientError.t A) : io SW E A :=
  r ← attempt (zoom sbase set_sbase m);
  match r with inr a => mret a | inl _ => crash UnwrapNone end.

Definition ss_get_partitions {E} : io SW E (list bytes) :=
  m ← gets smeta;
  match ss_partitions m with
  | [] =>
      response ← unwrap_call (api_partitions (ss_client m) (super_stream m));
      on_meta (set_partitions (superstream_partitions.r_streams response));;
      gets (λ w, ss_partitions (smeta w))
  | l => mret l
  end.

Definition ss_get_routes {E} (routing_key : bytes) : io SW E (list bytes) :=
  m ← gets smeta;
  match hm_get key_eqb routing_key (ss_routes m) with
  | Some _ => mret tt
  | None =>
      response ← unwrap_call (api_route (ss_client m) routing_key (super_stream m));
      on_meta (set_routes (hm_insert key_eqb routing_key
                 (superstream_route.r_streams response) (ss_routes m)))
  end;;
  m ← gets smeta;
  match hm_get key_eqb routing_key (ss_routes m) with
  | Some l => mret l
  | None => crash UnwrapNone
  end.

(** ** Routing strategies *)

Inductive RoutingStrategy :=
  | HashRoutingStrategy (routing_extractor : Message -> bytes)
  | RoutingKeyStrategy (routing_extractor : Message -> bytes).

(** [hash % n as u32] panics when the divisor is zero. *)
Definition rem_u32 {E} (x n : Z) : result E Z :=
  let n := n mod 2 ^ 32 in if n =? 0 then Panic ExplicitPanic else Ok (x mod n).

Definition hash_routes {E} (extractor : Message -> bytes) (message : Message) :
    io SW E (list bytes) :=
  let key := extractor message in
  let hash_result := murmur3_32 key 104729 in
  partitions ← ss_get_partitions;
  route ← of_result (rem_u32 hash_result (len partitions));
  match partitions !! Z.to_nat route with
  | Some stream => mret [stream]
  | None => crash UnwrapNone
  end.

Definition key_routes {E} (extractor : Message -> bytes) (message : Message) :
    io SW E (list bytes) := ss_get_routes (extractor message).

Definition routes_of {E} (strategy : RoutingStrategy) (message : Message) :
    io SW E (list bytes) :=
  match strategy with
  | HashRoutingStrategy f => hash_routes f message
  | RoutingKeyStrategy f => key_routes f message
  end.

(** ** SuperStreamProducer *)

Record SuperStreamProducerBuilder := {
  spb_environment : Environment;
  spb_filter_value_extractor : option (Message -> bytes);
  route_strategy : RoutingStrategy;
  spb_client_provided_name : bytes;
}.

(** [Environment::super_stream_producer] *)
Definition Environment_super_stream_producer (env : Environment) (s : RoutingStrategy) :=
  {| spb_environment := env; spb_filter_value_extractor := None; route_strategy := s;
     spb_client_provided_name := str "rust-super-stream-producer" |}.

(** The setters of the builder. *)
Definition spb_set_filter_value_extractor (f : Message -> bytes) (b : SuperStreamProducerBuilder) :
    SuperStreamProducerBuilder :=
  {| spb_environment := spb_environment b; spb_filter_value_extractor := Some f;
     route_strategy := route_strategy b;
     spb_client_provided_name := spb_client_provided_name b |}.
Definition spb_set_client_provided_name (n : bytes) (b : SuperStreamProducerBuilder) :
    SuperStreamProducerBuilder :=
  {| spb_environment := spb_environment b;
     spb_filter_value_extractor := spb_filter_value_extractor b;
     route_strategy := route_strategy b; spb_client_provided_name := n |}.

Record SuperStreamProducer := {
  sp_environment : Environment;
  sp_client : C;
  sp_filter_value_extractor : option (Message -> bytes);
  sp_client_provided_name : bytes;
  sp_strategy : RoutingStrategy;
}.

(** The connections, the producers opened so far by stream, the metadata. *)
Record SPW := {
  spbase : St;
  producers : list (bytes * (ProducerInternal (C:=C) * PState));
  spmeta : DefaultSuperStreamMetadata;
}.

Definition SuperStreamProducerBuilder_build (b : SuperStreamProducerBuilder) (stream : bytes) :
    io St ProducerCreateError.t (SuperStreamProducer * DefaultSuperStreamMetadata) :=
  client ← producer_client (create_client (spb_environment b));
  mret ({| sp_environment := spb_environment b; sp_client := client;
           sp_filter_value_extractor := spb_filter_value_extractor b;
           sp_client_provided_name := spb_client_provided_name b;
           sp_strategy := route_strategy b |},
        {| super_stream := stream; ss_client := client; ss_partitions := []; ss_routes := [] |}).

Definition on_smeta {E A} (m : io SW E A) : io SPW E A :=
  zoom (λ w, {| sbase := spbase w; smeta := spmeta w |})
       (λ s w, {| spbase := sbase s; producers := producers w; spmeta := smeta s |}) m.
Definition on_spbase {E A} (m : io St E A) : io SPW E A :=
  zoom spbase (λ s w, {| spbase := s; producers := producers w; spmeta := spmeta w |}) m.

(** The producer of a partition, as [send] builds it. *)
Definition route_builder (sp : SuperStreamProducer) : ProducerBuilder :=
  pb_set_filter_value_extractor_arc (sp_filter_value_extractor sp)
    (pb_set_client_provided_name (sp_client_provided_name sp)
      (Environment_producer (sp_environment sp))).

Definition ensure_producer (overflow_checks : bool) (sp : SuperStreamProducer) (route : bytes) :
    io SPW SuperStreamProducerPublishError.t unit :=
  ps ← gets producers;
  match hm_get key_eqb route ps with
  | Some _ => mret tt
  | None =>
      pr ← map_throws super_stream_error_of_create
        (on_spbase (ProducerBuilder_build attempts overflow_checks (route_builder sp) route));
      modify (λ w, {| spbase := spbase w;
                      producers := hm_insert key_eqb route pr (producers w);
                      spmeta := spmeta w |})
  end.

(** [self.1.get(&route).unwrap()] and a call on that producer. *)
Definition on_producer {A} (route : bytes)
    (m : ProducerInternal (C:=C) -> io (PW (St:=St)) ProducerPublishError.t A) :
    io SPW ProducerPublishError.t A := λ w,
  match hm_get key_eqb route (producers w) with
  | None => Panics w UnwrapNone
  | Some (p, st) =>
      zoom (λ w, {| base := spbase w; pstate := st |})
           (λ pw w, {| spbase := base pw;
                       producers := hm_insert key_eqb route (p, pstate pw) (producers w);
                       spmeta := spmeta w |}) (m p) w
  end.

(** The producer of a route, with its state. *)
Definition ss_send (overflow_checks : bool) (sp : SuperStreamProducer) (message : Message)
    (callback : nat) : io SPW SuperStreamProducerPublishError.t unit :=
  routes ← on_smeta (routes_of (sp_strategy sp) message);
  match routes with
  | [] => throw SuperStreamProducerPublishError.ProducerCreateError
  | _ =>
      each (λ route,
        ensure_producer overflow_checks sp route;;
        map_throws super_stream_error_of_publish
          (on_producer route (λ p, do_send overflow_checks p message callback))) routes
  end.

(** [close]: the client of the super stream, then every producer; the error of
    the last producer that failed is the answer. *)
Definition close_producer (e : option ProducerCloseError.t)
    (pr : ProducerInternal (C:=C) * PState) : io SPW ProducerCloseError.t (option ProducerCloseError.t) :=
  r ← attempt (zoom (λ w, {| base := spbase w; pstate := pr.2 |})
                    (λ pw w, {| spbase := base pw; producers := producers w; spmeta := spmeta w |})
                    (Producer_close pr.1));
  mret (match r with inl e' => Some e' | inr _ => e end).

Fixpoint close_producers (e : option ProducerCloseError.t)
    (l : list (bytes * (ProducerInternal (C:=C) * PState))) :
    io SPW ProducerCloseError.t (option ProducerCloseError.t) :=
  match l with
  | [] => mret e
  | (_, pr) :: l => e ← close_producer e pr; close_producers e l
  end.

Definition SuperStreamProducer_close (sp : SuperStreamProducer) :
    io SPW ProducerCloseError.t unit :=
  map_throws ProducerCloseError.Client (on_spbase (api_close (sp_client sp)));;
  ps ← gets producers;
  err ← close_producers None ps;
  match err with
  | None => mret tt
  | Some e => throw e
  end.

(** ** SuperStreamConsumer *)

Record SuperStreamConsumerBuilder := {
  super_stream_consumer_name : option bytes;
  scb_environment : Environment;
  scb_offset_specification : subscribe.OffsetSpecification;
  scb_filter_configuration : option FilterConfiguration;
  scb_consumer_update_listener : option (ConsumerUpdateListener (St:=St) (C:=C));
  scb_client_provided_name : bytes;
  scb_is_single_active_consumer : bool;
  scb_properties : list (bytes * bytes);
}.

(** [Environment::super_stream_consumer] *)
Definition Environment_super_stream_consumer (env : Environment) : SuperStreamConsumerBuilder :=
  {| super_stream_consumer_name := None; scb_environment := env;
     scb_offset_specification := subscribe.Next; scb_filter_configuration := None;
     scb_consumer_update_listener := None;
     scb_client_provided_name := str "rust-super-stream-consumer";
     scb_is_single_active_consumer := false; scb_properties := [] |}.

(** The setters of the builder. *)
Definition scb_set_offset (o : subscribe.OffsetSpecification) (b : SuperStreamConsumerBuilder) :
    SuperStreamConsumerBuilder :=
  {| super_stream_consumer_name := super_stream_consumer_name b;
     scb_environment := scb_environment b; scb_offset_specification := o;
     scb_filter_configuration := scb_filter_configuration b;
     scb_consumer_update_listener := scb_consumer_update_listener b;
     scb_client_provided_name := scb_client_provided_name b;
     scb_is_single_active_consumer := scb_is_single_active_consumer b;
     scb_properties := scb_properties b |}.
Definition scb_set_name (n : bytes) (b : SuperStreamConsumerBuilder) :
    SuperStreamConsumerBuilder :=
  {| super_stream_consumer_name := Some n; scb_environment := scb_environment b;
     scb_offset_specification := scb_offset_specification b;
     scb_filter_configuration := scb_filter_configuration b;
     scb_consumer_update_listener := scb_consumer_update_listener b;
     scb_client_provided_name := scb_client_provided_name b;
     scb_is_single_active_consumer := scb_is_single_active_consumer b;
     scb_properties := scb_properties b |}.
Definition scb_enable_single_active_consumer (x : bool) (b : SuperStreamConsumerBuilder) :
    SuperStreamConsumerBuilder :=
  {| super_stream_consumer_name := super_stream_consumer_name b;
     scb_environment := scb_environment b;
     scb_offset_specification := scb_offset_specification b;
     scb_filter_configuration := scb_filter_configuration b;
     scb_consumer_update_listener := scb_consumer_update_listener b;
     scb_client_provided_name := scb_client_provided_name b; scb_is_single_active_consumer := x;
     scb_properties := scb_properties b |}.
Definition scb_set_filter_input (f : option FilterConfiguration) (b : SuperStreamConsumerBuilder) :
    SuperStreamConsumerBuilder :=
  {| super_stream_consumer_name := super_stream_consumer_name b;
     scb_environment := scb_environment b;
     scb_offset_specification := scb_offset_specification b; scb_filter_configuration := f;
     scb_consumer_update_listener := scb_consumer_update_listener b;
     scb_client_provided_name := scb_client_provided_name b;
     scb_is_single_active_consumer := scb_is_single_active_consumer b;
     scb_properties := scb_properties b |}.
Definition scb_set_consumer_update (l : ConsumerUpdateListener (St:=St) (C:=C)) (b : SuperStreamConsumerBuilder) :
    SuperStreamConsumerBuilder :=
  {| super_stream_consumer_name := super_stream_consumer_name b;
     scb_environment := scb_environment b;
     scb_offset_specification := scb_offset_specification b;
     scb_filter_configuration := scb_filter_configuration b;
     scb_consumer_update_listener := Some l;
     scb_client_provided_name := scb_client_provided_name b;
     scb_is_single_active_consumer := scb_is_single_active_consumer b;
     scb_properties := scb_properties b |}.
Definition scb_set_client_provided_name (n : bytes) (b : SuperStreamConsumerBuilder) :
    SuperStreamConsumerBuilder :=
  {| super_stream_consumer_name := super_stream_consumer_name b;
     scb_environment := scb_environment b;
     scb_offset_specification := scb_offset_specification b;
     scb_filter_configuration := scb_filter_configuration b;
     scb_consumer_update_listener := scb_consumer_update_listener b;
     scb_client_provided_name := n;
     scb_is_single_active_consumer := scb_is_single_active_consumer b;
     scb_properties := scb_properties b |}.
Definition scb_set_properties (m : list (bytes * bytes)) (b : SuperStreamConsumerBuilder) :
    SuperStreamConsumerBuilder :=
  {| super_stream_consumer_name := super_stream_consumer_name b;
     scb_environment := scb_environment b;
     scb_offset_specification := scb_offset_specification b;
     scb_filter_configuration := scb_filter_configuration b;
     scb_consumer_update_listener := scb_consumer_update_listener b;
     scb_client_provided_name := scb_client_provided_name b;
     scb_is_single_active_consumer := scb_is_single_active_consumer b; scb_properties := m |}.

(** The properties every partition is subscribed with, beside the consumer's own. *)
Definition super_stream_properties (b : SuperStreamConsumerBuilder) (stream : bytes) :
    list (bytes * bytes) :=
  if scb_is_single_active_consumer b
  then hm_insert key_eqb (str "super-stream") stream (scb_properties b)
  else scb_properties b.

(** The consumer of a partition, as [build] makes it. *)
Definition partition_builder (b : SuperStreamConsumerBuilder) (stream : bytes) :
    ConsumerBuilder (St:=St) (C:=C) :=
  cb_enable_single_active_consumer (scb_is_single_active_consumer b)
    (cb_set_properties (super_stream_properties b stream)
      (cb_set_consumer_update_arc (scb_consumer_update_listener b)
        (cb_set_filter_input (scb_filter_configuration b)
          (cb_set_client_provided_name (scb_client_provided_name b)
            (cb_set_offset (scb_offset_specification b)
              (cb_set_name_optional (super_stream_consumer_name b)
                (Environment_consumer (scb_environment b)))))))).

Definition super_single_active_without_name (b : SuperStreamConsumerBuilder) : bool :=
  (scb_is_single_active_consumer b ||
     match hm_get key_eqb (str "single-active-consumer") (scb_properties b) with
     | Some _ => true | None => false
     end) && match super_stream_consumer_name b with None => true | Some _ => false end.

(** [.build(partition).await.unwrap()] for every partition. *)
Definition build_partition (b : SuperStreamConsumerBuilder) (stream partition : bytes) :
    io SW ConsumerCreateError.t (ConsumerInternal (St:=St) (C:=C) * CState) :=
  r ← attempt (zoom sbase set_sbase
        (ConsumerBuilder_build attempts (partition_builder b stream) partition));
  match r with inr c => mret c | inl _ => crash UnwrapNone end.

Record SuperStreamConsumer := {
  sc_client : C;
  sc_consumers : list (ConsumerInternal (St:=St) (C:=C) * CState);
}.

(** [build], once the client of the super stream is connected. *)
Definition SuperStreamConsumer_build_on (b : SuperStreamConsumerBuilder) (stream : bytes) :
    io SW ConsumerCreateError.t SuperStreamConsumer :=
  partitions ← ss_get_partitions;
  consumers ← map_each (build_partition b stream) partitions;
  client ← gets (λ w, ss_client (smeta w));
  mret {| sc_client := client; sc_consumers := consumers |}.

Definition SuperStreamConsumerBuilder_build (b : SuperStreamConsumerBuilder) (stream : bytes) :
    io St ConsumerCreateError.t SuperStreamConsumer :=
  if super_single_active_without_name b
  then throw ConsumerCreateError.SingleActiveConsumerNotSupported
  else
    client ← consumer_client (create_client (C:=C) (scb_environment b));
    zoom (λ s, {| sbase := s; smeta := {| super_stream := stream; ss_client := client;
                                          ss_partitions := []; ss_routes := [] |} |})
         (λ w _, sbase w) (SuperStreamConsumer_build_on b stream).

(** The handle: the flag of the super stream and the consumers' states; the task of
    every partition has a sender of the channel until it ends ([sc_running]). *)
Record SCW := {
  scbase : St;
  sc_states : list CState;
  sc_closed : bool;
  sc_channel : mpsc (result ConsumerDeliveryError.t Delivery);
  sc_running : list bool;
}.

Definition set_scbase (s : St) (w : SCW) : SCW :=
  {| scbase := s; sc_states := sc_states w; sc_closed := sc_closed w; sc_channel := sc_channel w;
     sc_running := sc_running w |}.
Definition set_sc_state (i : nat) (st : CState) (w : SCW) : SCW :=
  {| scbase := scbase w; sc_states := <[i := st]> (sc_states w); sc_closed := sc_closed w;
     sc_channel := sc_channel w; sc_running := sc_running w |}.
Definition set_sc_channel (ch : mpsc (result ConsumerDeliveryError.t Delivery)) (w : SCW) : SCW :=
  {| scbase := scbase w; sc_states := sc_states w; sc_closed := sc_closed w; sc_channel := ch;
     sc_running := sc_running w |}.
Definition set_sc_closed (w : SCW) : SCW :=
  {| scbase := scbase w; sc_states := sc_states w; sc_closed := true; sc_channel := sc_channel w;
     sc_running := sc_running w |}.

(** The channel, once the senders that are left are those of the tasks that run: the
    last sender that is dropped closes it. *)
Definition drop_senders_but (running : list bool)
    (ch : mpsc (result ConsumerDeliveryError.t Delivery)) :=
  if forallb negb running then mpsc_drop_sender ch else ch.

(** [build] leaves a channel of 10000 and the states of the consumers; its own sender
    is dropped when it returns. *)
Definition SCW_new (s : St) (sc : SuperStreamConsumer) : SCW :=
  let running := map (λ _, true) (sc_consumers sc) in
  {| scbase := s; sc_states := map snd (sc_consumers sc); sc_closed := false;
     sc_channel := drop_senders_but running (mpsc_channel 10000); sc_running := running |}.

(** The task of the [i]-th partition ends, and drops its sender. *)
Definition end_task (i : nat) (w : SCW) : SCW :=
  let running := <[i := false]> (sc_running w) in
  {| scbase := scbase w; sc_states := sc_states w; sc_closed := sc_closed w;
     sc_channel := drop_senders_but running (sc_channel w); sc_running := running |}.

(** A round of the task of the [i]-th partition: what its consumer yields goes to
    the channel of the super stream; [false] when the consumer has ended, and the task
    with it. *)
Definition forward {E} (i : nat) : io SCW E bool := λ w,
  match sc_states w !! i with
  | None => Panics w UnwrapNone
  | Some st =>
      let '(ch, p) := poll_recv (c_channel st) in
      let w := set_sc_state i (set_channel ch st) w in
      match poll_closed (c_closed st) p with
      | Ready (Some d) =>
          if len (mpsc_buffer (sc_channel w)) <? mpsc_capacity (sc_channel w)
          then Returns (set_sc_channel (mpsc_send d (sc_channel w)) w) true
          else Waits w
      | Ready None => Returns (end_task i w) false
      | Pending => Waits w
      end
  end.

(** [poll_next] of [SuperStreamConsumer]. *)
Definition sc_poll_next {E} :
    io SCW E (poll (option (result ConsumerDeliveryError.t Delivery))) := λ w,
  let '(ch, p) := poll_recv (sc_channel w) in
  Returns (set_sc_channel ch w) (poll_closed (sc_closed w) p).

(** [handle.internal_close().await.unwrap()] of the [i]-th consumer. *)
Definition close_partition (i : nat) (c : ConsumerInternal (St:=St) (C:=C)) :
    io SCW ConsumerCloseError.t unit := λ w,
  match sc_states w !! i with
  | None => Panics w UnwrapNone
  | Some st =>
      let put (kw : KW (St:=St)) := set_sc_state i (cstate kw) (set_scbase (cbase kw) w) in
      match internal_close c {| cbase := scbase w; cstate := st |} with
      | Returns kw _ => Returns (put kw) tt
      | Throws kw _ => Panics (put kw) UnwrapNone
      | Panics kw p => Panics (put kw) p
      | Waits kw => Waits (put kw)
      end
  end.

Definition SuperStreamConsumer_close (sc : SuperStreamConsumer) :
    io SCW ConsumerCloseError.t unit :=
  is_closed ← gets sc_closed;
  if (is_closed : bool) then throw ConsumerCloseError.AlreadyClosed
  else
    modify set_sc_closed;;
    each (λ '(i, c), close_partition i c)
         (zip (seq 0 (length (sc_consumers sc))) (map fst (sc_consumers sc)));;
    map_throws ConsumerCloseError.Client
      (zoom scbase set_scbase (api_close (sc_client sc))).

(** ** Laws *)

Lemma get_partitions_cached {E} (w : SW) :
  ss_partitions (smeta w) <> [] ->
  ss_get_partitions (E:=E) w = Returns w (ss_partitions (smeta w)).
Proof.
  intros H. unfold ss_get_partitions. rewrite (io_bind_returns _ _ w w (smeta w)) by done.
  by destruct (ss_partitions (smeta w)).
Qed.

(** The first time the server is asked; what it says is kept, unless it says
    nothing. *)
Lemma get_partitions_asked {E} (w : SW) s1 r :
  ss_partitions (smeta w) = [] ->
  api_partitions (ss_client (smeta w)) (super_stream (smeta w)) (sbase w) = Returns s1 r ->
  ss_get_partitions (E:=E) w =
  Returns {| sbase := s1;
             smeta := set_partitions (superstream_partitions.r_streams r) (smeta w) |}
          (superstream_partitions.r_streams r).
Proof.
  intros H Hr. unfold ss_get_partitions. rewrite (io_bind_returns _ _ w w (smeta w)) by done.
  rewrite H. rewrite (io_bind_returns _ _ w {| sbase := s1; smeta := smeta w |} r); [done|].
  unfold unwrap_call. rewrite (io_bind_returns _ _ w {| sbase := s1; smeta := smeta w |} (inr r));
    [done|]. unfold attempt, zoom. by rewrite Hr.
Qed.

Lemma get_partitions_known {E} (w w1 : SW) l :
  ss_get_partitions (E:=E) w = Returns w1 l -> ss_partitions (smeta w1) = l.
Proof.
  unfold ss_get_partitions. rewrite (io_bind_returns _ _ w w (smeta w)) by done.
  destruct (ss_partitions (smeta w)) as [|x l'] eqn:Ep; [|by intros [= <- <-]].
  intros H. apply io_bind_returns_inv in H as (s1 & r & _ & H).
  apply io_bind_returns_inv in H as (s2 & [] & _ & H). by injection H as <- <-.
Qed.

Lemma get_routes_cached {E} key l (w : SW) :
  hm_get key_eqb key (ss_routes (smeta w)) = Some l ->
  ss_get_routes (E:=E) key w = Returns w l.
Proof.
  intros H. unfold ss_get_routes. rewrite (io_bind_returns _ _ w w (smeta w)) by done.
  rewrite H. rewrite (io_bind_returns _ _ w w tt) by done.
  rewrite (io_bind_returns _ _ w w (smeta w)) by done. by rewrite H.
Qed.

(** A message goes to the partition its key hashes to. *)
Lemma hash_routes_partition {E} extractor message (w : SW) l s1 :
  ss_get_partitions (E:=E) w = Returns s1 l -> 0 < len l < 2 ^ 32 -> ∃ stream,
    hash_routes (E:=E) extractor message w = Returns s1 [stream] /\
    l !! Z.to_nat (murmur3_32 (extractor message) 104729 mod len l) = Some stream.
Proof.
  intros Hl Hn. unfold hash_routes. set (h := murmur3_32 (extractor message) 104729).
  destruct (lookup_lt_is_Some_2 l (Z.to_nat (h mod len l))) as [stream Hs].
  { pose proof (Z.mod_pos_bound h (len l)). unfold len in *. lia. }
  exists stream. split; [|done]. rewrite (io_bind_returns _ _ _ _ _ Hl).
  assert (Hrem : rem_u32 (E:=E) h (len l) = Ok (h mod len l)).
  { unfold rem_u32. rewrite (Z.mod_small (len l)) by lia.
    by rewrite (proj2 (Z.eqb_neq _ _)) by lia. }
  rewrite (io_bind_returns _ _ s1 s1 (h mod len l)) by (unfold of_result; by rewrite Hrem).
  by rewrite Hs.
Qed.

(** A super stream without partitions makes the producer panic. *)
Lemma hash_routes_empty {E} extractor message (w : SW) s1 :
  ss_get_partitions (E:=E) w = Returns s1 [] ->
  hash_routes (E:=E) extractor message w = Panics s1 ExplicitPanic.
Proof. intros Hl. unfold hash_routes. by rewrite (io_bind_returns _ _ _ _ _ Hl). Qed.

(** What the routing of a message leaves of the producer. *)
Definition meta_world (w : SPW) : SW := {| sbase := spbase w; smeta := spmeta w |}.
Definition put_meta (s : SW) (w : SPW) : SPW :=
  {| spbase := sbase s; producers := producers w; spmeta := smeta s |}.

(** A message for one partition whose producer is open goes to that producer ... *)
Lemma ss_send_known overflow_checks sp message callback (w : SPW) s1 route p st pw :
  routes_of (E:=SuperStreamProducerPublishError.t) (sp_strategy sp) message (meta_world w) = Returns s1 [route] ->
  hm_get key_eqb route (producers w) = Some (p, st) ->
  do_send overflow_checks p message callback {| base := sbase s1; pstate := st |} = Returns pw tt ->
  ss_send overflow_checks sp message callback w =
  Returns {| spbase := base pw; producers := hm_insert key_eqb route (p, pstate pw) (producers w);
             spmeta := smeta s1 |} tt.
Proof.
  intros Hr Hp Hd. unfold ss_send.
  rewrite (io_bind_returns _ _ w (put_meta s1 w) [route])
    by (unfold on_smeta, zoom; unfold meta_world in Hr; by rewrite Hr).
  cbn [each].
  rewrite (io_bind_returns _ _ _ {| spbase := base pw;
    producers := hm_insert key_eqb route (p, pstate pw) (producers w); spmeta := smeta s1 |} tt); [done|].
  rewrite (io_bind_returns _ _ _ (put_meta s1 w) tt)
    by (unfold ensure_producer, gets, mbind, io_bind; cbn; by rewrite Hp).
  unfold map_throws, on_producer. cbn [producers put_meta]. rewrite Hp. unfold zoom. cbn [spbase put_meta].
  by rewrite Hd.
Qed.

(** ... and where it is not, the producer is built first. *)
Lemma ss_send_new overflow_checks sp message callback (w : SPW) s1 route s2 p st pw :
  routes_of (E:=SuperStreamProducerPublishError.t) (sp_strategy sp) message (meta_world w) = Returns s1 [route] ->
  hm_get key_eqb route (producers w) = None ->
  ProducerBuilder_build attempts overflow_checks (route_builder sp) route (sbase s1) =
    Returns s2 (p, st) ->
  do_send overflow_checks p message callback {| base := s2; pstate := st |} = Returns pw tt ->
  ss_send overflow_checks sp message callback w =
  Returns {| spbase := base pw;
             producers := hm_insert key_eqb route (p, pstate pw)
                            (hm_insert key_eqb route (p, st) (producers w));
             spmeta := smeta s1 |} tt.
Proof.
  intros Hr Hp Hb Hd. unfold ss_send.
  rewrite (io_bind_returns _ _ w (put_meta s1 w) [route])
    by (unfold on_smeta, zoom; unfold meta_world in Hr; by rewrite Hr).
  cbn [each]. set (w2 := {| spbase := s2; producers := hm_insert key_eqb route (p, st) (producers w);
                            spmeta := smeta s1 |} : SPW).
  rewrite (io_bind_returns _ _ _ {| spbase := base pw;
    producers := hm_insert key_eqb route (p, pstate pw) (producers w2); spmeta := smeta s1 |} tt); [done|].
  rewrite (io_bind_returns _ _ _ w2 tt).
  2:{ unfold ensure_producer, gets, mbind, io_bind. cbn [producers put_meta]. rewrite Hp.
      unfold map_throws, on_spbase, zoom. cbn [spbase put_meta]. by rewrite Hb. }
  unfold map_throws, on_producer.
  assert (Hw2 : hm_get key_eqb route (producers w2) = Some (p, st))
    by (cbn; by rewrite hm_get_insert, decide_True).
  rewrite Hw2. unfold zoom. cbn [spbase w2]. by rewrite Hd.
Qed.

(** Without a partition for it, or when the metadata fails, nothing is sent. *)
Lemma ss_send_nowhere overflow_checks sp message callback (w : SPW) s1 :
  routes_of (E:=SuperStreamProducerPublishError.t) (sp_strategy sp) message (meta_world w) = Returns s1 [] ->
  ss_send overflow_checks sp message callback w =
  Throws (put_meta s1 w) SuperStreamProducerPublishError.ProducerCreateError.
Proof.
  intros Hr. unfold ss_send. rewrite (io_bind_returns _ _ w (put_meta s1 w) []); [done|].
  unfold on_smeta, zoom. unfold meta_world in Hr. by rewrite Hr.
Qed.

End superstream.
