(* ===== verification/SuperRuns.v ===== *)
(** * Runs of a super stream consumer

    The consumer of a super stream is one consumer per partition, each with a task
    that takes its deliveries one by one and sends them on the channel the
    application polls.  Here the runs of those consumers (ConsumerRuns.v), their
    tasks and the application interleave: between receiving and sending a task
    holds a delivery, and it waits while the channel is full.  A task whose consumer has
    ended drops its sender; when the last one has, the channel is closed and a poll of
    what is queued ends the stream.

    [sr_log] remembers which partition each delivery on the channel came from.
    [forward_run] and [poll_run] say that [forward] and [sc_poll_next] make these
    steps. *)
From S2P Require Import Prelude Utf8 HashMaps Integers Codec Protocol.
From S2P Require Import Session Streams Producing Consuming.
From S2P Require Import AmqpCodes AmqpSimple AmqpValue AmqpMessage Messages Request Response.
From S2P Require Import ClientCodec Effects Dispatcher Options Client ClientApi Errors Environment.
From S2P Require Import Producer Consumer ConsumerRuns SuperStream.

Section super.
Context {X : AmqpExt} {DM : DashMap} {MC : Mpsc}.
Context {St C : Type} {API : ClientApi St C} (overflow_checks : bool).
Context (cs : list (ConsumerInternal (St:=St) (C:=C))).
Abbreviation delivered := (result ConsumerDeliveryError.t Delivery).
Abbreviation run := (run (St:=St)).

(** [while let Some(d) = consumer.next().await { _ = tx_cloned.send(d).await; }] *)
Inductive task :=
  | Receiving
  | Sending (d : delivered)
  | Finished.

Record partition := { p_run : run; p_task : task }.

Record super_run := SuperRun {
  sr_partitions : list partition;
  sr_channel : mpsc delivered;
  sr_closed : bool;
  sr_log : list (nat * delivered);
  sr_polled : list delivered;
}.

Definition runs (pt : partition) : bool := match p_task pt with Finished => false | _ => true end.

Definition with_world (w : KW (St:=St)) (polled : list delivered) (r : run) : run :=
  Run w (run_hands r) (run_credit r) (run_read r) (run_polled r ++ polled).

Inductive super_step : super_run -> super_run -> Prop :=
  | step_consumer ps ch cl log pl i c pt r :
      cs !! i = Some c -> ps !! i = Some pt ->
      consumer_step overflow_checks c (p_run pt) r -> run_polled r = run_polled (p_run pt) ->
      super_step (SuperRun ps ch cl log pl)
        (SuperRun (<[i := {| p_run := r; p_task := p_task pt |}]> ps) ch cl log pl)
  | step_receive ps ch cl log pl i r w d :
      ps !! i = Some {| p_run := r; p_task := Receiving |} ->
      poll_next (E:=Empty_set) (run_world r) = Returns w (Ready (Some d)) ->
      super_step (SuperRun ps ch cl log pl)
        (SuperRun (<[i := {| p_run := with_world w [d] r; p_task := Sending d |}]> ps) ch cl log pl)
  | step_end ps ch cl log pl i r w :
      ps !! i = Some {| p_run := r; p_task := Receiving |} ->
      poll_next (E:=Empty_set) (run_world r) = Returns w (Ready None) ->
      super_step (SuperRun ps ch cl log pl)
        (let ps := <[i := {| p_run := with_world w [] r; p_task := Finished |}]> ps in
         SuperRun ps (drop_senders_but (map runs ps) ch) cl log pl)
  | step_send_on ps ch cl log pl i r d :
      ps !! i = Some {| p_run := r; p_task := Sending d |} ->
      len (mpsc_buffer ch) < mpsc_capacity ch ->
      super_step (SuperRun ps ch cl log pl)
        (SuperRun (<[i := {| p_run := r; p_task := Receiving |}]> ps) (mpsc_send d ch) cl
                  (log ++ [(i, d)]) pl)
  | step_poll_super ps ch cl log pl ch' p :
      poll_recv ch = (ch', p) ->
      super_step (SuperRun ps ch cl log pl)
        (SuperRun ps ch' cl log (pl ++ polled_value (poll_closed cl p)))
  | step_close_super ps ch cl log pl :
      super_step (SuperRun ps ch cl log pl) (SuperRun ps ch true log pl).

(** ** What the application gets *)

Definition from_partition (i : nat) (log : list (nat * delivered)) : list delivered :=
  map snd (filter (λ e, e.1 = i) log).
Definition held_by (t : task) : list delivered :=
  match t with Sending d => [d] | _ => [] end.

(** A partition whose deliveries are on their way in order. *)
Record partition_ok (log : list (nat * delivered)) (i : nat)
    (c : ConsumerInternal (St:=St) (C:=C)) (pt : partition) : Prop := {
  po_order : in_order c 10000 (p_run pt);
  po_log : from_partition i log ++ held_by (p_task pt) = run_polled (p_run pt);
}.

Record super_ok (s : super_run) : Prop := {
  so_log : map snd (sr_log s) = sr_polled s ++ mpsc_buffer (sr_channel s);
  so_partitions i c pt :
    cs !! i = Some c -> sr_partitions s !! i = Some pt -> partition_ok (sr_log s) i c pt;
  so_known i pt : sr_partitions s !! i = Some pt -> is_Some (cs !! i);
  so_room : len (mpsc_buffer (sr_channel s)) <= 10000;
  so_capacity : mpsc_capacity (sr_channel s) = 10000;
  so_open : mpsc_open (sr_channel s) = negb (forallb negb (map runs (sr_partitions s)));
}.

Lemma from_partition_snoc i j d log :
  from_partition i (log ++ [(j, d)]) =
  from_partition i log ++ (if decide (j = i) then [d] else []).
Proof.
  unfold from_partition. rewrite filter_app, map_app. f_equal.
  destruct (decide (j = i)) as [->|Hne]; [by rewrite filter_cons_True|].
  by rewrite filter_cons_False.
Qed.

(** The channel is open as long as the task of a partition runs. *)
Lemma runs_insert ps i pt pt' :
  ps !! i = Some pt -> runs pt' = runs pt -> map runs (<[i := pt']> ps) = map runs ps.
Proof.
  intros Hi Hr. etransitivity; [exact (list_fmap_insert runs ps i pt')|]. rewrite Hr.
  apply list_insert_id. rewrite list_lookup_fmap, Hi. done.
Qed.

Lemma drop_senders_ok running ch :
  mpsc_buffer (drop_senders_but running ch) = mpsc_buffer ch /\
  mpsc_capacity (drop_senders_but running ch) = mpsc_capacity ch /\
  mpsc_open (drop_senders_but running ch) = negb (forallb negb running) && mpsc_open ch.
Proof.
  unfold drop_senders_but. destruct (forallb negb running); [|done].
  by rewrite mpsc_drop_buffer, mpsc_drop_capacity, mpsc_drop_open.
Qed.

(** Where one more task has ended, those that run ran before. *)
Lemma running_before ps i pt :
  runs pt = false -> forallb negb (map runs (<[i := pt]> ps)) = false ->
  forallb negb (map runs ps) = false.
Proof.
  intros Hpt. revert i. induction ps as [|a ps IH]; intros [|i]; cbn; try done.
  - rewrite Hpt. cbn. intros ->. apply andb_false_r.
  - rewrite !andb_false_iff. intros [H|H]; [by left|]. right. by eapply IH.
Qed.

(** The partition [i] makes a step of its own, the others and the channel stay. *)
Lemma super_ok_update ps ch cl log pl i c pt pt' :
  super_ok (SuperRun ps ch cl log pl) -> ps !! i = Some pt -> cs !! i = Some c ->
  runs pt' = runs pt -> (partition_ok log i c pt -> partition_ok log i c pt') ->
  super_ok (SuperRun (<[i := pt']> ps) ch cl log pl).
Proof.
  intros [Hl Hp Hk Hr Hc Ho] Hi Hci Hrun Hpt. split; try done; cbn [sr_partitions sr_channel sr_log] in *.
  - intros j c' pt'' Hj [(-> & <- & _)|[Hne Hpj]]%list_lookup_insert_Some; [|by apply Hp].
    rewrite Hci in Hj. injection Hj as <-. apply Hpt. by apply Hp.
  - intros j pt'' [(-> & _)|[_ Hpj]]%list_lookup_insert_Some; [by eexists|by eapply Hk].
  - by rewrite (runs_insert ps i pt).
Qed.

(** The task of a partition ends, and its sender is dropped. *)
Lemma super_ok_end ps ch cl log pl i c pt pt' :
  super_ok (SuperRun ps ch cl log pl) -> ps !! i = Some pt -> cs !! i = Some c ->
  runs pt' = false -> (partition_ok log i c pt -> partition_ok log i c pt') ->
  super_ok (SuperRun (<[i := pt']> ps) (drop_senders_but (map runs (<[i := pt']> ps)) ch) cl log pl).
Proof.
  intros [Hl Hp Hk Hr Hc Ho] Hi Hci Hrun Hpt.
  destruct (drop_senders_ok (map runs (<[i := pt']> ps)) ch) as (Hb & Hcap & Hop).
  split; cbn [sr_partitions sr_channel sr_log sr_polled] in *; rewrite ?Hb, ?Hcap; try done.
  - intros j c' pt'' Hj [(-> & <- & _)|[Hne Hpj]]%list_lookup_insert_Some; [|by apply Hp].
    rewrite Hci in Hj. injection Hj as <-. apply Hpt. by apply Hp.
  - intros j pt'' [(-> & _)|[_ Hpj]]%list_lookup_insert_Some; [by eexists|by eapply Hk].
  - rewrite Hop, Ho. destruct (forallb negb (map runs (<[i:=pt']> ps))) eqn:E; [done|].
    by rewrite (running_before ps i pt').
Qed.

Lemma with_world_order (c : ConsumerInternal (St:=St) (C:=C)) r w p :
  poll_next (E:=Empty_set) (run_world r) = Returns w p -> in_order c 10000 r ->
  in_order c 10000 (with_world w (polled_value p) r).
Proof. destruct r as [w0 hs cr rd pl]. apply poll_in_order. Qed.

Lemma super_step_ok s s' : super_step s s' -> super_ok s -> super_ok s'.
Proof.
  intros Hs Hok. destruct Hs as [ps ch cl log pl i c pt r Hc Hi Hstep Hpl
    |ps ch cl log pl i r w d Hi E|ps ch cl log pl i r w Hi E
    |ps ch cl log pl i r d Hi Hlt|ps ch cl log pl ch' p E|ps ch cl log pl].
  - eapply super_ok_update; [done..|]. intros [Ho Hl]. split; cbn.
    + by eapply step_in_order.
    + by rewrite Hpl.
  - destruct (so_known _ Hok i _ Hi) as [c Hc]. eapply super_ok_update; [done..|].
    intros [Ho Hl]. cbn in *. rewrite app_nil_r in Hl. split; cbn.
    + by apply (with_world_order c r w (Ready (Some d))).
    + by rewrite Hl.
  - destruct (so_known _ Hok i _ Hi) as [c Hc]. eapply super_ok_end; [done..|].
    intros [Ho Hl]. cbn in *. split; cbn.
    + by apply (with_world_order c r w (Ready None)).
    + by rewrite Hl, app_nil_r.
  - destruct Hok as [Hl Hp Hk Hr Hcap Ho].
    cbn [sr_partitions sr_channel sr_log sr_polled] in *. split; cbn [sr_partitions sr_channel sr_log sr_polled].
    + by rewrite map_app, Hl, mpsc_send_buffer, <- app_assoc.
    + intros j c pt Hj [(-> & <- & _)|[Hne Hpj]]%list_lookup_insert_Some.
      * destruct (Hp j c _ Hj Hi) as [Hord Hlog]. split; [done|]. cbn in *.
        by rewrite from_partition_snoc, decide_True, app_nil_r.
      * destruct (Hp j c _ Hj Hpj) as [Hord Hlog]. split; [done|].
        by rewrite from_partition_snoc, decide_False, app_nil_r.
    + intros j pt [(-> & _)|[_ Hpj]]%list_lookup_insert_Some; by eapply Hk.
    + rewrite mpsc_send_buffer by done. unfold len in *. rewrite length_app. cbn. lia.
    + by rewrite mpsc_send_capacity.
    + by rewrite mpsc_send_open, (runs_insert ps i {| p_run := r; p_task := Sending d |}).
  - destruct Hok as [Hl Hp Hk Hr Hcap Ho]. cbn in *.
    destruct (poll_recv_result ch ch' p cl E) as (Hb & Hc' & Ho' & _).
    split; cbn; try done.
    + by rewrite Hl, Hb, <- app_assoc.
    + rewrite Hb in Hr. unfold len in *. rewrite length_app in Hr. lia.
    + by rewrite Hc'.
    + by rewrite Ho'.
  - destruct Hok as [Hl Hp Hk Hr Hcap Ho]. by split.
Qed.

Lemma super_run_ok s s' : rtc super_step s s' -> super_ok s -> super_ok s'.
Proof. induction 1 as [|s1 s2 s3 H12 _ IH]; [done|]. intros H. by eapply IH, super_step_ok. Qed.

(** A consumer just built. *)
Definition built_partition (s : St) : partition :=
  {| p_run := Run {| cbase := s; cstate := CState_new |} [] 1 [] []; p_task := Receiving |}.
Definition super_built (s : St) : super_run :=
  let ps := map (λ _, built_partition s) cs in
  SuperRun ps (drop_senders_but (map runs ps) (mpsc_channel 10000)) false [] [].

Lemma super_built_ok s : super_ok (super_built s).
Proof.
  assert (Hi : ∀ i pt, map (λ _ : ConsumerInternal (St:=St) (C:=C), built_partition s) cs !! i = Some pt ->
    pt = built_partition s /\ is_Some (cs !! i)).
  { intros i pt H. rewrite list_lookup_fmap in H. destruct (cs !! i) as [c|]; [|done].
    injection H as <-. split; [done|by eexists]. }
  set (ps := map _ cs) in *.
  destruct (drop_senders_ok (map runs ps) (mpsc_channel 10000)) as (Hb & Hc & Ho).
  split; cbn [super_built sr_log sr_polled sr_channel sr_partitions]; fold ps;
    rewrite ?Hb, ?mpsc_channel_buffer; try done.
  - intros i c pt _ [-> _]%Hi. split; [apply built_in_order|done].
  - by intros i pt [_ ?]%Hi.
  - by rewrite Hc, mpsc_channel_capacity.
  - by rewrite Ho, mpsc_channel_open, andb_true_r.
Qed.

(** ** The code makes these steps *)

Definition scw_of (s : St) (r : super_run) : SCW (St:=St) :=
  {| scbase := s; sc_states := map (λ pt, cstate (run_world (p_run pt))) (sr_partitions r);
     sc_closed := sr_closed r; sc_channel := sr_channel r; sc_running := map runs (sr_partitions r) |}.

Lemma states_insert ps i pt :
  map (λ pt, cstate (run_world (p_run pt))) (<[i:=pt]> ps) =
  <[i:=cstate (run_world (p_run pt))]> (map (λ pt, cstate (run_world (p_run pt))) ps).
Proof. exact (list_fmap_insert (λ pt, cstate (run_world (p_run pt))) ps i pt). Qed.

Lemma forward_run {E} s r i run0 w b :
  sr_partitions r !! i = Some {| p_run := run0; p_task := Receiving |} ->
  forward (E:=E) i (scw_of s r) = Returns w b ->
  ∃ r', rtc super_step r r' /\ w = scw_of s r'.
Proof.
  destruct r as [ps ch cl log pl]. cbn [sr_partitions]. intros Hi.
  assert (Hst : sc_states (scw_of s (SuperRun ps ch cl log pl)) !! i = Some (cstate (run_world run0)))
    by (cbn; rewrite list_lookup_fmap, Hi; done).
  unfold forward. rewrite Hst.
  destruct (poll_recv (c_channel (cstate (run_world run0)))) as [ch1 p] eqn:Er.
  assert (E0 : poll_next (E:=Empty_set) (run_world run0) =
    Returns {| cbase := cbase (run_world run0); cstate := set_channel ch1 (cstate (run_world run0)) |}
            (poll_closed (c_closed (cstate (run_world run0))) p)) by (unfold poll_next; by rewrite Er).
  destruct (poll_closed _ p) as [[d|]|]; [| |done].
  - cbn [sc_channel set_sc_state scw_of sr_channel].
    destruct (Z.ltb_spec (len (mpsc_buffer ch)) (mpsc_capacity ch)) as [Hlt|]; [|done].
    intros [= <- <-]. eexists. split.
    + eapply rtc_l; [by eapply step_receive|]. eapply rtc_l; [|apply rtc_refl].
      eapply step_send_on; [|done]. apply list_lookup_insert_eq. by eapply lookup_lt_Some.
    + unfold scw_of, set_sc_channel, set_sc_state.
      cbn [sr_partitions sr_closed sr_channel scbase sc_closed sc_states sc_running].
      by rewrite list_insert_insert_eq, states_insert,
        (runs_insert ps i {| p_run := run0; p_task := Receiving |}).
  - intros [= <- <-]. eexists. split; [eapply rtc_once; by eapply step_end|].
    unfold scw_of, end_task, set_sc_state.
    cbn [sr_partitions sr_closed sr_channel scbase sc_closed sc_states sc_channel sc_running].
    rewrite states_insert. set (pt := {| p_run := _; p_task := Finished |}).
    by replace (map runs (<[i:=pt]> ps)) with (<[i:=false]> (map runs ps))
      by (symmetry; exact (list_fmap_insert runs ps i pt)).
Qed.

(** [build] leaves the state these runs start in. *)
Lemma built_run s (sc : SuperStreamConsumer (St:=St) (C:=C)) :
  cs = map fst (sc_consumers sc) -> Forall (λ k, k.2 = CState_new) (sc_consumers sc) ->
  SCW_new s sc = scw_of s (super_built s).
Proof.
  intros Hcs Hnew. unfold SCW_new, scw_of, super_built. cbn [sr_partitions sr_closed sr_channel]. rewrite Hcs.
  rewrite !map_map. replace (map snd (sc_consumers sc)) with (map (λ _, CState_new) (sc_consumers sc)); [done|].
  apply map_ext_in. intros k Hk%list_elem_of_In. symmetry. rewrite Forall_forall in Hnew. by apply Hnew.
Qed.

Lemma all_finished ps :
  forallb negb (map runs ps) = true <-> Forall (λ pt, p_task pt = Finished) ps.
Proof.
  induction ps as [|pt ps IH]; cbn; [by split; [constructor|]|]. rewrite andb_true_iff, IH, Forall_cons.
  unfold runs. destruct (p_task pt); cbn; split; intros []; done.
Qed.

(** A poll takes the next delivery; the stream has ended when there is none and the
    consumer is closed, or every task has ended. *)
Lemma poll_ends {E} s r w p :
  super_ok r -> sc_poll_next (E:=E) (scw_of s r) = Returns w p ->
  (p = Ready None <-> mpsc_buffer (sr_channel r) = [] /\
     (sr_closed r = true \/ Forall (λ pt, p_task pt = Finished) (sr_partitions r))).
Proof.
  intros Hok. unfold sc_poll_next. cbn [sc_channel scw_of sc_closed].
  destruct (poll_recv (sr_channel r)) as [ch' q] eqn:E0. intros [= _ <-].
  destruct (poll_recv_result _ _ _ (sr_closed r) E0) as (_ & _ & _ & ->).
  by rewrite (so_open _ Hok), negb_false_iff, all_finished.
Qed.

Lemma poll_run {E} s r w p :
  sc_poll_next (E:=E) (scw_of s r) = Returns w p ->
  ∃ r', super_step r r' /\ w = scw_of s r' /\ sr_polled r' = sr_polled r ++ polled_value p.
Proof.
  destruct r as [ps ch cl log pl]. unfold sc_poll_next. cbn [sc_channel scw_of sr_channel sc_closed sr_closed].
  destruct (poll_recv ch) as [ch' q] eqn:Er. intros [= <- <-]. eexists.
  split; [by eapply step_poll_super|]. done.
Qed.

End super.
