(* ===== verification/WireGuarantees.v ===== *)
(** * What the protocol crate guarantees

    The properties of the wire format: frames, messages, the AMQP encoding and
    the codec of the connection. *)
From S2P Require Import Prelude Utf8 HashMaps Integers Codec Protocol.
From S2P Require Import Session Streams Producing Consuming.
From S2P Require Import AmqpCodes AmqpExec AmqpSimple AmqpValue AmqpMessage AmqpLimits Messages.
From S2P Require Import Request Response ClientCodec.

Section guarantees.
Context {BO : ByteOrder} {X : AmqpExt}.

(** C1. Whatever the buffer already holds, [Request::encode] appends a frame,
    and [Request::decode] reads that frame back to the request and leaves what
    follows it, for every request whose header has the key of its kind and
    whose fields fit their encodings. *)
Theorem request_round_trip (r : Request) :
  Request_wire r -> ∃ bs,
    (∀ buf, Request_encode r buf = (buf ++ bs, Ok tt)) /\
    (∀ rest, Request_decode (bs ++ rest) = Ok (rest, Request_received r)).
Proof. intros Hr. exact (Request_wire_received r Hr). Qed.

(** C2. Every kind of reply and of notification a server writes, under every
    key that announces it, with or without the response bit, is cut out of the
    buffer by the codec of the connection as the response it stands for, and
    the bytes behind the frame stay in the buffer. *)
Theorem response_round_trip (f : ServerFrame) :
  ServerFrame_wire f -> ∃ bs,
    (∀ buf, ServerFrame_encode f buf = (buf ++ bs, Ok tt)) /\
    (∀ rest, codec_decode (bs ++ rest) = (rest, Ok (Some (ServerFrame_received f)))).
Proof.
  intros (bs & He & Hp)%ServerFrame_round_trip. exists bs. split; [exact He|].
  intros rest. by apply codec_decode_some.
Qed.

(** C9. A message that fits its encoding is encoded and decoded back to itself,
    but for the publishing id, which is not part of the AMQP message. *)
Theorem message_round_trip (m : Message) :
  Message_wire_ok m -> ∃ bs,
    (∀ buf, Message_encode m buf = (buf ++ bs, Ok tt)) /\
    Message_decode bs = Ok ([], Message_new None (AmqpMessage.message m)).
Proof. exact (Message_wire m). Qed.

(** C11. The chunks in which the bytes of the connection arrive do not matter: the
    responses read as they arrive, what is left in the buffer and the first
    error are those of the bytes read at once, unless the decoder panics on the
    way (see C37), which is never for want of fuel. *)
Theorem chunks_independent (chunks : list bytes) :
  match feed_all chunks with
  | (rest, Ok rs) => drain (mjoin chunks) = (rest, Ok rs)
  | (_, Err e) => (drain (mjoin chunks)).2 = Err e
  | (_, Panic p) => p <> OutOfFuel
  end.
Proof.
  pose proof (feed_all_chunks chunks) as H. unfold feed_all in *.
  destruct (fold_left _ _ _) as [rest [rs|e|p]] eqn:E; [exact H|exact H|].
  exact (feed_panics _ _ _ _ _ E).
Qed.

(** C12. A run of frames of a server, cut into chunks anywhere, gives exactly its
    responses in order, with nothing left in the buffer and without error; but when a
    chunk ends inside a string of a frame, which only the kinds that hold strings have,
    the decoder may panic there, as in C37.  It fails in no other way. *)
Theorem frames_arrive (frames : list ServerFrame) (sent : bytes) (chunks : list bytes) :
  Forall ServerFrame_wire frames ->
  write_each ServerFrame_encode frames [] = (sent, Ok tt) -> mjoin chunks = sent ->
  (feed_all chunks = ([], Ok (map ServerFrame_received frames)) \/
   (feed_all chunks).2 = Panic SplitAt /\ cuts_string frames chunks) /\
  (Forall (λ f, holds_strings (sf_kind f) = false) frames ->
   feed_all chunks = ([], Ok (map ServerFrame_received frames))).
Proof.
  intros Hf Hsent Hj. destruct (drain_server_frames frames Hf) as (bs & He & _).
  rewrite (He []) in Hsent. injection Hsent as Hbs. cbn [app] in Hbs. subst bs.
  pose proof (feed_frames frames chunks sent Hf He Hj) as H. split; [exact H|].
  intros Hn. destruct H as [H|(_ & done & f & later & bs & part & ? & ? & -> & _ & _ & _ & _ & Hs & _)];
    [exact H|].
  apply Forall_app in Hn as [_ [Hn _]%Forall_cons]. by rewrite Hn in Hs.
Qed.

(** C23. The length in front of the frame the codec writes is the number of
    bytes behind it, for every request whose sizes are exact. *)
Theorem request_frame_length (r : Request) :
  Request_fits r -> ∃ bs,
    (∀ buf, codec_encode r buf = (buf ++ bo_write 4 (wrap32 (len bs)) ++ bs, Ok tt)) /\
    Request_encoded_size r = wrap32 (len bs).
Proof.
  intros (bs & He & _ & Hs)%Request_frame. exists bs. split; [|exact Hs].
  exact (emits_map_werr _ _ _ He).
Qed.

(** C24. [AmqpMessage::decode] succeeds exactly on the inputs that are a run of
    complete sections, each a descriptor of its kind with its content, and takes all of
    the input.  Every field of the message is the content of the last section of its
    kind, or nothing where there is none; the data and the sequences of the body are
    the contents of all their sections, in order. *)
Theorem message_decode_sections (input rest : bytes) (m : AmqpMessage) :
  AmqpMessage_decode input = Ok (rest, m) <->
  rest = [] /\ ∃ secs, sections_of input secs /\ message_of secs m.
Proof. apply AmqpMessage_decode_sections. Qed.

(** C25. Decoding a response ends on every input: it gives a response and a
    proper suffix of the input, shorter by the eight bytes of a length and a
    header at least, or an error, or one of the panics of the code, and never
    runs out of fuel. *)
Theorem response_decode_ends (input : bytes) :
  match Response_decode input with
  | Ok (rest, _) => ∃ c, input = c ++ rest /\ (8 <= length c)%nat
  | Err _ => True
  | Panic p => p <> OutOfFuel
  end.
Proof.
  destruct (Response_decode input) as [[rest r]|e|p] eqn:E; [|done|].
  - exact (Response_consumes _ _ _ E).
  - exact (Response_panics _ _ E).
Qed.

(** [encoded_size] of a message is the number of bytes [encode] writes. *)
Theorem message_size_exact (m : Message) :
  Message_fits m -> ∃ bs,
    (∀ buf, Message_encode m buf = (buf ++ bs, Ok tt)) /\
    Message_encoded_size m = wrap32 (len bs).
Proof. exact (size_exact (enc:=Message_encode) m). Qed.

(** C36. An AMQP [int] is read back as it was written, but for those from -128 to
    -1: they are written as one signed byte and read as an unsigned one, 256 too
    large. *)
Theorem int_decoded (z : Z) :
  i32_ok z -> ∃ bs,
    (∀ buf, Int_encode z buf = (buf ++ bs, Ok tt)) /\
    (∀ rest, Int_decode (bs ++ rest) =
       Ok (rest, if (-128 <=? z) && (z <? 0) then z + 256 else z)).
Proof. exact (Int_wire_received z). Qed.

(** C37. A metadata update whose frame arrives in one piece is a notification;
    cut anywhere inside its stream name it makes the decoder panic, as the
    string is split off the buffer before its length is checked. *)
Theorem cut_string_panics version size code s k :
  u16_ok version -> u32_ok size -> wire_string s -> (k < length s)%nat ->
  let update := metadata_update.MetadataUpdateCommand_new code s in
  let f := {| sf_reply := false; sf_key := COMMAND_METADATA_UPDATE; sf_version := version;
              sf_size := size; sf_kind := ResponseKind_MetadataUpdate update |} in
  ∃ pre, (∀ buf, ServerFrame_encode f buf = (buf ++ pre ++ s, Ok tt)) /\
    feed_all [pre ++ s] = ([], Ok [ServerFrame_received f]) /\
    (feed_all [pre ++ take k s; drop k s]).2 = Panic SplitAt.
Proof.
  intros Hv Hs Hw Hk update f.
  destruct (metadata_update_truncated version size code s k Hv Hs Hw Hk) as (pre & He & Hc).
  assert (Hf : Forall ServerFrame_wire [f])
    by (apply Forall_singleton; split_and!; [by left|done..]).
  destruct (drain_server_frames [f] Hf) as (bs & Hbs & Hd).
  assert (Heq : bs = pre ++ s).
  { rewrite <- (app_nil_r (pre ++ s)). apply (emits_unique _ _ _ Hbs).
    apply emits_seq; [exact He|apply emits_ret]. }
  exists pre. split; [exact He|]. rewrite <- Heq. unfold feed_all. cbn [fold_left feed app].
  split; [by rewrite Hd|]. by rewrite drain_eq, Hc.
Qed.

(** C38. When the message inside a complete deliver frame ends too early for its
    own encoding, the codec takes the frame for an incomplete one: it returns
    nothing and keeps the buffer, however many bytes follow. *)
Theorem incomplete_body_stalls version size x data_length body e :
  u16_ok version -> u32_ok size -> u32_ok data_length -> DeliverCommand_header x ->
  len body < 2 ^ 31 -> Message_decode body = Err (DecodeError.Incomplete e) ->
  ∃ bs, (∀ buf, deliver_frame version size x data_length body buf = (buf ++ bs, Ok tt)) /\
    (∀ more, drain (bs ++ more) = (bs ++ more, Ok [])).
Proof.
  intros Hv Hs Hd Hx Hl He.
  destruct (deliver_frame_fails _ _ _ _ _ _ Hv Hs Hd Hx Hl He) as (bs & Hw & Hf).
  exists bs. split; [exact Hw|]. intros more. rewrite drain_eq. unfold codec_decode.
  by rewrite Hf.
Qed.

(** A message whose property section has between 255 and 65531 bytes of
    content is encoded without error and cannot be decoded. *)
Theorem long_properties_unreadable p b :
  Properties_fits p -> 255 <= Properties_content_size p < 65532 ->
  Forall (Forall Value_fits) (sequence b) -> from_option Value_fits True (value b) ->
  ∃ bs e, (∀ buf, AmqpMessage_encode (properties_message p b) buf = (buf ++ bs, Ok tt)) /\
    AmqpMessage_decode bs = Err e.
Proof. exact (properties_message_unreadable p b). Qed.

End guarantees.

(** ** At work *)

Lemma request_round_trip_witness :
  let r := Request_from (open.OpenCommand_new 7 (str "/")) in
  ∃ bs, (∀ buf, Request_encode r buf = (buf ++ bs, Ok tt)) /\
        (∀ rest, Request_decode (bs ++ rest) = Ok (rest, Request_received r)).
Proof.
  apply (request_round_trip (X:=amqp_exec)). apply Request_from_wire; [done|].
  cbn. unfold open.OpenCommand_wire. cbn. repeat split; vm_compute; done.
Defined.

(** A heartbeat, and a reply to the opening of a virtual host. *)
Definition heartbeat_frame : ServerFrame (X:=amqp_exec) :=
  {| sf_reply := false; sf_key := COMMAND_HEARTBEAT; sf_version := 1; sf_size := 4;
     sf_kind := ResponseKind_Heartbeat heart_beat.HeartbeatResponse_new |}.
Definition open_frame : ServerFrame (X:=amqp_exec) :=
  {| sf_reply := true; sf_key := COMMAND_OPEN; sf_version := 1; sf_size := 30;
     sf_kind := ResponseKind_Open
       (open.OpenResponse_new 3 ResponseCode_Ok [(str "host", str "a")]) |}.

Lemma open_frame_wire : ServerFrame_wire open_frame.
Proof.
  split_and!; [by left|done|done|]. cbn. unfold open.OpenResponse_wire, wire_hashmap. cbn.
  split_and!; try done. apply Forall_singleton. by split_and!.
Qed.
Lemma heartbeat_frame_wire : ServerFrame_wire heartbeat_frame.
Proof. split_and!; [by left|done..]. Qed.

Lemma response_round_trip_witness : ∃ bs,
  (∀ buf, ServerFrame_encode open_frame buf = (buf ++ bs, Ok tt)) /\
  (∀ rest, codec_decode (bs ++ rest) = (rest, Ok (Some (ServerFrame_received open_frame)))).
Proof. exact (response_round_trip open_frame open_frame_wire). Defined.

(** A message with a text as its body, and the frame that delivers it. *)
Definition text_message (s : bytes) : Message (X:=amqp_exec) :=
  Message_new (Some 5) (AmqpMessage_new None None None None None None
    (MessageBody_new [s] [] None)).

Lemma message_round_trip_witness : ∃ bs,
  (∀ buf, Message_encode (text_message (str "hello")) buf = (buf ++ bs, Ok tt)) /\
  Message_decode bs = Ok ([], Message_new None (AmqpMessage.message (text_message (str "hello")))).
Proof.
  apply (message_round_trip (text_message (str "hello"))).
  by repeat constructor.
Defined.

Lemma frames_arrive_witness :
  let frames := [heartbeat_frame; heartbeat_frame] in
  let sent := (write_each ServerFrame_encode frames []).1 in
  feed_all [take 5 sent; drop 5 sent] = ([], Ok (map ServerFrame_received frames)).
Proof.
  intros frames sent.
  apply (proj2 (frames_arrive frames sent [take 5 sent; drop 5 sent]
    (Forall_cons_2 _ _ _ heartbeat_frame_wire (Forall_cons_2 _ _ _ heartbeat_frame_wire (Forall_nil_2 _)))
    ltac:(vm_compute; reflexivity) ltac:(vm_compute; reflexivity))).
  by repeat constructor.
Defined.

Lemma request_frame_length_witness :
  let r := Request_from (X:=amqp_exec) (open.OpenCommand_new 7 (str "/")) in
  ∃ bs, (∀ buf, codec_encode r buf = (buf ++ bo_write 4 (wrap32 (len bs)) ++ bs, Ok tt)) /\
        Request_encoded_size r = wrap32 (len bs).
Proof. intros r. exact (request_frame_length r I). Defined.

Lemma message_size_exact_witness : ∃ bs,
  (∀ buf, Message_encode (text_message (str "hello")) buf = (buf ++ bs, Ok tt)) /\
  Message_encoded_size (text_message (str "hello")) = wrap32 (len bs).
Proof.
  apply (message_size_exact (text_message (str "hello"))). by repeat constructor.
Defined.

Lemma int_decoded_witness : ∃ bs,
  (∀ buf, Int_encode (-1) buf = (buf ++ bs, Ok tt)) /\
  (∀ rest, Int_decode (bs ++ rest) = Ok (rest, 255)).
Proof. apply (int_decoded (-1)). unfold signed_ok. lia. Defined.

Lemma cut_string_panics_witness :
  let update := metadata_update.MetadataUpdateCommand_new ResponseCode_Ok (str "invoices") in
  let f := {| sf_reply := false; sf_key := COMMAND_METADATA_UPDATE; sf_version := 1;
              sf_size := 16; sf_kind := ResponseKind_MetadataUpdate (X:=amqp_exec) update |} in
  ∃ pre, (∀ buf, ServerFrame_encode f buf = (buf ++ pre ++ str "invoices", Ok tt)) /\
    feed_all [pre ++ str "invoices"] = ([], Ok [ServerFrame_received f]) /\
    (feed_all [pre ++ take 3 (str "invoices"); drop 3 (str "invoices")]).2 = Panic SplitAt.
Proof.
  apply (cut_string_panics 1 16 ResponseCode_Ok (str "invoices") 3); try done.
  vm_compute. lia.
Defined.

(** A chunk of one message whose three bytes are the start of a longer one. *)
Definition one_message_chunk : deliver.DeliverCommand (X:=amqp_exec) :=
  deliver.DeliverCommand_new 1 0 0 1 0 0 100 0 0 0 [].

Lemma incomplete_body_stalls_witness : ∃ bs,
  (∀ buf, deliver_frame 1 60 one_message_chunk 3 (take 3 (Message_encode (text_message (str "a")) []).1) buf
            = (buf ++ bs, Ok tt)) /\
  (∀ more, drain (X:=amqp_exec) (bs ++ more) = (bs ++ more, Ok [])).
Proof.
  by eapply (incomplete_body_stalls 1 60 one_message_chunk 3).
Defined.

(** A property section with a group of 300 letters. *)
Definition long_properties : Properties (X:=amqp_exec) :=
  Properties_new None None None None None None None None None None
    (Some (replicate 300 (byte_of_Z 97))) None None.

Lemma long_properties_unreadable_witness : ∃ bs e,
  (∀ buf, AmqpMessage_encode (properties_message long_properties (MessageBody_new [] [] None)) buf =
            (buf ++ bs, Ok tt)) /\
  AmqpMessage_decode bs = Err e.
Proof.
  by apply (long_properties_unreadable long_properties (MessageBody_new [] [] None)).
Defined.
