(* ===== verification/ConnectionGuarantees.v ===== *)
(** * What a connection guarantees

    The properties of the dispatcher and of the client of one connection: calls
    and their answers, the opening, the end.  The last part runs them on a
    connection whose answers are written down in advance. *)
From S2P Require Import Prelude Utf8 HashMaps Integers Codec Protocol.
From S2P Require Import Session Streams Producing Consuming.
From S2P Require Import AmqpCodes AmqpExec AmqpSimple AmqpValue AmqpMessage Messages.
From S2P Require Import Request Response ClientCodec Effects Dispatcher Options Client Heartbeats.

(** ** Calls and the task *)

Section dispatching.
Context {X : AmqpExt} {DM : DashMap} {MC : Mpsc}.

(** C13. Whatever the interleaving of the calls with the task, the receivers
    handed out are all different, and a response found by a call carries the
    correlation id the call was given. *)
Theorem answer_matches (s : system) :
  reachable s ->
  NoDup (map snd (handed s)) /\
  ∀ cid ch r, (cid, ch) ∈ handed s -> answer s ch = Received r ->
    Response_correlation_id r = Some cid.
Proof.
  intros Hs%reachable_ok. split.
  - pose proof (ok_nodup s Hs) as Hn. by apply NoDup_app in Hn as (_ & _ & Hn).
  - intros cid ch r Hin. exact (answer_settled s cid ch r (ok_handed s Hs _ _ Hin)).
Qed.


(** While a call is registered under an id, the response read with that id
    is the one the call finds, from then on and whatever happens next. *)
Theorem answer_delivered (s s' : system) (w : World unit (list MessageResult)) (cid : Z) (ch : nat)
    (r : Response) :
  reachable s -> status s = Running ->
  dm_get cid (requests (requests_map (world s))) = Some ch ->
  Response_correlation_id r = Some cid -> is_consumer_update r = false ->
  handle_item (E:=ClientError.t) (Ok r) (world s) = Returns w true ->
  rtc step {| world := w; calls := calls s; handed := handed s; status := Running |} s' ->
  answer s' ch = Received r.
Proof.
  intros Hs%reachable_ok Hst Hp Hr Hk Hi Hsteps.
  pose proof (answer_dispatched s w cid ch r Hs Hp Hr Hk Hi) as Ha.
  rewrite <- Ha. apply (answer_steps _ _ cid); [| |by rewrite Ha|done].
  - eapply step_ok; [exact Hs|by eapply step_item].
  - exact (proj1 (ok_pending s Hs _ _ Hp)).
Qed.

(** C39. The check of the flag and the insertion are not one step: a call that
    reads the flag before the task sets it, and inserts after the task has
    cleared the map, is registered with nobody left to answer it, and waits for
    ever. *)
Theorem late_insert_waits : ∃ s cid ch,
  reachable s /\ status s = Stopped /\ (cid, ch) ∈ handed s /\
  ∀ s', rtc step s s' -> answer s' ch = Waiting.
Proof.
  set (w1 := (fetch_channel (world system_start)).1).
  set (w2 := set_rest [None] (RequestsMap_clear (RequestsMap_store_closed w1))).
  set (s := {| world := RequestsMap_put 0 0 w2; calls := []; handed := [(0, 0%nat)];
               status := Stopped |}).
  assert (Hs : reachable s).
  { eapply rtc_l; [by apply (step_fetch _ w1 0 0%nat)|].
    eapply rtc_l; [by apply (step_check_open _ 0 0%nat [] [])|].
    eapply rtc_l; [by apply step_end|].
    eapply rtc_l; [apply (step_clear _ w2); [done|]|].
    { cbn [world]. unfold w2, RequestsMap_clear. cbn. by rewrite dm_iter_new. }
    eapply rtc_l; [by apply (step_insert _ 0 0%nat [] [])|]. apply rtc_refl. }
  exists s, 0, 0%nat. split; [exact Hs|]. split; [done|]. split; [by left|].
  intros s' Hsteps. rewrite (finished_steps s s' 0 0%nat); try done.
  - apply (answer_pending s 0); [by apply reachable_ok|]. cbn. unfold RequestsMap_put.
    destruct (dm_get 0 (requests (requests_map w2))); cbn; by rewrite dm_get_insert.
  - by apply reachable_ok.
  - split; [done|]. intros k Hk. by apply elem_of_nil in Hk.
  - by left.
Qed.

End dispatching.

(** ** The client of a connection *)

Section client_guarantees.
Context {X : AmqpExt} {DM : DashMap} {MC : Mpsc} {TR : Transport}.
Context {UH : Type} (turns : nat).
Abbreviation CW := (CW (UH:=UH)).

(** C15. Against a server that answers the requests of the opening one after the
    other, [Client::connect] returns: the client is open, its next correlation
    id is 5, nothing is left unread, the tuning is the one sent back to the server, the
    heartbeat runs at half its interval, and filtering is on exactly when the server
    publishes in version 2.  Heartbeat and frame size are each the smaller of what the
    two sides ask for, or what one asks for when the other leaves it open with 0. *)
Theorem connect_completes now o h sp cp t versions k0 k k' j :
  conn_connect o = Ok k0 ->
  authenticated o sp ResponseCode_Ok [reply h (ResponseKind_Tunes t)] k0 k ->
  opened o t cp versions k k' -> turns = S j ->
  ∃ w : CW, Client_connect turns now o = Returns (Some w)
      (the_client o (2 <=? (exchange_command_versions.find_version 2 versions).2)) /\
    ready (the_client o false) 5 (open_shared now o t sp cp k') w /\
    settles_on (heartbeat o) (tune.heartbeat t) (state_heartbeat (state (rest w))) /\
    settles_on (max_frame_size o) (tune.max_frame_size t) (state_max_frame_size (state (rest w))).
Proof.
  intros Hk Hauth Hopen Hturns. unfold Client_connect. rewrite Hk.
  destruct (connect_on_ok (UH:=UH) turns now o h sp cp t versions k0 k k' j Hauth Hopen Hturns)
    as (w & E & Hw).
  exists w. rewrite E. split; [done|]. split; [exact Hw|]. rewrite (ready_shared _ _ _ _ Hw).
  split; apply negotiate_settles.
Qed.

(** C17. From the opening of a connection on, whatever the calls, the frames that come
    and the heartbeats that go, at most one heartbeat task is alive: the one whose handle
    the client holds, at half the interval that was negotiated.  Once the client is
    closed no heartbeat task sends any more, whatever happens. *)
Theorem one_heartbeat now o (w0 w : CW) c :
  Client_connect turns now o = Returns (Some w0) c -> rtc (client_step turns) w0 w ->
  (∀ k t, heartbeats (rest w) !! k = Some t -> aborted t = false ->
    heartbeat_task (state (rest w)) = Some (TaskHandle_from k) /\
    interval t = Z.max (state_heartbeat (state (rest w)) / 2) 1) /\
  (∀ h, heartbeat_task (state (rest w)) = Some h ->
    ∃ t, heartbeats (rest w) !! task h = Some t /\ aborted t = false) /\
  ∀ w1 w2, Client_close turns w = Returns w1 tt -> rtc (client_step turns) w1 w2 ->
    ∀ k, heartbeat_tick k w2 = Returns w2 tt.
Proof.
  intros Hc Hrun. apply connect_ok in Hc.
  apply (client_run_keeps turns heartbeats_ok) in Hrun;
    [|apply heartbeats_ok_view|apply restart_ok|intros s [Ha _]; by apply replace_none_ok|exact Hc].
  pose proof Hrun as [Ha Hh]. split; [|split].
  - intros k t Hk Ht. pose proof (Ha k t Hk Ht) as Hk'. split; [exact Hk'|].
    destruct (Hh _ Hk') as [H _]. cbn in H. rewrite H in Hk. by injection Hk as <-.
  - intros h Hh'. destruct (Hh h Hh') as [H _]. by eexists.
  - intros w1 w2 E Hrun2 k. apply close_silent in E; [|exact Hrun].
    apply silent_tick. revert E. apply (client_run_keeps turns silent); [| | |exact Hrun2].
    + apply silent_view.
    + apply restart_silent.
    + intros s [_ Hs]. by apply drop_silent.
Qed.

(** C16. A call on an open connection takes the next correlation id, sends one
    request, and returns the response that carries its id, or a cast error when
    the response is of another kind; the next call has the next id. *)
Theorem call_answered {T R} `{!FromResponse T, !Command R, !IntoRequestKind R}
    (f : Z -> R) j c n s (w : CW) k r items :
  ready c n s w -> turns = S j -> task_running s = true -> incoming s = [] ->
  conn_send (Request_from (f n)) (connection s) = (k, Ok (Some (Ok r) :: items)) ->
  Response_correlation_id r = Some n -> is_consumer_update r = false ->
  ∃ w', send_and_receive turns (T:=T) f w =
      match Response_get r with
      | Some a => Returns w' a
      | None => Throws w' ClientError.CastError
      end /\
    ready c ((n + 1) mod 2 ^ 32) (set_incoming items (set_connection k s)) w'.
Proof.
  intros Hw Ht Hrun Hin Hsend Hr Hk.
  destruct (send_and_receive_reply turns (T:=T) f j c n s w k r items Hw Ht Hrun Hin Hsend Hr Hk)
    as (w' & Hw' & E). by exists w'.
Qed.

(** C27. A connection that cannot be opened is an error without a client, and so
    is one whose credentials the server refuses, with the code it refused them
    with. *)
Theorem connect_refused now o :
  (∀ e, conn_connect o = Err e -> Client_connect turns (UH:=UH) now o = Throws None e) /\
  (∀ sp verdict after k0 k j,
    conn_connect o = Ok k0 -> authenticated o sp verdict after k0 k ->
    verdict <> ResponseCode_Ok -> turns = S j ->
    ∃ w, Client_connect turns (UH:=UH) now o =
      Throws (Some w) (ClientError.RequestError verdict)).
Proof.
  split.
  - intros e He. unfold Client_connect. by rewrite He.
  - intros sp verdict after k0 k j Hk Hauth Hv Hturns. unfold Client_connect. rewrite Hk.
    destruct (connect_on_refused (UH:=UH) turns now o sp verdict after k0 k j Hauth Hv Hturns)
      as [w E].
    exists w. by rewrite E.
Qed.

(** C28. When the connection ends while a call waits, the call fails with
    [ConnectionClosed], the application's handler is told, and every later call
    fails in the same way without sending anything. *)
Theorem hangup_fails_calls {T R} `{!FromResponse T, !Command R, !IntoRequestKind R}
    (f : Z -> R) j c n s (w : CW) k items :
  ready c n s w -> turns = S j -> task_running s = true -> incoming s = [] ->
  conn_send (Request_from (f n)) (connection s) = (k, Ok (None :: items)) ->
  ∃ w', send_and_receive turns (T:=T) f w = Throws w' ClientError.ConnectionClosed /\
    rest w' = hung_up (set_incoming items (set_connection k s)) /\
    (∀ (T' R' : Type) (_from : FromResponse T') (_command : Command R')
       (_kind : IntoRequestKind R') (g : Z -> R'),
      ∃ w'', send_and_receive turns (T:=T') g w' = Throws w'' ClientError.ConnectionClosed /\
        rest w'' = rest w').
Proof.
  intros Hw Ht Hrun Hin Hsend.
  destruct (send_and_receive_hangup turns (T:=T) f j c n s w k items Hw Ht Hrun Hin Hsend)
    as (w' & E & Hc & Hr).
  exists w'. split; [exact E|]. split; [exact Hr|]. intros. by apply send_and_receive_closed.
Qed.

(** [publish] sends one command with all the messages, in order: a message
    keeps the id it has, the others get consecutive ids of the client, and the
    ids are what the caller gets back. *)
Theorem publish_sends {T} `{!BaseMessage T} publisher_id (messages : list T) version c n s
    (w : CW) k items :
  let '(ids, next) := assign_ids (publish_sequence s) (map base_publishing_id messages) in
  ready c n s w ->
  conn_send (Request_from (publish.PublishCommand_new publisher_id
    (zip_with published ids messages) version)) (connection s) = (k, Ok items) ->
  ∃ w', publish publisher_id messages version w = Returns w' ids /\
    ready c n (add_collected (len messages)
      (receive_items items (set_connection k (set_publish_sequence next s)))) w'.
Proof. exact (publish_ok publisher_id messages version c n s w k items). Qed.

(** C40. When the connection ends, or falls silent, after the credentials were
    accepted and before the tune command, [Client::connect] never returns. *)
Theorem connect_untuned_waits now o sp after k0 k j :
  conn_connect o = Ok k0 -> authenticated o sp ResponseCode_Ok after k0 k ->
  (after = [] \/ ∃ items, after = None :: items) -> turns = S (S j) ->
  ∃ w : CW, Client_connect turns now o = Waits (Some w).
Proof.
  intros Hk Hauth Hafter Hturns. unfold Client_connect. rewrite Hk.
  destruct (connect_on_untuned (UH:=UH) turns now o sp after k0 k j Hauth Hafter Hturns) as [w E].
  exists w. by rewrite E.
Qed.

(** The answer to a consumer update goes out with the correlation id of the
    server, while the client waits under an id of its own: a server that sends
    nothing back, as it has its answer, leaves the call waiting for ever. *)
Theorem consumer_update_unanswered j c n s (w : CW) k correlation_id offset :
  ready c n s w -> turns = S j -> task_running s = true -> incoming s = [] ->
  conn_send (Request_from (consumer_update_request.ConsumerUpdateRequestCommand_new
    correlation_id 1 offset)) (connection s) = (k, Ok []) ->
  ∃ w', consumer_update turns correlation_id offset w = Waits w' /\
    ready c ((n + 1) mod 2 ^ 32) (set_connection k s) w'.
Proof. intros. by eapply send_and_receive_unanswered. Qed.

End client_guarantees.

(** ** At work *)

(** A connection whose answers are written down: what each thing sent is answered
    with, then silence; [scripted_sent] is what was sent. *)
Record scripted_conn (X : AmqpExt) := {
  scripted_answers : list (list (option (result ClientError.t Response)));
  scripted_sent : list Request;
}.
Arguments scripted_answers {X} _.
Arguments scripted_sent {X} _.

Definition scripted_step {X : AmqpExt} (sent : list Request) (k : scripted_conn X) :
    scripted_conn X * result ClientError.t (list (option (result ClientError.t Response))) :=
  ({| scripted_answers := tail (scripted_answers k); scripted_sent := scripted_sent k ++ sent |},
   Ok (default [] (head (scripted_answers k)))).

Definition scripted {X : AmqpExt}
    (script : list (list (option (result ClientError.t Response)))) : Transport := {|
  conn := scripted_conn X;
  conn_connect _ := Ok {| scripted_answers := script; scripted_sent := [] |};
  conn_send r := scripted_step [r];
  conn_close := scripted_step [];
|}.

Section at_work.
#[local] Existing Instance amqp_exec.

Definition any_header : Header := Header_new 1 1.
Definition o : ClientOptions := ClientOptions_default.

(** The answers to the opening of a connection, up to the credentials. *)
Definition greeting (verdict : ResponseCode)
    (after : list (option (result ClientError.t Response))) :=
  [[reply any_header (ResponseKind_PeerProperties
      (peer_properties.PeerPropertiesResponse_new 0 ResponseCode_Ok [(str "product", str "RabbitMQ")]))];
   [reply any_header (ResponseKind_SaslHandshake
      (sasl_handshake.SaslHandshakeResponse_new 1 ResponseCode_Ok [str "PLAIN"]))];
   reply any_header (ResponseKind_Generic (generic.GenericResponse_new 2 verdict)) :: after].

Definition the_tune : tune.TunesCommand := tune.TunesCommand_new 131072 30.
Definition the_versions : list exchange_command_versions.ExchangeCommandVersion :=
  [exchange_command_versions.ExchangeCommandVersion_new 2 1 2].

(** The whole opening. *)
Definition welcome :=
  greeting ResponseCode_Ok [reply any_header (ResponseKind_Tunes the_tune)] ++
  [[];
   [reply any_header (ResponseKind_Open
      (open.OpenResponse_new 3 ResponseCode_Ok [(str "advertised_host", str "node-1")]))];
   [reply any_header (ResponseKind_ExchangeCommandVersions
      (exchange_command_versions.ExchangeCommandVersionsResponse_new 4 ResponseCode_Ok
        the_versions))]].

Lemma connect_completes_witness :
  let TR := scripted welcome in ∃ k' (w : CW (UH:=unit)),
  Client_connect 1 17 o = Returns (Some w) (the_client o true) /\
  ready (the_client o false) 5 (open_shared 17 o the_tune [(str "product", str "RabbitMQ")]
    [(str "advertised_host", str "node-1")] k') w /\
  settles_on (heartbeat o) (tune.heartbeat the_tune) (state_heartbeat (state (rest w))) /\
  settles_on (max_frame_size o) (tune.max_frame_size the_tune) (state_max_frame_size (state (rest w))).
Proof.
  intros TR. eexists.
  eapply (connect_completes (TR:=TR) (UH:=unit) 1 17 o any_header _ _ the_tune the_versions _ _ _ 0%nat).
  - reflexivity.
  - econstructor; reflexivity.
  - econstructor; reflexivity.
  - reflexivity.
Defined.

(** A heartbeat is sent, the client is closed, and the task is silent. *)
Definition welcome_and_close :=
  welcome ++ [[]; [reply any_header (ResponseKind_Close (close.CloseResponse_new 5 ResponseCode_Ok))]].

Definition a_life : option (Client * list HeartbeatTask * list HeartbeatTask) :=
  let TR := scripted welcome_and_close in
  match Client_connect (UH:=unit) 1 17 o with
  | Returns (Some w0) c =>
      match heartbeat_tick 0 w0 with
      | Returns w _ =>
          match Client_close 1 w with
          | Returns w1 _ => Some (c, heartbeats (rest w0), heartbeats (rest w1))
          | _ => None
          end
      | _ => None
      end
  | _ => None
  end.

Lemma one_heartbeat_witness :
  let TR := scripted welcome_and_close in ∃ w0 w w1 : CW (UH:=unit),
  Client_connect 1 17 o = Returns (Some w0) (the_client o true) /\
  heartbeats (rest w0) = [{| interval := 15; aborted := false |}] /\
  heartbeat_tick 0 w0 = Returns w tt /\ Client_close 1 w = Returns w1 tt /\
  heartbeats (rest w1) = [{| interval := 15; aborted := true |}] /\
  heartbeat_tick 0 w1 = Returns w1 tt.
Proof.
  intros TR.
  assert (H : match a_life with
    | Some (c, l0, l1) => c = the_client o true /\ l0 = [{| interval := 15; aborted := false |}] /\
        l1 = [{| interval := 15; aborted := true |}]
    | None => False
    end) by (vm_compute; by split_and!).
  unfold a_life in H. fold TR in H.
  match type of H with context [match ?m with _ => _ end] =>
    destruct m as [[w0|] c| | |] eqn:E0; [|destruct H..] end.
  match type of H with context [match ?m with _ => _ end] =>
    destruct m as [w []| | |] eqn:E1; [|destruct H..] end.
  match type of H with context [match ?m with _ => _ end] =>
    destruct m as [w1 []| | |] eqn:E2; [|destruct H..] end.
  destruct H as (-> & H0 & H1). exists w0, w, w1. do 5 (split; [first [assumption|exact eq_refl]|]).
  destruct (one_heartbeat (TR:=TR) 1 17 o w0 w (the_client o true) E0) as (_ & _ & H).
  - apply rtc_once. pose proof (client_beats 1 0 w0) as Hb. by rewrite E1 in Hb.
  - exact (H w1 w1 E2 (rtc_refl _ _) 0%nat).
Defined.

Lemma connect_refused_witness :
  let TR := scripted (greeting ResponseCode_AuthenticationFailure [None]) in
  ∃ w, Client_connect (UH:=unit) 1 17 o =
    Throws (Some w) (ClientError.RequestError ResponseCode_AuthenticationFailure).
Proof.
  intros TR. destruct (connect_refused (TR:=TR) (UH:=unit) 1 17 o) as [_ H].
  eapply (H _ ResponseCode_AuthenticationFailure [None] _ _ 0%nat); try done.
  econstructor; reflexivity.
Defined.

Lemma connect_untuned_waits_witness :
  let TR := scripted (greeting ResponseCode_Ok [None]) in
  ∃ w : CW (UH:=unit), Client_connect 2 17 o = Waits (Some w).
Proof.
  intros TR. eapply (connect_untuned_waits (TR:=TR) (UH:=unit) 2 17 o _ [None] _ _ 0%nat).
  - reflexivity.
  - econstructor; reflexivity.
  - right. by exists [].
  - reflexivity.
Defined.

(** A client that is open on a script, at its first correlation id. *)
Definition open_on {TR : Transport} (k : TR.(conn)) : CW (UH:=unit) :=
  set_handler (the_client o false) (client_start 0 o k).

Lemma open_on_ready {TR : Transport} (k : TR.(conn)) :
  ready (the_client o false) 0 (initial_shared 0 o k) (open_on k).
Proof. apply client_start_ready. Qed.

Definition start {X : AmqpExt} (l : list (list (option (result ClientError.t Response)))) :=
  {| scripted_answers := l; scripted_sent := [] |}.

Lemma call_answered_witness :
  let r := Response_new any_header (ResponseKind_Generic
             (generic.GenericResponse_new 0 ResponseCode_Ok)) in
  let TR := scripted [] in ∃ w',
  delete_stream 1 (str "invoices") (open_on (TR:=TR) (start [[Some (Ok r)]])) =
    Returns w' (generic.GenericResponse_new 0 ResponseCode_Ok) /\
  ready (the_client o false) 1 (set_incoming [] (set_connection
    {| scripted_answers := [];
       scripted_sent := [Request_from (delete.Delete_new 0 (str "invoices"))] |}
    (initial_shared 0 o (start [[Some (Ok r)]])))) w'.
Proof.
  intros r TR. unfold delete_stream.
  exact (call_answered (TR:=TR) 1 (T:=generic.GenericResponse)
    (λ cid, delete.Delete_new cid (str "invoices")) 0 _ _ _ _ _ r []
    (open_on_ready (TR:=TR) (start [[Some (Ok r)]])) eq_refl eq_refl eq_refl eq_refl eq_refl eq_refl).
Defined.

Lemma hangup_fails_calls_witness :
  let TR := scripted [] in
  let w := open_on (TR:=TR) (start [[None]]) in ∃ w',
  delete_stream 1 (str "invoices") w = Throws w' ClientError.ConnectionClosed /\
  ∃ w'', delete_stream 1 (str "invoices") w' = Throws w'' ClientError.ConnectionClosed.
Proof.
  intros TR w.
  destruct (hangup_fails_calls (TR:=TR) 1 (T:=generic.GenericResponse)
    (λ cid, delete.Delete_new cid (str "invoices")) 0 _ _ _ w _ []
    (open_on_ready (TR:=TR) (start [[None]])) eq_refl eq_refl eq_refl eq_refl)
    as (w' & E & _ & Hlater).
  exists w'. split; [exact E|].
  destruct (Hlater generic.GenericResponse _ _ _ _
    (λ cid, delete.Delete_new cid (str "invoices"))) as (w'' & E'' & _).
  exists w''. exact E''.
Defined.

(** Two messages of an application: the first has an id of its own. *)
Definition numbered_text (id : option Z) (s : bytes) : Message :=
  Message_new id (AmqpMessage_new None None None None None None (MessageBody_new [s] [] None)).

Lemma publish_sends_witness :
  let TR := scripted [] in
  let l := [numbered_text (Some 9) (str "a"); numbered_text None (str "b")] in ∃ w',
  publish 1 l 1 (open_on (TR:=TR) (start [])) = Returns w' [9; 1] /\
  ready (the_client o false) 0 (add_collected 2 (receive_items [] (set_connection
    {| scripted_answers := [];
       scripted_sent := [Request_from (publish.PublishCommand_new 1
         [PublishedMessage_new 9 (numbered_text (Some 9) (str "a")) None;
          PublishedMessage_new 1 (numbered_text None (str "b")) None] 1)] |}
    (set_publish_sequence 2 (initial_shared 0 o (start [])))))) w'.
Proof.
  intros TR l.
  exact (publish_sends (TR:=TR) 1 l 1 _ _ _ _ _ []
    (open_on_ready (TR:=TR) (start [])) eq_refl).
Defined.

Lemma consumer_update_unanswered_witness :
  let TR := scripted [] in ∃ w',
  consumer_update 1 7 subscribe.First (open_on (TR:=TR) (start [])) = Waits w' /\
  ready (the_client o false) 1 (set_connection
    {| scripted_answers := [];
       scripted_sent := [Request_from (consumer_update_request.ConsumerUpdateRequestCommand_new
         7 1 subscribe.First)] |} (initial_shared 0 o (start []))) w'.
Proof.
  intros TR. exact (consumer_update_unanswered (TR:=TR) 1 0 _ 0 _ _ _ 7 subscribe.First
    (open_on_ready (TR:=TR) (start [])) eq_refl eq_refl eq_refl eq_refl).
Defined.

(** One call registered, and its response on the way. *)
Definition one_call : system := {|
  world := RequestsMap_put 0 0 (fetch_channel (world system_start)).1;
  calls := []; handed := [(0, 0%nat)]; status := Running;
|}.
Lemma one_call_reachable : reachable one_call.
Proof.
  eapply rtc_l; [by apply (step_fetch _ (fetch_channel (world system_start)).1 0 0%nat)|].
  eapply rtc_l; [by apply (step_check_open _ 0 0%nat [] [])|].
  eapply rtc_l; [by apply (step_insert _ 0 0%nat [] [])|]. apply rtc_refl.
Qed.

Definition ok_reply : Response :=
  Response_new any_header (ResponseKind_Generic (generic.GenericResponse_new 0 ResponseCode_Ok)).
Definition answered_call : system := {|
  world := dispatched 0 ok_reply (world one_call); calls := []; handed := [(0, 0%nat)];
  status := Running;
|}.

Lemma answer_delivered_witness : answer answered_call 0 = Received ok_reply.
Proof.
  apply (answer_delivered one_call answered_call (dispatched 0 ok_reply (world one_call)) 0 0%nat);
    [apply one_call_reachable|done..|apply rtc_refl].
Defined.

Lemma answer_matches_witness :
  answer answered_call 0 = Received ok_reply /\ Response_correlation_id ok_reply = Some 0.
Proof.
  assert (Hr : reachable answered_call).
  { eapply rtc_r; [exact one_call_reachable|]. exact (step_item one_call ok_reply _ eq_refl eq_refl). }
  assert (Ha : answer answered_call 0 = Received ok_reply) by reflexivity.
  split; [exact Ha|].
  apply (proj2 (answer_matches answered_call Hr) 0 0%nat ok_reply); [by left|exact Ha].
Defined.




End at_work.
