(* ===== verification/StreamGuarantees.v ===== *)
(** * What producers, consumers and super streams guarantee

    The properties of the layers above the connection: the choice of the node,
    batches and confirmations, deliveries, routing. *)
From S2P Require Import Prelude Utf8 HashMaps Integers Codec Protocol.
From S2P Require Import Session Streams Producing Consuming.
From S2P Require Import AmqpCodes AmqpExec AmqpSimple AmqpValue AmqpMessage Messages.
From S2P Require Import Request Response ClientCodec Effects Dispatcher Options Client ClientApi.
From S2P Require Import Errors Environment Producer Consumer SuperStream ConnectionGuarantees.

(** ** A producer on its connection *)

Section on_the_wire.
Context {X : AmqpExt} {DM : DashMap} {MC : Mpsc} {TR : Transport}.
Context (turns : nat).
#[local] Existing Instance pool_api.
Abbreviation PW := (PW (St:=Pool)).

(** C18. A run of sends on an open producer, over a connection that takes what is
    sent, puts exactly the commands of the batches on the wire: the messages
    queued before and the new ones, numbered, in the order of the sends, each
    exactly once, in commands of the batch size; the rest stays queued. *)
Theorem sends_on_the_wire (accepts : conn -> Prop) (sent : conn -> list Request)
    overflow_checks (p : ProducerInternal (C:=Handle)) i h c n s cw l (w : PW) :
  (∀ r k, accepts k -> ∃ k' items,
    conn_send r k = (k', Ok items) /\ accepts k' /\ sent k' = sent k ++ [r]) ->
  client p = (i, h) -> pool_clients (base w) !! i = Some cw -> ready c n s cw ->
  accepts (connection s) -> producer_ok p (pstate w) -> p_closed (pstate w) = false ->
  ∃ w' cw' s',
    send_all (API:=pool_api turns) overflow_checks p l w = Returns w' tt /\
    pool_clients (base w') !! i = Some cw' /\ ready c n s' cw' /\
    producer_ok p (pstate w') /\
    let messages := pending (pstate w) ++ to_send p (pstate w) (map fst l) in
    ∃ bs, sent (connection s') =
        sent (connection s) ++ map (publish_request (producer_id p) (publish_version p)) bs /\
      mjoin bs ++ pending (pstate w') = messages /\
      Forall (λ b, length b = Z.to_nat (p_batch_size p)) bs.
Proof.
  intros Hsend Hc Hi Hw Hacc Hok Hopen.
  set (after := λ (bs : list (list ClientMessage)) (pool : Pool), ∃ cw s1,
    pool_clients pool !! i = Some cw /\ ready c n s1 cw /\ accepts (connection s1) /\
    sent (connection s1) =
      sent (connection s) ++ map (publish_request (producer_id p) (publish_version p)) bs).
  assert (Hpub : ∀ bs ms pool, after bs pool -> Forall (λ _, True) ms ->
    length ms = Z.to_nat (p_batch_size p) -> ∃ pool' ids,
    api_publish (ClientApi:=pool_api turns) (client p) (producer_id p) ms (publish_version p) pool =
      Returns pool' ids /\ after (bs ++ [ms]) pool').
  { intros bs ms pool (cw1 & s1 & Hi1 & Hw1 & Ha1 & Hs1) _ _.
    destruct (Hsend (publish_request (producer_id p) (publish_version p) ms) _ Ha1)
      as (k & items & Es & Ha & Hs).
    destruct (api_publish_sends turns i h c n s1 pool cw1 _ ms _ k items Hi1 Hw1 Es)
      as (pool' & cw2 & s2 & Ep & Hi2 & Hw2 & Hk).
    rewrite Hc. do 2 eexists. split; [exact Ep|]. exists cw2, s2. rewrite Hk.
    split_and!; [done..|]. by rewrite Hs, Hs1, map_app, <- app_assoc. }
  assert (Hafter : after [] (base w)) by (exists cw, s; by rewrite app_nil_r).
  assert (Htrue : ∀ l : list ClientMessage, Forall (λ _, True) l) by (intros l'; by apply Forall_true).
  destruct (send_all_batches overflow_checks p _ after Hpub l [] w Hok Hopen Hafter (Htrue _) (Htrue _))
    as (w' & E & Hok' & Hspec).
  pose proof (batches_spec (Z.to_nat (p_batch_size p)) (pending (pstate w))
    (to_send p (pstate w) (map fst l))) as Hb.
  destruct (batches _ _ _) as [bs r]. destruct Hspec as [(cw' & s' & Hi' & Hw' & Ha' & Hlog) Hr].
  exists w', cw', s'. repeat (split; [done|]). exists bs. rewrite Hr.
  destruct Hb as (Hj & Hf & _); [| |by split_and!].
  - destruct Hok as [_ _ Hroom]. unfold len in Hroom. lia.
  - destruct Hok as [_ _ Hroom]. unfold pending, len in *. lia.
Qed.

End on_the_wire.

(** ** Producers *)

Section producers.
Context {X : AmqpExt} {DM : DashMap} {MC : Mpsc} {RD : Random}.
Context {St C : Type} {API : ClientApi St C} (attempts : nat).
Abbreviation PW := (PW (St:=St)).

(** C19. A confirmation settles the messages it names: the callback of each is
    called once, in order, with the message and the verdict, and its waiter is
    gone, while every other waiter stays; a publish error does the same with the
    codes of the server. *)
Theorem confirms_settle h confirm error (w : PW) :
  let ids := publish_confirm.publishing_ids confirm in
  let errors := publish_error.publishing_errors error in
  (NoDup ids -> (∀ id, id ∈ ids -> is_Some (waiter_of (pstate w) id)) ->
   ∃ s, settled_by (λ id, id) true (λ _, ResponseCode_Ok) ids (pstate w) s /\
     confirm_handler (E:=ClientError.t)
       (Some (Ok (Response_new h (ResponseKind_PublishConfirm confirm)))) w =
     Returns {| base := base w; pstate := collect_confirms (len ids) s |} tt) /\
  (NoDup (map PublishingErrors.publishing_id errors) ->
   (∀ e, e ∈ errors -> is_Some (waiter_of (pstate w) (PublishingErrors.publishing_id e))) ->
   ∃ s, settled_by PublishingErrors.publishing_id false PublishingErrors.error_code errors
          (pstate w) s /\
     confirm_handler (E:=ClientError.t)
       (Some (Ok (Response_new h (ResponseKind_PublishError error)))) w =
     Returns {| base := base w; pstate := s |} tt).
Proof.
  intros ids errors. split; intros Hnd Hall.
  - destruct (settle_all (E:=ClientError.t) (λ id, id) true (λ _, ResponseCode_Ok) ids w)
      as (s & E & Hs); [by rewrite map_id|done|].
    exists s. split; [exact Hs|]. cbn [confirm_handler kind].
    by rewrite (io_bind_returns _ _ _ _ _ E).
  - destruct (settle_all (E:=ClientError.t) PublishingErrors.publishing_id false
      PublishingErrors.error_code errors w Hnd Hall) as (s & E & Hs).
    exists s. split; [exact Hs|]. exact E.
Qed.

(** C32. A named producer goes on where the server says it stopped: its first
    message gets the id behind the last one the server has, except that a server
    that answers 0 gets id 0, whether it has a message 0 or none at all. *)
Theorem named_producer_continues overflow_checks b name stream s s1 s2 s3 s4 (c : C) r n :
  pb_name b = Some name -> pb_filter_value_extractor b = None -> 0 < pb_batch_size b ->
  0 <= n < 2 ^ 64 - 1 ->
  create_producer_client attempts (environment b) stream (pb_client_provided_name b) s =
    Returns s1 c ->
  api_set_handler c s1 = Returns s2 tt ->
  api_declare_publisher c 1 (Some name) stream s2 = Returns s3 r ->
  api_query_publisher_sequence c name stream s3 = Returns s4 n ->
  generic.GenericResponse_is_ok r = true ->
  ∃ p st, ProducerBuilder_build attempts overflow_checks b stream s = Returns s4 (p, st) /\
    p_publish_sequence st = (if n =? 0 then 0 else n + 1) /\ client p = c /\
    publish_version p = 1 /\ p_batch_size p = pb_batch_size b /\ pending st = [].
Proof.
  intros Hname Hf Hsize Hn Hc Hh Hd Hq Hok.
  assert (H1 : first_sequence (E:=ProducerCreateError.t) overflow_checks n =
               Ok (if n =? 0 then 0 else n + 1)).
  { destruct (Z.eqb_spec n 0) as [->|Hne]; [done|]. apply first_sequence_next. lia. }
  by apply (build_named attempts overflow_checks b name stream s1 s2 s3 s4 c r n).
Qed.

(** C33. Adds and gets of the accumulator in any order, from any threads: the
    queue never exceeds the batch size, and the counter is the length of the
    queue less the messages queued and not yet counted, modulo 2^64. *)
Theorem accumulator_balanced n (a : MessageAccumulator) s :
  0 < n < 2 ^ 64 -> MessageAccumulator_new (S:=unit) (E:=Empty_set) n tt = Returns tt a ->
  rtc acc_step (a, []) s -> acc_balanced s.
Proof.
  intros Hn Ha Hsteps. destruct (acc_new_ok (E:=Empty_set) n tt Hn) as (a' & E & [Hc Hr Hm Hb] & Hq & Hcap).
  rewrite Ha in E. injection E as <-.
  assert (H0 : acc_balanced (a, [])).
  { split; [done|]. split; [done|]. split; [done|]. rewrite Hm, Hq. done. }
  revert H0. clear -Hsteps. induction Hsteps as [s|s1 s2 s3 Hstep _ IH]; [done|].
  intros H. apply IH. by eapply acc_step_balanced.
Qed.

(** The timer that takes the batch between the two halves of an add leaves
    the counter at the largest [usize], and the other half then overflows: a
    panic of the sender in a build with overflow checks. *)
Theorem early_get_overflows n (a : MessageAccumulator) m :
  0 < n < 2 ^ 64 -> MessageAccumulator_new (S:=unit) (E:=Empty_set) n tt = Returns tt a ->
  ∃ a1 a2, acc_send m a = Some a1 /\
    MessageAccumulator_get (acc_capacity a1) a1 = (a2, [m]) /\ message_count a2 = 2 ^ 64 - 1 /\
    (acc_count (E:=ProducerPublishError.t) true a2).2 = Panic ExplicitPanic /\
    (acc_count (E:=ProducerPublishError.t) false a2).2 = Ok false.
Proof.
  intros Hn Ha. destruct (acc_new_ok (E:=Empty_set) n tt Hn) as (a' & E & Hok & Hq & _).
  rewrite Ha in E. injection E as <-.
  destruct (acc_get_before_count m a Hok Hq) as (a1 & a2 & H1 & H2 & _ & H3 & H4 & H5).
  by exists a1, a2.
Qed.

(** C34. However closing a producer ends, afterwards every send fails with
    [Closed] and every close with [AlreadyClosed]; closing neither sends nor drops
    the messages still queued, and their waiters still wait. *)
Theorem producer_closes overflow_checks p (w : PW) :
  p_closed (pstate w) = false ->
  let w' := outcome_state (Producer_close p w) in
  (∀ message callback,
    internal_send overflow_checks p message callback w' = Throws w' ProducerPublishError.Closed) /\
  Producer_close p w' = Throws w' ProducerCloseError.AlreadyClosed /\
  pending (pstate w') = pending (pstate w) /\
  (∀ id, waiter_of (pstate w') id = waiter_of (pstate w) id).
Proof.
  intros Hopen w'. pose proof (Producer_close_pstate p w Hopen) as Hw. fold w' in Hw.
  assert (Hc : p_closed (pstate w') = true) by by rewrite Hw.
  split; [intros; by apply closed_send|]. split; [by apply Producer_close_again|].
  by rewrite Hw.
Qed.


End producers.

(** ** Environments *)

Section environments.
Context {X : AmqpExt} {RD : Random}.
Context {St C : Type} {API : ClientApi St C} (attempts : nat).

(** C29. Whenever a producer gets its connection, the server was asked about the
    stream on a connection with the producer's name, and the connection leads to
    the leader of the stream: opened with its address and the producer's name,
    or, in load balancer mode, opened again and again until the node on the other
    side was the leader. *)
Theorem producer_on_leader env stream name s s' (c : C) :
  let o := client_options (options env) in
  create_producer_client attempts env stream name s = Returns s' c -> ∃ s1 c1 s2 streams md,
    api_connect (with_client_provided_name name o) s = Returns s1 c1 /\
    api_metadata c1 [stream] s1 = Returns s2 streams /\
    hm_get key_eqb stream streams = Some md /\
    connected_to (load_balancer_mode o) o (with_client_provided_name name o) (leader md) s' c.
Proof. exact (create_producer_client_inv attempts env stream name s s' c). Qed.

(** C30. Whenever a consumer gets its connection, it leads to a replica of its
    stream, or, when the stream has no known replica, it is the one the server
    was asked on; the connection to a replica does not carry the consumer's
    name but that of the environment. *)
Theorem consumer_on_replica env stream name s s' (c : C) :
  let o := client_options (options env) in
  create_consumer_client attempts env stream name s = Returns s' c -> ∃ s1 c1 s2 streams md,
    api_connect (with_client_provided_name name o) s = Returns s1 c1 /\
    api_metadata c1 [stream] s1 = Returns s2 streams /\
    hm_get key_eqb stream streams = Some md /\
    ((replicas md = [] /\ c = c1 /\ s' = s2) \/
     ∃ b, b ∈ replicas md /\ connected_to (load_balancer_mode o) o o b s' c).
Proof. exact (create_consumer_client_inv attempts env stream name s s' c). Qed.

(** The metadata of a stream is what the server said of it: the leader and
    those replicas that are among the brokers it listed; a stream whose leader is
    not among them is left out. *)
Theorem metadata_of_stream (r : metadata.MetadataResponse) (md : metadata.StreamMetadata) :
  NoDup (map metadata.stream_name (metadata.r_stream_metadata r)) ->
  md ∈ metadata.r_stream_metadata r ->
  hm_get key_eqb (metadata.stream_name md) (metadata_from_response r) =
  stream_entry (brokers_by_reference r) md.
Proof. exact (metadata_lookup r md). Qed.

End environments.

(** ** Consumers *)

Section consumers.
Context {X : AmqpExt} {MC : Mpsc}.
Context {St C : Type} {API : ClientApi St C}.
Abbreviation KW := (KW (St:=St)).

(** C20. A chunk is delivered once, in order: its messages, less those the
    client's filter drops and those below the offset the consumer asked for, join
    the queue with consecutive offsets, one credit is granted for the chunk, and
    the whole chunk is counted. *)
Theorem chunk_delivered overflow_checks (c : ConsumerInternal) h d (w : KW) s1 :
  let kept := client_filter c (deliver.messages d) in
  let first := deliver.chunk_first_offset d in
  0 <= first -> first + len kept < 2 ^ 64 -> len kept <= room_of w ->
  api_credit (c_client c) (c_subscription_id c) 1 (cbase w) = Returns s1 tt ->
  ∃ w', consumer_handler overflow_checks c
      (Some (Ok (Response_new h (ResponseKind_Deliver d)))) w = Returns w' tt /\
    cbase w' = s1 /\
    queue_of w' = queue_of w ++ map Ok
      (imap (λ i m, delivery c m (start_offset c first + Z.of_nat i))
            (drop (Z.to_nat (start_offset c first - first)) kept)) /\
    c_collected (cstate w') = c_collected (cstate w) ++ [len (deliver.messages d)].
Proof.
  intros kept first Hf Hmax Hroom Hcredit.
  destruct (consumer_handler_chunk overflow_checks c h d w s1 Hf Hmax Hroom Hcredit)
    as (w' & E & Hb & Hq & Hc).
  exists w'. rewrite <- numbered_start. by repeat split.
Qed.

(** C31. Building a consumer: one that is to be the single active one needs a name,
    and without it no connection is made; where the server knows no filters, a
    filter is refused; otherwise the consumer is the answer to one subscription, with
    the offset asked for and one credit, or the code of the server is the error.
    The subscription carries the application's properties, each filter value under
    the key of its index, whether unfiltered messages match, and the name of a single
    active consumer. *)
Theorem consumer_subscribes {RD : Random} attempts (b : ConsumerBuilder (St:=St) (C:=C)) stream s :
  (single_active_without_name b = true ->
   ConsumerBuilder_build attempts b stream s =
     Throws s ConsumerCreateError.SingleActiveConsumerNotSupported) /\
  (∀ s1 s2 c, single_active_without_name b = false ->
   create_consumer_client attempts (cb_environment b) stream (cb_client_provided_name b) s =
     Returns s1 c ->
   api_set_handler c s1 = Returns s2 tt ->
   let properties := subscription_properties b (default [] (consumer_name b)) in
   (filter_refused b c = true ->
    ConsumerBuilder_build attempts b stream s = Throws s2 ConsumerCreateError.FilteringNotSupport) /\
   (∀ s3 r, filter_refused b c = false ->
    api_subscribe c 1 stream (cb_offset_specification b) 1 properties s2 = Returns s3 r ->
    ConsumerBuilder_build attempts b stream s =
      if generic.GenericResponse_is_ok r then Returns s3 (built_consumer b stream c, CState_new)
      else Throws s3 (ConsumerCreateError.Create stream (generic.code r))) /\
   (∀ f i v, cb_filter_configuration b = Some f -> filter_values f !! i = Some v ->
    hm_get key_eqb (str "filter." ++ to_string (Z.of_nat i)) properties = Some v /\
    hm_get key_eqb (str "match-unfiltered") properties = Some (bool_to_string (match_unfiltered f))) /\
   (is_single_active_consumer b = true ->
    hm_get key_eqb (str "single-active-consumer") properties = Some (str "true") /\
    hm_get key_eqb (str "name") properties = consumer_name b)).
Proof.
  split; [apply build_without_name|]. intros s1 s2 c Hname Hc Hh properties. split_and!.
  - by eapply build_filter_refused.
  - intros s3 r. by eapply build_subscribes.
  - intros f i v. apply subscription_properties_filter.
  - intros Hs. unfold properties. destruct (subscription_properties_single b
      (default [] (consumer_name b)) Hs) as [H1 H2]. split; [exact H1|]. rewrite H2.
    unfold single_active_without_name in Hname. rewrite Hs in Hname.
    by destruct (consumer_name b).
Qed.

(** Polling a consumer gives what is queued, in order; behind that it says
    that nothing is there yet, or, on a closed consumer, that there is no more. *)
Theorem polling_drains (w : KW) k :
  mpsc_open (c_channel (cstate w)) = true -> ∃ w',
    map_each (λ _ : unit, poll_next (E:=ConsumerCloseError.t))
      (replicate (length (queue_of w) + k) tt) w =
    Returns w' (map (λ d, Ready (Some d)) (queue_of w) ++
                replicate k (if c_closed (cstate w) then Ready None else Pending)) /\
    queue_of w' = [].
Proof. apply poll_all. Qed.

(** With a client-side filter the offsets are counted after the filter: a
    message whose predecessor in the chunk is dropped is delivered with the
    predecessor's offset. *)
Theorem filtered_offsets_shift overflow_checks (c : ConsumerInternal) h d m1 m2 cf f (w : KW) s1 :
  deliver.messages d = [m1; m2] -> c_offset_specification c = subscribe.First ->
  c_filter_configuration c = Some cf -> predicate cf = Some f -> f m1 = false -> f m2 = true ->
  0 <= deliver.chunk_first_offset d < 2 ^ 64 - 1 -> 1 <= room_of w ->
  api_credit (c_client c) (c_subscription_id c) 1 (cbase w) = Returns s1 tt ->
  ∃ w', consumer_handler overflow_checks c
      (Some (Ok (Response_new h (ResponseKind_Deliver d)))) w = Returns w' tt /\
    queue_of w' = queue_of w ++ [Ok (delivery c m2 (deliver.chunk_first_offset d))].
Proof.
  intros Hd Ho Hcf Hf H1 H2 Hfirst Hroom Hcredit.
  assert (Hk : client_filter c (deliver.messages d) = [m2]).
  { unfold client_filter. rewrite Hcf, Hf, Hd. cbn. by rewrite H1, H2. }
  destruct (consumer_handler_chunk overflow_checks c h d w s1) as (w' & E & _ & Hq & _);
    rewrite ?Hk; [lia|unfold len; cbn; lia|done|done|].
  exists w'. split; [exact E|]. rewrite Hq, Hk. cbn. unfold skipped. by rewrite Ho.
Qed.

End consumers.

(** ** Super streams *)

Section super_streams.
Context {X : AmqpExt} {DM : DashMap} {MC : Mpsc} {RD : Random} {MH : Murmur}.
Context {St C : Type} {API : ClientApi St C} (attempts : nat).
Abbreviation SW := (SW (St:=St) (C:=C)).
Abbreviation SPW := (SPW (St:=St) (C:=C)).
Abbreviation error := SuperStreamProducerPublishError.t.

(** C35. Hash routing sends a message to one partition, the one whose index is
    the hash of its key modulo their number: two messages with the same key go to
    the same partition, and the partitions are asked for once.  The message goes to
    the producer of that partition, which is built for it where there is none; the
    producers of the other partitions stay as they are. *)
Theorem hash_routing extractor m1 m2 (w : SW) w1 l :
  ss_get_partitions (E:=error) w = Returns w1 l -> 0 < len l < 2 ^ 32 ->
  extractor m1 = extractor m2 -> ∃ stream,
    l !! Z.to_nat (murmur3_32 (extractor m1) 104729 mod len l) = Some stream /\
    hash_routes (E:=error) extractor m1 w = Returns w1 [stream] /\
    hash_routes (E:=error) extractor m2 w1 = Returns w1 [stream] /\
    ∀ overflow_checks sp (pw : SPW) k p st s2 pw',
      sp_strategy sp = HashRoutingStrategy extractor -> meta_world pw = w ->
      (hm_get key_eqb stream (producers pw) = Some (p, st) /\ s2 = sbase w1 \/
       hm_get key_eqb stream (producers pw) = None /\
       ProducerBuilder_build attempts overflow_checks (route_builder sp) stream (sbase w1) =
         Returns s2 (p, st)) ->
      do_send overflow_checks p m1 k {| base := s2; pstate := st |} = Returns pw' tt ->
      ∃ pw2, ss_send attempts overflow_checks sp m1 k pw = Returns pw2 tt /\
        spbase pw2 = base pw' /\
        hm_get key_eqb stream (producers pw2) = Some (p, pstate pw') /\
        ∀ other, other <> stream ->
          hm_get key_eqb other (producers pw2) = hm_get key_eqb other (producers pw).
Proof.
  intros Hl Hn Hkey.
  destruct (hash_routes_partition (E:=error) extractor m1 w l w1 Hl Hn) as (stream & E1 & Hs).
  assert (Hp : ss_partitions (smeta w1) = l) by by eapply get_partitions_known.
  assert (Hl1 : ss_get_partitions (E:=error) w1 = Returns w1 l).
  { rewrite get_partitions_cached; [by rewrite Hp|]. rewrite Hp. intros ->. unfold len in Hn. cbn in Hn. lia. }
  destruct (hash_routes_partition (E:=error) extractor m2 w1 l w1 Hl1 Hn) as (stream' & E2 & Hs').
  exists stream. split; [exact Hs|]. split; [exact E1|].
  split; [rewrite E2; rewrite <- Hkey in Hs'; congruence|].
  intros oc sp pw k p st s2 pw' Hst <- [[Hk ->]|[Hk Hb]] Hd.
  - assert (Hr : routes_of (E:=error) (sp_strategy sp) m1 (meta_world pw) = Returns w1 [stream])
      by by rewrite Hst.
    eexists. split; [by eapply ss_send_known|]. cbn. split; [done|].
    split; [by rewrite hm_get_insert, decide_True|]. intros other Ho.
    by rewrite hm_get_insert, decide_False.
  - assert (Hr : routes_of (E:=error) (sp_strategy sp) m1 (meta_world pw) = Returns w1 [stream])
      by by rewrite Hst.
    eexists. split; [by eapply ss_send_new|]. cbn. split; [done|].
    split; [by rewrite hm_get_insert, decide_True|]. intros other Ho.
    by rewrite !hm_get_insert, !decide_False.
Qed.

End super_streams.

(** ** At work *)

Section at_work.
#[local] Existing Instance amqp_exec.

(** A client that answers every call from a table; the state is the options of
    the connections opened so far, a client the number of its connection. *)
Record answers := {
  a_properties : list (bytes * bytes);
  a_metadata : list (bytes * ClientStreamMetadata);
  a_sequence : Z;
  a_partitions : list bytes;
  a_next : option MessageResult;
}.

Definition done_ok : generic.GenericResponse := generic.GenericResponse_new 0 ResponseCode_Ok.

Definition table_api (a : answers) : ClientApi (list ClientOptions) nat := {|
  api_connect o s := Returns (s ++ [o]) (length s);
  api_close _ := mret tt;
  api_connection_properties _ := mret (a_properties a);
  api_filtering_supported _ := true;
  api_set_handler _ := mret tt;
  api_message _ := mret (a_next a);
  api_metadata _ _ := mret (a_metadata a);
  api_subscribe _ _ _ _ _ _ := mret done_ok;
  api_unsubscribe _ _ := mret done_ok;
  api_credit _ _ _ := mret tt;
  api_store_offset _ _ _ _ := mret tt;
  api_query_offset _ _ _ := mret 0;
  api_declare_publisher _ _ _ _ := mret done_ok;
  api_delete_publisher _ _ := mret done_ok;
  api_publish _ _ ms _ := mret (map cm_publishing_id ms);
  api_query_publisher_sequence _ _ _ := mret (a_sequence a);
  api_create_stream _ _ _ := mret done_ok;
  api_create_super_stream _ _ _ _ _ := mret done_ok;
  api_delete_stream _ _ := mret done_ok;
  api_delete_super_stream _ _ := mret done_ok;
  api_partitions _ _ :=
    mret (superstream_partitions.SuperStreamPartitionsResponse_new 0 ResponseCode_Ok (a_partitions a));
  api_route _ _ _ := mret (superstream_route.SuperStreamRouteResponse_new 0 ResponseCode_Ok []);
  api_consumer_update _ _ _ := mret done_ok;
|}.

Definition node (n : bytes) : ClientBroker := {| broker_host := n; broker_port := 5552 |}.
Definition invoices : bytes := str "invoices".
Definition table : answers := {|
  a_properties := [(str "advertised_host", str "node-1")];
  a_metadata := [(invoices, {| stream := invoices; response_code := ResponseCode_Ok;
                               leader := node (str "node-1"); replicas := [node (str "node-2")] |})];
  a_sequence := 41;
  a_partitions := [str "invoices-0"; str "invoices-1"; str "invoices-2"];
  a_next := None;
|}.
#[local] Instance at_table : ClientApi (list ClientOptions) nat := table_api table.

(** The options of the environment, without and with a load balancer. *)
Definition env (lb : bool) : Environment :=
  {| options := {| client_options := with_load_balancer_mode lb ClientOptions_default |} |}.

Lemma producer_on_leader_witness : ∃ s' (c : nat) md,
  create_producer_client 3 (env true) invoices (str "p") [] = Returns s' c /\
  connected_to true (client_options (options (env true)))
    (with_client_provided_name (str "p") (client_options (options (env true)))) md s' c /\
  md = node (str "node-1").
Proof.
  set (r := create_producer_client 3 (env true) invoices (str "p") []).
  assert (E : r = Returns [with_client_provided_name (str "p") (client_options (options (env true)));
                           client_options (options (env true))] 1%nat) by reflexivity.
  destruct (producer_on_leader 3 (env true) invoices (str "p") [] _ _ E)
    as (s1 & c1 & s2 & streams & md & H1 & H2 & H3 & H4).
  do 2 eexists. exists (leader md). split; [exact E|]. split; [exact H4|].
  injection H1 as <- <-. injection H2 as <- <-. by injection H3 as <-.
Defined.

Lemma consumer_on_replica_witness : ∃ s' (c : nat) b,
  create_consumer_client 3 (env false) invoices (str "c") [] = Returns s' c /\
  connected_to false (client_options (options (env false)))
    (client_options (options (env false))) b s' c /\ b = node (str "node-2").
Proof.
  set (o := client_options (options (env false))).
  assert (E : create_consumer_client 3 (env false) invoices (str "c") [] =
    Returns [with_client_provided_name (str "c") o;
             with_host (str "node-2") (with_port 5552 o)] 1%nat) by reflexivity.
  destruct (consumer_on_replica 3 (env false) invoices (str "c") [] _ _ E)
    as (s1 & c1 & s2 & streams & md & H1 & H2 & H3 & H4).
  injection H1 as <- <-. injection H2 as <- <-. injection H3 as <-.
  destruct H4 as [(H & _)|(b & Hb & H4)]; [done|].
  do 2 eexists. exists b. split; [exact E|]. split; [exact H4|]. by apply list_elem_of_singleton in Hb.
Defined.

Lemma metadata_of_stream_witness :
  let md := metadata.StreamMetadata_new invoices ResponseCode_Ok 1 [2] in
  let r := metadata.MetadataResponse_new 0
    [metadata.Broker_new 1 (str "node-1") 5552; metadata.Broker_new 2 (str "node-2") 5552] [md] in
  hm_get key_eqb invoices (metadata_from_response r) = hm_get key_eqb invoices (a_metadata table).
Proof.
  intros md r. etrans; [apply (metadata_of_stream r md)|reflexivity].
  - apply NoDup_singleton.
  - by left.
Defined.

(** A named producer with batches of two messages. *)
Definition named_builder : ProducerBuilder :=
  pb_set_batch_size 2 (pb_set_name (str "p") (Environment_producer (env false))).

Lemma named_producer_continues_witness : ∃ s4 p st,
  ProducerBuilder_build 3 false named_builder invoices [] = Returns s4 (p, st) /\
  p_publish_sequence st = 42.
Proof.
  set (s1 := outcome_state (create_producer_client 3 (env false) invoices
                              (pb_client_provided_name named_builder) [])).
  destruct (named_producer_continues 3 false named_builder (str "p") invoices []
    s1 s1 s1 s1 1%nat done_ok 41) as (p & st & E & Hs & _); [try reflexivity..|].
  { lia. }
  do 3 eexists. split; [exact E|]. exact Hs.
Defined.

Definition empty_accumulator : MessageAccumulator :=
  {| acc_channel := mpsc_channel 2; acc_capacity := 2; message_count := 0 |}.
Definition message_1 : ClientMessage := ClientMessage_new 1 (numbered_text None (str "a")) None.

Lemma accumulator_balanced_witness : ∃ a,
  acc_send message_1 empty_accumulator = Some a /\ acc_balanced (a, [message_1]).
Proof.
  eexists. split; [reflexivity|].
  apply (accumulator_balanced 2 empty_accumulator); [lia|reflexivity|].
  eapply rtc_l; [by apply acc_step_send|apply rtc_refl].
Defined.

Lemma early_get_overflows_witness : ∃ a1 a2,
  acc_send message_1 empty_accumulator = Some a1 /\
  MessageAccumulator_get (acc_capacity a1) a1 = (a2, [message_1]) /\
  message_count a2 = 2 ^ 64 - 1 /\
  (acc_count (E:=ProducerPublishError.t) true a2).2 = Panic ExplicitPanic /\
  (acc_count (E:=ProducerPublishError.t) false a2).2 = Ok false.
Proof. by apply (early_get_overflows 2 empty_accumulator message_1). Defined.

(** A producer with the messages 7 and 8 on their way. *)
Definition a_producer : ProducerInternal (C:=nat) := {|
  client := 0%nat; p_stream := invoices; producer_id := 1; p_batch_size := 2;
  publish_version := 1; p_filter_value_extractor := None;
|}.
Definition waiter (n : nat) : ProducerMessageWaiter :=
  {| cb := n; msg := numbered_text None (str "a") |}.
Definition two_sent : PW (St:=list ClientOptions) := {|
  base := [];
  pstate := set_waiting (dm_insert 8 (waiter 1) (dm_insert 7 (waiter 0) dm_new))
              (PState_new 9 empty_accumulator);
|}.

Lemma confirms_settle_witness : ∃ s,
  confirm_handler (E:=ClientError.t) (Some (Ok (Response_new any_header
    (ResponseKind_PublishConfirm (publish_confirm.PublishConfirm_new 1 [8; 7]))))) two_sent =
    Returns {| base := []; pstate := s |} tt /\
  map fst (called s) = [1; 0]%nat.
Proof.
  destruct (confirms_settle any_header (publish_confirm.PublishConfirm_new 1 [8; 7])
    (publish_error.PublishErrorResponse_new 1 []) two_sent) as [H _].
  destruct H as (s & Hs & E).
  - cbn. apply NoDup_cons. split; [by intros ?%list_elem_of_singleton|apply NoDup_singleton].
  - intros id [->|[->|[]%elem_of_nil]%elem_of_cons]%elem_of_cons; by eexists.
  - eexists. split; [exact E|]. cbn. by rewrite (sb_calls _ _ _ _ _ _ Hs).
Defined.


Lemma producer_closes_witness :
  let w' := outcome_state (Producer_close a_producer two_sent) in
  internal_send true a_producer (numbered_text None (str "b")) 2 w' =
    Throws w' ProducerPublishError.Closed.
Proof.
  intros w'. by apply (producer_closes true a_producer two_sent eq_refl).
Defined.

(** Three messages through a producer with batches of two, on a real client over a
    connection that answers nothing: one command goes out. *)
Section over_a_connection.
#[local] Instance silent : Transport := scripted [].

Definition wire_producer : ProducerInternal (C:=Handle) := {|
  client := (0%nat, the_client o false); p_stream := invoices; producer_id := 1;
  p_batch_size := 2; publish_version := 1; p_filter_value_extractor := None;
|}.
Definition fresh_producer : PW (St:=Pool) := {|
  base := {| pool_clients := [open_on (TR:=silent) (start [])]; pool_now := 0 |};
  pstate := PState_new 0 empty_accumulator;
|}.
Definition three_messages : list (Message * nat) :=
  [(numbered_text None (str "a"), 0%nat); (numbered_text None (str "b"), 1%nat);
   (numbered_text None (str "c"), 2%nat)].

Lemma empty_accumulator_ok : producer_ok wire_producer (pstate fresh_producer).
Proof.
  split; [split|done|]; unfold acc_queue, len; cbn; try done; lia.
Qed.

Lemma sends_on_the_wire_witness : ∃ w' cw' s',
  send_all (API:=pool_api 1) true wire_producer three_messages fresh_producer = Returns w' tt /\
  pool_clients (base w') !! 0%nat = Some cw' /\ ready (the_client o false) 0 s' cw' /\
  ∃ bs, scripted_sent (connection s') = map (publish_request 1 1) bs /\
    mjoin bs ++ pending (pstate w') =
      to_send wire_producer (pstate fresh_producer) (map fst three_messages) /\
    Forall (λ b, length b = 2%nat) bs.
Proof.
  destruct (sends_on_the_wire (TR:=silent) 1 (λ _, True) scripted_sent true wire_producer
    0%nat (the_client o false) (the_client o false) 0 (initial_shared (TR:=silent) 0 o (start [])) (open_on (TR:=silent) (start []))
    three_messages fresh_producer)
    as (w' & cw' & s' & E & Hi & Hw & _ & H).
  - intros r k _. do 2 eexists. split; [reflexivity|]. by split.
  - reflexivity.
  - reflexivity.
  - apply open_on_ready.
  - done.
  - apply empty_accumulator_ok.
  - reflexivity.
  - exists w', cw', s'. split; [exact E|]. split; [exact Hi|]. split; [exact Hw|exact H].
Defined.

End over_a_connection.

(** A consumer that asked for the offset 101, and a chunk of three messages from
    100 on. *)
Definition a_consumer (spec : subscribe.OffsetSpecification)
    (f : option (FilterConfiguration (X:=amqp_exec))) : ConsumerInternal (St:=list ClientOptions) (C:=nat) := {|
  c_name := None; c_client := 0%nat; c_stream := invoices; c_offset_specification := spec;
  c_subscription_id := 1; c_filter_configuration := f; c_consumer_update_listener := None;
|}.
Definition chunk (l : list bytes) : deliver.DeliverCommand :=
  deliver.DeliverCommand_new 1 0 0 1 0 0 100 0 0 0 (map (numbered_text None) l).
Definition idle_consumer : KW (St:=list ClientOptions) :=
  {| cbase := []; cstate := CState_new |}.

Lemma idle_consumer_room : room_of idle_consumer = 10000.
Proof. reflexivity. Qed.

Lemma chunk_delivered_witness : ∃ w',
  let c := a_consumer (subscribe.Offset 101) None in
  consumer_handler true c (Some (Ok (Response_new any_header
    (ResponseKind_Deliver (chunk [str "a"; str "b"; str "c"]))))) idle_consumer = Returns w' tt /\
  queue_of w' = [Ok (delivery c (numbered_text None (str "b")) 101);
                 Ok (delivery c (numbered_text None (str "c")) 102)].
Proof.
  destruct (chunk_delivered true (a_consumer (subscribe.Offset 101) None) any_header
    (chunk [str "a"; str "b"; str "c"]) idle_consumer []) as (w' & E & _ & Hq & _).
  - done.
  - done.
  - rewrite idle_consumer_room. unfold len. cbn. lia.
  - reflexivity.
  - exists w'. split; [exact E|]. rewrite Hq. reflexivity.
Defined.

(** A filter that keeps the messages whose body is not [drop]. *)
Definition starts_with_k (m : Message) : bool :=
  match data (body (AmqpMessage.message m)) with
  | (b :: _) :: _ => bool_decide (b = Byte.x6b)
  | _ => false
  end.
Definition a_filter : FilterConfiguration :=
  post_filter starts_with_k (FilterConfiguration_new [str "eu"; str "us"] true).

Lemma filtered_offsets_shift_witness : ∃ w',
  let c := a_consumer subscribe.First (Some a_filter) in
  consumer_handler true c (Some (Ok (Response_new any_header
    (ResponseKind_Deliver (chunk [str "drop"; str "keep"]))))) idle_consumer = Returns w' tt /\
  queue_of w' = [Ok (delivery c (numbered_text None (str "keep")) 100)].
Proof.
  destruct (filtered_offsets_shift true (a_consumer subscribe.First (Some a_filter)) any_header
    (chunk [str "drop"; str "keep"]) (numbered_text None (str "drop"))
    (numbered_text None (str "keep")) a_filter starts_with_k idle_consumer [])
    as (w' & E & Hq); try reflexivity.
  - by split.
  - rewrite idle_consumer_room. lia.
  - exists w'. split; [exact E|]. rewrite Hq. reflexivity.
Defined.

Lemma polling_drains_witness : ∃ w',
  map_each (λ _ : unit, poll_next (E:=ConsumerCloseError.t)) [tt; tt] idle_consumer =
    Returns w' [Pending; Pending].
Proof.
  destruct (polling_drains idle_consumer 2 eq_refl) as (w' & E & _). exists w'. exact E.
Defined.

Definition a_consumer_builder : ConsumerBuilder (St:=list ClientOptions) (C:=nat) := {|
  consumer_name := Some (str "c"); cb_environment := env false;
  cb_offset_specification := subscribe.Next; cb_filter_configuration := Some a_filter;
  cb_consumer_update_listener := None; cb_client_provided_name := str "c"; cb_properties := [];
  is_single_active_consumer := true;
|}.

Lemma consumer_subscribes_witness : ∃ s3,
  ConsumerBuilder_build 3 a_consumer_builder invoices [] =
    Returns s3 (built_consumer a_consumer_builder invoices 1%nat, CState_new) /\
  hm_get key_eqb (str "filter.1") (subscription_properties a_consumer_builder (str "c")) =
    Some (str "us").
Proof.
  destruct (consumer_subscribes 3 a_consumer_builder invoices []) as [_ H].
  edestruct H as (_ & H1 & H2 & _); [reflexivity|reflexivity|reflexivity|].
  eexists. split.
  - exact (H1 _ done_ok eq_refl eq_refl).
  - exact (proj1 (H2 a_filter 1%nat (str "us") eq_refl eq_refl)).
Defined.

(** A hash, to run the routing. *)
Definition length_hash : Murmur.
Proof.
  refine {| murmur3_32 := λ key seed, (len key + seed) mod 2 ^ 32 |}.
  intros. by apply Z.mod_pos_bound.
Defined.

Definition a_super_stream : SW (St:=list ClientOptions) (C:=nat) := {|
  sbase := []; smeta := {| super_stream := invoices; ss_client := 0%nat; ss_partitions := [];
                           ss_routes := [] |};
|}.

Definition by_hash : SuperStreamProducer (X:=amqp_exec) (C:=nat) := {|
  sp_environment := env false; sp_client := 0%nat; sp_filter_value_extractor := None;
  sp_client_provided_name := str "p"; sp_strategy := HashRoutingStrategy (λ _, str "key");
|}.
Definition no_producers : SPW (St:=list ClientOptions) (C:=nat) :=
  {| spbase := []; producers := []; spmeta := smeta a_super_stream |}.

(** The partitions have their leaders on a node. *)
Definition partition_metadata (stream : bytes) : bytes * ClientStreamMetadata :=
  (stream, {| stream := stream; response_code := ResponseCode_Ok;
              leader := node (str "node-1"); replicas := [] |}).
Definition partitioned : answers := {|
  a_properties := [(str "advertised_host", str "node-1")];
  a_metadata := map partition_metadata (a_partitions table);
  a_sequence := 0; a_partitions := a_partitions table; a_next := None;
|}.

Definition build_and_send : outcome (PW (St:=list ClientOptions)) ProducerPublishError.t unit :=
  match ProducerBuilder_build (API:=table_api partitioned) 3 false (route_builder by_hash)
          (str "invoices-2") [] with
  | Returns s (p, st) =>
      do_send (API:=table_api partitioned) false p (numbered_text None (str "a")) 0
        {| base := s; pstate := st |}
  | _ => Waits two_sent
  end.

(** The first message builds the producer of its partition. *)
Lemma hash_routing_witness : ∃ stream p st pw2,
  ss_send (MH:=length_hash) (API:=table_api partitioned) 3 false by_hash
    (numbered_text None (str "a")) 0 no_producers = Returns pw2 tt /\
  hm_get key_eqb stream (producers pw2) = Some (p, st).
Proof.
  edestruct (hash_routing (MH:=length_hash) (API:=table_api partitioned) 3 (λ _, str "key")
    (numbered_text None (str "a")) (numbered_text None (str "b")) a_super_stream)
    as (stream & Hs & E1 & _ & H); [reflexivity|done|reflexivity|].
  injection Hs as <-.
  destruct (is_returns_inv build_and_send eq_refl) as (pw' & [] & Ed). unfold build_and_send in Ed.
  destruct (ProducerBuilder_build _ _ _ _ _) as [s2 [p st]| | |] eqn:Eb; [|done..].
  destruct (H false by_hash no_producers 0%nat p st s2 pw' eq_refl eq_refl)
    as (pw2 & E2 & _ & Hp & _); [right; by split|exact Ed|].
  do 4 eexists. split; [exact E2|exact Hp].
Defined.

End at_work.
