(* ===== verification/RunGuarantees.v ===== *)
(** * What runs of producers and consumers guarantee

    The properties that speak of whole runs, with the tasks of a producer or of a
    consumer interleaved in any order. *)
From S2P Require Import Prelude Utf8 HashMaps Integers Codec Protocol.
From S2P Require Import Session Streams Producing Consuming.
From S2P Require Import AmqpCodes AmqpExec AmqpSimple AmqpValue AmqpMessage Messages.
From S2P Require Import Request Response ClientCodec Effects Dispatcher Options Client ClientApi.
From S2P Require Import Errors Environment Producer ProducerRuns Consumer ConsumerRuns SuperStream SuperRuns.
From S2P Require Import ConnectionGuarantees StreamGuarantees.

Section runs.
Context {X : AmqpExt} {DM : DashMap} {MC : Mpsc}.
Context {St C : Type} {API : ClientApi St C}.
Abbreviation PW := (PW (St:=St)).

(** C7. Whatever the order of sends, batches, ticks of the timer, messages of the
    server and closing, and however each of them ends: a producer numbers its
    messages one by one from its first id; and where the ids are distinct, each
    accepted message either still waits and its callback was never called, or it
    waits no more and its callback was called once, with the message and a verdict;
    no other call was made. *)
Theorem messages_accounted overflow_checks (p : ProducerInternal (C:=C)) b n acc (w : PW) l :
  0 <= n < 2 ^ 64 ->
  rtc (producer_step overflow_checks p) ({| base := b; pstate := PState_new n acc |}, []) (w, l) ->
  (Forall unnumbered l -> map a_id l = counted n (length l)) /\
  (NoDup (map a_id l) \/ (Forall unnumbered l /\ len l <= 2 ^ 64) ->
   (∀ a, a ∈ l ->
     (waiter_of (pstate w) (a_id a) = Some (a_waiter a) /\
      calls_for (a_id a) (called (pstate w)) = []) \/
     (waiter_of (pstate w) (a_id a) = None /\
      settled a (calls_for (a_id a) (called (pstate w))))) /\
   (∀ call, call ∈ called (pstate w) -> ∃ a, a ∈ l /\ call_id call = Some (a_id a))).
Proof.
  intros Hn Hrun. pose proof (fresh_numbered (St:=St) b n acc Hn) as Hf.
  split; [intros Hun; by apply (run_numbered _ _ n _ _ Hrun Hun Hf)|].
  intros Hd. assert (Hnd : NoDup (map a_id l)).
  { destruct Hd as [|[Hun Hl]]; [done|]. pose proof (run_numbered _ _ n _ _ Hrun Hun Hf) as [Hids _].
    cbn [snd] in Hids. rewrite Hids. by apply counted_distinct. }
  destruct (run_accounted _ _ _ _ Hrun Hnd (fresh_accounted b n acc)) as [Ha Ho Hi].
  split; [exact Ha|]. intros [k r] Hin. destruct (Hi k r Hin) as [id Hid].
  destruct (decide (id ∈ map a_id l)) as [(a & -> & Hal)%list_elem_of_fmap|Hnot]; [by exists a|].
  destruct (Ho id Hnot) as [_ Hc]. exfalso. apply (not_elem_of_nil (k, r)). rewrite <- Hc.
  by apply list_elem_of_filter.
Qed.

(** C10. [send_with_confirm] on a producer in use, with an id and a callback of its
    own: whatever the producer is told while it waits, what it gives is the verdict
    on the message it sent, and its only errors are those of the sending; and it
    does give the verdict when the timer sends the batch and the next frame for the
    handler names waiting messages, this one among them. *)
Theorem send_with_confirm_verdict overflow_checks (p : ProducerInternal (C:=C)) b n acc (w : PW) l
    turns m :
  rtc (producer_step overflow_checks p) ({| base := b; pstate := PState_new n acc |}, []) (w, l) ->
  let a := next_accepted m (pstate w) in
  NoDup (map a_id l) -> a_id a ∉ map a_id l -> (∀ b, b ∈ l -> a_callback b <> a_callback a) ->
  match do_send_with_confirm overflow_checks p turns m w with
  | Returns _ cs => cs_publishing_id cs = a_id a /\ cs_message cs = m
  | Throws w' e => sending overflow_checks p m w = Throws w' e
  | _ => True
  end /\
  ∀ w1 w2 s3 item v,
    sending overflow_checks p m w = Returns w1 tt ->
    batch_tick (E:=ProducerPublishError.t) p w1 = Returns w2 tt ->
    api_message (client p) (base w2) = Returns s3 (Some item) ->
    NoDup (map v_id (verdicts item)) ->
    (∀ u, u ∈ verdicts item -> is_Some (waiter_of (pstate w2) (v_id u))) ->
    v ∈ verdicts item -> v_id v = a_id a ->
    ∃ w', do_send_with_confirm overflow_checks p (S turns) m w = Returns w' (status_of m v).
Proof.
  intros Hrun a Hnd Hid Hcb.
  pose proof (run_accounted _ _ _ _ Hrun Hnd (fresh_accounted b n acc)) as Hacc.
  split; [by apply (send_with_confirm_own _ _ turns m w l)|].
  intros w1 w2 s3 item v. by apply (send_with_confirm_settled _ _ turns m w w1 w2 l).
Qed.

(** C8. What a consumer is handed is what the application polls: however the
    handlers of the messages, the polls and closing interleave, the messages polled,
    queued and still to be sent are, in this order, those of the chunks handed over,
    from the offset asked for on, and with the errors of the connection nothing is
    lost or repeated; the queue never exceeds its capacity; the stream ends only when
    the consumer is closed and nothing is queued; and however full the queue is,
    polling gets everything.  The handler as it is written makes these steps. *)
Theorem consumer_receives_all overflow_checks (c : ConsumerInternal (St:=St) (C:=C)) s r :
  rtc (consumer_step overflow_checks c)
    (Run {| cbase := s; cstate := CState_new |} [] 1 [] []) r ->
  let on_its_way := queue_of (run_world r) ++ in_hands (run_hands r) in
  messages_of (run_polled r ++ on_its_way) = messages_of (sent_by c (run_read r)) /\
  run_polled r ++ on_its_way ≡ₚ sent_by c (run_read r) /\
  len (queue_of (run_world r)) <= 10000 /\
  (∀ w, poll_next (E:=Empty_set) (run_world r) = Returns w (Ready None) ->
     queue_of (run_world r) = [] /\ c_closed (cstate (run_world r)) = true) /\
  (∃ r', rtc (consumer_step overflow_checks c) r r' /\ run_read r' = run_read r /\
     messages_of (run_polled r') = messages_of (sent_by c (run_read r)) /\
     run_polled r' ≡ₚ sent_by c (run_read r)) /\
  (∀ item w w' hs cr rd pl, offsets_fit item -> chunk_credit item <= cr ->
     consumer_handler overflow_checks c item w = Returns w' tt ->
     rtc (consumer_step overflow_checks c) (Run w hs cr rd pl) (Run w' hs cr (rd ++ [item]) pl)).
Proof.
  intros Hrun. pose proof (run_in_order _ _ 10000 _ _ Hrun (built_in_order c s)) as Hr.
  split_and!.
  - apply Hr.
  - apply Hr.
  - apply Hr.
  - intros w E. by apply (poll_next_answer _ _ _ E (io_open _ _ _ Hr)).
  - destruct (drain_hands overflow_checks c 10000 r) as (r' & Hd & Hrd & [Ha Hm _ _ _ _ _] & Hh & Hq);
      [lia|done|].
    rewrite Hh, Hq, app_nil_r, Hrd in Ha, Hm. by exists r'.
  - intros item w w' hs cr rd pl. apply handler_run.
Qed.

(** C21. What a super stream consumer polls is an interleaving of its partitions:
    however the handlers, the tasks of the partitions, the polls and closing
    interleave, what was polled and is queued is what the tasks sent, never more than
    the capacity queued, and for every partition what its task sent or holds and
    what is still on its way to it are, in this order, the messages of the chunks
    its consumer was handed, each once.  A round of a task and a poll as they are
    written make these steps, and a poll ends the stream exactly when nothing is queued
    and the consumer is closed, or the tasks of all partitions have ended. *)
Theorem super_stream_in_order overflow_checks (cs : list (ConsumerInternal (St:=St) (C:=C))) s r :
  rtc (super_step overflow_checks cs) (super_built cs s) r ->
  map snd (sr_log r) = sr_polled r ++ mpsc_buffer (sr_channel r) /\
  len (mpsc_buffer (sr_channel r)) <= 10000 /\
  (∀ i c pt, cs !! i = Some c -> sr_partitions r !! i = Some pt ->
    let own := from_partition i (sr_log r) ++ held_by (p_task pt) ++
               queue_of (run_world (p_run pt)) ++ in_hands (run_hands (p_run pt)) in
    messages_of own = messages_of (sent_by c (run_read (p_run pt))) /\
    own ≡ₚ sent_by c (run_read (p_run pt))) /\
  (∀ s i run0 w b, sr_partitions r !! i = Some {| p_run := run0; p_task := Receiving |} ->
    forward (E:=Empty_set) i (scw_of s r) = Returns w b ->
    ∃ r', rtc (super_step overflow_checks cs) r r' /\ w = scw_of s r') /\
  (∀ s w p, sc_poll_next (E:=Empty_set) (scw_of s r) = Returns w p ->
    (p = Ready None <-> mpsc_buffer (sr_channel r) = [] /\
      (sr_closed r = true \/ Forall (λ pt, p_task pt = Finished) (sr_partitions r))) /\
    ∃ r', super_step overflow_checks cs r r' /\ w = scw_of s r' /\
      sr_polled r' = sr_polled r ++ polled_value p).
Proof.
  intros Hrun. pose proof (super_run_ok _ _ _ _ Hrun (super_built_ok cs s)) as Hok.
  pose proof Hok as [Hl Hp _ Hr _ _]. split_and!; [done|done| | |].
  - intros i c pt Hc Hi own. destruct (Hp i c pt Hc Hi) as [[Ha Hm _ _ _ _ _] Hlog].
    unfold own. by rewrite app_assoc, Hlog.
  - intros s' i run0 w b. apply forward_run.
  - intros s' w p E. split; [by eapply poll_ends|]. exact (poll_run _ _ _ _ _ _ E).
Qed.

End runs.

(** ** At work *)

Section at_work.
#[local] Existing Instance amqp_exec.
#[local] Existing Instance at_table.

(** A message is sent and confirmed; another still waits. *)
Definition new_producer : PW (St:=list ClientOptions) :=
  {| base := []; pstate := PState_new 0 empty_accumulator |}.
Definition confirm_of (id : Z) : MessageResult :=
  Some (Ok (Response_new any_header
    (ResponseKind_PublishConfirm (publish_confirm.PublishConfirm_new 1 [id])))).
Definition text (b : bytes) : Message := numbered_text None b.
Definition sent_one := outcome_state (internal_send false a_producer (text (str "a")) 7 new_producer).
Definition confirmed_one :=
  outcome_state (confirm_handler (E:=ClientError.t) (confirm_of 0) sent_one).
Definition sent_two :=
  outcome_state (internal_send false a_producer (text (str "b")) 8 confirmed_one).
Definition first_accepted : accepted :=
  {| a_id := 0; a_callback := 7; a_message := text (str "a") |}.
Definition second_accepted : accepted :=
  {| a_id := 1; a_callback := 8; a_message := text (str "b") |}.

Lemma two_sends : rtc (producer_step false a_producer) (new_producer, [])
  (sent_two, [first_accepted; second_accepted]).
Proof.
  assert (E1 : accepts_send (text (str "a")) 7 (pstate new_producer) = [first_accepted])
    by reflexivity.
  assert (E2 : accepts_send (text (str "b")) 8 (pstate confirmed_one) = [second_accepted])
    by reflexivity.
  pose proof (step_send false a_producer new_producer [] (text (str "a")) 7) as H1.
  pose proof (step_message false a_producer sent_one [first_accepted] (confirm_of 0)) as H2.
  pose proof (step_send false a_producer confirmed_one [first_accepted] (text (str "b")) 8) as H3.
  rewrite E1 in H1. rewrite E2 in H3.
  eapply rtc_l; [exact H1|]. eapply rtc_l; [exact H2|]. by apply rtc_once.
Qed.

Lemma messages_accounted_witness :
  settled first_accepted (calls_for 0 (called (pstate sent_two))) /\
  calls_for 1 (called (pstate sent_two)) = [].
Proof.
  destruct (messages_accounted false a_producer [] 0 empty_accumulator sent_two
    [first_accepted; second_accepted]) as [_ H]; [lia|exact two_sends|].
  destruct H as [H _]. { right. split; [by repeat constructor|unfold len; cbn; lia]. }
  assert (W0 : waiter_of (pstate sent_two) 0 = None) by reflexivity.
  assert (W1 : is_Some (waiter_of (pstate sent_two) 1)) by by eexists.
  split.
  - destruct (H _ (list_elem_of_here _ _)) as [[Hw _]|[_ Hs]]; [|exact Hs].
    by pose proof (eq_trans (eq_sym W0) Hw).
  - destruct (H _ (list_elem_of_further _ _ _ (list_elem_of_here _ _))) as [[_ Hc]|[Hw _]]; [exact Hc|].
    destruct W1 as [x W1]. by pose proof (eq_trans (eq_sym W1) Hw).
Defined.

(** A server whose next frame confirms the message 0. *)
Definition confirming : answers := {|
  a_properties := []; a_metadata := []; a_sequence := 0; a_partitions := [];
  a_next := Some (confirm_of 0);
|}.

Lemma send_with_confirm_verdict_witness : ∃ w',
  do_send_with_confirm (API:=table_api confirming) false a_producer 1 (text (str "a")) new_producer =
  Returns w' (status_of (text (str "a"))
    {| v_id := 0; v_confirmed := true; v_status := ResponseCode_Ok |}).
Proof.
  destruct (send_with_confirm_verdict (API:=table_api confirming) false a_producer [] 0
    empty_accumulator new_producer [] 0 (text (str "a"))) as [_ H].
  - apply rtc_refl.
  - constructor.
  - by intros ?%elem_of_nil.
  - by intros b ?%elem_of_nil.
  - eapply H; [reflexivity|reflexivity|reflexivity| | | |].
    + apply NoDup_singleton.
    + intros u ->%list_elem_of_singleton. by eexists.
    + by left.
    + reflexivity.
Defined.

(** A chunk is read, its first message polled while the second is in hand. *)
Definition reading_consumer := a_consumer subscribe.First None.
Definition a_chunk : MessageResult :=
  Some (Ok (Response_new any_header (ResponseKind_Deliver (chunk [str "a"; str "b"])))).

Lemma consumer_receives_all_witness : ∃ r,
  run_read r = [a_chunk] /\
  run_polled r = [Ok (delivery reading_consumer (text (str "a")) 100)] /\
  in_hands (run_hands r) = [Ok (delivery reading_consumer (text (str "b")) 101)] /\
  ∃ r', rtc (consumer_step false reading_consumer) r r' /\
    messages_of (run_polled r') = [delivery reading_consumer (text (str "a")) 100;
                                   delivery reading_consumer (text (str "b")) 101].
Proof.
  eexists (Run _ [(a_chunk, [_])] 0 [a_chunk] [_]).
  split; [reflexivity|]. split; [reflexivity|]. split; [reflexivity|].
  edestruct (consumer_receives_all false reading_consumer [])
    as (_ & _ & _ & _ & (r' & H1 & _ & H2 & _) & _); [|exists r'; split; [exact H1|exact H2]].
  eapply rtc_l; [apply (step_read false reading_consumer idle_consumer [] 1 [] [] a_chunk); [by split|done]|].
  eapply rtc_l; [eapply (step_deliver _ _ _ _ []); reflexivity|].
  eapply rtc_l; [eapply step_poll; reflexivity|]. apply rtc_refl.
Defined.

(** The connection ends while a chunk is handed over: the stream of the consumer
    ends before the messages of the chunk are queued. *)
Lemma stream_ends_early : ∃ r w,
  rtc (consumer_step false reading_consumer) (Run idle_consumer [] 1 [] []) r /\
  poll_next (E:=Empty_set) (run_world r) = Returns w (Ready None) /\
  messages_of (in_hands (run_hands r)) = [delivery reading_consumer (text (str "a")) 100;
                                          delivery reading_consumer (text (str "b")) 101].
Proof.
  do 2 eexists. split; [|split].
  - eapply rtc_l; [apply (step_read _ _ _ _ _ _ _ a_chunk); [by split|done]|].
    eapply rtc_l; [apply (step_read _ _ _ _ _ _ _ None); done|].
    eapply rtc_l; [apply (step_finish _ _ _ [_] None [])|]. apply rtc_refl.
  - reflexivity.
  - reflexivity.
Qed.

(** Two partitions: a chunk arrives in the second, and its first message is polled
    while its task holds the other. *)
Definition two_partitions := [reading_consumer; reading_consumer].

Lemma two_partitions_run : ∃ r pt,
  rtc (super_step false two_partitions) (super_built two_partitions []) r /\
  sr_partitions r !! 1%nat = Some pt /\ run_read (p_run pt) = [a_chunk] /\
  sr_polled r = [Ok (delivery reading_consumer (text (str "a")) 100)] /\
  p_task pt = Sending (Ok (delivery reading_consumer (text (str "b")) 101)).
Proof.
  do 2 eexists. split; [|split; [|split; [|split]]].
  - eapply rtc_l; [eapply (step_consumer _ _ _ _ _ _ _ 1 reading_consumer);
      [reflexivity|reflexivity|apply (step_read _ _ _ _ _ _ _ a_chunk); [by split|done]|reflexivity]|].
    eapply rtc_l; [eapply (step_consumer _ _ _ _ _ _ _ 1 reading_consumer);
      [reflexivity|reflexivity|eapply (step_deliver _ _ _ _ []); reflexivity|reflexivity]|].
    eapply rtc_l; [eapply (step_consumer _ _ _ _ _ _ _ 1 reading_consumer);
      [reflexivity|reflexivity|eapply (step_deliver _ _ _ _ []); reflexivity|reflexivity]|].
    eapply rtc_l; [eapply (step_receive _ _ _ _ _ _ _ 1); reflexivity|].
    eapply rtc_l; [eapply (step_send_on _ _ _ _ _ _ _ 1); [reflexivity|reflexivity]|].
    eapply rtc_l; [eapply step_poll_super; reflexivity|].
    eapply rtc_l; [eapply (step_receive _ _ _ _ _ _ _ 1); reflexivity|]. apply rtc_refl.
  - reflexivity.
  - reflexivity.
  - reflexivity.
  - reflexivity.
Qed.

Lemma super_stream_in_order_witness : ∃ (r : super_run (St:=list ClientOptions)) (pt : partition (St:=list ClientOptions)),
  sr_polled r = [Ok (delivery reading_consumer (text (str "a")) 100)] /\
  p_task pt = Sending (Ok (delivery reading_consumer (text (str "b")) 101)) /\
  messages_of (from_partition 1 (sr_log r) ++ held_by (p_task pt) ++
    queue_of (run_world (p_run pt)) ++ in_hands (run_hands (p_run pt))) =
  messages_of (sent_by reading_consumer [a_chunk]).
Proof.
  destruct two_partitions_run as (r & pt & Hrun & Hi & Hr & H1 & H2). exists r, pt.
  split; [exact H1|]. split; [exact H2|]. rewrite <- Hr.
  destruct (super_stream_in_order false two_partitions [] r Hrun) as (_ & _ & H & _).
  exact (proj1 (H 1%nat reading_consumer pt eq_refl Hi)).
Defined.

End at_work.
