(* ===== verification/EndToEnd.v ===== *)
(** * From the application to the bytes, and back

    The properties that go through every layer: over the sockets of Connection.v
    the client behaves as over messages, what an application sends is what a server
    reads from the bytes, and what a server writes is what an application polls. *)
From S2P Require Import Prelude Utf8 HashMaps Integers Codec Protocol.
From S2P Require Import Session Streams Producing Consuming.
From S2P Require Import AmqpCodes AmqpExec AmqpSimple AmqpValue AmqpMessage Messages.
From S2P Require Import Request Response ClientCodec Effects Dispatcher Options Client.
From S2P Require Import Connection Refinement OverBytes ClientApi.
From S2P Require Import Errors Environment Producer Consumer Receiving SuperStream.
From S2P Require Import ConnectionGuarantees StreamGuarantees.

(** ** A client on a socket *)

Section over_sockets.
Context {X : AmqpExt} {DM : DashMap} {MC : Mpsc}.
Context {PF : Platform} {SV : Server} {SS : Serves PF SV} {UH : Type} (turns : nat).

Abbreviation over_bytes := (CW (TR:=framed_transport) (UH:=UH)).
Abbreviation over_messages := (CW (TR:=served) (UH:=UH)).

(** C3. A client over a socket, behind which a server reads requests from the bytes and
    writes frames, behaves as the client that exchanges messages with that server:
    opening the connection, every call, every publish and the closing return, fail,
    panic or wait alike, with the same value, and leave the clients in states that are
    alike again.  What arrives comes in chunks of any size, a frame may begin to arrive
    with one answer and be complete with a later one, writes may fail, the connection
    may end or fail anywhere, also inside a frame; however it is, it is one of the
    answers the server over messages may give.  Where a chunk ends inside a string, so
    that the decoder panics (C37), the answer is the frames before and that panic: there
    both clients lose their dispatcher task. *)
Theorem client_over_bytes :
  (∀ now o, options_wire o ->
    outcome_rel (option_Forall2 same_world)
      (Client_connect (TR:=framed_transport) (UH:=UH) turns now o)
      (Client_connect (TR:=served) (UH:=UH) turns now o)) /\
  (∀ fs bs buf l more, Forall ServerFrame_wire fs ->
    emits (write_each ServerFrame_encode fs) bs -> bs = buf ++ arrived l ++ more ->
    (∃ f, part_of f buf) -> ∃ a buf', carries buf l a buf') /\
  ∀ (w1 : over_bytes) (w2 : over_messages), same_world w1 w2 ->
    (∀ (T R : Type) (_from : FromResponse T) (_command : Command R) (_kind : IntoRequestKind R)
       (f : Z -> R), (∀ cid, u32_ok cid -> Request_wire (Request_from (f cid))) ->
      outcome_rel same_world (send_and_receive turns (T:=T) f w1) (send_and_receive turns (T:=T) f w2)) /\
    (∀ publisher_id (l : list ClientMessage),
      (∀ ps, Forall2 numbers l ps ->
        Request_wire (Request_from (publish.PublishCommand_new publisher_id ps 1))) ->
      outcome_rel same_world (publish publisher_id l 1 w1) (publish publisher_id l 1 w2)) /\
    outcome_rel same_world (Client_close turns w1) (Client_close turns w2).
Proof.
  split; [intros; by apply Client_connect_sim, options_sendable|]. split; [apply carries_total|].
  intros w1 w2 Hw. split; [|split].
  - intros. by apply sim_call.
  - intros. by apply sim_publish.
  - apply sim_client_close; [|done]. intros cid Hc. apply Request_from_wire; [done|].
    split; [exact Hc|]. by split_and!.
Qed.

End over_sockets.

(** ** TLS *)

(** C22. With TLS enabled a connection that opens is a TLS connection to the host of
    the options: unless all certificates are to be trusted, the server's is checked
    against the roots of the file the options name, and the client shows the
    certificates and the first key of its files, if it has any; whatever the client
    sends and when it closes, its bytes go through TLS.  A root file that cannot be
    read is a panic. *)
Theorem tls_connection {X : AmqpExt} {PF : Platform} o :
  enabled (tls o) = true ->
  (∀ f, create_connection o = Ok f ->
    (∃ tcp domain config conn,
      tcp_connect (host o) (port o) = Some tcp /\ ServerName_try_from (host o) = Some domain /\
      config_of (tls o) config /\ tls_connect config domain tcp = Some conn /\
      f = Framed_new (SecureTcp conn)) /\
    ∀ requests, secured (fold_left (λ f r, (Framed_send r f).1) requests f) /\
      secured (Framed_close (fold_left (λ f r, (Framed_send r f).1) requests f)).1) /\
  (∀ tcp, trust_certificates (tls o) = false -> tcp_connect (host o) (port o) = Some tcp ->
    fs_read (root_certificates_path (tls o)) = None -> create_connection o = Panic UnwrapNone).
Proof.
  intros He. split; [|intros tcp; by apply create_connection_no_root].
  intros f Hf. pose proof (create_connection_tls o f He Hf) as Hc. split; [exact Hc|].
  assert (Hs : secured f) by (destruct Hc as (? & ? & ? & conn & _ & _ & _ & _ & ->); by exists conn).
  intros requests. clear Hf Hc. revert f Hs. induction requests as [|r l IH]; intros f Hs; cbn.
  - split; [done|by apply Framed_close_secured].
  - by apply IH, Framed_send_secured.
Qed.

(** ** A producer on a socket *)

Section a_producer_on_a_socket.
Context {X : AmqpExt} {DM : DashMap} {MC : Mpsc} {RD : Random} {PF : Platform} (turns : nat).
#[local] Existing Instance pool_api.
Abbreviation PW := (PW (St:=Pool (TR:=framed_transport))).

(** A message that survives its encoding in a publish command. *)
Definition publishable (m : ClientMessage) : Prop :=
  u64_ok (cm_publishing_id m) /\ Message_framed (cm_message m).

(** The request in which a server finds a batch. *)
Definition received_batch (id : Z) (batch : list ClientMessage) : Request :=
  Request_received (publish_request id 1 batch).

Lemma publish_request_wire id batch :
  u8_ok id -> Forall publishable batch -> len batch < 2 ^ 32 ->
  Request_wire (publish_request id 1 batch).
Proof.
  intros Hi Hb Hl. apply Request_from_wire; [done|]. split_and!; [exact Hi| | |done].
  - apply Forall_fmap. eapply Forall_impl; [exact Hb|]. by intros m [? ?].
  - unfold len in *. cbn. by rewrite length_map.
Qed.

(** What the sockets below the stream of a connection do: they take every write, and
    [written] is what was written to them. *)
Definition takes_writes (written : GenericTcpStream -> bytes) (takes : GenericTcpStream -> Prop) : Prop :=
  ∀ bs st, takes st -> ∃ st' arrivals, stream_write bs st = (st', Some arrivals) /\
    takes st' /\ written st' = written st ++ bs.

(** The connection [i] is open for the client [c], its socket takes writes, and beyond
    [old] exactly the batches were written to it. *)
Definition has_written (written : GenericTcpStream -> bytes) (takes : GenericTcpStream -> Prop)
    (i : nat) (c : Client) (n id : Z) (old : bytes) (batches : list (list ClientMessage))
    (pool : Pool (TR:=framed_transport)) : Prop :=
  ∃ cw (s : Shared (TR:=framed_transport) (UH:=unit)) (new : bytes),
    pool_clients pool !! i = Some cw /\ ready c n s cw /\
    write_buffer (connection s) = [] /\ takes (stream (connection s)) /\
    written (stream (connection s)) = old ++ new /\
    reads_requests new (map (received_batch id) batches).

Lemma publish_written written takes i h c n id old batches ms pool :
  takes_writes written takes -> u8_ok id -> len ms < 2 ^ 32 -> Forall publishable ms ->
  has_written written takes i c n id old batches pool ->
  ∃ pool' ids, api_publish (ClientApi:=pool_api turns) (i, h) id ms 1 pool = Returns pool' ids /\
    has_written written takes i c n id old (batches ++ [ms]) pool'.
Proof.
  intros Htakes Hid Hn Hg (cw1 & s1 & new & Hi1 & Hw1 & Hb1 & Ht1 & Hwr & Hrd).
  destruct (Request_wire_received (publish_request id 1 ms)) as (b & He & Hp);
    [by apply publish_request_wire|].
  destruct (Htakes b _ Ht1) as (st' & arrivals & Es & Ht' & Hwr').
  destruct (Framed_send_written _ _ _ _ _ He Hb1 Es) as (f' & items & Ef & Hst & Hb2).
  destruct (api_publish_sends turns i h c n s1 pool cw1 _ ms _ f' items Hi1 Hw1 Ef)
    as (pool' & cw2 & s2 & Ep & Hi2 & Hw2 & Hk).
  do 2 eexists. split; [exact Ep|]. exists cw2, s2, (new ++ b). rewrite Hk, Hst.
  split_and!; [done..| |].
  - by rewrite Hwr', Hwr, <- app_assoc.
  - rewrite map_app. by apply reads_requests_app.
Qed.

(** What a producer owes the socket: its connection is open and empty, its batches can
    be encoded. *)
Record sends_to (written : GenericTcpStream -> bytes) (takes : GenericTcpStream -> Prop)
    (p : ProducerInternal (C:=Handle)) (i : nat) (c : Client) (n : Z)
    (s : Shared (TR:=framed_transport) (UH:=unit)) (l : list (Message * nat)) (w : PW) : Prop := {
  st_socket : takes_writes written takes;
  st_client : ∃ h, client p = (i, h);
  st_ready : ∃ cw, pool_clients (base w) !! i = Some cw /\ ready c n s cw;
  st_buffer : write_buffer (connection s) = [] /\ takes (stream (connection s));
  st_producer : producer_ok p (pstate w) /\ p_closed (pstate w) = false;
  st_fields : u8_ok (producer_id p) /\ publish_version p = 1 /\ p_batch_size p < 2 ^ 32;
  st_messages : Forall publishable (pending (pstate w) ++ to_send p (pstate w) (map fst l));
}.

Lemma sends_written written takes overflow_checks p i c n s l (w : PW) :
  sends_to written takes p i c n s l w ->
  ∃ w' batches,
    send_all (API:=pool_api turns) overflow_checks p l w = Returns w' tt /\
    has_written written takes i c n (producer_id p) (written (stream (connection s))) batches (base w') /\
    mjoin batches ++ pending (pstate w') =
      pending (pstate w) ++ to_send p (pstate w) (map fst l) /\
    Forall (λ b, length b = Z.to_nat (p_batch_size p)) batches /\
    (length (pending (pstate w')) < Z.to_nat (p_batch_size p))%nat.
Proof.
  intros [Htakes [h Hc] (cw & Hi & Hw) [Hbuf Ht] [Hok Hopen] (Hid & Hv & Hsize) [Hm1 Hm2]%Forall_app].
  set (after := has_written written takes i c n (producer_id p) (written (stream (connection s)))).
  destruct Hok as [? ? Hroom] eqn:Eok. clear Eok.
  destruct (send_all_batches (API:=pool_api turns) overflow_checks p publishable after) with
    (l := l) (taken := @nil (list ClientMessage)) (w := w) as (w' & E & Hok' & Hspec); try done.
  { intros bs ms pool Ha Hg Hn. rewrite Hc, Hv.
    apply publish_written; [done|done| |done|done]. unfold len in *. rewrite Hn. lia. }
  { exists cw, s, []. rewrite app_nil_r. split_and!; try done. constructor. }
  pose proof (batches_spec (Z.to_nat (p_batch_size p)) (pending (pstate w))
    (to_send p (pstate w) (map fst l))) as Hb.
  destruct (batches _ _ _) as [bs r]. destruct Hspec as [Ha Hr].
  destruct Hb as (Hj & Hf & Hl); [unfold len in Hroom; lia|unfold pending, len in *; lia|].
  exists w', bs. by rewrite Hr.
Qed.

(** C4. What an application sends with an open producer is what a server reads from
    its socket, whatever arrives on that meanwhile: the bytes written are publish
    requests and nothing else, with the messages queued before and the new ones, in
    order and each once, in batches of the batch size; the rest stays queued. *)
Theorem messages_on_the_wire written takes overflow_checks p i c n s l (w : PW) :
  sends_to written takes p i c n s l w ->
  ∃ w' cw' s' new batches,
    send_all (API:=pool_api turns) overflow_checks p l w = Returns w' tt /\
    pool_clients (base w') !! i = Some cw' /\ ready c n s' cw' /\
    written (stream (connection s')) = written (stream (connection s)) ++ new /\
    reads_requests new (map (received_batch (producer_id p)) batches) /\
    mjoin batches ++ pending (pstate w') =
      pending (pstate w) ++ to_send p (pstate w) (map fst l) /\
    Forall (λ b, length b = Z.to_nat (p_batch_size p)) batches.
Proof.
  intros H. destruct (sends_written written takes overflow_checks p i c n s l w H)
    as (w' & bs & E & (cw' & s' & new & Hi' & Hw' & _ & _ & Hwr & Hrd) & Hj & Hf & _).
  by exists w', cw', s', new, bs.
Qed.

(** A message that an application may send. *)
Definition sendable (m : Message) : Prop :=
  Message_framed m /\ from_option u64_ok True (AmqpMessage.publishing_id m).

Lemma to_send_publishable (p : ProducerInternal (C:=Handle)) s l :
  u64_ok (p_publish_sequence s) -> Forall sendable l -> Forall publishable (to_send p s l).
Proof.
  unfold to_send. generalize (p_publish_sequence s). intros n Hn Hl. revert n Hn.
  induction Hl as [|m l [Hm Hid] Hl IH]; intros n Hn; [constructor|]. cbn [map assign_ids].
  assert (Hp : ∀ id, u64_ok id -> publishable (client_message p id m)).
  { intros id Hi. unfold client_message. by destruct (p_filter_value_extractor p). }
  destruct (AmqpMessage.publishing_id m) as [id|].
  - specialize (IH n Hn). destruct (assign_ids _ _) as [ids n']. constructor; [by apply Hp|exact IH].
  - specialize (IH ((n + 1) mod 2 ^ 64)). destruct (assign_ids _ _) as [ids n'].
    constructor; [by apply Hp|]. apply IH, Z.mod_pos_bound. lia.
Qed.

(** A producer without a name and without a filter is about to be built on an idle
    connection whose server grants its declaration; its socket takes writes. *)
Record declares (attempts : nat) (written : GenericTcpStream -> bytes)
    (takes : GenericTcpStream -> Prop) (b : ProducerBuilder) (stream : bytes)
    (p : Pool) (i : nat) (h cl : Client) (n : Z) : Prop := {
  dc_socket : takes_writes written takes;
  dc_builder : pb_name b = None /\ pb_filter_value_extractor b = None;
  dc_size : 0 < pb_batch_size b < 2 ^ 32;
  dc_connection : ∃ p1 s f header,
    create_producer_client (API:=pool_api turns) attempts (environment b) stream
      (pb_client_provided_name b) p = Returns p1 (i, h) /\
    idle p1 i cl n s /\
    Framed_send (Request_from (declare_publisher.DeclarePublisherCommand_new n 1 None stream))
      (connection s) =
      (f, Ok [Some (Ok (Response_new header
        (ResponseKind_Generic (generic.GenericResponse_new n ResponseCode_Ok))))]) /\
    write_buffer f = [] /\ takes (Connection.stream f);
}.

Lemma built_sends overflow_checks attempts written takes b stream p i h cl n t l :
  turns = S t -> declares attempts written takes b stream p i h cl n -> Forall sendable (map fst l) ->
  let pr := built_producer b stream (i, h) in
  ∃ p' st s, ProducerBuilder_build (API:=pool_api turns) attempts overflow_checks b stream p =
      Returns p' (pr, st) /\ pending st = [] /\
    sends_to written takes pr i cl ((n + 1) mod 2 ^ 32) s l {| base := p'; pstate := st |}.
Proof.
  intros Ht [Hs [Hname Hfilter] Hsize (p1 & s & f & header & Hc & Hidle & Hsend & Hbuf & Hf)] Hl pr.
  destruct (api_set_handler_ok turns i h cl n s p1 Hidle) as (p2 & Eh & Hidle2).
  destruct (api_answered turns (T:=generic.GenericResponse)
    (λ cid, declare_publisher.DeclarePublisherCommand_new cid 1 None stream) t i h cl n _ p2 f _ []
    (generic.GenericResponse_new n ResponseCode_Ok) Ht Hidle2 Hsend eq_refl eq_refl eq_refl)
    as (p' & w' & Ed & Hi & Hw).
  destruct (build_unnamed (API:=pool_api turns) attempts overflow_checks b stream p p1 p2 p' (i, h)
    (generic.GenericResponse_new n ResponseCode_Ok)) as (st & E & Hok & Hopen & Hp & Hseq); [try done; lia..|].
  exists p', st. eexists. split; [exact E|]. split; [exact Hp|].
  split; [exact Hs|by exists h|by exists w'|by split|by split|by split_and!; [done|done|cbn; lia]|].
  cbn [pstate]. rewrite Hp. apply to_send_publishable; [by rewrite Hseq|exact Hl].
Qed.

End a_producer_on_a_socket.

(** ** A consumer on a socket *)

Section a_consumer_on_a_socket.
Context {X : AmqpExt} {DM : DashMap} {MC : Mpsc}.
Context {RD : Random} {PF : Platform} {SV : Server} {SS : Serves PF SV} (turns : nat).
#[local] Existing Instance pool_api.
Abbreviation KW := (KW (St:=Pool (TR:=framed_transport))).

(** A server that answers the credits of a subscription with one frame each. *)
Definition sends_frames (subscription_id : Z) (frame : nat -> ServerFrame) (at_frame : nat -> srv -> Prop) :
    Prop :=
  ∀ k s, at_frame k s ->
    let r := srv_step (Request_received (Request_from (credit.CreditCommand_new subscription_id 1))) s in
    r.2 = Some (Answer [frame k] GoesOn) /\ at_frame (S k) r.1.

(** The connection of a client whose server is about to send the frame [k]. *)
Definition before_frame (at_frame : nat -> srv -> Prop) (k : nat) (f : Framed) : Prop :=
  ∃ s, framed_rel f (s, Reading) /\ at_frame k s.

Lemma credit_reads_frame subscription_id frame at_frame k f :
  u8_ok subscription_id -> sends_frames subscription_id frame at_frame -> before_frame at_frame k f ->
  ∃ f', Framed_send (Request_from (credit.CreditCommand_new subscription_id 1)) f =
    (f', Ok [Some (Ok (ServerFrame_received (frame k)))]) /\ before_frame at_frame (S k) f'.
Proof.
  intros Hid Hsends (s & Hf & Hs).
  destruct (framed_send_alike (Request_from (credit.CreditCommand_new subscription_id 1)) f (s, Reading))
    as [H1 H2]; [by apply Request_from_wire|done|].
  destruct (Hsends k s Hs) as [Ha Hs']. cbn [fst] in *. destruct (srv_step _ s) as [s' a]. cbn in Ha, Hs'. subst a.
  destruct (Framed_send _ f) as [f' r]. cbn in H2. subst r.
  exists f'. split; [done|]. exists s'. by split.
Qed.

(** What a consumer needs of its server: a frame with a chunk for every credit, no offset
    beyond 64 bits and no chunk beyond the channel's capacity. *)
Record sends_chunks (frame : nat -> ServerFrame) (chunk : nat -> deliver.DeliverCommand)
    (at_frame : nat -> srv -> Prop) : Prop := {
  rc_server : sends_frames 1 frame at_frame;
  rc_frame j : sf_kind (frame j) = ResponseKind_Deliver (chunk j);
  rc_fits j : 0 <= deliver.chunk_first_offset (chunk j) /\
    deliver.chunk_first_offset (chunk j) + len (deliver.messages (chunk j)) < 2 ^ 64 /\
    len (deliver.messages (chunk j)) <= 10000;
}.

(** The handler is about to be given the chunk [k], the server to send the next. *)
Definition next_chunk (i : nat) (cl : Client) (n : Z) (frame : nat -> ServerFrame)
    (chunk : nat -> deliver.DeliverCommand) (at_frame : nat -> srv -> Prop) (k : nat) (w : KW) : Prop :=
  waiting_for i cl n (λ j, DeliverCommand_received (chunk j))
    (λ j, Header_new (sf_key (frame j)) (sf_version (frame j))) (before_frame at_frame) k w.

(** What the application is to be given of the chunk [j]. *)
Definition deliveries_of (c : ConsumerInternal (St:=Pool) (C:=Handle))
    (chunk : nat -> deliver.DeliverCommand) (j : nat) : list Delivery :=
  numbered c (client_filter c (received <$> deliver.messages (chunk j)))
    (deliver.chunk_first_offset (chunk j)).

Lemma chunks_consumed overflow_checks c i h cl n frame chunk at_frame m k t (w : KW) :
  turns = S t -> c_client c = (i, h) -> c_subscription_id c = 1 -> sends_chunks frame chunk at_frame ->
  next_chunk i cl n frame chunk at_frame k w ->
  ∃ w', consume turns overflow_checks c m w = Returns w'
      (map (λ d, Ready (Some (Ok d))) (mjoin (map (deliveries_of c chunk) (seq k m)))) /\
    next_chunk i cl n frame chunk at_frame (k + m) w'.
Proof.
  intros Ht Hc Hid [Hsends Hkind Hfits] Hw.
  apply (consume_chunks turns overflow_checks c i h cl n Hc
    (λ j, DeliverCommand_received (chunk j))
    (λ j, Header_new (sf_key (frame j)) (sf_version (frame j))) (before_frame at_frame)) with (t := t);
    [| |exact Ht|exact Hw].
  - intros j f Hf. destruct (credit_reads_frame 1 _ _ _ _ ltac:(done) Hsends Hf) as (f' & E & Hf').
    exists f'. split; [|exact Hf']. destruct c as [? ? ? ? id ? ?]. cbn in Hid. subst id.
    cbn [conn_send framed_transport c_subscription_id]. rewrite E.
    unfold ServerFrame_received, chunk_response. by rewrite Hkind.
  - intros j. specialize (Hfits j). unfold len in *. cbn. rewrite length_fmap. exact Hfits.
Qed.

(** A consumer is about to be built on an idle connection to a server that grants its
    subscription, sends the first chunk, and then a chunk for every credit. *)
Record subscribes (attempts : nat) (b : ConsumerBuilder (St:=Pool) (C:=Handle)) (stream : bytes)
    (p : Pool) (i : nat) (h cl : Client) (n : Z) (frame : nat -> ServerFrame)
    (chunk : nat -> deliver.DeliverCommand) (at_frame : nat -> srv -> Prop) : Prop := {
  sb_name : single_active_without_name b = false;
  sb_filter : filter_refused (API:=pool_api turns) b (i, h) = false;
  sb_request : Request_wire (subscription b stream n);
  sb_chunks : sends_chunks frame chunk at_frame;
  sb_connection : ∃ p1 s sv sv' granted,
    create_consumer_client (API:=pool_api turns) attempts (cb_environment b) stream
      (cb_client_provided_name b) p = Returns p1 (i, h) /\
    idle p1 i cl n s /\ framed_rel (connection s) (sv, Reading) /\
    srv_step (Request_received (subscription b stream n)) sv = (sv', Some (Answer [granted; frame 0%nat] GoesOn)) /\
    sf_kind granted = ResponseKind_Generic (generic.GenericResponse_new n ResponseCode_Ok) /\
    at_frame 1%nat sv';
}.

Lemma subscribed attempts b stream p i h cl n frame chunk at_frame t :
  turns = S t -> subscribes attempts b stream p i h cl n frame chunk at_frame ->
  ∃ p', ConsumerBuilder_build (API:=pool_api turns) attempts b stream p =
      Returns p' (built_consumer b stream (i, h), CState_new) /\
    next_chunk i cl ((n + 1) mod 2 ^ 32) frame chunk at_frame 0 {| cbase := p'; cstate := CState_new |}.
Proof.
  intros Ht [Hname Hfilter Hr [_ Hkind _] (p1 & s & sv & sv' & granted & Hc & Hidle & Hf & Hs & Hg & Hat)].
  destruct (framed_send_alike _ _ _ Hr Hf) as [H1 H2]. cbn [fst] in H1, H2. rewrite Hs in H1, H2.
  destruct (Framed_send (subscription b stream n) (connection s)) as [f r] eqn:Ef. cbn in H1, H2. subst r.
  apply (built_waits turns attempts b stream i h cl n s p p1 f t
    (Header_new (sf_key granted) (sf_version granted)) (λ j, DeliverCommand_received (chunk j))
    (λ j, Header_new (sf_key (frame j)) (sf_version (frame j))) (before_frame at_frame));
    [done..| |by exists sv'].
  cbn [conn_send framed_transport]. rewrite Ef. unfold ServerFrame_received, chunk_response.
  by rewrite Hg, Hkind.
Qed.

(** C5. What a server writes to the socket of a consumer is what its application
    polls: when the server grants the subscription, sends a chunk and then another for
    every credit, its bytes cut anywhere, the consumer is built, and the application
    that consumes [m] chunks polls their messages, in order and each once, less those
    the filter drops and those before the offset that was asked for. *)
Theorem chunks_from_the_wire attempts overflow_checks b stream p i h cl n frame chunk
    at_frame t :
  turns = S t -> subscribes attempts b stream p i h cl n frame chunk at_frame ->
  let c := built_consumer b stream (i, h) in
  ∃ p', ConsumerBuilder_build (API:=pool_api turns) attempts b stream p = Returns p' (c, CState_new) /\
    ∀ m, ∃ w', consume turns overflow_checks c m {| cbase := p'; cstate := CState_new |} =
      Returns w' (map (λ d, Ready (Some (Ok d))) (mjoin (map (deliveries_of c chunk) (seq 0 m)))).
Proof.
  intros Ht Hsub c. destruct (subscribed attempts b stream p i h cl n frame chunk at_frame t Ht Hsub)
    as (p' & E & Hw). exists p'. split; [exact E|]. intros m.
  destruct (chunks_consumed overflow_checks c i h cl _ frame chunk at_frame m 0 t _ Ht eq_refl eq_refl
    (sb_chunks _ _ _ _ _ _ _ _ _ _ _ Hsub) Hw) as (w' & Ew & _).
  by exists w'.
Qed.

End a_consumer_on_a_socket.

(** ** From an application to another *)

(** The messages a server stores when it reads a request. *)
Definition stored {X : AmqpExt} (r : Request) : list Message :=
  match request.kind r with
  | RequestKind_Publish cmd => map published_message.message (publish.published_messages cmd)
  | _ => []
  end.

Lemma stored_batch {X : AmqpExt} id batch :
  stored (received_batch id batch) = map (λ m, received (cm_message m)) batch.
Proof. unfold stored. cbn. by rewrite <- list_fmap_compose, map_map. Qed.

Lemma stored_batches {X : AmqpExt} id (batches : list (list ClientMessage)) :
  mjoin (map (λ b, stored (received_batch id b)) batches) =
  map (λ m, received (cm_message m)) (mjoin batches).
Proof.
  induction batches as [|b batches IH]; [done|].
  change (stored (received_batch id b) ++ mjoin (map (λ b, stored (received_batch id b)) batches) =
          map (λ m, received (cm_message m)) (b ++ mjoin batches)).
  by rewrite map_app, IH, stored_batch.
Qed.

(** A log from which a server cuts its chunks: the first [m] of them hold all of it,
    and each goes on at the offset where the one before ends. *)
Record cut_from {X : AmqpExt} (log : list Message) (m : nat)
    (chunk : nat -> deliver.DeliverCommand) : Prop := {
  cf_messages : mjoin (map (λ j, deliver.messages (chunk j)) (seq 0 m)) = log;
  cf_offsets j : deliver.chunk_first_offset (chunk (S j)) =
                 deliver.chunk_first_offset (chunk j) + len (deliver.messages (chunk j));
}.

(** Chunks that go on where the one before ends are numbered like one. *)
Lemma numbered_chunks {X : AmqpExt} {St C} (c : ConsumerInternal (St:=St) (C:=C)) chunk k m :
  (∀ j, deliver.chunk_first_offset (chunk (S j)) =
        deliver.chunk_first_offset (chunk j) + len (deliver.messages (chunk j))) ->
  mjoin (map (λ j, numbered c (received <$> deliver.messages (chunk j))
                     (deliver.chunk_first_offset (chunk j))) (seq k m)) =
  numbered c (received <$> mjoin (map (λ j, deliver.messages (chunk j)) (seq k m)))
    (deliver.chunk_first_offset (chunk k)).
Proof.
  intros Ho. revert k. induction m as [|m IH]; intros k; [done|].
  cbn [seq map]. change (mjoin (?a :: ?l)) with (a ++ mjoin l).
  rewrite IH, Ho, fmap_app, numbered_app. do 3 f_equal. unfold len. by rewrite length_fmap.
Qed.

(** The connection of a client of the pool. *)
Definition connection_of {X : AmqpExt} {DM : DashMap} {MC : Mpsc} {TR : Transport} (i : nat) (p : Pool) :
    option conn := (λ w, connection (rest w)) <$> pool_clients p !! i.

Lemma connection_of_ready {X : AmqpExt} {DM : DashMap} {MC : Mpsc} {TR : Transport} i (p : Pool) w c n s :
  pool_clients p !! i = Some w -> ready c n s w -> connection_of i p = Some (connection s).
Proof. intros Hi Hw. apply fmap_Some. exists w. by rewrite (ready_shared _ _ _ _ Hw). Qed.

Section application_to_application.
Context {X : AmqpExt} {DM : DashMap} {MC : Mpsc} {RD : Random}.
Context {PF : Platform} {PF' : Platform} {SV : Server} {SS : Serves PF' SV} (turns : nat).
Abbreviation sending := (framed_transport (PF:=PF)).
Abbreviation receiving := (framed_transport (PF:=PF')).

(** C6. What one application sends another receives: a producer is built and sends
    messages over its socket, the server reads requests from the bytes and stores their
    messages, and cuts its chunks from that log; a consumer is built on another socket,
    and its application polls the messages as they were sent, in their order and each
    once, numbered from the offset it asked for, but for those, fewer than a batch, that
    still wait for their batch to fill. *)
Theorem sent_is_received attempts overflow_checks written takes pb stream pool i h cl n l t :
  turns = S t -> declares (PF:=PF) turns attempts written takes pb stream pool i h cl n ->
  Forall sendable (map fst l) ->
  let p := built_producer pb stream (i, h) in
  ∃ p1 st w f0 f1 new requests,
    ProducerBuilder_build (API:=pool_api (TR:=sending) turns) attempts overflow_checks pb stream pool =
      Returns p1 (p, st) /\
    send_all (API:=pool_api (TR:=sending) turns) overflow_checks p l {| base := p1; pstate := st |} =
      Returns w tt /\
    connection_of i p1 = Some f0 /\ connection_of i (base w) = Some f1 /\
    written (Connection.stream f1) = written (Connection.stream f0) ++ new /\ reads_requests new requests /\
    (length (pending (pstate w)) < Z.to_nat (pb_batch_size pb))%nat /\
    mjoin (map stored requests) =
      map received (take (length l - length (pending (pstate w))) (map fst l)) /\
    ∀ cb pool' i' h' cl' n' frame chunk at_frame m,
      subscribes (PF:=PF') turns attempts cb stream pool' i' h' cl' n' frame chunk at_frame ->
      cb_filter_configuration cb = None -> cut_from (mjoin (map stored requests)) m chunk ->
      let c := built_consumer cb stream (i', h') in
      let first := deliver.chunk_first_offset (chunk 0%nat) in
      let start := start_offset c first in
      ∃ p2 v,
        ConsumerBuilder_build (API:=pool_api (TR:=receiving) turns) attempts cb stream pool' =
          Returns p2 (c, CState_new) /\
        consume (TR:=receiving) turns overflow_checks c m {| cbase := p2; cstate := CState_new |} =
          Returns v (map (λ d, Ready (Some (Ok d)))
            (imap (λ j m, delivery c (received m) (start + Z.of_nat j))
              (drop (Z.to_nat (start - first))
                (take (length l - length (pending (pstate w))) (map fst l))))).
Proof.
  intros Ht Hd Hl p.
  destruct (built_sends (PF:=PF) turns overflow_checks attempts written takes pb stream pool i h cl n t l
    Ht Hd Hl) as (p1 & st & s & Eb & Hp0 & Hs).
  pose proof (st_ready _ _ _ _ _ _ _ _ _ Hs) as (cw & Hi & Hw). cbn [base] in Hi.
  destruct (sends_written (PF:=PF) turns written takes overflow_checks p i cl _ s l _ Hs)
    as (w & bs & E & (cw' & s' & new & Hi' & Hw' & _ & _ & Hwr & Hrd) & Hj & _ & Hlt).
  assert (Hsent : map cm_message (mjoin bs) = take (length l - length (pending (pstate w))) (map fst l)).
  { cbn [pstate] in Hj. rewrite Hp0 in Hj. cbn [app] in Hj. apply (f_equal (map cm_message)) in Hj.
    rewrite to_send_messages, map_app in Hj. rewrite <- Hj, take_app_length'; [done|].
    apply (f_equal length) in Hj. rewrite length_app, !length_map in Hj. rewrite !length_map. lia. }
  assert (Hstored : mjoin (map stored (map (received_batch 1) bs)) =
    map received (take (length l - length (pending (pstate w))) (map fst l))).
  { rewrite map_map, stored_batches, <- Hsent, map_map. done. }
  exists p1, st, w, (connection s), (connection s'), new, (map (received_batch 1) bs).
  split; [exact Eb|]. split; [exact E|].
  split; [exact (connection_of_ready _ _ _ _ _ _ Hi Hw)|].
  split; [exact (connection_of_ready _ _ _ _ _ _ Hi' Hw')|].
  do 4 (split; [assumption|]).
  intros cb pool' i' h' cl' n' frame chunk at_frame m Hsub Hf [Hlog Ho] c first start.
  destruct (subscribed (PF:=PF') turns attempts cb stream pool' i' h' cl' n' frame chunk at_frame t Ht Hsub)
    as (p2 & E2 & Hv).
  destruct (chunks_consumed (PF:=PF') turns overflow_checks c i' h' cl' _ frame chunk at_frame m 0 t _ Ht
    eq_refl eq_refl (sb_chunks _ _ _ _ _ _ _ _ _ _ _ _ Hsub) Hv) as (v & E' & _).
  exists p2, v. split; [exact E2|]. rewrite E'. do 2 f_equal.
  transitivity (numbered c (received <$> mjoin (map (λ j, deliver.messages (chunk j)) (seq 0 m))) first).
  { etransitivity; [|exact (numbered_chunks c chunk 0 m Ho)]. f_equal. apply map_ext. intros j.
    unfold deliveries_of, client_filter. cbn. by rewrite Hf. }
  rewrite Hlog, Hstored, numbered_start. change (received <$> map received ?l) with (map received (map received l)).
  rewrite map_map, !skipn_map, !imap_fmap. done.
Qed.

End application_to_application.

(** ** At work *)

(** A server that knows its answers by their number and the request, on sockets that
    take one request at a time, give each answer in one chunk and keep what is written
    to them. *)
Section a_server.
Context {X : AmqpExt} (answers : nat -> Request -> list ServerFrame).
Hypothesis answers_wire : ∀ k r, Forall ServerFrame_wire (answers k r).

Definition chunk_of (fs : list ServerFrame) : bytes := (write_each ServerFrame_encode fs []).1.

Definition socket_write (bs : bytes) (s : nat * bytes) : nat * bytes * option (list arrival) :=
  match Request_decode bs with
  | Ok ([], r) => (S s.1, s.2 ++ bs, Some [Arrived (chunk_of (answers s.1 r))])
  | _ => (s.1, s.2 ++ bs, Some [])
  end.

Definition sockets : Platform := {|
  TcpStream := nat * bytes; TlsStream := nat * bytes; ServerName := bytes;
  tcp_connect _ _ := Some (0%nat, []);
  tcp_write := socket_write;
  tcp_shutdown s := (s, Some [EndOfStream]);
  tls_connect _ _ s := Some s;
  tls_write := socket_write;
  tls_shutdown s := (s, Some [EndOfStream]);
  ServerName_try_from := Some;
  fs_read _ := None;
  pemfile_certs _ := None;
  pemfile_pkcs8_private_keys _ := None;
  root_accepted _ := false;
  client_auth_accepted _ _ := false;
|}.

(** The number of answers given on a stream, and what was written to it. *)
Definition answered (s : GenericTcpStream (PF:=sockets)) : nat :=
  match s with Tcp s | SecureTcp s => s.1 end.
Definition log_of (s : GenericTcpStream (PF:=sockets)) : bytes :=
  match s with Tcp s | SecureTcp s => s.2 end.

Lemma sockets_take : takes_writes (PF:=sockets) log_of (λ _, True).
Proof using.
  intros b [[k st]|[k st]] _; cbn; unfold socket_write; destruct (Request_decode b) as [[[|] ?]|?|?];
    do 2 eexists; by split.
Qed.

Definition a_server : Server.
Proof using answers answers_wire.
  refine {| srv := nat;
            srv_connect o := match create_connection (PF:=sockets) o with
                             | Ok f => Ok (answered (stream f))
                             | Err e => Err e | Panic p => Panic p
                             end;
            srv_step r k := (S k, Some (Answer (answers k r) GoesOn));
            srv_close k := (k, Some (Answer [] HangsUp)) |}.
  - intros r k a [= <-]. apply answers_wire.
  - intros k a [= <-]. constructor.
Defined.

Lemma chunk_carries fs :
  Forall ServerFrame_wire fs -> carries [] [Arrived (chunk_of fs)] (Answer fs GoesOn) [].
Proof.
  intros Hf. rewrite <- (app_nil_r fs) at 2. destruct (drain_server_frames fs Hf) as (bs & He & _).
  eapply (carries_chunk [] _ [] fs []); [|done|apply carries_nothing, part_of_nothing].
  split; [exact Hf|]. split; [apply part_of_nothing|]. exists bs. split; [exact He|].
  unfold chunk_of. by rewrite (He []), app_nil_r.
Qed.

Definition serves_answered (s : GenericTcpStream (PF:=sockets)) (buf : bytes) (k : a_server.(srv)) : Prop :=
  buf = [] /\ answered s = k.

#[global] Instance a_server_serves : Serves sockets a_server.
Proof using.
  unshelve refine {| serves := serves_answered; refuses _ := False |}; try done.
  - intros o. cbn. destruct (create_connection o) as [f|e|p] eqn:E; try done.
    exists (stream f). split; [|done]. unfold create_connection in E.
    destruct (enabled (tls o)); cbn in E.
    + destruct (tls_config o); cbn in E; by simplify_eq.
    + by simplify_eq.
  - intros bs r s buf k [-> <-] Hp. specialize (Hp []). rewrite app_nil_r in Hp. cbn [srv_step a_server snd].
    destruct s as [s|s]; [exists (Tcp (PF:=sockets) (S s.1, s.2 ++ bs))|
                          exists (SecureTcp (PF:=sockets) (S s.1, s.2 ++ bs))];
      exists [Arrived (chunk_of (answers s.1 r))], []; cbn; unfold socket_write; rewrite Hp;
      (split; [done|]); by split; [apply chunk_carries, answers_wire|].
  - intros s buf k [-> <-]. exists s, [EndOfStream], [].
    split; [by destruct s|]. split; [apply carries_end|done].
Defined.

End a_server.

(** The opening of a connection: five requests are answered, the tune command of
    the client is not. *)
Section opening.
#[local] Existing Instance amqp_exec.

(** Short messages of one data section survive their encoding. *)
Ltac framed_message :=
  split_and!; [by repeat constructor|by repeat constructor|vm_compute; reflexivity].
Ltac framed_messages := repeat (apply Forall_cons; split; [framed_message|]); constructor.

Definition frame (key : Z) (k : ResponseKind) : ServerFrame :=
  {| sf_reply := true; sf_key := key; sf_version := 1; sf_size := 0; sf_kind := k |}.

Definition opening_answers (n : nat) (_ : Request) : list ServerFrame :=
  match n with
  | 0%nat => [frame COMMAND_PEER_PROPERTIES (ResponseKind_PeerProperties
       (peer_properties.PeerPropertiesResponse_new 0 ResponseCode_Ok [(str "product", str "RabbitMQ")]))]
  | 1%nat => [frame COMMAND_SASL_HANDSHAKE (ResponseKind_SaslHandshake
       (sasl_handshake.SaslHandshakeResponse_new 1 ResponseCode_Ok [str "PLAIN"]))]
  | 2%nat => [frame COMMAND_SASL_AUTHENTICATE (ResponseKind_Generic
       (generic.GenericResponse_new 2 ResponseCode_Ok));
       frame COMMAND_TUNE (ResponseKind_Tunes the_tune)]
  | 4%nat => [frame COMMAND_OPEN (ResponseKind_Open
       (open.OpenResponse_new 3 ResponseCode_Ok [(str "advertised_host", str "node-1")]))]
  | 5%nat => [frame COMMAND_EXCHANGE_COMMAND_VERSIONS (ResponseKind_ExchangeCommandVersions
       (exchange_command_versions.ExchangeCommandVersionsResponse_new 4 ResponseCode_Ok
         the_versions))]
  | _ => []
  end.

Lemma opening_wire n r : Forall ServerFrame_wire (opening_answers n r).
Proof.
  do 6 (destruct n as [|n]; [repeat (apply Forall_cons; split; [|]); try apply Forall_nil; try done;
    (split; [by repeat (left + right)|by repeat split; repeat constructor; repeat split])|]).
  constructor.
Qed.

(** [Client::connect] on bytes, as it goes over messages. *)
Lemma client_over_bytes_witness :
  let PF := sockets opening_answers in ∃ w : CW (TR:=framed_transport) (UH:=unit),
  Client_connect (TR:=framed_transport) 1 17 o = Returns (Some w) (the_client o true).
Proof.
  intros PF. set (SV := a_server opening_answers opening_wire).
  destruct (client_over_bytes (PF:=PF) (SV:=SV) (SS:=a_server_serves opening_answers opening_wire)
    (UH:=unit) 1) as [H _].
  assert (Ho : options_wire o) by (split; [by repeat split|by repeat split..|done]).
  specialize (H 17 o Ho).
  assert (Hs : match Client_connect (TR:=served (SV:=SV)) (UH:=unit) 1 17 o with
               | Returns (Some _) c => c = the_client o true | _ => False end) by (vm_compute; reflexivity).
  destruct H as [s1 s2 c Hw| | |]; [|done..].
  destruct Hw as [w1 w2 _|]; [|done]. subst c. by exists w1.
Defined.

(** Three messages through a producer with batches of two, on a socket of a server
    that says nothing. *)
Definition quiet_sockets : Platform := sockets (λ _ _, []).
#[local] Existing Instance quiet_sockets.

Definition socket : framed_transport.(conn) := Framed_new (Tcp (PF:=quiet_sockets) (0%nat, [])).
Definition producer_on_socket : PW (St:=Pool (TR:=framed_transport)) := {|
  base := {| pool_clients := [open_on (TR:=framed_transport) socket]; pool_now := 0 |};
  pstate := PState_new 0 empty_accumulator;
|}.

Lemma three_publishable :
  Forall publishable (pending (pstate producer_on_socket) ++
    to_send wire_producer (pstate producer_on_socket) (map fst three_messages)).
Proof. by repeat (apply Forall_cons; split; [split; [done|framed_message]|]). Qed.

Lemma three_sent :
  sends_to (PF:=quiet_sockets) (log_of _) (λ _, True) wire_producer 0 (the_client o false) 0
    (initial_shared (TR:=framed_transport) 0 o socket) three_messages producer_on_socket.
Proof.
  split.
  - apply sockets_take.
  - by eexists.
  - eexists. split; [reflexivity|apply open_on_ready].
  - by split.
  - split; [apply empty_accumulator_ok|reflexivity].
  - by split_and!.
  - exact three_publishable.
Qed.

Lemma messages_on_the_wire_witness : ∃ w' new bs,
  send_all (API:=pool_api (TR:=framed_transport) 1) true wire_producer three_messages
    producer_on_socket = Returns w' tt /\
  reads_requests new (map (received_batch 1) bs) /\
  mjoin bs ++ pending (pstate w') =
    to_send wire_producer (pstate producer_on_socket) (map fst three_messages).
Proof.
  destruct (messages_on_the_wire (PF:=quiet_sockets) 1 (log_of _) (λ _, True) true wire_producer
    0%nat (the_client o false) 0 (initial_shared (TR:=framed_transport) 0 o socket)
    three_messages producer_on_socket three_sent)
    as (w' & cw' & s' & new & bs & E & _ & _ & _ & Hr & Hm & _).
  exists w', new, bs. split; [exact E|]. split; [exact Hr|exact Hm].
Defined.
(** A server that lets clients in, knows the stream, grants its publishers and its
    subscriptions and answers these and their credits with two chunks, of two messages
    and of one, and with empty ones from then on. *)
Definition sent_chunk (k : nat) : deliver.DeliverCommand :=
  match k with
  | 0%nat => deliver.DeliverCommand_new 1 0 0 1 0 0 100 0 0 0
               [numbered_text None (str "a"); numbered_text None (str "b")]
  | 1%nat => deliver.DeliverCommand_new 1 0 0 1 0 0 102 0 0 0 [numbered_text None (str "c")]
  | _ => deliver.DeliverCommand_new 1 0 0 0 0 0 103 0 0 0 []
  end.
Definition chunk_frame (k : nat) : ServerFrame :=
  frame COMMAND_DELIVER (ResponseKind_Deliver (sent_chunk k)).

Definition metadata_frame : ServerFrame :=
  frame COMMAND_METADATA (ResponseKind_Metadata (metadata.MetadataResponse_new 5
    [metadata.Broker_new 1 (str "node-1") 5552]
    [metadata.StreamMetadata_new invoices ResponseCode_Ok 1 []])).

Definition broker_answers (n : nat) (r : Request) : list ServerFrame :=
  match request.kind r with
  | RequestKind_Metadata _ => [metadata_frame]
  | RequestKind_Close _ => [frame COMMAND_CLOSE (ResponseKind_Close
      (close.CloseResponse_new 6 ResponseCode_Ok))]
  | RequestKind_DeclarePublisher _ => [frame COMMAND_DECLARE_PUBLISHER
      (ResponseKind_Generic (generic.GenericResponse_new 5 ResponseCode_Ok))]
  | RequestKind_Subscribe _ => [frame COMMAND_SUBSCRIBE
      (ResponseKind_Generic (generic.GenericResponse_new 6 ResponseCode_Ok)); chunk_frame 0]
  | RequestKind_Credit _ => [chunk_frame (n - 7)]
  | RequestKind_Publish _ => []
  | _ => opening_answers n r
  end.

Lemma chunk_frame_wire k : ServerFrame_wire (chunk_frame k).
Proof.
  assert (H : DeliverCommand_wire (sent_chunk k)).
  { destruct k as [|[|k]]; (split; [by repeat split|split; [|done]]);
      cbn [sent_chunk deliver.messages]; framed_messages. }
  split; [by repeat (left + right)|]. by split_and!.
Qed.

Lemma broker_wire n r : Forall ServerFrame_wire (broker_answers n r).
Proof.
  unfold broker_answers. destruct (request.kind r); try apply opening_wire; 
    repeat (apply Forall_cons; split; [try apply chunk_frame_wire|]); try apply Forall_nil_2;
    (split; [by repeat (left + right)|by repeat split; repeat constructor; repeat split]).
Qed.

Definition broker_sockets : Platform := sockets broker_answers.
#[local] Instance broker : Server := a_server broker_answers broker_wire.
#[local] Instance broker_serves : Serves broker_sockets broker :=
  a_server_serves broker_answers broker_wire.

#[local] Instance broker_transport : Transport := framed_transport (PF:=broker_sockets).

(** The connection of a new client is idle: the broker has given [k] answers on it. *)
Definition shows_idle (n : Z) (k : nat) (w : CW (UH:=unit)) : bool :=
  let s := rest w in let f := connection s in
  negb (closed (requests_map w)) && (correlation_id w =? n) && task_running s &&
  (length (incoming s) + length (spawned s) + length (dm_iter (requests (requests_map w))) =? 0)%nat &&
  (length (write_buffer f) + length (read_buffer f) =? 0)%nat &&
  (answered broker_answers (stream f) =? k)%nat && negb (ended f).

Definition connects_idle {E} (i : nat) (n : Z) (k : nat) (r : outcome Pool E Handle) : bool :=
  match r with
  | Returns p (j, _) => (j =? i)%nat &&
      match pool_clients p !! i with
      | Some w => match handler w with Some _ => shows_idle n k w | None => false end
      | None => false
      end
  | _ => false
  end.

Lemma connects_idle_ok {E} i n k (r : outcome Pool E Handle) :
  connects_idle i n k r = true -> ∃ p h cl s,
    r = Returns p (i, h) /\ idle p i cl n s /\ framed_rel (PF:=broker_sockets) (connection s) (k, Reading).
Proof.
  destruct r as [p [j h]|p e|p x|p]; try done. cbn.
  intros [->%Nat.eqb_eq H]%andb_true_iff.
  destruct (pool_clients p !! i) as [w|] eqn:Hi; [|done]. destruct (handler w) as [cl|] eqn:Hh; [|done].
  unfold shows_idle in H. rewrite !andb_true_iff, !negb_true_iff, !Nat.eqb_eq, Z.eqb_eq in H.
  destruct H as ((((((Hc & Hn) & Ht) & Hl) & Hb) & Hk) & He).
  exists p, h, cl, (rest w). split; [done|].
  assert (Hnil : ∀ A (l : list A), (length l <= 0)%nat -> l = []) by (intros A [|? ?]; cbn; [done|lia]).
  split; [split|].
  - exists w. split; [exact Hi|]. split; try done. intros cid ch Hd%dm_iter_get.
    rewrite (Hnil _ (dm_iter _)) in Hd by lia. by apply elem_of_nil in Hd.
  - exact Ht.
  - apply Hnil. lia.
  - apply Hnil. lia.
  - split; [apply Hnil; lia|]. split; [split; [apply Hnil; lia|exact Hk]|exact He].
Qed.

Definition no_clients : Pool (TR:=broker_transport) := {| pool_clients := []; pool_now := 17 |}.
Definition from_101 : ConsumerBuilder (St:=Pool (TR:=broker_transport)) (C:=Handle) :=
  cb_set_offset (subscribe.Offset 101) (Environment_consumer (env false)).

Lemma broker_sends : sends_chunks (SV:=broker) chunk_frame sent_chunk (λ k s, s = (k + 7)%nat).
Proof.
  split; [|done|by intros [|[|k]]]. intros k s ->. cbn -[Nat.sub].
  by replace (k + 7 - 7)%nat with k by lia.
Qed.

Lemma from_101_wire : Request_wire (subscription from_101 invoices 6).
Proof.
  apply Request_from_wire; [done|]. by repeat split; repeat constructor; repeat split.
Qed.

Lemma broker_subscribes : ∃ h cl,
  subscribes (PF:=broker_sockets) 1 3 from_101 invoices no_clients 0 h cl 6 chunk_frame sent_chunk
    (λ k s, s = (k + 7)%nat).
Proof.
  destruct (connects_idle_ok 0 6 7 (create_consumer_client (API:=pool_api 1) 3 (env false) invoices
    (str "rust-stream-consumer") no_clients)) as (p & h & cl & s & E & Hi & Hf); [vm_compute; reflexivity|].
  exists h, cl. split; [exact eq_refl|exact eq_refl|exact from_101_wire|exact broker_sends|].
  exists p, s, 7%nat, 8%nat, (frame COMMAND_SUBSCRIBE
    (ResponseKind_Generic (generic.GenericResponse_new 6 ResponseCode_Ok))).
  repeat (split; [first [assumption|exact eq_refl]|]). exact eq_refl.
Qed.

Lemma chunks_from_the_wire_witness : ∃ c p w',
  ConsumerBuilder_build (API:=pool_api 1) 3 from_101 invoices no_clients = Returns p (c, CState_new) /\
  consume 1 true c 2 {| cbase := p; cstate := CState_new |} =
  Returns w' [Ready (Some (Ok (delivery c (numbered_text None (str "b")) 101)));
              Ready (Some (Ok (delivery c (numbered_text None (str "c")) 102)))].
Proof.
  destruct broker_subscribes as (h & cl & H).
  destruct (chunks_from_the_wire (PF:=broker_sockets) (SV:=broker) (SS:=broker_serves) 1 3 true from_101
    invoices no_clients 0%nat h cl 6 chunk_frame sent_chunk _ 0%nat eq_refl H) as (p & E & Hm).
  destruct (Hm 2%nat) as (w' & Ew). exists (built_consumer from_101 invoices (0%nat, h)), p, w'.
  split; [exact E|exact Ew].
Defined.

(** A producer with batches of two on a connection to the same broker. *)
Definition by_two : ProducerBuilder := pb_set_batch_size 2 (Environment_producer (env false)).

Lemma broker_declares : ∃ h cl,
  declares (PF:=broker_sockets) 1 3 (log_of broker_answers) (λ _, True) by_two invoices no_clients 1 h cl 5.
Proof.
  assert (Hw : Request_wire (Request_from
    (declare_publisher.DeclarePublisherCommand_new 5 1 None invoices))).
  { apply Request_from_wire; [done|]. by repeat split; repeat constructor; repeat split. }
  assert (Hsize : 0 < pb_batch_size by_two < 2 ^ 32) by done.
  destruct (connects_idle_ok 1 5 6 (create_producer_client (API:=pool_api 1) 3 (env false) invoices
    (str "rust-stream-producer") no_clients)) as (p & h & cl & s & E & Hi & Hf); [vm_compute; reflexivity|].
  exists h, cl.
  split; [apply sockets_take|exact (conj eq_refl eq_refl)|exact Hsize|].
  destruct (framed_send_alike (PF:=broker_sockets) _ _ _ Hw Hf) as [H1 H2].
  destruct (Framed_send (PF:=broker_sockets) _ (connection s)) as [f r] eqn:Ef. cbn [fst snd] in H1, H2.
  subst r. destruct H1 as [Hb _].
  exists p, s, f, (Header_new COMMAND_DECLARE_PUBLISHER 1).
  split; [exact E|]. split; [exact Hi|]. split; [exact Ef|]. split; [exact Hb|exact I].
Qed.

Lemma three_sendable : Forall sendable (map fst three_messages).
Proof. by repeat (apply Forall_cons; split; [split; [framed_message|done]|]). Qed.

(** One message is left to wait for its batch to fill. *)
Definition left_waiting {E A B} (r : outcome Pool E (ProducerInternal (C:=Handle) * A))
    (send : ProducerInternal (C:=Handle) -> Pool -> A -> outcome (PW (St:=Pool)) B unit) : option nat :=
  match r with
  | Returns p (pr, st) =>
      match send pr p st with Returns w _ => Some (length (pending (pstate w))) | _ => None end
  | _ => None
  end.

(** The first two of the three messages fill a batch; the server stores it and sends
    it to the consumer as its first chunk. *)
Lemma sent_is_received_witness : ∃ p p1 st w c p2 v,
  ProducerBuilder_build (API:=pool_api 1) 3 true by_two invoices no_clients = Returns p1 (p, st) /\
  send_all (API:=pool_api 1) true p three_messages {| base := p1; pstate := st |} = Returns w tt /\
  ConsumerBuilder_build (API:=pool_api 1) 3 from_101 invoices no_clients = Returns p2 (c, CState_new) /\
  consume 1 true c 1 {| cbase := p2; cstate := CState_new |} =
    Returns v [Ready (Some (Ok (delivery c (numbered_text None (str "b")) 101)))].
Proof.
  assert (Hleft : left_waiting (ProducerBuilder_build (API:=pool_api 1) 3 true by_two invoices no_clients)
    (λ p pool st, send_all (API:=pool_api 1) true p three_messages {| base := pool; pstate := st |}) =
    Some 1%nat) by (vm_compute; reflexivity).
  destruct broker_declares as (h & cl & Hd). destruct broker_subscribes as (h' & cl' & Hs).
  destruct (sent_is_received (PF:=broker_sockets) (PF':=broker_sockets) (SV:=broker) (SS:=broker_serves)
    1 3 true (log_of broker_answers) (λ _, True) by_two invoices no_clients 1 h cl 5 three_messages 0
    eq_refl Hd three_sendable)
    as (p1 & st & w & f0 & f1 & new & requests & Eb & E & _ & _ & _ & _ & _ & Hlog & Hc).
  unfold left_waiting, broker_transport in Hleft. rewrite Eb, E in Hleft. apply Some_inj in Hleft. rewrite Hleft in Hlog, Hc.
  destruct (Hc from_101 no_clients 0%nat h' cl' 6 chunk_frame sent_chunk _ 1%nat Hs) as (p2 & v & E2 & Ev).
  - exact eq_refl.
  - rewrite Hlog. split; [exact eq_refl|]. intros [|[|j]]; exact eq_refl.
  - exists (built_producer by_two invoices (1%nat, h)), p1, st, w,
      (built_consumer from_101 invoices (0%nat, h')), p2, v.
    split; [exact Eb|]. split; [exact E|]. split; [exact E2|exact Ev].
Defined.

(** A TLS connection with one root certificate and no certificate of the client. *)
Definition one_root : Platform := {|
  TcpStream := bytes; TlsStream := bytes; ServerName := bytes;
  tcp_connect _ _ := Some [];
  tcp_write b s := (s ++ b, Some []);
  tcp_shutdown s := (s, Some []);
  tls_connect config _ s :=
    match verifier config with RootCertificates [_] => Some s | _ => None end;
  tls_write b s := (s ++ b, Some []);
  tls_shutdown s := (s, Some []);
  ServerName_try_from := Some;
  fs_read path := if bool_decide (path = str "ca.pem") then Some (str "a certificate") else None;
  pemfile_certs pem := Some [pem];
  pemfile_pkcs8_private_keys _ := None;
  root_accepted _ := true;
  client_auth_accepted _ _ := false;
|}.
Definition over_tls : ClientOptions :=
  with_tls {| enabled := true; trust_certificates := false;
              root_certificates_path := str "ca.pem"; client_certificates_path := [];
              client_keys_path := [] |} o.

Lemma tls_connection_witness :
  create_connection (PF:=one_root) over_tls = Ok (Framed_new (SecureTcp (PF:=one_root) [])) /\
  secured (PF:=one_root) (Framed_send (PF:=one_root) (Request_from (heart_beat.HeartBeatCommand_new))
    (Framed_new (SecureTcp (PF:=one_root) []))).1.
Proof.
  assert (E : create_connection (PF:=one_root) over_tls =
    Ok (Framed_new (SecureTcp (PF:=one_root) []))) by reflexivity.
  split; [exact E|].
  destruct (tls_connection (PF:=one_root) over_tls eq_refl) as [H _].
  exact (proj1 (proj2 (H _ E) [Request_from (heart_beat.HeartBeatCommand_new)])).
Defined.
End opening.
